(** * LXD container core: a shallow embedding of the instance driver and
    the device scheduler, with the properties stated about them.

    Sources embedded here:
    - [lxd/container_lxc.go]: the operation registry ([lxcContainerOperation],
      [createOperation], [getOperation]), the idmap planner ([idmapSize],
      [findIdmap]), [Start], [Delete], [VolatileSet], [writeBackupFile] and
      the read-only key check and the memory limit section of [Update];
    - [lxd/devices.go]: [parseCpuset] and [deviceTaskBalance];
    - the storage utilities file: [MountOptions] and [lxdResolveMountoptions].

    Conventions.  Go [int], [int64] and [uintptr] are 64-bit and modelled as
    [Z], with the wrap-around written where the code can reach it.  Go
    strings are byte strings and modelled as [string].  A Go [map] is a
    [gmap]; [m[k]] on a missing key yields the zero value, which [cfg]
    spells out for [map[string]string].  Where Go leaves the order of a
    [range] over a map unspecified, the order is an explicit argument of the
    embedding and the theorems quantify over it.  Calls that leave the
    process (storage, database, cgroups, the filesystem, subprocesses) are
    modelled by the results they return, collected in records, and by the
    trace or state they change. *)

From Stdlib Require Import ZArith List String Ascii Bool Lia Sorting.Permutation.
From stdpp Require Import base gmap strings list sorting.

Local Open Scope string_scope.
Local Open Scope list_scope.
Local Open Scope Z_scope.

(** ** Part I: definitions *)

(** *** The Go standard library, as far as the embedded code calls it *)

Module Go.

(** [strings.Split(s, sep)] for a one-byte separator: the pieces between
    occurrences of [sep]; never empty ([Split("", ",")] is [[""]]). *)
Fixpoint Split (sep : ascii) (s : string) : list string :=
  match s with
  | EmptyString => [EmptyString]
  | String c s' =>
      if Ascii.eqb c sep then EmptyString :: Split sep s'
      else match Split sep s' with
           | [] => [String c EmptyString]
           | w :: ws => String c w :: ws
           end
  end.

(** The text before and after the first occurrence of [sep], if any. *)
Fixpoint cut (sep : ascii) (s : string) : option (string * string) :=
  match s with
  | EmptyString => None
  | String c s' =>
      if Ascii.eqb c sep then Some (EmptyString, s')
      else match cut sep s' with
           | None => None
           | Some (a, b) => Some (String c a, b)
           end
  end.

(** [strings.Contains(s, sep)] for a one-byte [sep]. *)
Definition Contains (sep : ascii) (s : string) : bool :=
  match cut sep s with Some _ => true | None => false end.

(** [strings.SplitN(s, sep, 2)] for a one-byte [sep]: at most two pieces,
    the second one the unsplit remainder. *)
Definition SplitN2 (sep : ascii) (s : string) : list string :=
  match cut sep s with
  | None => [s]
  | Some (a, b) => [a; b]
  end.

(** [strings.Join(elems, sep)]. *)
Definition Join (elems : list string) (sep : string) : string :=
  String.concat sep elems.

(** [strings.HasPrefix(s, prefix)]. *)
Definition HasPrefix (s p : string) : bool := String.prefix p s.

(** ASCII white space, as [unicode.IsSpace] decides it below 0x80. *)
Definition isSpace (c : ascii) : bool :=
  let n := nat_of_ascii c in
  ((9 <=? n)%nat && (n <=? 13)%nat) || (n =? 32)%nat.

(** [strings.Fields(s)] on ASCII text: the maximal runs of bytes that are
    not white space.  [cur] is the field being read, if one is open. *)
Fixpoint fields_go (cur : option string) (s : string) : list string :=
  match s with
  | EmptyString => match cur with Some w => [w] | None => [] end
  | String c s' =>
      if isSpace c then
        match cur with
        | Some w => w :: fields_go None s'
        | None => fields_go None s'
        end
      else
        fields_go (Some (match cur with
                         | Some w => w +:+ String c EmptyString
                         | None => String c EmptyString
                         end)) s'
  end.

Definition Fields (s : string) : list string := fields_go None s.

Definition digit_val (c : ascii) : option Z :=
  let n := nat_of_ascii c in
  if ((48 <=? n)%nat && (n <=? 57)%nat)%bool then Some (Z.of_nat n - 48) else None.

Fixpoint parse_digits (acc : Z) (s : string) : option Z :=
  match s with
  | EmptyString => Some acc
  | String c s' =>
      match digit_val c with
      | None => None
      | Some d => parse_digits (10 * acc + d) s'
      end
  end.

(** The digits of [strconv.ParseUint(s, 10, 64)], before its range check:
    a non-empty run of decimal digits. *)
Definition parse_unsigned (s : string) : option Z :=
  match s with
  | EmptyString => None
  | _ => parse_digits 0 s
  end.

Definition minInt64 : Z := - 2 ^ 63.
Definition maxInt64 : Z := 2 ^ 63 - 1.

(** [strconv.ParseInt(s, 10, 64)]: an optional sign, then decimal digits,
    the value within int64.  [None] stands for the returned error (syntax
    or range). *)
Definition ParseInt (s : string) : option Z :=
  match s with
  | EmptyString => None
  | String c rest =>
      let neg := Ascii.eqb c "-"%char in
      let body := if (Ascii.eqb c "+"%char || Ascii.eqb c "-"%char)%bool then rest else s in
      match parse_unsigned body with
      | None => None
      | Some un =>
          if neg then (if un <=? 2 ^ 63 then Some (- un) else None)
          else (if un <? 2 ^ 63 then Some un else None)
      end
  end.

(** [strconv.Atoi(s)]; [int] is 64 bits wide. *)
Definition Atoi (s : string) : option Z := ParseInt s.

(** Two's-complement wrap-around of int64 arithmetic. *)
Definition wrap64 (z : Z) : Z := (z + 2 ^ 63) mod 2 ^ 64 - 2 ^ 63.
Definition add64 (a b : Z) : Z := wrap64 (a + b).

Fixpoint digits_go (fuel : nat) (n : Z) (acc : string) : string :=
  match fuel with
  | O => acc
  | S fuel' =>
      let acc' := String (ascii_of_nat (Z.to_nat (48 + n mod 10))) acc in
      if n <? 10 then acc' else digits_go fuel' (n / 10) acc'
  end.

(** [fmt.Sprintf("%d", n)]. *)
Definition itoa (n : Z) : string :=
  if n <? 0 then String "-"%char (digits_go (Z.to_nat (Z.log2 (- n)) + 1) (- n) EmptyString)
  else digits_go (Z.to_nat (Z.log2 n) + 1) n EmptyString.

(** Go [error] values, as far as the embedded code tells them apart. *)
Inductive error : Type :=
| Errorf (msg : string)            (* fmt.Errorf, with the rendered message *)
| NumError (func input : string)   (* strconv's error for an input it rejects *)
| ErrHostIdIsSubId                 (* idmap.ErrHostIdIsSubId *)
| ErrNotExist                      (* os.ErrNotExist *)
| Failure (text : string)          (* the error an outside call returned *)
| Wrap (cause : error) (msg : string) (* errors.Wrap(cause, msg) *)
| ErrorfWith (format : string) (arg : error). (* fmt.Errorf(format, arg) *)

(** A Go [(value, error)] pair: the value, or the error. *)
Inductive result (A : Type) : Type :=
| Ok (a : A)
| Err (e : error).
Arguments Ok {A} a.
Arguments Err {A} e.

Definition is_Err {A : Type} (r : result A) : bool :=
  match r with Err _ => true | Ok _ => false end.

(** [m[k]] on a [map[string]string]: the empty string when [k] is missing. *)
Definition cfg (m : gmap string string) (k : string) : string :=
  default EmptyString (m !! k).

(** An order a [range] over a map may take: a rearrangement of its
    entries. *)
Definition range_order {K : Type} (f : list K -> list K) : Prop :=
  forall l, Permutation (f l) l.

End Go.

(** *** Mount options ([MountOptions], [lxdResolveMountoptions]) *)

(** The mount flags of [golang.org/x/sys/unix] on Linux. *)
Module unix.
Definition MS_RDONLY : Z := 1.
Definition MS_NOSUID : Z := 2.
Definition MS_NODEV : Z := 4.
Definition MS_NOEXEC : Z := 8.
Definition MS_SYNCHRONOUS : Z := 16.
Definition MS_REMOUNT : Z := 32.
Definition MS_MANDLOCK : Z := 64.
Definition MS_DIRSYNC : Z := 128.
Definition MS_NOATIME : Z := 1024.
Definition MS_NODIRATIME : Z := 2048.
Definition MS_BIND : Z := 4096.
Definition MS_REC : Z := 16384.
Definition MS_RELATIME : Z := 2097152.
Definition MS_STRICTATIME : Z := 16777216.
Definition MS_LAZYTIME : Z := 33554432.
End unix.

Module Mount.
Import Go unix.

Record mountOptions := { capture : bool; flag : Z }.

Definition MountOptions : gmap string mountOptions :=
  list_to_map
    [ ("async",         {| capture := false; flag := MS_SYNCHRONOUS |});
      ("atime",         {| capture := false; flag := MS_NOATIME |});
      ("bind",          {| capture := true;  flag := MS_BIND |});
      ("defaults",      {| capture := true;  flag := 0 |});
      ("dev",           {| capture := false; flag := MS_NODEV |});
      ("diratime",      {| capture := false; flag := MS_NODIRATIME |});
      ("dirsync",       {| capture := true;  flag := MS_DIRSYNC |});
      ("exec",          {| capture := false; flag := MS_NOEXEC |});
      ("lazytime",      {| capture := true;  flag := MS_LAZYTIME |});
      ("mand",          {| capture := true;  flag := MS_MANDLOCK |});
      ("noatime",       {| capture := true;  flag := MS_NOATIME |});
      ("nodev",         {| capture := true;  flag := MS_NODEV |});
      ("nodiratime",    {| capture := true;  flag := MS_NODIRATIME |});
      ("noexec",        {| capture := true;  flag := MS_NOEXEC |});
      ("nomand",        {| capture := false; flag := MS_MANDLOCK |});
      ("norelatime",    {| capture := false; flag := MS_RELATIME |});
      ("nostrictatime", {| capture := false; flag := MS_STRICTATIME |});
      ("nosuid",        {| capture := true;  flag := MS_NOSUID |});
      ("rbind",         {| capture := true;  flag := Z.lor MS_BIND MS_REC |});
      ("relatime",      {| capture := true;  flag := MS_RELATIME |});
      ("remount",       {| capture := true;  flag := MS_REMOUNT |});
      ("ro",            {| capture := true;  flag := MS_RDONLY |});
      ("rw",            {| capture := false; flag := MS_RDONLY |});
      ("strictatime",   {| capture := true;  flag := MS_STRICTATIME |});
      ("suid",          {| capture := false; flag := MS_NOSUID |});
      ("sync",          {| capture := true;  flag := MS_SYNCHRONOUS |}) ].

(** [^x] on a [uintptr]. *)
Definition not64 (x : Z) : Z := Z.lxor x (2 ^ 64 - 1).

(** [mountFlags |= do.flag] or [mountFlags &= ^do.flag]. *)
Definition applyOption (mountFlags : Z) (do : mountOptions) : Z :=
  if capture do then Z.lor mountFlags (flag do)
  else Z.land mountFlags (not64 (flag do)).

(** [copy(tmp[i:], tmp[i+1:]); tmp[len(tmp)-1] = ""; tmp = tmp[:len(tmp)-1]],
    for [i] within the slice. *)
Definition removeAt (i : nat) (tmp : list string) : list string :=
  let n := length tmp in
  let copied := take i tmp ++ drop (S i) tmp ++ drop (n - 1) tmp in
  let cleared := <[(n - 1)%nat := EmptyString]> copied in
  take (n - 1) cleared.

(** The [for i := 0; i < len(tmp); i++] loop.  Every turn either advances
    [i] or shortens [tmp], so [fuel] above [len(tmp) - i] is never used
    up; [None] would be the loop running out of it. *)
Fixpoint resolveLoop (fuel : nat) (i : Z) (tmp : list string) (mountFlags : Z)
  : option (Z * list string) :=
  match fuel with
  | O => None
  | S fuel' =>
      if i <? Z.of_nat (length tmp) then
        match tmp !! Z.to_nat i with
        | None => None
        | Some opt =>
            match MountOptions !! opt with
            | None => resolveLoop fuel' (i + 1) tmp mountFlags
            | Some do =>
                let mountFlags := applyOption mountFlags do in
                let tmp := removeAt (Z.to_nat i) tmp in
                let i := i - 1 in
                resolveLoop fuel' (i + 1) tmp mountFlags
            end
        end
      else Some (mountFlags, tmp)
  end.

Definition lxdResolveMountoptions (options : string) : option (Z * string) :=
  let tmp := Split "," options in
  match resolveLoop (S (length tmp)) 0 tmp 0 with
  | None => None
  | Some (mountFlags, tmp) => Some (mountFlags, Join tmp ",")
  end.

(** Restatement of the result, used to state the loop's effect: the tokens
    that are keys of the table, and those that are not. *)
Definition recognized (opt : string) : bool :=
  match MountOptions !! opt with Some _ => true | None => false end.

Definition foldOption (mountFlags : Z) (opt : string) : Z :=
  match MountOptions !! opt with
  | Some do => applyOption mountFlags do
  | None => mountFlags
  end.

End Mount.

(** *** Cpuset strings ([parseCpuset]) *)

Module Cpuset.
Import Go.

(** [for i := low; i <= high; i++ { cpus = append(cpus, i) }].  [i] is an
    [int]: when [high] is the largest one, [i <= high] never fails and the
    loop does not end, which is the [None] every amount of [fuel] gives. *)
Fixpoint forRange (fuel : nat) (i high : Z) (cpus : list Z) : option (list Z) :=
  match fuel with
  | O => None
  | S fuel' =>
      if i <=? high then forRange fuel' (add64 i 1) high (cpus ++ [i])
      else Some cpus
  end.

Definition invalid (cpu : string) : error := Errorf ("Invalid cpuset value: " +:+ cpu).

(** One turn of the loop over [chunks]: the new [cpus], an error, or no
    return at all. *)
Definition parseChunk (cpu chunk : string) (cpus : list Z) : option (result (list Z)) :=
  if Contains "-" chunk then
    match SplitN2 "-" chunk with
    | [low_s; high_s] =>
        match Atoi low_s with
        | None => Some (Err (invalid cpu))
        | Some low =>
            match Atoi high_s with
            | None => Some (Err (invalid cpu))
            | Some high =>
                match forRange (S (Z.to_nat (high - low + 1))) low high cpus with
                | None => None
                | Some cpus => Some (Ok cpus)
                end
            end
        end
    | _ => Some (Err (invalid cpu))
    end
  else
    match Atoi chunk with
    | None => Some (Err (invalid cpu))
    | Some nr => Some (Ok (cpus ++ [nr]))
    end.

Fixpoint parseChunks (cpu : string) (chunks : list string) (cpus : list Z)
  : option (result (list Z)) :=
  match chunks with
  | [] => Some (Ok cpus)
  | chunk :: chunks' =>
      match parseChunk cpu chunk cpus with
      | Some (Ok cpus) => parseChunks cpu chunks' cpus
      | other => other
      end
  end.

(** [parseCpuset(cpu)]; [None] when the call does not return. *)
Definition parseCpuset (cpu : string) : option (result (list Z)) :=
  parseChunks cpu (Split "," cpu) [].

(** The claim's vocabulary.  A decimal integer is what [strconv.Atoi]
    reads; a chunk has the form A-B when it is some A, a dash and some B
    with A and B decimal integers. *)
Definition decimal_integer (s : string) : Prop := is_Some (Atoi s).

Definition range_form (chunk : string) : Prop :=
  exists A B : string,
    chunk = A +:+ "-" +:+ B /\ decimal_integer A /\ decimal_integer B.

(** What the code accepts: a chunk with a dash is cut at its first dash,
    and both sides have to be decimal integers; a chunk without one has to
    be a decimal integer. *)
Definition chunk_ok (chunk : string) : bool :=
  match cut "-" chunk with
  | Some (low_s, high_s) =>
      match Atoi low_s, Atoi high_s with
      | Some _, Some _ => true
      | _, _ => false
      end
  | None => match Atoi chunk with Some _ => true | None => false end
  end.

(** The integers an accepted chunk stands for: [low .. high] (none when
    [low > high]), or the one integer. *)
Definition chunk_cpus (chunk : string) : list Z :=
  match cut "-" chunk with
  | Some (low_s, high_s) =>
      match Atoi low_s, Atoi high_s with
      | Some low, Some high => seqZ low (high - low + 1)
      | _, _ => []
      end
  | None => match Atoi chunk with Some nr => [nr] | None => [] end
  end.

(** The chunk's range loop ends: its upper bound is not the largest int. *)
Definition chunk_ends (chunk : string) : bool :=
  match cut "-" chunk with
  | Some (_, high_s) =>
      match Atoi high_s with
      | Some high => negb (high =? maxInt64)
      | None => true
      end
  | None => true
  end.

End Cpuset.

(** *** The idmap planner ([idmapSize], [parseRawIdmap], [findIdmap]) *)

Module Idmap.
Import Go.

(** [idmap.IdmapEntry]; an [idmap.IdmapSet] is the list of its entries. *)
Record IdmapEntry := {
  Isuid : bool;
  Isgid : bool;
  Hostid : Z;
  Nsid : Z;
  Maprange : Z
}.

(** What [findIdmap] reads of a container. *)
Record container := {
  Name : string;
  ExpandedConfig : gmap string string
}.

(** The statement [switch]ed on by a loop turn: go on with a new state, or
    return from the function. *)
Inductive flow (S R : Type) : Type :=
| Continue (s : S)
| Return (r : R).
Arguments Continue {S R} s.
Arguments Return {S R} r.

Definition LF : ascii := ascii_of_nat 10.

Section Planner.

(** [shared.IsTrue] and [IdmapSet.AddSafe] belong to packages
    outside the embedded files; they are parameters.  [AddSafe set ent]
    gives the set as the call leaves it and the error it returns. *)
Variable IsTrue : string -> bool.
Variable AddSafe : list IdmapEntry -> IdmapEntry -> list IdmapEntry * option error.

(** [sort.Sort] on an [idmap.ByHostid], which orders by [Hostid]:
    [sort.Sort] is not stable, so the order it leaves entries with equal
    [Hostid] in is the runtime's choice. *)
Variable sortByHostid : list IdmapEntry -> list IdmapEntry.

(** What [fmt] prints for [state.OS.IdmapSet] under [%v]; the type is
    declared in the [idmap] package. *)
Variable formatIdmapSet : list IdmapEntry -> string.

Definition IsPrivileged (c : container) : bool :=
  IsTrue (cfg (ExpandedConfig c) "security.privileged").

(** [idmapSize(state, isolatedStr, size)]; [hostIdmap] is
    [state.OS.IdmapSet.Idmap]. *)
Definition idmapSize (hostIdmap : list IdmapEntry) (isolatedStr size : string)
  : result Z :=
  let isolated := IsTrue isolatedStr in
  if (String.eqb size "" || String.eqb size "auto")%bool then
    if isolated then Ok 65536
    else
      match hostIdmap with
      | [e0; _] => Ok (Maprange e0)
      | _ => Err (Errorf ("bad initial idmap: " +:+ formatIdmapSet hostIdmap))
      end
  else
    match ParseInt size with
    | None => Err (NumError "ParseInt" size)
    | Some size => Ok size
    end.

(** The closure [getRange] of [parseRawIdmap]. *)
Definition getRange (r : string) : result (Z * Z) :=
  let entries := Split "-" r in
  if (2 <? length entries)%nat then Err (Errorf ("invalid raw.idmap range " +:+ r))
  else
    match ParseInt (nth 0 entries "") with
    | None => Err (NumError "ParseInt" (nth 0 entries ""))
    | Some base =>
        if (1 <? length entries)%nat then
          match ParseInt (nth 1 entries "") with
          | None => Err (NumError "ParseInt" (nth 1 entries ""))
          | Some size => Ok (base, add64 (wrap64 (size - base)) 1)
          end
        else Ok (base, 1)
    end.

Definition parseRawLine (ret : list IdmapEntry) (line : string)
  : result (list IdmapEntry) :=
  let entries := Split " " line in
  if negb (length entries =? 3)%nat then Err (Errorf ("invalid raw.idmap line " +:+ line))
  else
    match getRange (nth 1 entries "") with
    | Err e => Err e
    | Ok (outsideBase, outsideSize) =>
        match getRange (nth 2 entries "") with
        | Err e => Err e
        | Ok (insideBase, insideSize) =>
            if negb (insideSize =? outsideSize)
            then Err (Errorf ("idmap ranges of different sizes " +:+ line))
            else
              let entry uid gid :=
                {| Isuid := uid; Isgid := gid; Hostid := outsideBase;
                   Nsid := insideBase; Maprange := insideSize |} in
              let add uid gid :=
                match AddSafe ret (entry uid gid) with
                | (_, Some e) => Err e
                | (ret, None) => Ok ret
                end in
              let kind := nth 0 entries "" in
              if String.eqb kind "both" then add true true
              else if String.eqb kind "uid" then add true false
              else if String.eqb kind "gid" then add false true
              else Err (Errorf ("invalid raw.idmap type " +:+ line))
        end
    end.

Fixpoint parseRawLines (ret : list IdmapEntry) (lines : list string)
  : result (list IdmapEntry) :=
  match lines with
  | [] => Ok ret
  | line :: lines' =>
      if String.eqb line "" then parseRawLines ret lines'
      else
        match parseRawLine ret line with
        | Err e => Err e
        | Ok ret => parseRawLines ret lines'
        end
  end.

Definition parseRawIdmap (value : string) : result (list IdmapEntry) :=
  parseRawLines [] (Split LF value).

(** [for _, ent := range rawMaps]: only [ErrHostIdIsSubId] stops it. *)
Fixpoint addRawMaps (set : list IdmapEntry) (rawMaps : list IdmapEntry)
  : result (list IdmapEntry) :=
  match rawMaps with
  | [] => Ok set
  | ent :: rawMaps' =>
      match AddSafe set ent with
      | (_, Some ErrHostIdIsSubId) => Err ErrHostIdIsSubId
      | (set, _) => addRawMaps set rawMaps'
      end
  end.

(** The closure [mkIdmap] of [findIdmap]. *)
Definition mkIdmap (rawMaps : list IdmapEntry) (offset size : Z)
  : result (list IdmapEntry) :=
  addRawMaps
    [ {| Isuid := true;  Isgid := false; Nsid := 0; Hostid := offset; Maprange := size |};
      {| Isuid := false; Isgid := true;  Nsid := 0; Hostid := offset; Maprange := size |} ]
    rawMaps.

(** The loop over [cts] that fills [mapentries]. *)
Fixpoint recordedRanges (hostIdmap : list IdmapEntry) (cName : string)
    (cts : list container) (mapentries : list IdmapEntry)
  : result (list IdmapEntry) :=
  match cts with
  | [] => Ok mapentries
  | container :: cts' =>
      let name := Name container in
      if String.eqb name cName then recordedRanges hostIdmap cName cts' mapentries
      else if IsPrivileged container then recordedRanges hostIdmap cName cts' mapentries
      else if negb (IsTrue (cfg (ExpandedConfig container) "security.idmap.isolated"))
      then recordedRanges hostIdmap cName cts' mapentries
      else
        let base_s := cfg (ExpandedConfig container) "volatile.idmap.base" in
        let cBase :=
          if negb (String.eqb base_s "") then
            match ParseInt base_s with
            | None => Err (NumError "ParseInt" base_s)
            | Some b => Ok b
            end
          else Ok 0 in
        match cBase with
        | Err e => Err e
        | Ok cBase =>
            match idmapSize hostIdmap
                    (cfg (ExpandedConfig container) "security.idmap.isolated")
                    (cfg (ExpandedConfig container) "security.idmap.size") with
            | Err e => Err e
            | Ok cSize =>
                recordedRanges hostIdmap cName cts'
                  (mapentries ++ [ {| Isuid := false; Isgid := false; Nsid := 0;
                                      Hostid := cBase; Maprange := cSize |} ])
            end
        end
  end.

Definition noEntry : IdmapEntry :=
  {| Isuid := false; Isgid := false; Hostid := 0; Nsid := 0; Maprange := 0 |}.

(** The end of an entry's host range, [Hostid + Maprange]. *)
Definition hostEnd (e : IdmapEntry) : Z := add64 (Hostid e) (Maprange e).

(** One turn, at index [i], of [for i := range mapentries]: the new
    [offset], or the offset the function returns with. *)
Definition scanTurn (mapentries : list IdmapEntry) (size : Z) (offset : Z) (i : nat)
  : flow Z Z :=
  if (i =? 0)%nat then
    let e0 := nth 0 mapentries noEntry in
    if Hostid e0 <? add64 offset size then Continue (hostEnd e0)
    else Return offset
  else
    let prev := nth (i - 1) mapentries noEntry in
    let cur := nth i mapentries noEntry in
    if hostEnd prev >? offset then Continue (hostEnd prev)
    else
      let offset := hostEnd prev in
      if add64 offset size <? Hostid cur then Return offset
      else Continue (hostEnd cur).

Fixpoint scanFrom (mapentries : list IdmapEntry) (size : Z) (offset : Z)
    (indices : list nat) : flow Z Z :=
  match indices with
  | [] => Continue offset
  | i :: indices' =>
      match scanTurn mapentries size offset i with
      | Continue offset => scanFrom mapentries size offset indices'
      | Return r => Return r
      end
  end.

(** The loop over the sorted entries and the check after it: the offset
    [findIdmap] settles on, if there is one. *)
Definition firstFit (host0 : IdmapEntry) (mapentries : list IdmapEntry) (size : Z)
  : option Z :=
  let offset := add64 (Hostid host0) 65536 in
  match scanFrom mapentries size offset (seq 0 (length mapentries)) with
  | Return offset => Some offset
  | Continue offset =>
      if add64 offset size <? hostEnd host0 then Some offset else None
  end.

Definition notEnough : error :=
  Errorf "Not enough uid/gid available for the container".

(** [findIdmap(state, cName, isolatedStr, configBase, configSize, rawIdmap)].
    [hostIdmap] is [state.OS.IdmapSet.Idmap] and [loadAll] what
    [containerLoadAll(state)] returns.  The result is the idmap set and the
    base, or the error; [None] is the index panic on an empty host map. *)
Definition findIdmap (hostIdmap : list IdmapEntry) (loadAll : result (list container))
    (cName isolatedStr configBase configSize rawIdmap : string)
  : option (result (list IdmapEntry * Z)) :=
  let isolated := IsTrue isolatedStr in
  match parseRawIdmap rawIdmap with
  | Err e => Some (Err e)
  | Ok rawMaps =>
      if negb isolated then
        match addRawMaps hostIdmap rawMaps with
        | Err e => Some (Err e)
        | Ok newIdmapset => Some (Ok (newIdmapset, 0))
        end
      else
        match idmapSize hostIdmap isolatedStr configSize with
        | Err e => Some (Err e)
        | Ok size =>
            let make offset :=
              match mkIdmap rawMaps offset size with
              | Err e => Some (Err e)
              | Ok set => Some (Ok (set, offset))
              end in
            if negb (String.eqb configBase "") then
              match ParseInt configBase with
              | None => Some (Err (NumError "ParseInt" configBase))
              | Some offset => make offset
              end
            else
              match loadAll with
              | Err e => Some (Err e)
              | Ok cts =>
                  match hostIdmap with
                  | [] => None
                  | host0 :: _ =>
                      match recordedRanges hostIdmap cName cts [] with
                      | Err e => Some (Err e)
                      | Ok mapentries =>
                          match firstFit host0 (sortByHostid mapentries) size with
                          | Some offset => make offset
                          | None => Some (Err notEnough)
                          end
                      end
                  end
              end
        end
  end.

End Planner.

(** What [sort.Sort] guarantees on an [idmap.ByHostid]: the entries
    rearranged, with [Hostid] ascending. *)
Definition sorts_by_hostid (sort : list IdmapEntry -> list IdmapEntry) : Prop :=
  forall l,
    Permutation (sort l) l
    /\ StronglySorted (fun a b => Hostid a <= Hostid b) (sort l).

(** The insertion sort Go runs on a slice of fewer than 12 elements: an
    entry moves in front of its left neighbour only while it is [Less],
    so entries with equal [Hostid] keep their order. *)
Fixpoint insertByHostid (e : IdmapEntry) (sorted : list IdmapEntry) : list IdmapEntry :=
  match sorted with
  | [] => [e]
  | x :: sorted' =>
      if Hostid e <? Hostid x then e :: sorted else x :: insertByHostid e sorted'
  end.

Definition insertionSortByHostid (l : list IdmapEntry) : list IdmapEntry :=
  fold_left (fun sorted e => insertByHostid e sorted) l [].

(** The host range [offset, offset + size) shares no id with [e]. *)
Definition clear_of (offset size : Z) (e : IdmapEntry) : Prop :=
  offset + size <= Hostid e \/ Hostid e + Maprange e <= offset.

(** The claim's reading of the returned offset: at or above host base +
    65536, with [size] ids from it inside the host range and shared with
    no recorded range, and the smallest such offset. *)
Definition free_at (host0 : IdmapEntry) (recorded : list IdmapEntry)
    (size offset : Z) : Prop :=
  Hostid host0 + 65536 <= offset
  /\ offset + size <= Hostid host0 + Maprange host0
  /\ Forall (clear_of offset size) recorded.

Definition smallest_free (host0 : IdmapEntry) (recorded : list IdmapEntry)
    (size offset : Z) : Prop :=
  free_at host0 recorded size offset
  /\ forall o, free_at host0 recorded size o -> offset <= o.

End Idmap.

(** *** The operation registry ([lxcContainerOperation], [createOperation]) *)

Module Operations.
Import Go.

(** A [*lxcContainerOperation]: the index of the object in the heap. *)
Definition ptr := nat.

(** The struct, with its two channels and its goroutine by what they hold:
    [chanDone_closed] once [close(op.chanDone)] has run, and [timer] the
    time at which the goroutine's pending [time.After] is due, [None] once
    the goroutine has returned. *)
Record lxcContainerOperation := {
  action : string;
  chanDone_closed : bool;
  timer : option Z;
  err : option error;
  id : Z;
  reusable : bool
}.

(** The process: the clock in seconds, the operations allocated so far,
    the map [lxcContainerOperations], and the [createOperation] calls that
    have left [getOperation] with no operation and not yet taken the lock
    again, each with its container id, action and [reusable]. *)
Record state := {
  now : Z;
  heap : list lxcContainerOperation;
  lxcContainerOperations : gmap Z ptr;
  pending : list (Z * string * bool)
}.

Definition init : state :=
  {| now := 0; heap := []; lxcContainerOperations := ∅; pending := [] |}.

Definition set_heap (st : state) (h : list lxcContainerOperation) : state :=
  {| now := now st; heap := h;
     lxcContainerOperations := lxcContainerOperations st; pending := pending st |}.

Definition set_registry (st : state) (m : gmap Z ptr) : state :=
  {| now := now st; heap := heap st; lxcContainerOperations := m; pending := pending st |}.

Definition set_pending (st : state) (l : list (Z * string * bool)) : state :=
  {| now := now st; heap := heap st;
     lxcContainerOperations := lxcContainerOperations st; pending := l |}.

Definition timeoutError (action : string) : error :=
  Errorf ("Container " +:+ action +:+ " operation timed out after 30 seconds").

(** [op.Create(id, action, reusable)] on a new object: the fields, the two
    channels, and the goroutine waiting for a reset or for 30 seconds. *)
Definition Create (st : state) (cid : Z) (act : string) (reuse_ok : bool)
  : lxcContainerOperation :=
  {| action := act; chanDone_closed := false; timer := Some (now st + 30);
     err := None; id := cid; reusable := reuse_ok |}.

(** [op.Done(err)], under the lock. *)
Definition Done (st : state) (op : ptr) (e : option error) : state :=
  match heap st !! op with
  | None => st
  | Some o =>
      match lxcContainerOperations st !! id o with
      | Some runningOp =>
          if negb (runningOp =? op)%nat then st
          else
            let o' := {| action := action o; chanDone_closed := true; timer := timer o;
                         err := e; id := id o; reusable := reusable o |} in
            set_registry (set_heap st (<[op := o']> (heap st)))
                         (delete (id o) (lxcContainerOperations st))
      | None => st
      end
  end.

(** [op.Reset()]: the error for an operation that is not reusable;
    otherwise the send on [chanReset], which the goroutine answers by
    waiting 30 seconds anew.  [None]: the send blocks, the goroutine having
    returned. *)
Definition Reset (st : state) (op : ptr) : option (state * option error) :=
  match heap st !! op with
  | None => None
  | Some o =>
      if negb (reusable o) then
        Some (st, Some (Errorf "Can't reset a non-reusable operation"))
      else
        match timer o with
        | None => None
        | Some _ =>
            let o' := {| action := action o; chanDone_closed := chanDone_closed o;
                         timer := Some (now st + 30);
                         err := err o; id := id o; reusable := reusable o |} in
            Some (set_heap st (<[op := o']> (heap st)), None)
        end
  end.

(** The [time.After] case of the goroutine's [select]: [op.Done] with the
    timeout error, then the goroutine returns. *)
Definition timerFires (st : state) (op : ptr) : option state :=
  match heap st !! op with
  | None => None
  | Some o =>
      match timer o with
      | None => None
      | Some due =>
          if due <=? now st then
            let st := Done st op (Some (timeoutError (action o))) in
            match heap st !! op with
            | None => None
            | Some o =>
                let o' := {| action := action o; chanDone_closed := chanDone_closed o;
                             timer := None;
                             err := err o; id := id o; reusable := reusable o |} in
                Some (set_heap st (<[op := o']> (heap st)))
            end
          else None
      end
  end.

(** [c.getOperation(action)], under the lock. *)
Definition getOperation (st : state) (cid : Z) (act : string) : result ptr :=
  match lxcContainerOperations st !! cid with
  | None => Err (Errorf ("No running " +:+ act +:+ " container operation"))
  | Some op =>
      match heap st !! op with
      | None => Err (Errorf ("No running " +:+ act +:+ " container operation"))
      | Some o =>
          if (negb (String.eqb act "") && negb (String.eqb (action o) act))%bool then
            Err (Errorf ("Container is running a " +:+ action o
                         +:+ " operation, not a " +:+ act +:+ " operation"))
          else Ok op
      end
  end.

Definition busy (running : string) : error :=
  Errorf ("Container is busy running a " +:+ running +:+ " operation").

(** The first half of [createOperation]: [getOperation] and the branch on
    the operation it found.  With none found the call goes on to the
    second half, which [Proceed] stands for. *)
Inductive checked : Type :=
| Reused (st : state) (op : ptr)
| Busy (e : error)
| Blocked
| Proceed.

Definition createCheck (st : state) (cid : Z) (reuse : bool) : checked :=
  match getOperation st cid "" with
  | Ok op =>
      match heap st !! op with
      | None => Proceed
      | Some o =>
          if (reuse && reusable o)%bool then
            match Reset st op with
            | Some (st, _) => Reused st op
            | None => Blocked
            end
          else Busy (busy (action o))
      end
  | Err _ => Proceed
  end.

(** The second half: under the lock again, a new operation is created and
    stored under the container's id. *)
Definition createRegister (st : state) (cid : Z) (act : string) (reuse_ok : bool)
  : state * ptr :=
  let op := length (heap st) in
  let st := set_heap st (heap st ++ [Create st cid act reuse_ok]) in
  (set_registry st (<[cid := op]> (lxcContainerOperations st)), op).

(** [c.createOperation(action, reusable, reuse)] run with no other
    goroutine in between; [None] when it blocks. *)
Definition createOperation (st : state) (cid : Z) (act : string)
    (reuse_ok reuse : bool) : option (state * result ptr) :=
  match createCheck st cid reuse with
  | Reused st op => Some (st, Ok op)
  | Busy e => Some (st, Err e)
  | Blocked => None
  | Proceed =>
      let '(st, op) := createRegister st cid act reuse_ok in
      Some (st, Ok op)
  end.

(** What can happen next in the process.  [CreateOperation] is a whole
    call of [createOperation]; [CreateCheck] and [CreateRegister] are its
    two halves, between which the lock is free. *)
Inductive event : Type :=
| CreateOperation (cid : Z) (act : string) (reuse_ok reuse : bool)
| CreateCheck (cid : Z) (act : string) (reuse_ok reuse : bool)
| CreateRegister (k : nat)
| CallDone (op : ptr) (e : option error)
| CallReset (op : ptr)
| TimerFires (op : ptr)
| Tick.

(** No timer is due: the clock may advance. *)
Definition noneDue (st : state) : bool :=
  forallb (fun o => match timer o with
                    | Some due => now st <? due
                    | None => true
                    end) (heap st).

Definition exec (ev : event) (st : state) : option state :=
  match ev with
  | CreateOperation cid act reuse_ok reuse =>
      match createOperation st cid act reuse_ok reuse with
      | Some (st, _) => Some st
      | None => None
      end
  | CreateCheck cid act reuse_ok reuse =>
      match createCheck st cid reuse with
      | Reused st _ => Some st
      | Busy _ => Some st
      | Blocked => None
      | Proceed => Some (set_pending st (pending st ++ [(cid, act, reuse_ok)]))
      end
  | CreateRegister k =>
      match pending st !! k with
      | None => None
      | Some (cid, act, reuse_ok) =>
          let st := set_pending st (delete k (pending st)) in
          Some (fst (createRegister st cid act reuse_ok))
      end
  | CallDone op e => Some (Done st op e)
  | CallReset op =>
      match Reset st op with
      | Some (st, _) => Some st
      | None => None
      end
  | TimerFires op => timerFires st op
  | Tick =>
      if noneDue st then
        Some {| now := now st + 1; heap := heap st;
                lxcContainerOperations := lxcContainerOperations st;
                pending := pending st |}
      else None
  end.

Fixpoint run (evs : list event) (st : state) : option state :=
  match evs with
  | [] => Some st
  | ev :: evs' =>
      match exec ev st with
      | Some st => run evs' st
      | None => None
      end
  end.

(** Events that do not split [createOperation]. *)
Definition whole (ev : event) : bool :=
  match ev with
  | CreateCheck _ _ _ _ | CreateRegister _ => false
  | _ => true
  end.

(** The operation at [op] has been created and [Done] has not completed
    it. *)
Definition alive (st : state) (op : ptr) : Prop :=
  exists o, heap st !! op = Some o /\ chanDone_closed o = false.

(** Every operation that is alive is the one stored under its container's
    id; so no container has two. *)
Definition registered_alive (st : state) : Prop :=
  forall op o, heap st !! op = Some o -> chanDone_closed o = false ->
               lxcContainerOperations st !! id o = Some op.

End Operations.

(** *** CPU rebalancing ([deviceTaskBalance]) *)

Module Balance.
Import Go Cpuset.

(** What [deviceTaskBalance] reads of a container, and what the container
    answers: [c.IsRunning()] when the list is walked and again when the
    pinning is applied, and the result of [CGroupSet], which is only
    logged.  A container is identified by its position in the list that
    [containerLoadNodeAll] returned (the maps of the source are keyed by
    the container object). *)
Record container := {
  Name : string;
  ExpandedConfig : gmap string string;
  IsRunning_load : bool;
  IsRunning_apply : bool;
  CGroupSet_err : option error
}.

(** What the host answers. *)
Record host := {
  CGroupCPUsetController : bool;
  effective_cpus : result string;        (* cGroupGet(cpuset, /, cpuset.effective_cpus) *)
  cpuset_cpus : result string;           (* cGroupGet(cpuset, /, cpuset.cpus) *)
  isolated_exists : bool;                (* PathExists(/sys/devices/system/cpu/isolated) *)
  isolated_file : result string;         (* ioutil.ReadFile of it *)
  containerLoadNodeAll : result (list container)
}.

(** A cgroup write the function issues: [cGroupSet] on [/lxc], or
    [ctn.CGroupSet("cpuset.cpus", value)] on the container at [ctn]. *)
Inductive write : Type :=
| SetLxc (value : string)
| SetContainer (ctn : nat) (value : string).

(** [deviceTaskCPU]; the counter [count] points to is the one stored under
    the cpu's [id] in the counter store. *)
Record deviceTaskCPU := { id : Z; strId : string }.

Fixpoint dropSpace (s : string) : string :=
  match s with
  | String c s' => if isSpace c then dropSpace s' else s
  | EmptyString => EmptyString
  end.

(** [strings.TrimSpace] on ASCII text. *)
Definition TrimSpace (s : string) : string :=
  String.rev (dropSpace (String.rev (dropSpace s))).

(** [shared.IntInSlice(key, list)]. *)
Definition IntInSlice (key : Z) (l : list Z) : bool := existsb (Z.eqb key) l.

(** [sort.Strings]: ascending in byte order. *)
Fixpoint insertString (s : string) (l : list string) : list string :=
  match l with
  | [] => [s]
  | x :: l' => if String.leb s x then s :: l else x :: insertString s l'
  end.

Definition sortStrings (l : list string) : list string :=
  fold_right insertString [] l.

(** [pinning[ctn] = append(pinning[ctn], id)], creating the entry when it
    is missing. *)
Definition pin (pinning : gmap nat (list string)) (ctn : nat) (sid : string)
  : gmap nat (list string) :=
  match pinning !! ctn with
  | Some set => <[ctn := set ++ [sid]]> pinning
  | None => <[ctn := [sid]]> pinning
  end.

(** [*c.count += 1]. *)
Definition bump (counts : gmap Z Z) (cpu : Z) : gmap Z Z :=
  <[cpu := default 0 (counts !! cpu) + 1]> counts.

Definition countOf (counts : gmap Z Z) (cpu : Z) : Z := default 0 (counts !! cpu).

(** The effective cpus of the host without the isolated ones, as the
    string written to [/lxc].  [Some None] is an early return of the
    function, [None] a call that does not return. *)
Definition hostCpus (h : host) : option (option string) :=
  let effective :=
    match effective_cpus h with
    | Ok s => Some s
    | Err _ => match cpuset_cpus h with Ok s => Some s | Err _ => None end
    end in
  match effective with
  | None => Some None
  | Some effectiveCpus =>
      match parseCpuset effectiveCpus with
      | None => None
      | Some (Err _) => Some None
      | Some (Ok effectiveCpusInt) =>
          let isolated : option (option (list Z)) :=
            if isolated_exists h then
              match isolated_file h with
              | Err _ => Some None
              | Ok buf =>
                  let isolatedCpus := TrimSpace buf in
                  if negb (String.eqb isolatedCpus "") then
                    match parseCpuset isolatedCpus with
                    | None => None
                    | Some (Err _) => Some None
                    | Some (Ok l) => Some (Some l)
                    end
                  else Some (Some [])
              end
            else Some (Some []) in
          match isolated with
          | None => None
          | Some None => Some None
          | Some (Some isolatedCpusInt) =>
              let effectiveCpusSlice :=
                map itoa (List.filter (fun id => negb (IntInSlice id isolatedCpusInt))
                                      effectiveCpusInt) in
              Some (Some (Join effectiveCpusSlice ","))
          end
      end
  end.

(** [cpulimit], as the loop over the containers reads it: the value of
    [limits.cpu], and the host's cpu string when it is missing or empty. *)
Definition cpulimitOf (effectiveCpus : string) (c : container) : string :=
  match ExpandedConfig c !! "limits.cpu" with
  | Some v => if String.eqb v "" then effectiveCpus else v
  | None => effectiveCpus
  end.

(** The loop over the loaded containers, from index [i] on: the containers
    pinned to each cpu and the cpu count of each balanced container. *)
Fixpoint classify (effectiveCpus : string) (cpus : list Z) (i : nat)
    (containers : list container)
    (fixedContainers : gmap Z (list nat)) (balancedContainers : gmap nat Z)
  : option (option (gmap Z (list nat) * gmap nat Z)) :=
  match containers with
  | [] => Some (Some (fixedContainers, balancedContainers))
  | c :: containers' =>
      let cpulimit := cpulimitOf effectiveCpus c in
      if negb (IsRunning_load c) then
        classify effectiveCpus cpus (S i) containers' fixedContainers balancedContainers
      else
        match Atoi cpulimit with
        | Some count =>
            let count := Z.min count (Z.of_nat (length cpus)) in
            classify effectiveCpus cpus (S i) containers' fixedContainers
                     (<[i := count]> balancedContainers)
        | None =>
            match parseCpuset cpulimit with
            | None => None
            | Some (Err _) => Some None
            | Some (Ok containerCpus) =>
                let fixedContainers :=
                  fold_left
                    (fun fixedContainers nr =>
                       if negb (IntInSlice nr cpus) then fixedContainers
                       else
                         match fixedContainers !! nr with
                         | Some ctns => <[nr := ctns ++ [i]]> fixedContainers
                         | None => <[nr := [i]]> fixedContainers
                         end)
                    containerCpus fixedContainers in
                classify effectiveCpus cpus (S i) containers' fixedContainers
                         balancedContainers
            end
        end
  end.

Section Runtime.

(** What Go leaves open.  A [range] over a map yields the keys in an
    order of the runtime's choice, one function per [range] statement of
    the source, each applied to the keys of the map; [sort.Sort] on
    [deviceTaskCPUs], whose [Less] compares the counters only, orders cpus
    with equal counters as it likes. *)
Variable rangeFixed : list Z -> list Z.
Variable rangeUsage : list Z -> list Z.
Variable rangeBalanced : list nat -> list nat.
Variable rangePinning : list nat -> list nat.
Variable sortUsage : gmap Z Z -> list deviceTaskCPU -> list deviceTaskCPU.

(** [usage]: one entry for each id in [cpus], its counter at 0. *)
Definition initUsage (cpus : list Z) : gmap Z deviceTaskCPU :=
  fold_left (fun usage cpu => <[cpu := {| id := cpu; strId := itoa cpu |}]> usage) cpus ∅.

(** The loop over [fixedContainers]. *)
Definition pinFixed (usage : gmap Z deviceTaskCPU) (fixedContainers : gmap Z (list nat))
  : gmap nat (list string) * gmap Z Z :=
  fold_left
    (fun '(pinning, counts) cpu =>
       match usage !! cpu with
       | None => (pinning, counts)
       | Some c =>
           fold_left
             (fun '(pinning, counts) ctn => (pin pinning ctn (strId c), bump counts (id c)))
             (default [] (fixedContainers !! cpu))
             (pinning, counts)
       end)
    (rangeFixed (map fst (map_to_list fixedContainers)))
    (∅, ∅).

(** The inner loop of the balancing: the first [count] cpus of the sorted
    slice, all of them when [count] never reaches 0. *)
Definition firstCpus (count : Z) (sortedUsage : list deviceTaskCPU) : list deviceTaskCPU :=
  if count <? 0 then sortedUsage else take (Z.to_nat count) sortedUsage.

Definition balanceOne (st : list deviceTaskCPU * gmap nat (list string) * gmap Z Z)
    (ctn : nat) (count : Z)
  : list deviceTaskCPU * gmap nat (list string) * gmap Z Z :=
  let '(sortedUsage, pinning, counts) := st in
  let sortedUsage := sortUsage counts sortedUsage in
  let '(pinning, counts) :=
    fold_left
      (fun '(pinning, counts) cpu => (pin pinning ctn (strId cpu), bump counts (id cpu)))
      (firstCpus count sortedUsage)
      (pinning, counts) in
  (sortedUsage, pinning, counts).

(** The turns of the loop over [balancedContainers] for the containers
    [order], one after the other. *)
Definition balanceSteps (balancedContainers : gmap nat Z) (order : list nat)
    (st : list deviceTaskCPU * gmap nat (list string) * gmap Z Z)
  : list deviceTaskCPU * gmap nat (list string) * gmap Z Z :=
  fold_left
    (fun st ctn => balanceOne st ctn (default 0 (balancedContainers !! ctn)))
    order st.

(** The loop over [balancedContainers]. *)
Definition balance (balancedContainers : gmap nat Z)
    (st : list deviceTaskCPU * gmap nat (list string) * gmap Z Z)
  : list deviceTaskCPU * gmap nat (list string) * gmap Z Z :=
  balanceSteps balancedContainers
    (rangeBalanced (map fst (map_to_list balancedContainers))) st.

(** The loop over [pinning]: the writes, for the containers that still
    run. *)
Definition apply (containers : list container) (pinning : gmap nat (list string))
  : list write :=
  flat_map
    (fun ctn =>
       match containers !! ctn, pinning !! ctn with
       | Some c, Some set =>
           if negb (IsRunning_apply c) then []
           else [SetContainer ctn (Join (sortStrings set) ",")]
       | _, _ => []
       end)
    (rangePinning (map fst (map_to_list pinning))).

(** [sortedUsage], as the loop over [usage] fills it. *)
Definition sortedUsage0 (usage : gmap Z deviceTaskCPU) : list deviceTaskCPU :=
  omap (fun cpu => usage !! cpu) (rangeUsage (map fst (map_to_list usage))).

(** The slice, the pinning and the counters when the loop over
    [balancedContainers] starts. *)
Definition afterFixed (cpus : list Z) (fixedContainers : gmap Z (list nat))
  : list deviceTaskCPU * gmap nat (list string) * gmap Z Z :=
  let usage := initUsage cpus in
  let '(pinning, counts) := pinFixed usage fixedContainers in
  (sortedUsage0 usage, pinning, counts).

(** [deviceTaskBalance(s)]: the cgroup writes it issues, in order; [None]
    when the call does not return. *)
Definition deviceTaskBalance (h : host) : option (list write) :=
  if negb (CGroupCPUsetController h) then Some []
  else
    match hostCpus h with
    | None => None
    | Some None => Some []
    | Some (Some effectiveCpus) =>
        match parseCpuset effectiveCpus with
        | None => None
        | Some (Err _) => Some [SetLxc effectiveCpus]
        | Some (Ok cpus) =>
            match containerLoadNodeAll h with
            | Err _ => Some [SetLxc effectiveCpus]
            | Ok containers =>
                match classify effectiveCpus cpus 0 containers ∅ ∅ with
                | None => None
                | Some None => Some [SetLxc effectiveCpus]
                | Some (Some (fixedContainers, balancedContainers)) =>
                    let '(_, pinning, _) :=
                      balance balancedContainers (afterFixed cpus fixedContainers) in
                    Some (SetLxc effectiveCpus :: apply containers pinning)
                end
            end
        end
    end.

End Runtime.

(** The container is load-balanced over [count] cpus: it runs and its
    cpu limit reads as an integer, capped at the number of cpus. *)
Definition balancedAs (effectiveCpus : string) (cpus : list Z) (c : container)
    (count : Z) : Prop :=
  IsRunning_load c = true
  /\ exists k, Atoi (cpulimitOf effectiveCpus c) = Some k
               /\ count = Z.min k (Z.of_nat (length cpus)).

(** The container is pinned to cpu [x]: it runs, its cpu limit is no
    integer and parses as a cpuset that holds [x], and [x] is one of
    [cpus]. *)
Definition pinnedTo (effectiveCpus : string) (cpus : list Z) (c : container)
    (x : Z) : Prop :=
  IsRunning_load c = true
  /\ Atoi (cpulimitOf effectiveCpus c) = None
  /\ exists l, parseCpuset (cpulimitOf effectiveCpus c) = Some (Ok l)
               /\ x ∈ l /\ x ∈ cpus.

(** An order [sort.Sort] may leave: a rearrangement with the counters
    ascending. *)
Definition sorts_by_count (f : gmap Z Z -> list deviceTaskCPU -> list deviceTaskCPU) : Prop :=
  forall counts l,
    Permutation (f counts l) l
    /\ StronglySorted (fun a b => countOf counts (id a) <= countOf counts (id b))
                      (f counts l).

(** The insertion sort Go runs on a slice of up to 12 elements: an
    element moves in front of its left neighbour only while it is [Less],
    so cpus with equal counters keep their order. *)
Fixpoint insertByCount (counts : gmap Z Z) (cpu : deviceTaskCPU) (sorted : list deviceTaskCPU)
  : list deviceTaskCPU :=
  match sorted with
  | [] => [cpu]
  | x :: sorted' =>
      if countOf counts (id cpu) <? countOf counts (id x) then cpu :: sorted
      else x :: insertByCount counts cpu sorted'
  end.

Definition insertionSortByCount (counts : gmap Z Z) (l : list deviceTaskCPU)
  : list deviceTaskCPU :=
  fold_left (fun sorted cpu => insertByCount counts cpu sorted) l [].

End Balance.

(** *** Starting a container ([Start]) *)

Module StartContainer.
Import Go.

(** What the calls made by [Start] return.  The two [IsRunning] fields are
    the state of the container as [Start] asks for it after the restore
    and after the fork. *)
Record world := {
  createOperation : option error;          (* c.createOperation(start, false, false) *)
  setupSharedMounts : option error;
  startCommon : result string;             (* the config path; the hooks run in runHooks *)
  StorageStart : option error;
  c_stateful : bool;                       (* c.stateful *)
  Migrate : option error;
  IsRunning_afterMigrate : bool;
  ContainerSetStateful : option error;
  RemoveAll_state : option error;          (* os.RemoveAll(c.StatePath()) *)
  runHooks : option error;
  forkstart : option error;                (* shared.RunCommand(.., forkstart, ..) *)
  IsRunning_afterFork : bool;
  lxcLog_exists : bool;                    (* shared.PathExists(logPath) *)
  lxcLog_content : result string           (* ioutil.ReadFile(logPath) *)
}.

Definition LF : string := String (ascii_of_nat 10) EmptyString.

(** One turn of the loop over the lines of [lxc.log]. *)
Definition lxcLogLine (lxcLog line : string) : string :=
  let fields := Fields line in
  if (length fields <? 4)%nat then lxcLog
  else if negb (String.eqb (nth 2 fields "") "ERROR") then lxcLog
  else
    let lxcLog := if (String.length lxcLog =? 0)%nat then lxcLog +:+ LF else lxcLog in
    lxcLog +:+ "  " +:+ Join fields " " +:+ LF.

(** The text [Start] collects in [lxcLog] from the content of the log. *)
Definition extractLxcErrors (logContent : string) : string :=
  fold_left lxcLogLine (Split (ascii_of_nat 10) logContent) "".

(** [c.Start(stateful)]: the error it returns, [None] for [nil]. *)
Definition Start (w : world) (stateful : bool) : option error :=
  match createOperation w with
  | Some err => Some (Wrap err "Create container start operation")
  | None =>
  match setupSharedMounts w with
  | Some err =>
      Some (ErrorfWith
              ("Daemon failed to setup shared mounts base: %s."
               +:+ String (ascii_of_nat 10)
                     "Does security.nesting need to be turned on?")
              err)
  | None =>
  match startCommon w with
  | Err err => Some (Wrap err "Common start logic")
  | Ok configPath =>
  match StorageStart w with
  | Some err => Some (Wrap err "Storage start")
  | None =>
      if stateful then
        if negb (c_stateful w) then
          Some (Errorf "Container has no existing state to restore")
        else
          match Migrate w with
          | Some err =>
              if negb (IsRunning_afterMigrate w) then Some (Wrap err "Migrate")
              else
                match ContainerSetStateful w with
                | Some err => Some (Wrap err "Start container")
                | None => runHooks w
                end
          | None =>
              match ContainerSetStateful w with
              | Some err => Some (Wrap err "Start container")
              | None => runHooks w
              end
          end
      else
        let stateless : option error :=
          if c_stateful w then
            match RemoveAll_state w with
            | Some err => Some err
            | None =>
                match ContainerSetStateful w with
                | Some err => Some (Wrap err "Persist stateful flag")
                | None => None
                end
            end
          else None in
        match stateless with
        | Some err => Some err
        | None =>
            match forkstart w with
            | Some err =>
                if negb (IsRunning_afterFork w) then
                  let lxcLog :=
                    if lxcLog_exists w then
                      match lxcLog_content w with
                      | Ok logContent => extractLxcErrors logContent
                      | Err _ => ""
                      end
                    else "" in
                  (* logger.Error; the function returns the actual error *)
                  Some err
                else runHooks w
            | None => runHooks w
            end
        end
  end end end end.

End StartContainer.

(** *** Deleting a container ([Delete]) *)

Module DeleteContainer.
Import Go.

(** The state [Delete] can change, by the calls that change it; the trace
    of a run lists the calls it made, in order, whether they succeeded or
    not. *)
Inductive action : Type :=
| ContainerSnapshotDelete            (* c.storage.ContainerSnapshotDelete(c) *)
| containerDeleteSnapshots           (* every snapshot of the container *)
| BackupDelete (i : nat)             (* backup.Delete() of the i-th backup *)
| cleanup                            (* c.cleanup(): security profiles, devices and shmounts paths *)
| ContainerDelete                    (* c.storage.ContainerDelete(c) *)
| maasDelete
| deviceRemove (k : string)
| ContainerRemove                    (* the database record *)
| StoragePoolVolumeDelete.           (* the database entry of the volume *)

(** The container and what the calls made by [Delete] return.
    [expandedDevices] lists the device names in the order the [range] over
    the map yields them, each with the result of its [deviceRemove]. *)
Record world := {
  expandedConfig : gmap string string;
  IsSnapshot : bool;
  storage_set : bool;                          (* c.storage != nil on entry *)
  importing_exists : bool;                     (* PathExists(.../.importing) *)
  initStorage : option error;
  ContainerSnapshotDelete_err : option error;
  containerDeleteSnapshots_err : option error;
  Backups : result (list (option error));      (* c.Backups(), each with the result of its Delete *)
  path_exists : bool;                          (* PathExists(c.Path()) *)
  mountPoint_exists : bool;                    (* PathExists(containerMountPoint) *)
  ContainerDelete_err : option error;
  maasDelete_err : option error;
  expandedDevices : list (string * option error);
  ContainerRemove_err : option error;
  StoragePoolVolumeDelete_err : option error
}.

(** [device.ErrUnsupportedDevType]. *)
Definition ErrUnsupportedDevType : error := Failure "Unsupported device type".

Definition is_ErrUnsupportedDevType (e : error) : bool :=
  match e with
  | Failure text => String.eqb text "Unsupported device type"
  | _ => false
  end.

(** A run so far: the calls made, and the error to return if the function
    has returned. *)
Definition run := (list action * option error)%type.

(** [for _, backup := range backups]. *)
Fixpoint deleteBackups (i : nat) (backups : list (option error)) (trace : list action)
  : run :=
  match backups with
  | [] => (trace, None)
  | r :: backups' =>
      match r with
      | Some err => (trace ++ [BackupDelete i], Some err)
      | None => deleteBackups (S i) backups' (trace ++ [BackupDelete i])
      end
  end.

(** [for k, m := range c.expandedDevices]. *)
Fixpoint removeDevices (devices : list (string * option error)) (trace : list action)
  : run :=
  match devices with
  | [] => (trace, None)
  | (k, r) :: devices' =>
      match r with
      | Some err =>
          if negb (is_ErrUnsupportedDevType err) then
            (trace ++ [deviceRemove k],
             Some (Wrap err ("Failed to remove device '" +:+ k +:+ "'")))
          else removeDevices devices' (trace ++ [deviceRemove k])
      | None => removeDevices devices' (trace ++ [deviceRemove k])
      end
  end.

Section Delete.

(** [shared.IsTrue], from a package outside the embedded files. *)
Variable IsTrue : string -> bool.

(** The end of [Delete], from the removal of the database record on. *)
Definition removeRecords (w : world) (storage : bool) (trace : list action) : run :=
  match ContainerRemove_err w with
  | Some err => (trace ++ [ContainerRemove], Some err)
  | None =>
      let trace := trace ++ [ContainerRemove] in
      if storage then
        match StoragePoolVolumeDelete_err w with
        | Some err => (trace ++ [StoragePoolVolumeDelete], Some err)
        | None => (trace ++ [StoragePoolVolumeDelete], None)
        end
      else (trace, None)
  end.

(** [c.Delete()]: the calls it makes and the error it returns. *)
Definition Delete (w : world) : run :=
  if (IsTrue (cfg (expandedConfig w) "security.protection.delete")
      && negb (IsSnapshot w))%bool then
    ([], Some (Errorf "Container is protected"))
  else
    let isImport := (storage_set w && importing_exists w)%bool in
    (* c.initStorage() leaves c.storage set when it was, or when it succeeds *)
    let storage :=
      (storage_set w || match initStorage w with None => true | Some _ => false end)%bool in
    if IsSnapshot w then
      if (storage && negb isImport)%bool then
        match ContainerSnapshotDelete_err w with
        | Some err => ([ContainerSnapshotDelete], Some err)
        | None => removeRecords w storage [ContainerSnapshotDelete]
        end
      else removeRecords w storage []
    else
      match containerDeleteSnapshots_err w with
      | Some err => ([containerDeleteSnapshots], Some err)
      | None =>
          match Backups w with
          | Err err => ([containerDeleteSnapshots], Some err)
          | Ok backups =>
              match deleteBackups 0 backups [containerDeleteSnapshots] with
              | (trace, Some err) => (trace, Some err)
              | (trace, None) =>
                  let trace := trace ++ [cleanup] in
                  let deleted : run :=
                    if (storage && negb isImport
                        && (path_exists w || mountPoint_exists w))%bool then
                      match ContainerDelete_err w with
                      | Some err => (trace ++ [ContainerDelete], Some err)
                      | None => (trace ++ [ContainerDelete], None)
                      end
                    else (trace, None) in
                  match deleted with
                  | (trace, Some err) => (trace, Some err)
                  | (trace, None) =>
                      match maasDelete_err w with
                      | Some err => (trace ++ [maasDelete], Some err)
                      | None =>
                          match removeDevices (expandedDevices w) (trace ++ [maasDelete]) with
                          | (trace, Some err) => (trace, Some err)
                          | (trace, None) => removeRecords w storage trace
                          end
                      end
                  end
              end
          end
      end.

End Delete.

End DeleteContainer.

(** *** The backup file ([writeBackupFile]) *)

Module BackupFile.
Import Go.

Section Writer.

(** The rendered records are opaque here: [api.Container],
    [api.ContainerSnapshot], [api.StoragePool] and [api.StorageVolume]. *)
Variables Container ContainerSnapshot StoragePool StorageVolume : Type.

(** The struct [backupFile]. *)
Record backupFile := {
  bf_Container : Container;
  bf_Snapshots : list ContainerSnapshot;
  bf_Pool : StoragePool;
  bf_Volume : StorageVolume
}.

(** The container and what the calls made by [writeBackupFile] return. *)
Record world := {
  IsSnapshot : bool;
  Path : string;                                   (* c.Path() *)
  path_exists : bool;                              (* shared.PathExists(c.Path()) *)
  Render : result Container;                       (* c.Render() *)
  Snapshots : result (list (result ContainerSnapshot)); (* c.Snapshots(), each with its Render() *)
  StoragePoolName : result string;                 (* c.StoragePool() *)
  StoragePoolGet : result StoragePool;
  StoragePoolNodeVolumeGetTypeByProject : result StorageVolume;
  Marshal : backupFile -> result string;           (* yaml.Marshal *)
  rootfs_exists : bool;                            (* shared.PathExists(c.RootfsPath()) *)
  Create_err : option error;                       (* os.Create *)
  Chmod_err : option error;                        (* f.Chmod(0400) *)
  WriteAll_err : option error                      (* shared.WriteAll(f, data) *)
}.

(** What the function does to the filesystem. *)
Inductive fileOp : Type :=
| Create (path : string)
| Chmod (path : string) (mode : Z)
| WriteAll (path : string) (data : string).

(** [for _, s := range snapshots]. *)
Fixpoint renderSnapshots (snapshots : list (result ContainerSnapshot))
    (sis : list ContainerSnapshot) : result (list ContainerSnapshot) :=
  match snapshots with
  | [] => Ok sis
  | Err err :: _ => Err err
  | Ok si :: snapshots' => renderSnapshots snapshots' (sis ++ [si])
  end.

(** [filepath.Join(c.Path(), "backup.yaml")], for a clean path. *)
Definition backupPath (w : world) : string := Path w +:+ "/backup.yaml".

(** The mode [0400], octal. *)
Definition mode0400 : Z := 256.

(** [writeBackupFile(c)]: the file operations it performs, in order, and
    the error it returns. *)
Definition writeBackupFile (w : world) : list fileOp * option error :=
  if IsSnapshot w then ([], None)
  else if negb (path_exists w) then ([], Some ErrNotExist)
  else
    match Render w with
    | Err err => ([], Some (Wrap err "Failed to render container metadata"))
    | Ok ci =>
    match Snapshots w with
    | Err err => ([], Some (Wrap err "Failed to get snapshots"))
    | Ok snapshots =>
    match renderSnapshots snapshots [] with
    | Err err => ([], Some err)
    | Ok sis =>
    match StoragePoolName w with
    | Err err => ([], Some err)
    | Ok _ =>
    match StoragePoolGet w with
    | Err err => ([], Some err)
    | Ok pool =>
    match StoragePoolNodeVolumeGetTypeByProject w with
    | Err err => ([], Some err)
    | Ok volume =>
    match Marshal w {| bf_Container := ci; bf_Snapshots := sis;
                       bf_Pool := pool; bf_Volume := volume |} with
    | Err err => ([], Some err)
    | Ok data =>
        if negb (rootfs_exists w) then ([], None)
        else
          match Create_err w with
          | Some err => ([Create (backupPath w)], Some err)
          | None =>
              match Chmod_err w with
              | Some err => ([Create (backupPath w); Chmod (backupPath w) mode0400], Some err)
              | None =>
                  ([Create (backupPath w); Chmod (backupPath w) mode0400;
                    WriteAll (backupPath w) data],
                   WriteAll_err w)
              end
          end
    end end end end end end end.

End Writer.

Arguments IsSnapshot {_ _ _ _} _.
Arguments path_exists {_ _ _ _} _.
Arguments rootfs_exists {_ _ _ _} _.
Arguments Render {_ _ _ _} _.
Arguments Snapshots {_ _ _ _} _.
Arguments StoragePoolName {_ _ _ _} _.
Arguments StoragePoolGet {_ _ _ _} _.
Arguments StoragePoolNodeVolumeGetTypeByProject {_ _ _ _} _.
Arguments Marshal {_ _ _ _} _ _.
Arguments Create_err {_ _ _ _} _.
Arguments Chmod_err {_ _ _ _} _.
Arguments WriteAll_err {_ _ _ _} _.
Arguments Path {_ _ _ _} _.
Arguments backupPath {_ _ _ _} _.
Arguments writeBackupFile {_ _ _ _} _.
Arguments renderSnapshots {_} _ _.

End BackupFile.

(** *** Read-only keys ([Update], [VolatileSet]) *)

Module ConfigKeys.
Import Go.

(** The container's two config maps. *)
Record configs := {
  localConfig : gmap string string;
  expandedConfig : gmap string string
}.

Definition volatileReadOnly : error := Errorf "Volatile keys are read-only".
Definition imageReadOnly : error := Errorf "Image keys are read-only".

(** One of the two loops of the check: [for k, v := range ranged], with the
    entries in the order the [range] yields them, against the map [other]. *)
Fixpoint checkEntries (entries : list (string * string)) (other : gmap string string)
  : option error :=
  match entries with
  | [] => None
  | (k, v) :: entries' =>
      if (HasPrefix k "volatile." && negb (String.eqb (cfg other k) v))%bool
      then Some volatileReadOnly
      else if (HasPrefix k "image." && negb (String.eqb (cfg other k) v))%bool
      then Some imageReadOnly
      else checkEntries entries' other
  end.

(** What the validation calls at the start of [Update] return. *)
Record validation := {
  containerValidConfig : option error;
  containerValidDevices : option error;
  Profiles : result (list string);          (* c.state.Cluster.Profiles(args.Project) *)
  ArchitectureName : option error           (* osarch.ArchitectureName(args.Architecture) *)
}.

(** [for _, profile := range args.Profiles]. *)
Fixpoint checkProfiles (profiles requested checkedProfiles : list string) : option error :=
  match requested with
  | [] => None
  | profile :: requested' =>
      if negb (bool_decide (profile ∈ profiles)) then
        Some (Errorf ("Requested profile '" +:+ profile +:+ "' doesn't exist"))
      else if bool_decide (profile ∈ checkedProfiles) then
        Some (Errorf "Duplicate profile found in request")
      else checkProfiles profiles requested' (checkedProfiles ++ [profile])
  end.

Section Ranges.

(** The orders in which the two [range] loops of the check and the two of
    [VolatileSet] yield the entries of their maps. *)
Variable rangeArgs : list (string * string) -> list (string * string).
Variable rangeLocal : list (string * string) -> list (string * string).
Variable rangeChanges : list (string * string) -> list (string * string).

(** The check that volatile and image keys were not modified. *)
Definition readOnlyCheck (c : configs) (argsConfig : gmap string string) : option error :=
  match checkEntries (rangeArgs (map_to_list argsConfig)) (localConfig c) with
  | Some err => Some err
  | None => checkEntries (rangeLocal (map_to_list (localConfig c))) argsConfig
  end.

(** [c.Update(args, userRequested)] up to the point where it starts to
    apply the changes: the error it returns, or [None] when it goes on.
    [architecture] is [args.Architecture] after the default is filled in. *)
Definition UpdateChecks (c : configs) (v : validation)
    (argsConfig : gmap string string) (argsProfiles : list string)
    (architecture : Z) (userRequested : bool) : option error :=
  match containerValidConfig v with
  | Some err => Some (Wrap err "Invalid config")
  | None =>
  match containerValidDevices v with
  | Some err => Some (Wrap err "Invalid devices")
  | None =>
  match Profiles v with
  | Err err => Some (Wrap err "Failed to get profiles")
  | Ok profiles =>
  match checkProfiles profiles argsProfiles [] with
  | Some err => Some err
  | None =>
      let arch :=
        if negb (architecture =? 0) then
          match ArchitectureName v with
          | Some err => Some (ErrorfWith "Invalid architecture id: %s" err)
          | None => None
          end
        else None in
      match arch with
      | Some err => Some err
      | None => if userRequested then readOnlyCheck c argsConfig else None
      end
  end end end end.

(** A database call [VolatileSet] makes. *)
Inductive dbCall : Type :=
| ContainerConfigUpdate (changes : gmap string string).

(** The two assignments or the two deletes of one turn of the last loop. *)
Definition applyChange (c : configs) (entry : string * string) : configs :=
  let '(key, value) := entry in
  if String.eqb value "" then
    {| localConfig := delete key (localConfig c);
       expandedConfig := delete key (expandedConfig c) |}
  else
    {| localConfig := <[key := value]> (localConfig c);
       expandedConfig := <[key := value]> (expandedConfig c) |}.

(** [c.VolatileSet(changes)]: the container's maps after the call, the
    database calls made, and the error returned.  [transaction] is the
    result of the database transaction. *)
Definition VolatileSet (c : configs) (changes : gmap string string)
    (transaction : option error) : configs * list dbCall * option error :=
  let entries := rangeChanges (map_to_list changes) in
  if negb (forallb (fun '(key, _) => HasPrefix key "volatile.") entries) then
    (c, [], Some (Errorf "Only volatile keys can be modified with VolatileSet"))
  else
    match transaction with
    | Some err => (c, [ContainerConfigUpdate changes], Some (Wrap err "Failed to update database"))
    | None => (fold_left applyChange entries c, [ContainerConfigUpdate changes], None)
    end.

End Ranges.

(** The two maps differ on [k], a missing key reading as the empty
    string. *)
Definition differ_on (a b : gmap string string) (k : string) : Prop :=
  cfg a k <> cfg b k.

Definition read_only_key (k : string) : Prop :=
  HasPrefix k "volatile." = true \/ HasPrefix k "image." = true.

End ConfigKeys.

(** *** Live change of the memory limit ([Update]) *)

Module MemoryLimits.
Import Go.

(** [strings.HasSuffix(s, "%")] and [strings.TrimSuffix(s, "%")]. *)
Fixpoint lastChar (s : string) : option ascii :=
  match s with
  | EmptyString => None
  | String c EmptyString => Some c
  | String _ s' => lastChar s'
  end.

Fixpoint dropLast (s : string) : string :=
  match s with
  | EmptyString => EmptyString
  | String _ EmptyString => EmptyString
  | String c s' => String c (dropLast s')
  end.

Definition HasSuffixPercent (s : string) : bool :=
  match lastChar s with Some c => Ascii.eqb c "%" | None => false end.

Definition TrimSuffixPercent (s : string) : string :=
  if HasSuffixPercent s then dropLast s else s.

(** The float64 arithmetic of [fmt.Sprintf("%.0f", float64(valueInt)*0.9)],
    on magnitudes: a float64 that is not negative is [mant * 2 ^ exp] with
    [mant] of at most 53 bits.  No number met here is large or small
    enough to leave the range of the exponent. *)

(** [num / den] rounded to a nearest integer, a tie to the even one. *)
Definition roundHalfEven (num den : Z) : Z :=
  let q := num / den in
  let twice := 2 * (num mod den) in
  if twice <? den then q
  else if den <? twice then q + 1
  else if Z.even q then q else q + 1.

(** The float64 nearest to [mant * 2 ^ exp], a tie to the even
    mantissa. *)
Definition round53 (mant exp : Z) : Z * Z :=
  let shift := Z.log2 mant + 1 - 53 in
  if shift <=? 0 then (mant, exp)
  else (roundHalfEven mant (2 ^ shift), exp + shift).

(** The constant [0.9] as a float64: 0x1.ccccccccccccdp-1. *)
Definition float64_0_9 : Z * Z := (8106479329266893, -53).

(** The product of two float64 that are not negative. *)
Definition float64_mul (a b : Z * Z) : Z * Z :=
  round53 (fst a * fst b) (snd a + snd b).

(** The digits [%.0f] prints for a float64 that is not negative: the
    nearest integer, a tie to the even one. *)
Definition nearestInt (f : Z * Z) : Z :=
  if 0 <=? snd f then fst f * 2 ^ snd f
  else roundHalfEven (fst f) (2 ^ (- snd f)).

(** [fmt.Sprintf("%.0f", float64(valueInt)*0.9)]: the sign is that of
    [valueInt]. *)
Definition ninetyPercent (valueInt : Z) : string :=
  let digits :=
    itoa (nearestInt (float64_mul (round53 (Z.abs valueInt) 0) float64_0_9)) in
  if valueInt <? 0 then "-" +:+ digits else digits.

(** A cgroup write: the key and the value. *)
Definition cgWrite := (string * string)%type.

(** The container and the host, as this part of [Update] sees them.
    [CGroupGet] gives the values the cgroup files hold when they are read,
    before the change; [CGroupSet] decides each write from the writes
    attempted before it. *)
Record world := {
  CGroupMemoryController : bool;
  CGroupSwapAccounting : bool;
  expandedConfig : gmap string string;
  DeviceTotalMemory : result Z;
  CGroupGet : string -> result string;
  CGroupSet : list cgWrite -> string -> string -> option error
}.

Section Limits.

(** From packages outside the embedded files: [units.ParseByteSizeString]
    and [shared.IsTrue]. *)
Variable ParseByteSizeString : string -> result Z.
Variable IsTrue : string -> bool.

(** [c.CGroupSet(key, value)], recorded. *)
Definition set (w : world) (trace : list cgWrite) (key value : string)
  : list cgWrite * option error :=
  (trace ++ [(key, value)], CGroupSet w trace key value).

(** The value of [memory] after "Parse memory". *)
Definition parseMemory (w : world) : result string :=
  let memory := cfg (expandedConfig w) "limits.memory" in
  if String.eqb memory "" then Ok "-1"
  else if HasSuffixPercent memory then
    match ParseInt (TrimSuffixPercent memory) with
    | None => Err (NumError "ParseInt" (TrimSuffixPercent memory))
    | Some percent =>
        match DeviceTotalMemory w with
        | Err err => Err err
        | Ok memoryTotal =>
            Ok (itoa (wrap64 (wrap64 (Z.quot memoryTotal 100) * percent)))
        end
    end
  else
    match ParseByteSizeString memory with
    | Err err => Err err
    | Ok valueInt => Ok (itoa valueInt)
    end.

(** The values read "for revert": the empty string when the read fails,
    and for the swap limit also when swap accounting is off. *)
Definition oldValue (w : world) (key : string) : string :=
  match CGroupGet w key with Ok v => v | Err _ => "" end.

Definition oldMemswLimit (w : world) : string :=
  if CGroupSwapAccounting w then oldValue w "memory.memsw.limit_in_bytes" else "".

(** The closure [revertMemory]: up to three writes, their results
    ignored. *)
Definition revertMemory (w : world) (trace : list cgWrite) : list cgWrite :=
  let oldSoftLimit := oldValue w "memory.soft_limit_in_bytes" in
  let oldLimit := oldValue w "memory.limit_in_bytes" in
  let trace :=
    if negb (String.eqb oldSoftLimit "")
    then (set w trace "memory.soft_limit_in_bytes" oldSoftLimit).1 else trace in
  let trace :=
    if negb (String.eqb oldLimit "")
    then (set w trace "memory.limit_in_bytes" oldLimit).1 else trace in
  if negb (String.eqb (oldMemswLimit w) "")
  then (set w trace "memory.memsw.limit_in_bytes" (oldMemswLimit w)).1 else trace.

(** [err = c.CGroupSet(key, value); if err != nil { revertMemory(); return
    err }], followed by [next]. *)
Definition setOrRevert (w : world) (trace : list cgWrite) (key value : string)
    (next : list cgWrite -> list cgWrite * option error)
  : list cgWrite * option error :=
  match set w trace key value with
  | (trace, Some err) => (revertMemory w trace, Some err)
  | (trace, None) => next trace
  end.

(** The branch of the loop over the changed keys for the key
    [limits.memory], as far as the soft limit: the cgroup writes
    attempted, in order, and the error [Update] returns with, if any. *)
Definition applyMemoryLimit (w : world) : list cgWrite * option error :=
  if negb (CGroupMemoryController w) then ([], None)
  else
    let memoryEnforce := cfg (expandedConfig w) "limits.memory.enforce" in
    let memorySwap := cfg (expandedConfig w) "limits.memory.swap" in
    match parseMemory w with
    | Err err => ([], Some err)
    | Ok memory =>
        let newValues trace :=
          if String.eqb memoryEnforce "soft" then
            setOrRevert w trace "memory.soft_limit_in_bytes" memory
              (fun trace => (trace, None))
          else
            let softLimit trace :=
              match ParseInt memory with
              | None => (revertMemory w trace, Some (NumError "ParseInt" memory))
              | Some valueInt =>
                  setOrRevert w trace "memory.soft_limit_in_bytes"
                    (ninetyPercent valueInt) (fun trace => (trace, None))
              end in
            if (CGroupSwapAccounting w
                && (String.eqb memorySwap "" || IsTrue memorySwap))%bool then
              setOrRevert w trace "memory.limit_in_bytes" memory (fun trace =>
              setOrRevert w trace "memory.memsw.limit_in_bytes" memory softLimit)
            else
              setOrRevert w trace "memory.limit_in_bytes" memory softLimit in
        let reset trace :=
          setOrRevert w trace "memory.limit_in_bytes" "-1" (fun trace =>
          setOrRevert w trace "memory.soft_limit_in_bytes" "-1" newValues) in
        if CGroupSwapAccounting w then
          setOrRevert w [] "memory.memsw.limit_in_bytes" "-1" reset
        else reset []
    end.

(** The writes of one run in which every write succeeds. *)
Definition resetWrites (w : world) : list cgWrite :=
  (if CGroupSwapAccounting w then [("memory.memsw.limit_in_bytes", "-1")] else [])
  ++ [("memory.limit_in_bytes", "-1"); ("memory.soft_limit_in_bytes", "-1")].

Definition newWrites (w : world) (memory : string) (valueInt : Z) : list cgWrite :=
  if String.eqb (cfg (expandedConfig w) "limits.memory.enforce") "soft" then
    [("memory.soft_limit_in_bytes", memory)]
  else
    [("memory.limit_in_bytes", memory)]
    ++ (if (CGroupSwapAccounting w
            && (String.eqb (cfg (expandedConfig w) "limits.memory.swap") ""
                || IsTrue (cfg (expandedConfig w) "limits.memory.swap")))%bool
        then [("memory.memsw.limit_in_bytes", memory)] else [])
    ++ [("memory.soft_limit_in_bytes", ninetyPercent valueInt)].

(** The old values [revertMemory] writes back: those that were read. *)
Definition revertWrites (w : world) : list cgWrite :=
  List.filter (fun kv => negb (String.eqb kv.2 ""))
    [ ("memory.soft_limit_in_bytes", oldValue w "memory.soft_limit_in_bytes");
      ("memory.limit_in_bytes", oldValue w "memory.limit_in_bytes");
      ("memory.memsw.limit_in_bytes", oldMemswLimit w) ].

(** Running a list of writes one after the other up to the first that
    fails, which is followed by the writes of [revertMemory]. *)
Fixpoint runWrites (w : world) (trace planned : list cgWrite)
  : list cgWrite * option error :=
  match planned with
  | [] => (trace, None)
  | (key, value) :: planned' =>
      match CGroupSet w trace key value with
      | Some err => (trace ++ [(key, value)] ++ revertWrites w, Some err)
      | None => runWrites w (trace ++ [(key, value)]) planned'
      end
  end.

End Limits.

(** The write of [value] to [key] after the writes of [done] is
    accepted. *)
Definition accepted (w : world) (done : list cgWrite) (key value : string) : bool :=
  match CGroupSet w done key value with None => true | Some _ => false end.

(** The value the last accepted write to [key] among [rest] has left in
    the file, the writes of [done] having come before; [held] when none
    of them was accepted. *)
Fixpoint lastAccepted (w : world) (done rest : list cgWrite) (key : string)
    (held : option string) : option string :=
  match rest with
  | [] => held
  | (k, v) :: rest' =>
      lastAccepted w (done ++ [(k, v)]) rest' key
        (if (String.eqb k key && accepted w done k v)%bool then Some v else held)
  end.

(** The value [old] of the file [key] was read before the change, for the
    revert: a read that failed, or gave the empty text, left nothing to
    write back, and the swap limit is read only with swap accounting. *)
Definition readForRevert (w : world) (key old : string) : Prop :=
  CGroupGet w key = Ok old /\ old <> ""
  /\ (key = "memory.soft_limit_in_bytes" \/ key = "memory.limit_in_bytes"
      \/ (key = "memory.memsw.limit_in_bytes" /\ CGroupSwapAccounting w = true)).

End MemoryLimits.

(** *** More of the Go standard library: suffixes, trimming, case, padding *)

Module GoText.
Import Go.

(** [strings.HasSuffix(s, suffix)]. *)
Definition HasSuffix (s suffix : string) : bool :=
  ((String.length suffix <=? String.length s)%nat
   && String.eqb (substring (String.length s - String.length suffix)
                            (String.length suffix) s) suffix)%bool.

(** [strings.TrimSuffix(s, suffix)]. *)
Definition TrimSuffix (s suffix : string) : string :=
  if HasSuffix s suffix
  then substring 0 (String.length s - String.length suffix) s
  else s.

(** [strings.TrimPrefix(s, prefix)]. *)
Definition TrimPrefix (s prefix : string) : string :=
  if HasPrefix s prefix
  then substring (String.length prefix) (String.length s - String.length prefix) s
  else s.

(** The byte [c] is one of the bytes of [cutset]. *)
Fixpoint inCutset (c : ascii) (cutset : string) : bool :=
  match cutset with
  | EmptyString => false
  | String x cutset' => (Ascii.eqb c x || inCutset c cutset')%bool
  end.

(** [strings.TrimLeft(s, cutset)], [strings.TrimRight(s, cutset)] and
    [strings.Trim(s, cutset)] for a cutset of ASCII bytes. *)
Fixpoint TrimLeft (s cutset : string) : string :=
  match s with
  | EmptyString => EmptyString
  | String c s' => if inCutset c cutset then TrimLeft s' cutset else s
  end.

Definition TrimRight (s cutset : string) : string :=
  String.rev (TrimLeft (String.rev s) cutset).

Definition Trim (s cutset : string) : string :=
  TrimRight (TrimLeft s cutset) cutset.

(** [strings.ToLower(s)] on ASCII text: the letters A to Z are mapped to
    a to z, every other byte below 0x80 is kept. *)
Definition lowerByte (c : ascii) : ascii :=
  let n := nat_of_ascii c in
  if ((65 <=? n)%nat && (n <=? 90)%nat)%bool then ascii_of_nat (n + 32) else c.

Fixpoint ToLower (s : string) : string :=
  match s with
  | EmptyString => EmptyString
  | String c s' => String (lowerByte c) (ToLower s')
  end.

(** The text is ASCII: every byte is below 0x80. *)
Fixpoint isASCII (s : string) : bool :=
  match s with
  | EmptyString => true
  | String c s' => ((nat_of_ascii c <? 128)%nat && isASCII s')%bool
  end.

(** [filepath.IsAbs(path)] on Unix. *)
Definition IsAbs (path : string) : bool := HasPrefix path "/".

(** [digits] behind as many zeros as it takes to fill [width] bytes. *)
Definition zeroPad (width : nat) (digits : string) : string :=
  String.concat "" (repeat "0" (width - String.length digits)) +:+ digits.

(** [fmt.Sprintf("%03d", n)]: the sign counts for the width. *)
Definition Sprintf_03d (n : Z) : string :=
  if n <? 0 then "-" +:+ zeroPad 2 (itoa (- n)) else zeroPad 3 (itoa n).

End GoText.

(** *** Parsing of device settings ([createUSBDevice], [deviceParseCPU],
    [deviceParseDiskLimit]) *)

Module DeviceParse.
Import Go GoText.

(** [usbDevice]. *)
Record usbDevice := {
  action : string;
  vendor : string;
  product : string;
  path : string;
  major : Z;
  minor : Z;
  ueventParts : list string;
  ueventLen : Z
}.

(** The error of [strconv.Atoi] and of [strconv.ParseInt] on [input]. *)
Definition atoiError (input : string) : error := NumError "Atoi" input.
Definition parseIntError (input : string) : error := NumError "ParseInt" input.

(** [createUSBDevice(action, vendor, product, major, minor, busnum, devnum,
    devname, ueventParts, ueventLen)]. *)
Definition createUSBDevice (action vendor product major minor busnum devnum devname : string)
    (ueventParts : list string) (ueventLen : Z) : result usbDevice :=
  match Atoi major with
  | None => Err (atoiError major)
  | Some majorInt =>
  match Atoi minor with
  | None => Err (atoiError minor)
  | Some minorInt =>
      let path : result string :=
        if String.eqb devname "" then
          match Atoi busnum with
          | None => Err (atoiError busnum)
          | Some busnumInt =>
              match Atoi devnum with
              | None => Err (atoiError devnum)
              | Some devnumInt =>
                  Ok ("/dev/bus/usb/" +:+ Sprintf_03d busnumInt
                      +:+ "/" +:+ Sprintf_03d devnumInt)
              end
          end
        else if negb (IsAbs devname) then Ok ("/dev/" +:+ devname)
        else Ok devname in
      match path with
      | Err err => Err err
      | Ok path =>
          Ok {| action := action; vendor := vendor; product := product; path := path;
                major := majorInt; minor := minorInt;
                ueventParts := ueventParts; ueventLen := ueventLen |}
      end
  end end.

(** [deviceParseCPU(cpuAllowance, cpuPriority)]: the cpu shares, the CFS
    quota and the CFS period, as the strings written to the cgroup. *)
Definition deviceParseCPU (cpuAllowance cpuPriority : string)
  : result (string * string * string) :=
  let priority : result Z :=
    if negb (String.eqb cpuPriority "") then
      match Atoi cpuPriority with
      | None => Err (atoiError cpuPriority)
      | Some p => Ok p
      end
    else Ok 10 in
  match priority with
  | Err err => Err err
  | Ok cpuPriorityInt =>
      let cpuShares := wrap64 (0 - wrap64 (10 - cpuPriorityInt)) in
      let parsed : result (Z * string * string) :=
        if negb (String.eqb cpuAllowance "") then
          if HasSuffix cpuAllowance "%" then
            match Atoi (TrimSuffix cpuAllowance "%") with
            | None => Err (atoiError (TrimSuffix cpuAllowance "%"))
            | Some percent =>
                Ok (add64 cpuShares (add64 (wrap64 (10 * percent)) 24), "-1", "100000")
            end
          else
            match SplitN2 "/" cpuAllowance with
            | [quota_s; period_s] =>
                match Atoi (TrimSuffix quota_s "ms") with
                | None => Err (atoiError (TrimSuffix quota_s "ms"))
                | Some quota =>
                    match Atoi (TrimSuffix period_s "ms") with
                    | None => Err (atoiError (TrimSuffix period_s "ms"))
                    | Some period =>
                        Ok (add64 cpuShares 1024,
                            itoa (wrap64 (quota * 1000)), itoa (wrap64 (period * 1000)))
                    end
                end
            | _ => Err (Errorf ("Invalid allowance: " +:+ cpuAllowance))
            end
        else Ok (add64 cpuShares 1024, "-1", "100000") in
      match parsed with
      | Err err => Err err
      | Ok (cpuShares, cpuCfsQuota, cpuCfsPeriod) =>
          let cpuShares := if cpuShares <? 0 then 0 else cpuShares in
          Ok (itoa cpuShares, cpuCfsQuota, cpuCfsPeriod)
      end
  end.

Section DiskLimit.

(** [units.ParseByteSizeString], from a package outside the embedded
    files. *)
Variable ParseByteSizeString : string -> result Z.

(** The closure [parseValue] of [deviceParseDiskLimit]: bytes per second,
    operations per second, and the error. *)
Definition parseValue (value : string) : Z * Z * option error :=
  if String.eqb value "" then (0, 0, None)
  else if HasSuffix value "iops" then
    match ParseInt (TrimSuffix value "iops") with
    | None => (-1, -1, Some (parseIntError (TrimSuffix value "iops")))
    | Some iops => (0, iops, None)
    end
  else
    match ParseByteSizeString value with
    | Err err => (-1, -1, Some err)
    | Ok bps => (bps, 0, None)
    end.

(** [deviceParseDiskLimit(readSpeed, writeSpeed)]: [readBps], [readIops],
    [writeBps], [writeIops] and the error. *)
Definition deviceParseDiskLimit (readSpeed writeSpeed : string)
  : Z * Z * Z * Z * option error :=
  match parseValue readSpeed with
  | (_, _, Some err) => (-1, -1, -1, -1, Some err)
  | (readBps, readIops, None) =>
      match parseValue writeSpeed with
      | (_, _, Some err) => (-1, -1, -1, -1, Some err)
      | (writeBps, writeIops, None) => (readBps, readIops, writeBps, writeIops, None)
      end
  end.

End DiskLimit.

End DeviceParse.

(** *** Storage utilities ([tryMount], [tryUnmount], [storageConfigDiff],
    [lxdUsesPool], [shrinkFileSystem], [shrinkVolumeFilesystem]) *)

Module StorageUtils.
Import Go.

(** What a retried call did: its attempts, numbered from 0, and the half
    seconds slept after the failed ones. *)
Inductive tried : Type :=
| Attempt (i : nat)
| Sleep500ms.

(** [for i := 0; i < 20; i++ { err = call(); if err == nil { break };
    time.Sleep(500 * time.Millisecond) }], with [turns] turns left; [call i]
    is what the attempt with number [i] returns. *)
Fixpoint tryLoop (call : nat -> option error) (turns i : nat) (err : option error)
    (trace : list tried) : list tried * option error :=
  match turns with
  | O => (trace, err)
  | S turns' =>
      match call i with
      | None => (trace ++ [Attempt i], None)
      | Some e => tryLoop call turns' (S i) (Some e) (trace ++ [Attempt i; Sleep500ms])
      end
  end.

(** [tryMount(src, dst, fs, flags, options)]; [Mount i] is the result of
    the call of [unix.Mount] with number [i]. *)
Definition tryMount (Mount : nat -> option error) : list tried * option error :=
  tryLoop Mount 20 0 None [].

(** [tryUnmount(path, flags)], with [unix.Unmount]. *)
Definition tryUnmount (Unmount : nat -> option error) : list tried * option error :=
  tryLoop Unmount 20 0 None [].

(** [storageValidName(value)]. *)
Definition storageValidName (value : string) : option error :=
  if Contains "/" value then
    Some (Errorf ("Invalid storage volume name " +:+ String (ascii_of_nat 34) value
                  +:+ String (ascii_of_nat 34)
                        ". Storage volumes cannot contain " +:+ String (ascii_of_nat 34) "/"
                  +:+ String (ascii_of_nat 34) " in their name"))
  else None.

Section ConfigDiff.

(** [shared.StringInSlice], from a package outside the embedded files, and
    the orders in which the two [range] loops yield the keys. *)
Variable StringInSlice : string -> list string -> bool.
Variable rangeOld : list string -> list string.
Variable rangeNew : list string -> list string.

(** The body of both loops of [storageConfigDiff]. *)
Definition diffTurn (oldConfig newConfig : gmap string string)
    (st : list string * bool) (key : string) : list string * bool :=
  let '(changedConfig, userOnly) := st in
  if negb (String.eqb (cfg oldConfig key) (cfg newConfig key)) then
    let userOnly := if negb (HasPrefix key "user.") then false else userOnly in
    let changedConfig :=
      if negb (StringInSlice key changedConfig) then changedConfig ++ [key]
      else changedConfig in
    (changedConfig, userOnly)
  else (changedConfig, userOnly).

(** [storageConfigDiff(oldConfig, newConfig)]; the [nil] returned when
    nothing changed is the empty list. *)
Definition storageConfigDiff (oldConfig newConfig : gmap string string)
  : list string * bool :=
  let st := fold_left (diffTurn oldConfig newConfig)
                      (rangeOld (map fst (map_to_list oldConfig))) ([], true) in
  let st := fold_left (diffTurn oldConfig newConfig)
                      (rangeNew (map fst (map_to_list newConfig))) st in
  if (length (fst st) =? 0)%nat then ([], false) else st.

End ConfigDiff.

(** [api.StoragePool], as far as [lxdUsesPool] reads it. *)
Record StoragePool := {
  Name : string;
  Driver : string;
  Config : gmap string string
}.

(** The error of [dbObj.StoragePools()]: [db.ErrNoSuchObject], or another
    one. *)
Inductive poolsError : Type :=
| ErrNoSuchObject
| OtherError (err : error).

(** The database, as [lxdUsesPool] asks it. *)
Record poolsDb := {
  StoragePools : list string * option poolsError;
  StoragePoolGet : string -> result StoragePool
}.

(** [for _, pool := range pools]. *)
Fixpoint findPool (db : poolsDb) (pools : list string)
    (onDiskPoolName driver onDiskProperty : string) : bool * string :=
  match pools with
  | [] => (false, "")
  | pool :: pools' =>
      match StoragePoolGet db pool with
      | Err _ => findPool db pools' onDiskPoolName driver onDiskProperty
      | Ok pl =>
          if negb (String.eqb (Driver pl) driver)
          then findPool db pools' onDiskPoolName driver onDiskProperty
          else if String.eqb (cfg (Config pl) onDiskProperty) onDiskPoolName
          then (true, Name pl)
          else findPool db pools' onDiskPoolName driver onDiskProperty
      end
  end.

(** [lxdUsesPool(dbObj, onDiskPoolName, driver, onDiskProperty)]. *)
Definition lxdUsesPool (db : poolsDb) (onDiskPoolName driver onDiskProperty : string)
  : bool * string * option error :=
  match StoragePools db with
  | (_, Some (OtherError err)) => (false, "", Some err)
  | (pools, _) => (findPool db pools onDiskPoolName driver onDiskProperty, None)
  end.

(** A step [shrinkVolumeFilesystem] takes outside the process: it stops
    the storage of the container, unmounts the custom volume, or runs a
    command through [shared.TryRunCommand]. *)
Inductive step : Type :=
| StorageStop
| StoragePoolVolumeUmount
| TryRunCommand (cmd : list string).

(** The function [shrinkVolumeFilesystem] hands back for the clean-up. *)
Inductive cleanupFunc : Type :=
| StorageStart
| StoragePoolVolumeMount.

(** What the steps return. *)
Record shrinkWorld := {
  StorageStop_result : bool * option error;
  StoragePoolVolumeUmount_result : bool * option error;
  TryRunCommand_result : list string -> string * option error
}.

Definition quote : string := String (ascii_of_nat 34) EmptyString.

(** [shrinkFileSystem(fsType, devPath, mntpoint, byteSize)]: the commands
    run, and the error. *)
Definition shrinkFileSystem (w : shrinkWorld) (fsType devPath mntpoint : string)
    (byteSize : Z) : list step * option error :=
  let strSize := itoa (Z.quot byteSize 1024) +:+ "K" in
  if (String.eqb fsType "" || String.eqb fsType "ext4")%bool then
    let fsck := ["e2fsck"; "-f"; "-y"; devPath] in
    match snd (TryRunCommand_result w fsck) with
    | Some err => ([TryRunCommand fsck], Some err)
    | None =>
        let resize := ["resize2fs"; devPath; strSize] in
        match snd (TryRunCommand_result w resize) with
        | Some err => ([TryRunCommand fsck; TryRunCommand resize], Some err)
        | None => ([TryRunCommand fsck; TryRunCommand resize], None)
        end
    end
  else if String.eqb fsType "btrfs" then
    let resize := ["btrfs"; "filesystem"; "resize"; strSize; mntpoint] in
    match snd (TryRunCommand_result w resize) with
    | Some err => ([TryRunCommand resize], Some err)
    | None => ([TryRunCommand resize], None)
    end
  else
    ([], Some (Errorf ("Shrinking not supported for filesystem type "
                       +:+ quote +:+ fsType +:+ quote))).

Section VolumeTypes.

(** The volume type constants, declared in a file outside the embedded
    ones. *)
Variable storagePoolVolumeTypeContainer : Z.
Variable storagePoolVolumeTypeCustom : Z.

(** [shrinkVolumeFilesystem(s, volumeType, fsType, devPath, mntpoint,
    byteSize, data)], for [data] holding the container when the volume is
    one: the steps taken, the clean-up function and the error. *)
Definition shrinkVolumeFilesystem (w : shrinkWorld) (volumeType : Z)
    (fsType devPath mntpoint : string) (byteSize : Z)
  : list step * option cleanupFunc * option error :=
  if String.eqb fsType "xfs" then
    ([], None,
     Some (Errorf "xfs filesystems cannot be shrunk: dump, mkfs, and restore are required"))
  else if (String.eqb fsType "btrfs" || String.eqb fsType "" || String.eqb fsType "ext4")%bool
  then
    let unmounted : list step * option cleanupFunc * option error :=
      if volumeType =? storagePoolVolumeTypeContainer then
        match StorageStop_result w with
        | (_, Some err) => ([StorageStop], None, Some err)
        | (ourMount, None) =>
            ([StorageStop], if negb ourMount then Some StorageStart else None, None)
        end
      else if volumeType =? storagePoolVolumeTypeCustom then
        match StoragePoolVolumeUmount_result w with
        | (_, Some err) => ([StoragePoolVolumeUmount], None, Some err)
        | (ourMount, None) =>
            ([StoragePoolVolumeUmount],
             if negb ourMount then Some StoragePoolVolumeMount else None, None)
        end
      else
        ([], None,
         Some (Errorf ("Resizing not implemented for storage volume type "
                       +:+ itoa volumeType))) in
    match unmounted with
    | (steps, cleanup, Some err) => (steps, cleanup, Some err)
    | (steps, cleanup, None) =>
        let '(commands, err) := shrinkFileSystem w fsType devPath mntpoint byteSize in
        (steps ++ commands, cleanup, err)
    end
  else
    ([], None,
     Some (Errorf ("Shrinking not supported for filesystem type "
                   +:+ quote +:+ fsType +:+ quote))).

End VolumeTypes.

End StorageUtils.

(** *** The [raw.lxc] helpers ([lxcSetConfigItem], [lxcParseRawLXC],
    [lxcValidConfig]) *)

Module RawLXC.
Import Go GoText.

(** The tab, and the two cutsets of [lxcParseRawLXC]. *)
Definition tab : ascii := ascii_of_nat 9.
Definition tabSpace : string := String tab (String " " EmptyString).
Definition spaceTab : string := String " " (String tab EmptyString).

(** The [switch key] of [lxcSetConfigItem]: the key of liblxc 2.1 and the
    key older versions know it by. *)
Definition legacyKeys : list (string * string) :=
  [ ("lxc.uts.name", "lxc.utsname");
    ("lxc.pty.max", "lxc.pts");
    ("lxc.tty.dir", "lxc.devttydir");
    ("lxc.tty.max", "lxc.tty");
    ("lxc.apparmor.profile", "lxc.aa_profile");
    ("lxc.apparmor.allow_incomplete", "lxc.aa_allow_incomplete");
    ("lxc.selinux.context", "lxc.se_context");
    ("lxc.mount.fstab", "lxc.mount");
    ("lxc.console.path", "lxc.console");
    ("lxc.seccomp.profile", "lxc.seccomp");
    ("lxc.signal.halt", "lxc.haltsignal");
    ("lxc.signal.reboot", "lxc.rebootsignal");
    ("lxc.signal.stop", "lxc.stopsignal");
    ("lxc.log.syslog", "lxc.syslog");
    ("lxc.log.level", "lxc.loglevel");
    ("lxc.log.file", "lxc.logfile");
    ("lxc.init.cmd", "lxc.init_cmd");
    ("lxc.init.uid", "lxc.init_uid");
    ("lxc.init.gid", "lxc.init_gid");
    ("lxc.idmap", "lxc.id_map") ].

Definition legacyKey (key : string) : string :=
  match find (fun entry => String.eqb key (fst entry)) legacyKeys with
  | Some (_, old) => old
  | None => key
  end.

(** [lxcSetConfigItem(c, key, value)]: the calls of [c.SetConfigItem], each
    with its key and value, and the error.  [initialized] is [c != nil],
    [atLeast_2_1_0] is [util.RuntimeLiblxcVersionAtLeast(2, 1, 0)]. *)
Definition lxcSetConfigItem (initialized atLeast_2_1_0 : bool)
    (SetConfigItem : string -> string -> option error) (key value : string)
  : list (string * string) * option error :=
  if negb initialized then ([], Some (Errorf "Uninitialized go-lxc struct"))
  else
    let key := if negb atLeast_2_1_0 then legacyKey key else key in
    if (HasPrefix key "lxc.prlimit." && negb atLeast_2_1_0)%bool then
      ([], Some (Errorf "Process limits require liblxc >= 2.1"))
    else
      match SetConfigItem key value with
      | Some _ =>
          ([(key, value)],
           Some (Errorf ("Failed to set LXC config: " +:+ key +:+ "=" +:+ value)))
      | None => ([(key, value)], None)
      end.

Section Lower.

(** [strings.ToLower], [shared.IsTrue] and [shared.StringInSlice], from
    outside the embedded files. *)
Variable ToLower : string -> string.
Variable IsTrue : string -> bool.
Variable StringInSlice : string -> list string -> bool.

(** [lxcParseRawLXC(line)]: the key and the value. *)
Definition lxcParseRawLXC (line : string) : result (string * string) :=
  if (String.length line =? 0)%nat then Ok ("", "")
  else
    let line := TrimLeft line tabSpace in
    if HasPrefix line "#" then Ok ("", "")
    else
      match SplitN2 "=" line with
      | [key; val] => Ok (ToLower (Trim key spaceTab), Trim val spaceTab)
      | _ => Err (Errorf ("Invalid raw.lxc line: " +:+ line))
      end.

Definition processLimitsError : error :=
  Errorf ("Process limits should be set via " +:+ String (ascii_of_nat 34)
            "limits.kernel.[limit name]" +:+ String (ascii_of_nat 34)
            " and not directly via " +:+ String (ascii_of_nat 34)
            "lxc.prlimit.[limit name]" +:+ String (ascii_of_nat 34) EmptyString).

(** One turn of the loop of [lxcValidConfig], after the line is parsed to
    a key that is not empty: the error returned, or [None] when the loop
    goes on.  [unprivOnly] is the value of [LXD_UNPRIVILEGED_ONLY] in the
    environment. *)
Definition checkKey (unprivOnly : string) (atLeast_2_1_0 : bool) (key : string)
  : option error :=
  if (IsTrue unprivOnly
      && (String.eqb key "lxc.idmap" || String.eqb key "lxc.id_map"
          || String.eqb key "lxc.include"))%bool
  then Some (Errorf (key +:+ " can't be set in raw.lxc as LXD was configured to only allow unprivileged containers"))
  else if (String.eqb key "lxc.logfile" || String.eqb key "lxc.log.file")%bool
  then Some (Errorf "Setting lxc.logfile is not allowed")
  else if (String.eqb key "lxc.syslog" || String.eqb key "lxc.log.syslog")%bool
  then Some (Errorf "Setting lxc.log.syslog is not allowed")
  else if String.eqb key "lxc.ephemeral"
  then Some (Errorf "Setting lxc.ephemeral is not allowed")
  else if HasPrefix key "lxc.prlimit."
  then Some processLimitsError
  else
    let networkKeyPrefix := if negb atLeast_2_1_0 then "lxc.network." else "lxc.net." in
    if HasPrefix key networkKeyPrefix then
      let fields := Split "." key in
      let ipField := StringInSlice (nth 3 fields "") ["ipv4"; "ipv6"] in
      let allowed :=
        if negb atLeast_2_1_0 then
          (((length fields =? 4)%nat && ipField)
           || ((length fields =? 5)%nat && ipField
               && String.eqb (nth 4 fields "") "gateway"))%bool
        else
          (((length fields =? 5)%nat && ipField
            && String.eqb (nth 4 fields "") "address")
           || ((length fields =? 5)%nat && ipField
               && String.eqb (nth 4 fields "") "gateway"))%bool in
      if allowed then None
      else Some (Errorf ("Only interface-specific ipv4/ipv6 " +:+ networkKeyPrefix
                         +:+ " keys are allowed"))
    else None.

(** [for _, line := range strings.Split(rawLxc, "\n")]. *)
Fixpoint checkLines (unprivOnly : string) (atLeast_2_1_0 : bool) (lines : list string)
  : option error :=
  match lines with
  | [] => None
  | line :: lines' =>
      match lxcParseRawLXC line with
      | Err err => Some err
      | Ok (key, _) =>
          if String.eqb key "" then checkLines unprivOnly atLeast_2_1_0 lines'
          else
            match checkKey unprivOnly atLeast_2_1_0 key with
            | Some err => Some err
            | None => checkLines unprivOnly atLeast_2_1_0 lines'
            end
      end
  end.

(** [lxcValidConfig(rawLxc)]. *)
Definition lxcValidConfig (unprivOnly : string) (atLeast_2_1_0 : bool) (rawLxc : string)
  : option error :=
  checkLines unprivOnly atLeast_2_1_0 (Split (ascii_of_nat 10) rawLxc).

End Lower.

End RawLXC.

(** *** The volatile keys of a device ([deviceVolatileGetFunc],
    [deviceVolatileSetFunc]) *)

Module DeviceVolatile.
Import Go GoText ConfigKeys.

Section Ranges.

(** The orders in which the [range] loops yield the entries: of
    [c.localConfig], of [save], and of the changes inside [VolatileSet]. *)
Variable rangeLocalConfig : list (string * string) -> list (string * string).
Variable rangeSave : list (string * string) -> list (string * string).
Variable rangeChanges : list (string * string) -> list (string * string).

(** The function [c.deviceVolatileGetFunc(devName)] returns, called on the
    container [c]. *)
Definition deviceVolatileGetFunc (c : configs) (devName : string) : gmap string string :=
  let prefix := "volatile." +:+ devName +:+ "." in
  fold_left
    (fun (volatile : gmap string string) '(k, v) =>
       if HasPrefix k prefix then <[TrimPrefix k prefix := v]> volatile else volatile)
    (rangeLocalConfig (map_to_list (localConfig c))) ∅.

(** The function [c.deviceVolatileSetFunc(devName)] returns, called with
    [save]: the container's maps after the call, the database calls and
    the error.  [transaction] is the result of the database transaction
    of [VolatileSet]. *)
Definition deviceVolatileSetFunc (c : configs) (devName : string)
    (save : gmap string string) (transaction : option error)
  : configs * list dbCall * option error :=
  let volatileSave :=
    fold_left
      (fun (volatileSave : gmap string string) '(k, v) =>
         <["volatile." +:+ devName +:+ "." +:+ k := v]> volatileSave)
      (rangeSave (map_to_list save)) ∅ in
  VolatileSet rangeChanges c volatileSave transaction.

End Ranges.

End DeviceVolatile.

(** *** A new MAC address ([deviceNextInterfaceHWAddr]) *)

Module HWAddr.
Import Go.

(** [fmt.Sprintf("%x", n)] for an int64: the digits in base 16, lower
    case, behind a minus sign when [n] is negative. *)
Definition hexDigit (d : Z) : ascii :=
  if d <? 10 then ascii_of_nat (Z.to_nat (48 + d)) else ascii_of_nat (Z.to_nat (87 + d)).

Fixpoint hex_go (fuel : nat) (n : Z) (acc : string) : string :=
  match fuel with
  | O => acc
  | S fuel' =>
      let acc' := String (hexDigit (n mod 16)) acc in
      if n <? 16 then acc' else hex_go fuel' (n / 16) acc'
  end.

Definition Sprintf_x (n : Z) : string :=
  if n <? 0 then "-" +:+ hex_go 17 (- n) "" else hex_go 17 n "".

(** [for _, c := range template], from the draw with number [i] on;
    [rand i] is what the call of [rand.Int(rand.Reader, big.NewInt(16))]
    with that number returns. *)
Fixpoint fill (template : string) (rand : nat -> result Z) (i : nat) (ret : string)
  : result string :=
  match template with
  | EmptyString => Ok ret
  | String c template' =>
      if Ascii.eqb c "x" then
        match rand i with
        | Err err => Err err
        | Ok c => fill template' rand (S i) (ret +:+ Sprintf_x c)
        end
      else fill template' rand i (ret +:+ String c EmptyString)
  end.

(** [deviceNextInterfaceHWAddr()]. *)
Definition deviceNextInterfaceHWAddr (rand : nat -> result Z) : result string :=
  fill "00:16:3e:xx:xx:xx" rand 0 "".

End HWAddr.

(** ** Part II: properties *)

(** *** Mount options *)

Section MountFacts.
Import Go Mount.

Example Split_example : Split "," "ro,,bind" = ["ro"; ""; "bind"].
Proof. reflexivity. Qed.

Example lxdResolveMountoptions_example :
  lxdResolveMountoptions "ro,size=1G,nosuid,rw,uid=0"
  = Some (unix.MS_NOSUID, "size=1G,uid=0").
Proof. vm_compute. reflexivity. Qed.

(** The three slice statements together delete the element at [i]. *)
Lemma removeAt_delete (i : nat) (tmp : list string) :
  (i < length tmp)%nat ->
  removeAt i tmp = take i tmp ++ drop (S i) tmp.
Proof.
  intros Hi. unfold removeAt.
  set (n := length tmp).
  assert (Hlen : length (take i tmp ++ drop (S i) tmp) = (n - 1)%nat).
  { rewrite length_app, length_take, length_drop. subst n. lia. }
  rewrite app_assoc.
  rewrite insert_app_r_alt by lia.
  rewrite take_app_le by lia.
  rewrite take_ge by lia. reflexivity.
Qed.

Lemma resolveLoop_filter (fuel i : nat) (tmp : list string) (mountFlags : Z) :
  (i <= length tmp)%nat ->
  (length tmp - i < fuel)%nat ->
  resolveLoop fuel (Z.of_nat i) tmp mountFlags
  = Some (fold_left foldOption (List.filter recognized (drop i tmp)) mountFlags,
          take i tmp ++ List.filter (fun o => negb (recognized o)) (drop i tmp)).
Proof.
  revert i tmp mountFlags.
  induction fuel as [|fuel IH]; intros i tmp mountFlags Hi Hfuel; [lia|].
  cbn [resolveLoop].
  destruct (Z.ltb_spec (Z.of_nat i) (Z.of_nat (length tmp))) as [Hlt|Hge].
  - rewrite Nat2Z.id.
    destruct (lookup_lt_is_Some_2 tmp i ltac:(lia)) as [opt Hopt].
    rewrite Hopt.
    rewrite (drop_S tmp opt i Hopt). cbn [List.filter].
    destruct (MountOptions !! opt) as [do|] eqn:Hdo.
    + assert (Hr : recognized opt = true) by (unfold recognized; now rewrite Hdo).
      assert (Hf : foldOption mountFlags opt = applyOption mountFlags do)
        by (unfold foldOption; now rewrite Hdo).
      rewrite Hr. cbn [negb fold_left]. rewrite Hf.
      replace (Z.of_nat i - 1 + 1) with (Z.of_nat i) by lia.
      rewrite removeAt_delete by lia.
      rewrite IH.
      * rewrite drop_app_length' by (rewrite length_take; lia).
        rewrite take_app_length' by (rewrite length_take; lia).
        reflexivity.
      * rewrite length_app, length_take, length_drop. lia.
      * rewrite length_app, length_take, length_drop. lia.
    + assert (Hr : recognized opt = false) by (unfold recognized; now rewrite Hdo).
      rewrite Hr. cbn [negb].
      replace (Z.of_nat i + 1) with (Z.of_nat (S i)) by lia.
      rewrite IH by lia.
      rewrite (take_S_r tmp i opt Hopt), <- app_assoc. reflexivity.
  - assert (i = length tmp) as -> by lia.
    rewrite drop_all, take_ge by lia. cbn. rewrite app_nil_r. reflexivity.
Qed.

(** C9.  For every mount-options string, [lxdResolveMountoptions] returns
    a result (the loop never runs out of turns); the returned string is the
    comma-separated tokens of the input that are not keys of
    [MountOptions], in their original order and joined by commas again;
    the returned flags are the fold, from 0 and in order, over the tokens
    that are keys of the table, each either OR-ing its flag in (capture
    true) or clearing it (capture false). *)
Theorem lxdResolveMountoptions_spec (options : string) :
  lxdResolveMountoptions options
  = Some (fold_left
            (fun mountFlags opt =>
               match MountOptions !! opt with
               | Some do =>
                   if capture do then Z.lor mountFlags (flag do)
                   else Z.land mountFlags (not64 (flag do))
               | None => mountFlags
               end)
            (List.filter (fun opt => bool_decide (is_Some (MountOptions !! opt)))
                         (Split "," options))
            0,
          Join (List.filter (fun opt => negb (bool_decide (is_Some (MountOptions !! opt))))
                            (Split "," options))
               ",").
Proof.
  unfold lxdResolveMountoptions.
  rewrite (resolveLoop_filter _ 0 (Split "," options) 0) by (cbn; lia).
  rewrite drop_0. cbn [take app].
  assert (Hrec : forall opt, recognized opt = bool_decide (is_Some (MountOptions !! opt))).
  { intros opt. unfold recognized.
    destruct (MountOptions !! opt) eqn:E.
    - symmetry. apply bool_decide_eq_true. eauto.
    - symmetry. apply bool_decide_eq_false. intros [? ?]; discriminate. }
  f_equal. f_equal.
  - rewrite (List.filter_ext _ _ Hrec). reflexivity.
  - f_equal. apply List.filter_ext. intros opt. now rewrite Hrec.
Qed.

End MountFacts.

(** *** Cpuset strings *)

Section CpusetFacts.
Import Go Cpuset.

Example parseCpuset_example :
  parseCpuset "0-3,6" = Some (Ok [0; 1; 2; 3; 6]).
Proof. vm_compute. reflexivity. Qed.

Example parseCpuset_empty_range : parseCpuset "3-1,7" = Some (Ok [7]).
Proof. vm_compute. reflexivity. Qed.

Example parseCpuset_second_dash : parseCpuset "1--2" = Some (Ok []).
Proof. vm_compute. reflexivity. Qed.

Example parseCpuset_plus : parseCpuset "+5" = Some (Ok [5]).
Proof. vm_compute. reflexivity. Qed.

Example parseCpuset_empty : parseCpuset "" = Some (Err (Errorf "Invalid cpuset value: ")).
Proof. vm_compute. reflexivity. Qed.

Lemma parse_digits_nonneg (s : string) (acc z : Z) :
  0 <= acc -> parse_digits acc s = Some z -> 0 <= z.
Proof.
  revert acc. induction s as [|c s IH]; intros acc Hacc; cbn.
  - intros [= <-]. exact Hacc.
  - unfold digit_val.
    destruct ((48 <=? nat_of_ascii c)%nat && (nat_of_ascii c <=? 57)%nat)%bool eqn:E;
      [|discriminate].
    apply andb_true_iff in E as [E1 E2].
    apply Nat.leb_le in E1. apply Nat.leb_le in E2.
    apply IH. lia.
Qed.

Lemma Atoi_range (s : string) (z : Z) :
  Atoi s = Some z -> minInt64 <= z <= maxInt64.
Proof.
  unfold Atoi, ParseInt, minInt64, maxInt64.
  destruct s as [|c rest]; [discriminate|].
  set (body := if (_ || _)%bool then rest else String c rest).
  destruct (parse_unsigned body) as [un|] eqn:Hun; [|discriminate].
  assert (0 <= un).
  { unfold parse_unsigned in Hun. destruct body; [discriminate|].
    eapply parse_digits_nonneg; [|exact Hun]. lia. }
  destruct (Ascii.eqb c "-").
  - destruct (Z.leb_spec un (2 ^ 63)); [|discriminate]. intros [= <-]. lia.
  - destruct (Z.ltb_spec un (2 ^ 63)); [|discriminate]. intros [= <-]. lia.
Qed.

Lemma wrap64_range (z : Z) : minInt64 <= wrap64 z <= maxInt64.
Proof.
  unfold wrap64, minInt64, maxInt64.
  pose proof (Z.mod_pos_bound (z + 2 ^ 63) (2 ^ 64) ltac:(lia)). lia.
Qed.

Lemma wrap64_id (z : Z) : minInt64 <= z <= maxInt64 -> wrap64 z = z.
Proof.
  unfold wrap64, minInt64, maxInt64. intros H.
  rewrite Z.mod_small by lia. lia.
Qed.

(** A range loop whose bound is below the largest int ends, having
    appended [i .. high]. *)
Lemma forRange_ends (fuel : nat) (i high : Z) (cpus : list Z) :
  minInt64 <= i <= maxInt64 -> high < maxInt64 ->
  (Z.to_nat (high - i + 1) < fuel)%nat ->
  forRange fuel i high cpus = Some (cpus ++ seqZ i (high - i + 1)).
Proof.
  revert i cpus. induction fuel as [|fuel IH]; intros i cpus Hi Hh Hf; [lia|].
  cbn [forRange]. destruct (Z.leb_spec i high) as [Hle|Hgt].
  - unfold add64. rewrite wrap64_id by lia.
    rewrite IH by (unfold minInt64, maxInt64 in *; lia).
    rewrite <- app_assoc. cbn [app].
    rewrite (seqZ_cons i (high - i + 1)) by lia.
    replace (Z.succ i) with (i + 1) by lia.
    replace (Z.pred (high - i + 1)) with (high - (i + 1) + 1) by lia.
    reflexivity.
  - rewrite seqZ_nil by lia. now rewrite app_nil_r.
Qed.

(** A range loop up to the largest int never ends. *)
Lemma forRange_diverges (fuel : nat) (i : Z) (cpus : list Z) :
  minInt64 <= i <= maxInt64 -> forRange fuel i maxInt64 cpus = None.
Proof.
  revert i cpus. induction fuel as [|fuel IH]; intros i cpus Hi; [reflexivity|].
  cbn [forRange]. destruct (Z.leb_spec i maxInt64); [|lia].
  apply IH. apply wrap64_range.
Qed.

Lemma Contains_cut (sep : ascii) (s : string) :
  Contains sep s = match cut sep s with Some _ => true | None => false end.
Proof. reflexivity. Qed.

(** One turn of the loop, in terms of [chunk_ok], [chunk_ends] and
    [chunk_cpus]. *)
Lemma parseChunk_spec (cpu chunk : string) (cpus : list Z) :
  parseChunk cpu chunk cpus
  = if chunk_ok chunk then
      if chunk_ends chunk then Some (Ok (cpus ++ chunk_cpus chunk)) else None
    else Some (Err (invalid cpu)).
Proof.
  unfold parseChunk, chunk_ok, chunk_ends, chunk_cpus, Contains, SplitN2.
  destruct (cut "-" chunk) as [[low_s high_s]|].
  - destruct (Atoi low_s) as [low|] eqn:Hlow; [|reflexivity].
    destruct (Atoi high_s) as [high|] eqn:Hhigh; [|reflexivity].
    pose proof (Atoi_range _ _ Hlow). pose proof (Atoi_range _ _ Hhigh).
    destruct (Z.eqb_spec high maxInt64) as [->|Hne]; cbn [negb].
    + now rewrite forRange_diverges.
    + rewrite forRange_ends by lia. reflexivity.
  - destruct (Atoi chunk); reflexivity.
Qed.

Lemma parseChunks_all_ok (cpu : string) (chunks : list string) (cpus : list Z) :
  Forall (fun c => chunk_ok c = true /\ chunk_ends c = true) chunks ->
  parseChunks cpu chunks cpus = Some (Ok (cpus ++ flat_map chunk_cpus chunks)).
Proof.
  intros H. revert cpus. induction H as [|c chunks [Hok Hends] _ IH]; intros cpus; cbn.
  - now rewrite app_nil_r.
  - rewrite parseChunk_spec, Hok, Hends, IH, <- app_assoc. reflexivity.
Qed.

Lemma parseChunks_error_iff (cpu : string) (chunks : list string) (cpus : list Z) :
  (exists err, parseChunks cpu chunks cpus = Some (Err err))
  <-> exists pre chunk post,
        chunks = pre ++ chunk :: post
        /\ Forall (fun c => chunk_ok c = true /\ chunk_ends c = true) pre
        /\ chunk_ok chunk = false.
Proof.
  revert cpus. induction chunks as [|c chunks IH]; intros cpus; cbn.
  - split.
    + intros [err [=]].
    + intros (pre & chunk & post & Heq & _). destruct pre; discriminate.
  - rewrite parseChunk_spec.
    destruct (chunk_ok c) eqn:Hok.
    + destruct (chunk_ends c) eqn:Hends.
      * rewrite IH. split.
        -- intros (pre & chunk & post & -> & Hpre & Hbad).
           exists (c :: pre), chunk, post. repeat split; auto.
        -- intros (pre & chunk & post & Heq & Hpre & Hbad).
           destruct pre as [|c' pre]; cbn in Heq.
           ++ injection Heq as -> ->. congruence.
           ++ injection Heq as -> ->. inversion Hpre; subst.
              exists pre, chunk, post. auto.
      * split.
        -- intros [err [=]].
        -- intros (pre & chunk & post & Heq & Hpre & Hbad).
           destruct pre as [|c' pre]; cbn in Heq.
           ++ injection Heq as -> ->. congruence.
           ++ injection Heq as -> ->. inversion Hpre as [|? ? [_ ?]]; subst. congruence.
    + split.
      * intros _. exists [], c, chunks. auto.
      * intros _. eauto.
Qed.

(** C10, refuted as stated: the input ["-5"] has one chunk, which is a
    decimal integer, and [parseCpuset] returns an error for it, because
    the chunk contains a dash and the text before its first dash is empty. *)
Lemma parseCpuset_negative_integer_is_error :
  ~ (forall cpu : string,
       (exists err, parseCpuset cpu = Some (Err err))
       <-> (exists chunk, In chunk (Split "," cpu)
                          /\ ~ decimal_integer chunk /\ ~ range_form chunk)).
Proof.
  intros H. destruct (H "-5") as [H1 _].
  destruct H1 as (chunk & Hin & Hdec & _).
  - exists (Errorf "Invalid cpuset value: -5"). vm_compute. reflexivity.
  - cbn in Hin. destruct Hin as [<-|[]].
    apply Hdec. exists (-5). vm_compute. reflexivity.
Qed.

(** C10, amended.  [parseCpuset] returns an error exactly when some
    comma-separated chunk is malformed and every chunk before it is
    well-formed with a range loop that ends; a chunk containing a dash is
    well-formed when the texts before and after its first dash are both
    decimal integers, a chunk without a dash when it is a decimal integer.
    When every chunk is well-formed (and no range ends at the largest
    int), the result is the concatenation, in order, of [low .. high] for
    a chunk low-high (nothing when [low > high]) and of the single integer
    for a plain chunk. *)
Theorem parseCpuset_error_exactly (cpu : string) :
  ((exists err, parseCpuset cpu = Some (Err err))
   <-> exists pre chunk post,
         Split "," cpu = pre ++ chunk :: post
         /\ Forall (fun c => chunk_ok c = true /\ chunk_ends c = true) pre
         /\ chunk_ok chunk = false)
  /\ (forall err, parseCpuset cpu = Some (Err err) ->
        err = Errorf ("Invalid cpuset value: " +:+ cpu))
  /\ (Forall (fun c => chunk_ok c = true /\ chunk_ends c = true) (Split "," cpu) ->
      parseCpuset cpu = Some (Ok (flat_map chunk_cpus (Split "," cpu))))
  /\ (forall chunk low_s high_s low high,
        cut "-" chunk = Some (low_s, high_s) ->
        Atoi low_s = Some low -> Atoi high_s = Some high ->
        chunk_ok chunk = true
        /\ (forall x, In x (chunk_cpus chunk) <-> low <= x <= high)
        /\ (high < low -> chunk_cpus chunk = []))
  /\ (forall chunk nr,
        cut "-" chunk = None -> Atoi chunk = Some nr ->
        chunk_ok chunk = true /\ chunk_cpus chunk = [nr]).
Proof.
  unfold parseCpuset.
  split; [apply parseChunks_error_iff|].
  split.
  { generalize (@nil Z).
    induction (Split "," cpu) as [|c chunks IH]; intros cpus err; cbn; [discriminate|].
    rewrite parseChunk_spec.
    destruct (chunk_ok c); [destruct (chunk_ends c)|]; try discriminate.
    - apply IH.
    - now intros [= <-]. }
  split; [intros Hall; now rewrite parseChunks_all_ok|].
  split.
  - intros chunk low_s high_s low high Hcut Hlow Hhigh.
    unfold chunk_ok, chunk_cpus. rewrite Hcut, Hlow, Hhigh.
    split; [reflexivity|]. split.
    + intros x. rewrite <- list_elem_of_In, elem_of_seqZ. lia.
    + intros Hlt. apply seqZ_nil. lia.
  - intros chunk nr Hcut Hnr.
    unfold chunk_ok, chunk_cpus. now rewrite Hcut, Hnr.
Qed.

(** The amended statement at ["3-1,7"]: accepted, and the empty range
    contributes nothing. *)
Lemma parseCpuset_error_exactly_witness :
  Forall (fun c => chunk_ok c = true /\ chunk_ends c = true) (Split "," "3-1,7")
  /\ parseCpuset "3-1,7" = Some (Ok [7]).
Proof.
  assert (H : Forall (fun c => chunk_ok c = true /\ chunk_ends c = true)
                     (Split "," "3-1,7")).
  { repeat constructor. }
  split; [exact H|].
  exact (proj1 (proj2 (proj2 (parseCpuset_error_exactly "3-1,7"))) H).
Defined.

End CpusetFacts.
(** *** The idmap planner *)

(** [shared.IsTrue] as the [shared] package defines it, for the concrete
    runs below: the lower-cased text is one of true, 1, yes, on.  The
    values used here are lower-case already. *)
Definition IsTrue_lower (value : string) : bool :=
  bool_decide (value ∈ ["true"; "1"; "yes"; "on"]).

(** An [AddSafe] that adds the entry and reports no error; the runs below
    pass no raw idmap, so it is never called. *)
Definition AddSafe_append (set : list Idmap.IdmapEntry) (ent : Idmap.IdmapEntry)
  : list Idmap.IdmapEntry * option Go.error := (set ++ [ent], None).

(** The rendering of the host map in the error of [idmapSize]; the runs
    below have a host map of two entries, so it is never printed. *)
Definition formatIdmapSet_unused (set : list Idmap.IdmapEntry) : string := "".

Section IdmapFacts.
Import Go Idmap.

Definition isolatedContainer (name base : string) : container :=
  {| Name := name;
     ExpandedConfig := {[ "security.idmap.isolated" := "true";
                          "volatile.idmap.base" := base ]} |}.

Definition hostMap : list IdmapEntry :=
  [ {| Isuid := true;  Isgid := false; Hostid := 1000000; Nsid := 0; Maprange := 1000000000 |};
    {| Isuid := false; Isgid := true;  Hostid := 1000000; Nsid := 0; Maprange := 1000000000 |} ].

Definition returnedBase (r : option (result (list IdmapEntry * Z))) : option Z :=
  match r with Some (Ok (_, offset)) => Some offset | _ => None end.

Definition recordedEntry (base size : Z) : IdmapEntry :=
  {| Isuid := false; Isgid := false; Hostid := base; Nsid := 0; Maprange := size |}.

Example findIdmap_first :
  returnedBase (findIdmap IsTrue_lower AddSafe_append insertionSortByHostid
                  formatIdmapSet_unused hostMap (Ok []) "a" "true" "" "" "")
  = Some 1065536.
Proof. vm_compute. reflexivity. Qed.

Example findIdmap_second :
  returnedBase (findIdmap IsTrue_lower AddSafe_append insertionSortByHostid
                  formatIdmapSet_unused hostMap
                  (Ok [isolatedContainer "a" "1065536"]) "b" "true" "" "" "")
  = Some 1131072.
Proof. vm_compute. reflexivity. Qed.

(** The scan can also leave the host range: with one container recorded
    at a base below the host map, the next container is placed right
    after it, below host base + 65536. *)
Example findIdmap_below_host_base :
  returnedBase (findIdmap IsTrue_lower AddSafe_append insertionSortByHostid
                  formatIdmapSet_unused hostMap
                  (Ok [isolatedContainer "low" "1000"]) "b" "true" "" "" "")
  = Some 66536.
Proof. vm_compute. reflexivity. Qed.

(** With a range recorded beyond the host map, the range returned at the
    first turn of the scan ends after the host range: that return makes
    no check against the end of the host range. *)
Example findIdmap_beyond_host_range :
  let host := [ {| Isuid := true;  Isgid := false; Hostid := 1000000; Nsid := 0;
                   Maprange := 100000 |};
                {| Isuid := false; Isgid := true;  Hostid := 1000000; Nsid := 0;
                   Maprange := 100000 |} ] in
  returnedBase (findIdmap IsTrue_lower AddSafe_append insertionSortByHostid
                  formatIdmapSet_unused host
                  (Ok [isolatedContainer "far" "2000000"]) "b" "true" "" "" "")
  = Some 1065536
  /\ 1000000 + 100000 < 1065536 + 65536.
Proof. split; [vm_compute; reflexivity|lia]. Qed.

Lemma insertByHostid_Permutation (e : IdmapEntry) (sorted : list IdmapEntry) :
  Permutation (insertByHostid e sorted) (e :: sorted).
Proof.
  induction sorted as [|x sorted IH]; cbn; [reflexivity|].
  destruct (_ <? _); [reflexivity|].
  rewrite IH. apply perm_swap.
Qed.

Lemma insertByHostid_sorted (e : IdmapEntry) (sorted : list IdmapEntry) :
  StronglySorted (fun a b => Hostid a <= Hostid b) sorted ->
  StronglySorted (fun a b => Hostid a <= Hostid b) (insertByHostid e sorted).
Proof.
  induction 1 as [|x sorted Hs IH Hx]; cbn.
  - repeat constructor.
  - destruct (Z.ltb_spec (Hostid e) (Hostid x)) as [Hlt|Hge].
    + constructor; [constructor; assumption|].
      constructor; [lia|].
      eapply Forall_impl; [exact Hx|]. cbn. intros; lia.
    + constructor; [exact IH|].
      rewrite (insertByHostid_Permutation e sorted).
      constructor; [lia|exact Hx].
Qed.

Lemma insertionSortByHostid_sorts : sorts_by_hostid insertionSortByHostid.
Proof.
  intros l. unfold insertionSortByHostid.
  assert (H : forall acc,
             StronglySorted (fun a b => Hostid a <= Hostid b) acc ->
             Permutation (fold_left (fun sorted e => insertByHostid e sorted) l acc)
                         (acc ++ l)
             /\ StronglySorted (fun a b => Hostid a <= Hostid b)
                  (fold_left (fun sorted e => insertByHostid e sorted) l acc)).
  { induction l as [|x l IH]; intros acc Hacc; cbn [fold_left].
    - rewrite app_nil_r. auto.
    - destruct (IH (insertByHostid x acc) (insertByHostid_sorted _ _ Hacc)) as [Hp Hs].
      split; [|exact Hs].
      rewrite Hp, insertByHostid_Permutation. cbn [app].
      apply Permutation_middle. }
  destruct (H [] ltac:(constructor)) as [Hp Hs]. auto.
Qed.

(** Two entries in ascending order of [Hostid], the first strictly below
    the second, are left as they are by every sort. *)
Lemma sorts_by_hostid_pair (sort : list IdmapEntry -> list IdmapEntry)
    (a b : IdmapEntry) :
  sorts_by_hostid sort -> Hostid a < Hostid b -> sort [a; b] = [a; b].
Proof.
  intros Hsort Hlt. destruct (Hsort [a; b]) as [Hperm Hsorted].
  apply Permutation_sym, Permutation_length_2_inv in Hperm as [Heq|Heq];
    [exact Heq|].
  rewrite Heq in Hsorted. apply StronglySorted_inv in Hsorted as [_ Hall].
  apply Forall_inv in Hall. lia.
Qed.

(** [findIdmap] for an isolated container without a base of its own: the
    scan over the sorted recorded ranges decides. *)
Lemma findIdmap_scan
    (IsTrue : string -> bool)
    (AddSafe : list IdmapEntry -> IdmapEntry -> list IdmapEntry * option error)
    (sort : list IdmapEntry -> list IdmapEntry)
    (formatIdmapSet : list IdmapEntry -> string)
    (host0 : IdmapEntry) (hostRest : list IdmapEntry) (cts : list container)
    (cName isolatedStr configSize rawIdmap : string)
    (rawMaps recorded : list IdmapEntry) (size : Z) :
  IsTrue isolatedStr = true ->
  parseRawIdmap AddSafe rawIdmap = Ok rawMaps ->
  idmapSize IsTrue formatIdmapSet (host0 :: hostRest) isolatedStr configSize = Ok size ->
  recordedRanges IsTrue formatIdmapSet (host0 :: hostRest) cName cts [] = Ok recorded ->
  findIdmap IsTrue AddSafe sort formatIdmapSet (host0 :: hostRest) (Ok cts)
    cName isolatedStr "" configSize rawIdmap
  = match firstFit host0 (sort recorded) size with
    | Some offset =>
        match mkIdmap AddSafe rawMaps offset size with
        | Err e => Some (Err e)
        | Ok set => Some (Ok (set, offset))
        end
    | None => Some (Err notEnough)
    end.
Proof.
  intros Hiso Hraw Hsize Hrec. unfold findIdmap.
  rewrite Hraw, Hiso, Hsize. cbn [negb String.eqb]. now rewrite Hrec.
Qed.

(** C1: the scan passes over a gap that fits exactly.  Three isolated
    containers [a], [d] and [c] hold 65536 ids each at 1065536, 1131072
    and 1196608.  When [findIdmap] runs again for [d], its own range is
    left out of the recorded ranges, so the 65536 ids from 1131072 are
    free: at or above host base + 65536, inside the host range, and
    shared with no recorded range.  The scan asks for a gap strictly
    larger than the size after the first range, passes over them and
    returns 1262144, whatever order the sort leaves equal entries in: not
    the smallest free offset. *)
Theorem findIdmap_passes_exact_gap (sort : list IdmapEntry -> list IdmapEntry) :
  sorts_by_hostid sort ->
  let cts := [isolatedContainer "a" "1065536"; isolatedContainer "d" "1131072";
              isolatedContainer "c" "1196608"] in
  let recorded := [recordedEntry 1065536 65536; recordedEntry 1196608 65536] in
  let host0 := nth 0 hostMap noEntry in
  recordedRanges IsTrue_lower formatIdmapSet_unused hostMap "d" cts [] = Ok recorded
  /\ findIdmap IsTrue_lower AddSafe_append sort formatIdmapSet_unused hostMap (Ok cts)
       "d" "true" "" "" ""
     = Some (Ok ([ {| Isuid := true; Isgid := false; Hostid := 1262144; Nsid := 0;
                      Maprange := 65536 |};
                   {| Isuid := false; Isgid := true; Hostid := 1262144; Nsid := 0;
                      Maprange := 65536 |} ], 1262144))
  /\ free_at host0 recorded 65536 1131072
  /\ ~ smallest_free host0 recorded 65536 1262144.
Proof.
  intros Hsort. cbn zeta.
  assert (Hrec : recordedRanges IsTrue_lower formatIdmapSet_unused hostMap "d"
                   [isolatedContainer "a" "1065536"; isolatedContainer "d" "1131072";
                    isolatedContainer "c" "1196608"] []
                 = Ok [recordedEntry 1065536 65536; recordedEntry 1196608 65536])
    by (vm_compute; reflexivity).
  assert (Hfree : free_at (nth 0 hostMap noEntry)
                    [recordedEntry 1065536 65536; recordedEntry 1196608 65536]
                    65536 1131072).
  { unfold free_at, clear_of. cbn. repeat split; try lia.
    repeat constructor; cbn; lia. }
  split; [exact Hrec|]. split.
  - pose proof (findIdmap_scan IsTrue_lower AddSafe_append sort formatIdmapSet_unused
                  (nth 0 hostMap noEntry) (tl hostMap)
                  [isolatedContainer "a" "1065536"; isolatedContainer "d" "1131072";
                   isolatedContainer "c" "1196608"]
                  "d" "true" "" "" [] _ 65536 eq_refl eq_refl eq_refl Hrec) as Hscan.
    change (nth 0 hostMap noEntry :: tl hostMap) with hostMap in Hscan.
    rewrite Hscan, (sorts_by_hostid_pair sort _ _ Hsort) by (cbn; lia).
    vm_compute. reflexivity.
  - split; [exact Hfree|].
    intros [_ Hmin]. specialize (Hmin _ Hfree). lia.
Qed.

Lemma findIdmap_passes_exact_gap_witness :
  returnedBase (findIdmap IsTrue_lower AddSafe_append insertionSortByHostid
                  formatIdmapSet_unused hostMap
                  (Ok [isolatedContainer "a" "1065536"; isolatedContainer "d" "1131072";
                       isolatedContainer "c" "1196608"])
                  "d" "true" "" "" "")
  = Some 1262144.
Proof.
  rewrite (proj1 (proj2 (findIdmap_passes_exact_gap insertionSortByHostid
                           insertionSortByHostid_sorts))).
  reflexivity.
Defined.

End IdmapFacts.

(** *** The operation registry *)

Section OperationsFacts.
Import Go Operations.

Example run_create_then_timeout :
  match run ([CreateOperation 7 "start" false false] ++ repeat Tick 30
             ++ [TimerFires 0%nat]) init with
  | Some st => (heap st !! 0%nat, lxcContainerOperations st !! 7)
  | None => (None, None)
  end
  = (Some {| action := "start"; chanDone_closed := true; timer := None;
             err := Some (timeoutError "start"); id := 7; reusable := false |},
     None).
Proof. vm_compute. reflexivity. Qed.

(** An operation that is alive and is not the one stored under its
    container's id. *)
Definition orphan (st : state) (op : ptr) : Prop :=
  exists o, heap st !! op = Some o /\ chanDone_closed o = false
            /\ lxcContainerOperations st !! id o <> Some op.

Lemma orphan_Done (st : state) (p op : ptr) (e : option error) :
  orphan st p -> orphan (Done st op e) p.
Proof.
  intros (o & Hp & Hopen & Hreg). unfold Done.
  destruct (heap st !! op) as [o'|] eqn:Hop; [|exists o; auto].
  destruct (lxcContainerOperations st !! id o') as [r|] eqn:Hr; [|exists o; auto].
  destruct (Nat.eqb_spec r op) as [->|Hne]; cbn [negb]; [|exists o; auto].
  assert (Hpo : p <> op).
  { intros ->. rewrite Hp in Hop. injection Hop as <-. exact (Hreg Hr). }
  exists o. cbn. split; [|split; [exact Hopen|]].
  - rewrite list_lookup_insert_ne by auto. exact Hp.
  - destruct (decide (id o' = id o)) as [Heq|Hneq].
    + rewrite Heq, lookup_delete_eq. discriminate.
    + rewrite lookup_delete_ne by auto. exact Hreg.
Qed.

Lemma orphan_Reset (st st' : state) (p op : ptr) (r : option error) :
  orphan st p -> Reset st op = Some (st', r) -> orphan st' p.
Proof.
  intros (o & Hp & Hopen & Hreg). unfold Reset.
  destruct (heap st !! op) as [o'|] eqn:Hop; [|discriminate].
  destruct (reusable o'); cbn [negb].
  - destruct (timer o'); [|discriminate]. intros [= <- _].
    destruct (decide (p = op)) as [->|Hne].
    + rewrite Hp in Hop. injection Hop as <-.
      eexists. cbn. split; [|split].
      * apply list_lookup_insert_eq. eapply lookup_lt_Some, Hp.
      * exact Hopen.
      * exact Hreg.
    + exists o. cbn. rewrite list_lookup_insert_ne by auto. auto.
  - intros [= <- _]. exists o. auto.
Qed.

Lemma orphan_timerFires (st st' : state) (p op : ptr) :
  orphan st p -> timerFires st op = Some st' -> orphan st' p.
Proof.
  intros Ho. unfold timerFires.
  destruct (heap st !! op) as [o'|]; [|discriminate].
  destruct (timer o') as [due|]; [|discriminate].
  destruct (due <=? now st); [|discriminate].
  pose proof (orphan_Done st p op (Some (timeoutError (action o'))) Ho)
    as (o & Hp & Hopen & Hreg).
  set (st1 := Done st op _) in *.
  destruct (heap st1 !! op) as [o1|] eqn:Hop; [|discriminate].
  intros [= <-].
  destruct (decide (p = op)) as [->|Hne].
  - rewrite Hp in Hop. injection Hop as <-.
    eexists. cbn. split; [|split].
    + apply list_lookup_insert_eq. eapply lookup_lt_Some, Hp.
    + exact Hopen.
    + exact Hreg.
  - exists o. cbn. rewrite list_lookup_insert_ne by auto. auto.
Qed.

Lemma orphan_createRegister (st : state) (p : ptr) (cid : Z) (act : string)
    (reuse_ok : bool) :
  orphan st p -> orphan (fst (createRegister st cid act reuse_ok)) p.
Proof.
  intros (o & Hp & Hopen & Hreg). exists o. cbn.
  pose proof (lookup_lt_Some _ _ _ Hp) as Hlt.
  split; [|split; [exact Hopen|]].
  - rewrite lookup_app_l by exact Hlt. exact Hp.
  - destruct (decide (cid = id o)) as [->|Hne].
    + rewrite lookup_insert_eq. intros [= Heq]. lia.
    + rewrite lookup_insert_ne by auto. exact Hreg.
Qed.

Lemma orphan_set_pending (st : state) (p : ptr) (l : list (Z * string * bool)) :
  orphan st p -> orphan (set_pending st l) p.
Proof. intros (o & ? & ? & ?). exists o. auto. Qed.

Lemma orphan_createCheck (st : state) (p : ptr) (cid : Z) (reuse : bool) :
  orphan st p ->
  match createCheck st cid reuse with
  | Reused st' _ => orphan st' p
  | _ => True
  end.
Proof.
  intros Ho. unfold createCheck.
  destruct (getOperation st cid "") as [op|]; [|exact I].
  destruct (heap st !! op) as [o'|]; [|exact I].
  destruct (reuse && reusable o')%bool; [|exact I].
  destruct (Reset st op) as [[st' r]|] eqn:Hr; [|exact I].
  eapply orphan_Reset; eauto.
Qed.

(** An orphan stays one whatever happens next: [Done] leaves it alone,
    and a new operation is stored under a new pointer. *)
Lemma orphan_exec (ev : event) (st st' : state) (p : ptr) :
  orphan st p -> exec ev st = Some st' -> orphan st' p.
Proof.
  intros Ho. destruct ev as [cid act ro re|cid act ro re|k|op e|op|op|]; cbn [exec].
  - unfold createOperation.
    pose proof (orphan_createCheck st p cid re Ho) as Hc.
    destruct (createCheck st cid re); try discriminate.
    + now intros [= <-].
    + now intros [= <-].
    + pose proof (orphan_createRegister st p cid act ro Ho) as Hr.
      destruct (createRegister st cid act ro). now intros [= <-].
  - pose proof (orphan_createCheck st p cid re Ho) as Hc.
    destruct (createCheck st cid re); try discriminate.
    + now intros [= <-].
    + now intros [= <-].
    + intros [= <-]. now apply orphan_set_pending.
  - destruct (pending st !! k) as [[[cid act] ro]|]; [|discriminate].
    cbn zeta. intros [= <-].
    apply (orphan_createRegister (set_pending st (delete k (pending st)))).
    apply orphan_set_pending. exact Ho.
  - intros [= <-]. now apply orphan_Done.
  - destruct (Reset st op) as [[st1 r]|] eqn:Hr; [|discriminate].
    intros [= <-]. eapply orphan_Reset; eauto.
  - now apply orphan_timerFires.
  - destruct (noneDue st); [|discriminate]. intros [= <-].
    destruct Ho as (o & ? & ? & ?). exists o. auto.
Qed.

Lemma orphan_run (evs : list event) (st st' : state) (p : ptr) :
  orphan st p -> run evs st = Some st' -> orphan st' p.
Proof.
  revert st. induction evs as [|ev evs IH]; intros st Ho; cbn.
  - now intros [= <-].
  - destruct (exec ev st) as [st1|] eqn:He; [|discriminate].
    apply IH. eapply orphan_exec; eauto.
Qed.

(** C2, the failing run.  Two calls of [createOperation] for container 7
    both leave [getOperation] with no operation, the registry being empty,
    and then take the lock one after the other.  Both operations are
    alive, the first one is no longer the one stored under the id, and
    nothing completes it any more: [Done], also from its own timer,
    returns without closing [chanDone]. *)
Theorem createOperation_race_two_alive :
  exists st,
    run [ CreateCheck 7 "start" false false; CreateCheck 7 "stop" false false;
          CreateRegister 0; CreateRegister 0 ] init = Some st
    /\ (exists o0 o1,
          heap st !! 0%nat = Some o0 /\ heap st !! 1%nat = Some o1
          /\ id o0 = 7 /\ id o1 = 7
          /\ chanDone_closed o0 = false /\ chanDone_closed o1 = false)
    /\ (forall evs st', run evs st = Some st' -> alive st' 0%nat).
Proof.
  eexists. split; [vm_compute; reflexivity|]. split.
  - do 2 eexists. repeat split; reflexivity.
  - intros evs st' Hrun.
    match type of Hrun with run _ ?st = _ =>
      assert (Horphan : orphan st 0%nat)
    end.
    { eexists. split; [reflexivity|]. split; [reflexivity|].
      vm_compute. discriminate. }
    destruct (orphan_run evs _ st' 0%nat Horphan Hrun) as (o & Ho & Hopen & _).
    exists o. split; assumption.
Qed.

End OperationsFacts.
(** *** The operation registry, one call at a time *)

Section SequentialFacts.
Import Go Operations.

Lemma registered_alive_init : registered_alive init.
Proof. intros op o Hop. destruct op; discriminate Hop. Qed.

Lemma registered_alive_Done (st : state) (op : ptr) (e : option error) :
  registered_alive st -> registered_alive (Done st op e).
Proof.
  intros Hinv. unfold Done.
  destruct (heap st !! op) as [o|] eqn:Hop; [|exact Hinv].
  destruct (lxcContainerOperations st !! id o) as [r|] eqn:Hr; [|exact Hinv].
  destruct (Nat.eqb_spec r op) as [->|Hne]; cbn [negb]; [|exact Hinv].
  intros p o'. cbn.
  destruct (decide (p = op)) as [->|Hp].
  - rewrite list_lookup_insert_eq by (eapply lookup_lt_Some, Hop).
    intros [= <-]. cbn. discriminate.
  - rewrite list_lookup_insert_ne by auto.
    intros Hp' Hopen. pose proof (Hinv p o' Hp' Hopen) as Hreg.
    destruct (decide (id o = id o')) as [Heq|Hneq].
    + rewrite <- Heq, Hr in Hreg. congruence.
    + rewrite lookup_delete_ne by auto. exact Hreg.
Qed.

Lemma registered_alive_Reset (st st' : state) (op : ptr) (r : option error) :
  registered_alive st -> Reset st op = Some (st', r) -> registered_alive st'.
Proof.
  intros Hinv. unfold Reset.
  destruct (heap st !! op) as [o|] eqn:Hop; [|discriminate].
  destruct (reusable o); cbn [negb]; [|now intros [= <- _]].
  destruct (timer o); [|discriminate]. intros [= <- _].
  intros p o'. cbn.
  destruct (decide (p = op)) as [->|Hp].
  - rewrite list_lookup_insert_eq by (eapply lookup_lt_Some, Hop).
    intros [= <-]. cbn. apply Hinv, Hop.
  - rewrite list_lookup_insert_ne by auto. apply Hinv.
Qed.

Lemma registered_alive_timerFires (st st' : state) (op : ptr) :
  registered_alive st -> timerFires st op = Some st' -> registered_alive st'.
Proof.
  intros Hinv. unfold timerFires.
  destruct (heap st !! op) as [o|]; [|discriminate].
  destruct (timer o) as [due|]; [|discriminate].
  destruct (due <=? now st); [|discriminate].
  pose proof (registered_alive_Done st op (Some (timeoutError (action o))) Hinv) as Hd.
  set (st1 := Done st op _) in *.
  destruct (heap st1 !! op) as [o1|] eqn:Hop; [|discriminate].
  intros [= <-]. intros p o'. cbn.
  destruct (decide (p = op)) as [->|Hp].
  - rewrite list_lookup_insert_eq by (eapply lookup_lt_Some, Hop).
    intros [= <-]. cbn. apply Hd, Hop.
  - rewrite list_lookup_insert_ne by auto. apply Hd.
Qed.

(** [createOperation] goes on to its second half only when no operation
    is stored under the container's id. *)
Lemma createCheck_Proceed (st : state) (cid : Z) (reuse : bool) :
  createCheck st cid reuse = Proceed ->
  forall op, lxcContainerOperations st !! cid = Some op -> heap st !! op = None.
Proof.
  unfold createCheck, getOperation. intros Hc op Hreg. rewrite Hreg in Hc.
  destruct (heap st !! op) as [o|] eqn:Hop; [|reflexivity].
  cbn in Hc. rewrite Hop in Hc.
  destruct (reuse && reusable o)%bool; [|discriminate].
  destruct (Reset st op) as [[? ?]|]; discriminate.
Qed.

Lemma registered_alive_createRegister (st : state) (cid : Z) (act : string)
    (reuse_ok reuse : bool) :
  registered_alive st -> createCheck st cid reuse = Proceed ->
  registered_alive (fst (createRegister st cid act reuse_ok)).
Proof.
  intros Hinv Hc p o. cbn.
  destruct (decide (p < length (heap st))%nat) as [Hlt|Hge].
  - rewrite lookup_app_l by exact Hlt. intros Hp Hopen.
    pose proof (Hinv p o Hp Hopen) as Hreg.
    destruct (decide (cid = id o)) as [->|Hne].
    + assert (Hn : heap st !! p = None)
        by exact (createCheck_Proceed st (id o) reuse Hc p Hreg).
      rewrite Hn in Hp. discriminate.
    + rewrite lookup_insert_ne by auto. exact Hreg.
  - rewrite lookup_app_r by lia.
    destruct (p - length (heap st))%nat as [|k] eqn:Hk; [|destruct k; discriminate].
    intros [= <-] _. cbn. rewrite lookup_insert_eq. f_equal. lia.
Qed.

Lemma registered_alive_exec (ev : event) (st st' : state) :
  whole ev = true -> registered_alive st -> exec ev st = Some st' ->
  registered_alive st'.
Proof.
  intros Hw Hinv.
  destruct ev as [cid act ro re|cid act ro re|k|op e|op|op|]; cbn [exec];
    try discriminate Hw.
  - unfold createOperation.
    destruct (createCheck st cid re) as [st1 op| | |] eqn:Hc; try discriminate.
    + intros [= <-]. revert Hc. unfold createCheck.
      destruct (getOperation st cid "") as [op'|]; [|discriminate].
      destruct (heap st !! op') as [o|]; [|discriminate].
      destruct (re && reusable o)%bool; [|discriminate].
      destruct (Reset st op') as [[st2 r]|] eqn:Hr; [|discriminate].
      intros [= <- _]. eapply registered_alive_Reset; eauto.
    + now intros [= <-].
    + pose proof (registered_alive_createRegister st cid act ro re Hinv Hc) as Hr.
      destruct (createRegister st cid act ro). now intros [= <-].
  - intros [= <-]. now apply registered_alive_Done.
  - destruct (Reset st op) as [[st1 r]|] eqn:Hr; [|discriminate].
    intros [= <-]. eapply registered_alive_Reset; eauto.
  - now apply registered_alive_timerFires.
  - destruct (noneDue st); [|discriminate]. now intros [= <-].
Qed.

Lemma registered_alive_run (evs : list event) (st st' : state) :
  forallb whole evs = true -> registered_alive st -> run evs st = Some st' ->
  registered_alive st'.
Proof.
  revert st. induction evs as [|ev evs IH]; intros st Hw Hinv; cbn.
  - now intros [= <-].
  - cbn in Hw. apply andb_prop in Hw as [Hev Hevs].
    destruct (exec ev st) as [st1|] eqn:He; [|discriminate].
    apply IH; [exact Hevs|]. eapply registered_alive_exec; eauto.
Qed.

(** When no call of [createOperation] is split by another goroutine, a
    container has at most one operation alive at any time: two operations
    that are both alive and carry the same container id are the same
    object. *)
Theorem createOperation_unsplit_one_alive (evs : list event) (st : state)
    (op1 op2 : ptr) (o1 o2 : lxcContainerOperation) :
  forallb whole evs = true -> run evs init = Some st ->
  heap st !! op1 = Some o1 -> chanDone_closed o1 = false ->
  heap st !! op2 = Some o2 -> chanDone_closed o2 = false ->
  id o1 = id o2 -> op1 = op2.
Proof.
  intros Hw Hrun H1 Hopen1 H2 Hopen2 Hid.
  pose proof (registered_alive_run evs init st Hw registered_alive_init Hrun) as Hinv.
  pose proof (Hinv op1 o1 H1 Hopen1) as Hr1.
  pose proof (Hinv op2 o2 H2 Hopen2) as Hr2.
  rewrite Hid, Hr2 in Hr1. now injection Hr1.
Qed.

(** At a run with a refused second call, a timeout and a third call. *)
Lemma createOperation_unsplit_one_alive_witness :
  exists st o,
    run ([CreateOperation 7 "start" false false; CreateOperation 7 "stop" false false]
         ++ repeat Tick 30
         ++ [TimerFires 0%nat; CreateOperation 7 "stop" false false]) init = Some st
    /\ heap st !! 1%nat = Some o /\ chanDone_closed o = false
    /\ 1%nat = 1%nat.
Proof.
  eexists. eexists.
  split; [vm_compute; reflexivity|]. split; [reflexivity|]. split; [reflexivity|].
  refine (createOperation_unsplit_one_alive
            ([CreateOperation 7 "start" false false;
              CreateOperation 7 "stop" false false]
             ++ repeat Tick 30
             ++ [TimerFires 0%nat; CreateOperation 7 "stop" false false])
            _ 1%nat 1%nat _ _ eq_refl _ _ _ _ _ _);
    vm_compute; reflexivity.
Defined.

(** The state after one unsplit [createOperation] for container 7. *)
Definition oneRunning (act : string) (reuse_ok : bool) : state :=
  fst (createRegister init 7 act reuse_ok).

(** [createOperation] on a container that has an operation stored: with
    [reuse] asked and the operation reusable (its goroutine still there to
    take the reset), the stored operation is returned, its timer due 30
    seconds from now and nothing else changed; otherwise the call fails
    with the busy error naming the stored operation's action, and changes
    nothing. *)
Theorem createOperation_existing (st : state) (cid : Z) (act : string)
    (reuse_ok reuse : bool) (op : ptr) (o : lxcContainerOperation) :
  lxcContainerOperations st !! cid = Some op -> heap st !! op = Some o ->
  (forall due, (reuse && reusable o)%bool = true -> timer o = Some due ->
     createOperation st cid act reuse_ok reuse
     = Some (set_heap st (<[op := {| action := action o;
                                     chanDone_closed := chanDone_closed o;
                                     timer := Some (now st + 30);
                                     err := err o; id := id o;
                                     reusable := reusable o |}]> (heap st)),
             Ok op))
  /\ ((reuse && reusable o)%bool = false ->
      createOperation st cid act reuse_ok reuse
      = Some (st, Err (Errorf ("Container is busy running a " +:+ action o
                               +:+ " operation")))).
Proof.
  intros Hreg Hop. unfold createOperation, createCheck, getOperation.
  rewrite Hreg, Hop. cbn. rewrite Hop. split.
  - intros due Hre Hdue. rewrite Hre. unfold Reset. rewrite Hop.
    apply andb_prop in Hre as [_ Hr]. rewrite Hr. cbn [negb]. rewrite Hdue.
    reflexivity.
  - intros Hre. rewrite Hre. reflexivity.
Qed.

Lemma createOperation_existing_witness :
  createOperation (oneRunning "start" true) 7 "stop" true false
  = Some (oneRunning "start" true,
          Err (Errorf "Container is busy running a start operation")).
Proof.
  refine (proj2 (createOperation_existing (oneRunning "start" true) 7 "stop" true false
                   0%nat (Create init 7 "start" true) _ _) _);
    vm_compute; reflexivity.
Defined.

(** [Reset] on an operation that is not reusable returns the error and
    leaves the timer alone. *)
Theorem Reset_not_reusable (st : state) (op : ptr) (o : lxcContainerOperation) :
  heap st !! op = Some o -> reusable o = false ->
  Reset st op = Some (st, Some (Errorf "Can't reset a non-reusable operation")).
Proof. intros Hop Hr. unfold Reset. now rewrite Hop, Hr. Qed.

Lemma Reset_not_reusable_witness :
  Reset (oneRunning "start" false) 0%nat
  = Some (oneRunning "start" false,
          Some (Errorf "Can't reset a non-reusable operation")).
Proof.
  refine (Reset_not_reusable (oneRunning "start" false) 0%nat
            (Create init 7 "start" false) _ _); vm_compute; reflexivity.
Defined.

(** The timer of the operation stored under its container's id: once it
    is due, the goroutine completes the operation with the timeout error,
    takes it out of the registry and returns. *)
Theorem timerFires_completes (st : state) (op : ptr) (o : lxcContainerOperation)
    (due : Z) :
  heap st !! op = Some o -> timer o = Some due -> due <= now st ->
  lxcContainerOperations st !! id o = Some op ->
  exists st',
    timerFires st op = Some st'
    /\ heap st' !! op
       = Some {| action := action o; chanDone_closed := true; timer := None;
                 err := Some (Errorf ("Container " +:+ action o
                                      +:+ " operation timed out after 30 seconds"));
                 id := id o; reusable := reusable o |}
    /\ lxcContainerOperations st' !! id o = None.
Proof.
  unfold ptr in *. intros Hop Hdue Hle Hreg.
  pose proof (lookup_lt_Some _ _ _ Hop) as Hlt.
  assert (Hdone : Done st op (Some (timeoutError (action o)))
                  = set_registry
                      (set_heap st (<[op := {| action := action o; chanDone_closed := true;
                                               timer := timer o;
                                               err := Some (timeoutError (action o));
                                               id := id o; reusable := reusable o |}]>
                                      (heap st)))
                      (delete (id o) (lxcContainerOperations st))).
  { unfold Done. unfold ptr in *. rewrite Hop. cbv beta iota. rewrite Hreg, Nat.eqb_refl. reflexivity. }
  unfold timerFires. unfold ptr in *. rewrite Hop. cbv beta iota. rewrite Hdue.
  apply Z.leb_le in Hle. rewrite Hle. cbv beta iota zeta. rewrite Hdone. cbn.
  rewrite list_lookup_insert_eq by exact Hlt.
  eexists. split; [reflexivity|]. cbn. split.
  - rewrite list_lookup_insert_eq; [reflexivity|].
    now rewrite length_insert.
  - apply lookup_delete_eq.
Qed.

Lemma timerFires_completes_witness :
  exists st st',
    run (CreateOperation 7 "start" false false :: repeat Tick 30) init = Some st
    /\ timerFires st 0%nat = Some st'
    /\ lxcContainerOperations st' !! 7 = None.
Proof.
  eexists.
  destruct (timerFires_completes
              {| now := 30; heap := [Create init 7 "start" false];
                 lxcContainerOperations := {[ 7 := 0%nat ]}; pending := [] |}
              0%nat (Create init 7 "start" false) 30)
    as (st' & Hfire & _ & Hreg); [reflexivity|reflexivity|cbn; lia|reflexivity|].
  exists st'. split; [vm_compute; reflexivity|]. split; [exact Hfire|exact Hreg].
Defined.

(** [op.Done(err)] either returns at its check, changing nothing, or
    completes the operation stored under the container's id. *)
Lemma Done_cases (st : state) (op : ptr) :
  (forall e, Done st op e = st)
  \/ exists o,
       heap st !! op = Some o /\ lxcContainerOperations st !! id o = Some op
       /\ forall e,
            Done st op e
            = set_registry
                (set_heap st (<[op := {| action := action o; chanDone_closed := true;
                                         timer := timer o; err := e;
                                         id := id o; reusable := reusable o |}]>
                                (heap st)))
                (delete (id o) (lxcContainerOperations st)).
Proof.
  unfold Done.
  destruct (heap st !! op) as [o|] eqn:Hop; [|now left].
  destruct (lxcContainerOperations st !! id o) as [r|] eqn:Hr; [|now left].
  destruct (Nat.eqb_spec r op) as [->|Hne]; cbn [negb]; [|now left].
  right. exists o. split; [reflexivity|]. split; [exact Hr|reflexivity].
Qed.

(** [Done] on an operation that has been completed changes nothing: the
    error of the first [Done] stays, and the registry is not touched
    again. *)
Theorem Done_once (st : state) (op : ptr) (e e' : option error) :
  Done (Done st op e) op e' = Done st op e.
Proof.
  destruct (Done_cases st op) as [Hsame|(o & Hop & Hr & Hdone)].
  - now rewrite !Hsame.
  - rewrite (Hdone e). unfold Done. unfold ptr in *.
    cbn [heap set_registry set_heap lxcContainerOperations].
    rewrite list_lookup_insert_eq by (eapply lookup_lt_Some, Hop).
    cbn [id]. now rewrite lookup_delete_eq.
Qed.

End SequentialFacts.

(** *** CPU rebalancing *)

Section BalanceFacts.
Import Go Cpuset Balance.

Definition runningContainer (name : string) (conf : gmap string string) : container :=
  {| Name := name; ExpandedConfig := conf;
     IsRunning_load := true; IsRunning_apply := true; CGroupSet_err := None |}.

Definition hostWith (effective : string) (containers : list container) : host :=
  {| CGroupCPUsetController := true;
     effective_cpus := Ok effective;
     cpuset_cpus := Err (Failure "cGroupGet");
     isolated_exists := false;
     isolated_file := Err (Failure "ReadFile");
     containerLoadNodeAll := Ok containers |}.

(** Orders a [range] may take: the keys as the map lists them, and cpu
    ids from the lowest or from the highest. *)
Definition asListed {K : Type} (l : list K) : list K := l.
Definition lowestFirst (l : list Z) : list Z := merge_sort Z.le l.
Definition highestFirst (l : list Z) : list Z := rev (merge_sort Z.le l).

Example deviceTaskBalance_example :
  deviceTaskBalance asListed lowestFirst asListed asListed insertionSortByCount
    (hostWith "0-3"
       [ runningContainer "pinned" {[ "limits.cpu" := "0-1,7" ]};
         runningContainer "two" {[ "limits.cpu" := "2" ]};
         runningContainer "all" ∅ ])
  = Some [ SetLxc "0,1,2,3"; SetContainer 2 "0,1,2,3"; SetContainer 1 "2,3";
           SetContainer 0 "0,1" ].
Proof. vm_compute. reflexivity. Qed.

Example deviceTaskBalance_tie_lowest_first :
  deviceTaskBalance asListed lowestFirst asListed asListed insertionSortByCount
    (hostWith "0-1" [ runningContainer "one" {[ "limits.cpu" := "1" ]} ])
  = Some [ SetLxc "0,1"; SetContainer 0 "0" ].
Proof. vm_compute. reflexivity. Qed.

Lemma IntInSlice_elem_of (key : Z) (l : list Z) :
  IntInSlice key l = true <-> key ∈ l.
Proof.
  unfold IntInSlice. rewrite existsb_exists, list_elem_of_In. split.
  - intros (x & Hx & Heq). apply Z.eqb_eq in Heq. now subst.
  - intros H. exists key. split; [exact H|apply Z.eqb_refl].
Qed.

(** The containers added to [fixedContainers] for one pinned container. *)
Lemma classify_fixed_step (cpus l : list Z) (i : nat) (fixed0 : gmap Z (list nat))
    (x : Z) (j : nat) :
  j ∈ default [] (fold_left
                    (fun fixedContainers nr =>
                       if negb (IntInSlice nr cpus) then fixedContainers
                       else
                         match fixedContainers !! nr with
                         | Some ctns => <[nr := ctns ++ [i]]> fixedContainers
                         | None => <[nr := [i]]> fixedContainers
                         end) l fixed0 !! x)
  <-> j ∈ default [] (fixed0 !! x) \/ (j = i /\ x ∈ l /\ x ∈ cpus).
Proof.
  revert fixed0. induction l as [|nr l IH]; intros fixed0; cbn [fold_left].
  - split; [auto|]. intros [H|(_ & H & _)]; [exact H|]. inversion H.
  - rewrite IH. clear IH.
    destruct (IntInSlice nr cpus) eqn:Hin; cbn [negb].
    + apply IntInSlice_elem_of in Hin.
      assert (Hstep : forall m : gmap Z (list nat),
                 m = match fixed0 !! nr with
                     | Some ctns => <[nr := ctns ++ [i]]> fixed0
                     | None => <[nr := [i]]> fixed0
                     end ->
                 (j ∈ default [] (m !! x)
                  <-> j ∈ default [] (fixed0 !! x) \/ (j = i /\ x = nr))).
      { intros m ->. destruct (decide (x = nr)) as [->|Hne].
        - destruct (fixed0 !! nr) as [ctns|] eqn:Hnr; rewrite lookup_insert_eq; cbn.
          + rewrite elem_of_app, list_elem_of_singleton. intuition.
          + rewrite list_elem_of_singleton. split; [intuition|].
            intros [H|[H _]]; [inversion H|exact H].
        - destruct (fixed0 !! nr); rewrite lookup_insert_ne by auto; intuition. }
      rewrite (Hstep _ eq_refl). rewrite elem_of_cons. split.
      * intros [[H|[-> ->]]|(-> & H & Hc)]; auto.
      * intros [H|(-> & [->|H] & Hc)]; auto.
    + assert (nr ∉ cpus) by (rewrite <- IntInSlice_elem_of; congruence).
      rewrite elem_of_cons. split.
      * intros [H'|(-> & H' & Hc)]; auto.
      * intros [H'|(-> & [->|H'] & Hc)]; auto. contradiction.
Qed.

(** What the loop over the containers leaves in its two maps. *)
Lemma classify_inv (eff : string) (cpus : list Z) (all : list container) :
  forall (containers pre : list container)
         (fixed0 : gmap Z (list nat)) (bal0 : gmap nat Z)
         (fixed : gmap Z (list nat)) (bal : gmap nat Z),
  all = pre ++ containers ->
  (forall j k', bal0 !! j = Some k'
     <-> (j < length pre)%nat /\ exists c, all !! j = Some c /\ balancedAs eff cpus c k') ->
  (forall x j, j ∈ default [] (fixed0 !! x)
     <-> (j < length pre)%nat /\ exists c, all !! j = Some c /\ pinnedTo eff cpus c x) ->
  classify eff cpus (length pre) containers fixed0 bal0 = Some (Some (fixed, bal)) ->
  (forall j k', bal !! j = Some k'
     <-> exists c, all !! j = Some c /\ balancedAs eff cpus c k')
  /\ (forall x j, j ∈ default [] (fixed !! x)
        <-> exists c, all !! j = Some c /\ pinnedTo eff cpus c x).
Proof.
  induction containers as [|c rest IH]; intros pre fixed0 bal0 fixed bal Hall Hbal Hfix.
  - cbn. intros [= <- <-]. rewrite app_nil_r in Hall. subst pre. split.
    + intros j k'. rewrite Hbal. split; [intros [_ H]; exact H|].
      intros (c & Hc & H). split; [eapply lookup_lt_Some, Hc|eauto].
    + intros x j. rewrite Hfix. split; [intros [_ H]; exact H|].
      intros (c & Hc & H). split; [eapply lookup_lt_Some, Hc|eauto].
  - assert (Hc : all !! length pre = Some c).
    { rewrite Hall. rewrite lookup_app_r by lia. now rewrite Nat.sub_diag. }
    assert (Hall' : all = (pre ++ [c]) ++ rest) by (now rewrite <- app_assoc).
    assert (Hlen : length (pre ++ [c]) = S (length pre)).
    { rewrite length_app. cbn. lia. }
    assert (Hsplit : forall j, (j < S (length pre))%nat
                       <-> (j < length pre)%nat \/ j = length pre) by (intros; lia).
    cbn [classify].
    destruct (IsRunning_load c) eqn:Hrun; cbn [negb].
    2: { rewrite <- Hlen. apply IH; [exact Hall'| |].
         - intros j k'. rewrite Hbal, Hlen, Hsplit. split; [intuition|].
           intros [[H| ->] (c' & Hc' & Hb)]; [eauto|].
           rewrite Hc in Hc'. injection Hc' as <-. destruct Hb. congruence.
         - intros x j. rewrite Hfix, Hlen, Hsplit. split; [intuition|].
           intros [[H| ->] (c' & Hc' & Hb)]; [eauto|].
           rewrite Hc in Hc'. injection Hc' as <-. destruct Hb. congruence. }
    destruct (Atoi (cpulimitOf eff c)) as [k|] eqn:Hatoi.
    + rewrite <- Hlen. apply IH; [exact Hall'| |].
      * intros j k'. rewrite Hlen, Hsplit.
        destruct (decide (j = length pre)) as [->|Hne].
        -- rewrite lookup_insert_eq. split.
           ++ intros [= <-]. split; [auto|]. exists c. split; [exact Hc|].
              split; [exact Hrun|]. eauto.
           ++ intros [_ (c' & Hc' & _ & k0 & Hk0 & ->)].
              rewrite Hc in Hc'. injection Hc' as <-. congruence.
        -- rewrite lookup_insert_ne by auto. rewrite Hbal. intuition.
      * intros x j. rewrite Hfix, Hlen, Hsplit. split; [intuition|].
        intros [[H| ->] (c' & Hc' & Hb)]; [eauto|].
        rewrite Hc in Hc'. injection Hc' as <-. destruct Hb as (_ & ? & _). congruence.
    + destruct (parseCpuset (cpulimitOf eff c)) as [[l|e]|] eqn:Hparse; try discriminate.
      rewrite <- Hlen. apply IH; [exact Hall'| |].
      * intros j k'. rewrite Hbal, Hlen, Hsplit. split; [intuition|].
        intros [[H| ->] (c' & Hc' & Hb)]; [eauto|].
        rewrite Hc in Hc'. injection Hc' as <-. destruct Hb as (_ & ? & ? & _). congruence.
      * intros x j. rewrite classify_fixed_step, Hfix, Hlen, Hsplit. split.
        -- intros [[H H']|(-> & Hx & Hcpus)]; [auto|].
           split; [auto|]. exists c. split; [exact Hc|].
           split; [exact Hrun|]. split; [exact Hatoi|]. eauto.
        -- intros [[H| ->] (c' & Hc' & Hb)]; [left; eauto|].
           rewrite Hc in Hc'. injection Hc' as <-.
           destruct Hb as (_ & _ & l' & Hl' & Hx & Hcpus).
           rewrite Hparse in Hl'. injection Hl' as <-. auto.
Qed.

(** The cpus pinned for a container so far; no entry reads as none. *)
Definition pinned (pinning : gmap nat (list string)) (ctn : nat) : list string :=
  default [] (pinning !! ctn).

(** The entry of a container that holds the cpus [ids]: none when there
    are none. *)
Definition entryOf (ids : list Z) : option (list string) :=
  match ids with [] => None | _ => Some (map itoa ids) end.

Lemma pin_lookup_eq (pinning : gmap nat (list string)) (ctn : nat) (sid : string) :
  pin pinning ctn sid !! ctn = Some (pinned pinning ctn ++ [sid]).
Proof.
  unfold pin, pinned. destruct (pinning !! ctn); now rewrite lookup_insert_eq.
Qed.

Lemma pin_lookup_ne (pinning : gmap nat (list string)) (ctn j : nat) (sid : string) :
  ctn <> j -> pin pinning ctn sid !! j = pinning !! j.
Proof.
  intros Hne. unfold pin. destruct (pinning !! ctn); now rewrite lookup_insert_ne.
Qed.

Lemma entryOf_snoc (ids : list Z) (x : Z) :
  Some (default [] (entryOf ids) ++ [itoa x]) = entryOf (ids ++ [x]).
Proof.
  destruct ids as [|y ids]; cbn; [reflexivity|].
  now rewrite map_app.
Qed.

(** The inner loop over the containers pinned to the cpu [x]. *)
Lemma pinFixed_inner (fixed : gmap Z (list nat)) (done : list Z) (x : Z)
    (ctns cs : list nat) (pinning : gmap nat (list string)) (counts : gmap Z Z) :
  (forall j, exists ids,
      pinning !! j = entryOf ids
      /\ forall y, y ∈ ids <-> (y ∈ done /\ j ∈ default [] (fixed !! y)) \/ (y = x /\ j ∈ cs)) ->
  forall j, exists ids,
      (fold_left (fun '(pinning, counts) ctn =>
                    (pin pinning ctn (itoa x), bump counts x))
                 ctns (pinning, counts)).1 !! j = entryOf ids
      /\ forall y, y ∈ ids
           <-> (y ∈ done /\ j ∈ default [] (fixed !! y)) \/ (y = x /\ j ∈ cs ++ ctns).
Proof.
  revert cs pinning counts. induction ctns as [|ctn ctns IH]; intros cs pinning counts Hinv.
  - cbn. intros j. destruct (Hinv j) as (ids & Hids & Hmem). exists ids.
    split; [exact Hids|]. intros y. rewrite app_nil_r. apply Hmem.
  - cbn [fold_left]. intros j.
    replace (cs ++ ctn :: ctns) with ((cs ++ [ctn]) ++ ctns) by (now rewrite <- app_assoc).
    apply IH. clear j. intros j. destruct (Hinv j) as (ids & Hids & Hmem).
    destruct (decide (ctn = j)) as [->|Hne].
    + exists (ids ++ [x]). split.
      * rewrite pin_lookup_eq. unfold pinned. rewrite Hids. apply entryOf_snoc.
      * intros y. rewrite !elem_of_app, Hmem, !list_elem_of_singleton. intuition.
    + exists ids. split.
      * rewrite pin_lookup_ne by auto. exact Hids.
      * intros y. rewrite Hmem, elem_of_app, list_elem_of_singleton.
        split; [intuition|]. intros [H|(-> & [H| ->])]; auto. contradiction.
Qed.

(** The loop over [fixedContainers], for any order of the keys. *)
Lemma pinFixed_keys (usage : gmap Z deviceTaskCPU) (fixed : gmap Z (list nat))
    (keys done : list Z) (pinning : gmap nat (list string)) (counts : gmap Z Z) :
  (forall x j, j ∈ default [] (fixed !! x) ->
               usage !! x = Some {| id := x; strId := itoa x |}) ->
  (forall j, exists ids,
      pinning !! j = entryOf ids
      /\ forall y, y ∈ ids <-> y ∈ done /\ j ∈ default [] (fixed !! y)) ->
  forall j, exists ids,
      (fold_left
         (fun '(pinning, counts) cpu =>
            match usage !! cpu with
            | None => (pinning, counts)
            | Some c =>
                fold_left
                  (fun '(pinning, counts) ctn =>
                     (pin pinning ctn (strId c), bump counts (id c)))
                  (default [] (fixed !! cpu))
                  (pinning, counts)
            end)
         keys (pinning, counts)).1 !! j = entryOf ids
      /\ forall y, y ∈ ids <-> y ∈ done ++ keys /\ j ∈ default [] (fixed !! y).
Proof.
  intros Husage. revert done pinning counts.
  induction keys as [|x keys IH]; intros done pinning counts Hinv.
  - cbn. intros j. destruct (Hinv j) as (ids & Hids & Hmem). exists ids.
    split; [exact Hids|]. intros y. rewrite app_nil_r. apply Hmem.
  - cbn [fold_left]. intros j.
    replace (done ++ x :: keys) with ((done ++ [x]) ++ keys) by (now rewrite <- app_assoc).
    destruct (usage !! x) as [c|] eqn:Hx.
    + destruct (default [] (fixed !! x)) as [|ctn0 ctns0] eqn:Hfx.
      * cbn [fold_left]. apply IH. clear j. intros j.
        destruct (Hinv j) as (ids & Hids & Hmem). exists ids. split; [exact Hids|].
        intros y. rewrite Hmem, elem_of_app, list_elem_of_singleton.
        split; [intuition|]. intros [[H| ->] Hj]; [auto|].
        rewrite Hfx in Hj. inversion Hj.
      * assert (Hc : c = {| id := x; strId := itoa x |}).
        { specialize (Husage x ctn0). rewrite Hfx in Husage.
          rewrite Husage in Hx by (left). now injection Hx as <-. }
        subst c. cbn [strId id]. rewrite <- Hfx.
        pose proof (pinFixed_inner fixed done x (default [] (fixed !! x)) []
                      pinning counts) as Hinner.
        destruct (fold_left _ (default [] (fixed !! x)) (pinning, counts))
          as [pinning' counts'] eqn:Hfold.
        apply IH. clear j. intros j.
        destruct (Hinner) with (j := j) as (ids & Hids & Hmem).
        { clear j. intros j. destruct (Hinv j) as (ids & Hids & Hmem). exists ids.
          split; [exact Hids|]. intros y. rewrite Hmem. split; [auto|].
          intros [H|[_ H]]; [exact H|inversion H]. }
        exists ids. split; [exact Hids|].
        intros y. rewrite Hmem. cbn [app]. rewrite elem_of_app, list_elem_of_singleton.
        split.
        -- intros [[H1 H2]|[-> H]]; auto.
        -- intros [[H| ->] Hj]; auto.
    + apply IH. clear j. intros j.
      destruct (Hinv j) as (ids & Hids & Hmem). exists ids. split; [exact Hids|].
      intros y. rewrite Hmem, elem_of_app, list_elem_of_singleton.
      split; [intuition|]. intros [[H| ->] Hj]; [auto|].
      specialize (Husage _ _ Hj). congruence.
Qed.

Definition mkCPU (x : Z) : deviceTaskCPU := {| id := x; strId := itoa x |}.

Lemma initUsage_lookup (cpus : list Z) (x : Z) :
  initUsage cpus !! x = if decide (x ∈ cpus) then Some (mkCPU x) else None.
Proof.
  unfold initUsage.
  assert (H : forall m : gmap Z deviceTaskCPU,
             fold_left (fun usage cpu => <[cpu := {| id := cpu; strId := itoa cpu |}]> usage)
                       cpus m !! x
             = if decide (x ∈ cpus) then Some (mkCPU x) else m !! x).
  { induction cpus as [|y cpus IH]; intros m; cbn [fold_left].
    - destruct (decide (x ∈ [])) as [H|_]; [inversion H|reflexivity].
    - rewrite IH. destruct (decide (x ∈ cpus)) as [Hin|Hnin].
      + rewrite decide_True by (now right). reflexivity.
      + destruct (decide (x = y)) as [->|Hne].
        * rewrite decide_True by (now left). now rewrite lookup_insert_eq.
        * rewrite lookup_insert_ne by auto.
          rewrite decide_False; [reflexivity|].
          rewrite elem_of_cons. intuition. }
  rewrite H. destruct (decide (x ∈ cpus)); [reflexivity|apply lookup_empty].
Qed.

Lemma omap_lookup_all (usage : gmap Z deviceTaskCPU) (keys : list Z) :
  (forall k, k ∈ keys -> usage !! k = Some (mkCPU k)) ->
  omap (fun cpu => usage !! cpu) keys = map mkCPU keys.
Proof.
  induction keys as [|k keys IH]; intros H; cbn; [reflexivity|].
  rewrite (H k) by (now left). cbn. f_equal. apply IH.
  intros k' Hk'. apply H. now right.
Qed.

Lemma insertByCount_Permutation (counts : gmap Z Z) (cpu : deviceTaskCPU)
    (sorted : list deviceTaskCPU) :
  Permutation (insertByCount counts cpu sorted) (cpu :: sorted).
Proof.
  induction sorted as [|x sorted IH]; cbn; [reflexivity|].
  destruct (_ <? _); [reflexivity|].
  rewrite IH. apply perm_swap.
Qed.

Lemma insertByCount_sorted (counts : gmap Z Z) (cpu : deviceTaskCPU)
    (sorted : list deviceTaskCPU) :
  StronglySorted (fun a b => countOf counts (id a) <= countOf counts (id b)) sorted ->
  StronglySorted (fun a b => countOf counts (id a) <= countOf counts (id b))
                 (insertByCount counts cpu sorted).
Proof.
  induction 1 as [|x sorted Hs IH Hx]; cbn.
  - repeat constructor.
  - destruct (Z.ltb_spec (countOf counts (id cpu)) (countOf counts (id x))) as [Hlt|Hge].
    + constructor; [constructor; assumption|].
      constructor; [lia|].
      eapply Forall_impl; [exact Hx|]. cbn. intros; lia.
    + constructor; [exact IH|].
      rewrite (insertByCount_Permutation counts cpu sorted).
      constructor; [lia|exact Hx].
Qed.

Lemma insertionSortByCount_sorts : sorts_by_count insertionSortByCount.
Proof.
  intros counts l. unfold insertionSortByCount.
  assert (H : forall acc,
             StronglySorted (fun a b => countOf counts (id a) <= countOf counts (id b)) acc ->
             Permutation (fold_left (fun sorted cpu => insertByCount counts cpu sorted) l acc)
                         (acc ++ l)
             /\ StronglySorted (fun a b => countOf counts (id a) <= countOf counts (id b))
                  (fold_left (fun sorted cpu => insertByCount counts cpu sorted) l acc)).
  { induction l as [|x l IH]; intros acc Hacc; cbn [fold_left].
    - rewrite app_nil_r. auto.
    - destruct (IH (insertByCount counts x acc) (insertByCount_sorted _ _ _ Hacc))
        as [Hp Hs].
      split; [|exact Hs].
      rewrite Hp, insertByCount_Permutation. cbn [app].
      apply Permutation_middle. }
  destruct (H [] ltac:(constructor)) as [Hp Hs]. auto.
Qed.

Lemma asListed_range_order {K : Type} : range_order (@asListed K).
Proof. intros l. reflexivity. Qed.

Lemma lowestFirst_range_order : range_order lowestFirst.
Proof. intros l. apply merge_sort_Permutation. Qed.

Lemma highestFirst_range_order : range_order highestFirst.
Proof.
  intros l. unfold highestFirst.
  rewrite <- Permutation_rev. apply merge_sort_Permutation.
Qed.

(** C3, refuted as stated.  The host has the cpus 0 and 1 and one running
    container that asks for one cpu; both usage counters are 0.  When the
    loop over the [usage] map yields cpu 1 first, the sort, which compares
    counters only, leaves it first, and the container is given cpu 1, not
    the lowest id among the tied cpus. *)
Lemma deviceTaskBalance_tie_not_lowest_id :
  range_order highestFirst
  /\ sorts_by_count insertionSortByCount
  /\ deviceTaskBalance asListed highestFirst asListed asListed insertionSortByCount
       (hostWith "0-1" [ runningContainer "one" {[ "limits.cpu" := "1" ]} ])
     = Some [ SetLxc "0,1"; SetContainer 0 "1" ].
Proof.
  split; [exact highestFirst_range_order|].
  split; [exact insertionSortByCount_sorts|].
  vm_compute. reflexivity.
Qed.

End BalanceFacts.

(** *** Starting a container *)

Section StartFacts.
Import Go StartContainer.

(** A world in which everything before the fork succeeds, [forkstart]
    fails with [err], the container is not running afterwards and
    [lxc.log] holds [logContent]. *)
Definition forkFails (err : error) (logContent : string) : world :=
  {| createOperation := None; setupSharedMounts := None;
     startCommon := Ok "/var/lib/lxd/logs/c1/lxc.conf"; StorageStart := None;
     c_stateful := false; Migrate := None; IsRunning_afterMigrate := false;
     ContainerSetStateful := None; RemoveAll_state := None; runHooks := None;
     forkstart := Some err; IsRunning_afterFork := false;
     lxcLog_exists := true; lxcLog_content := Ok logContent |}.

Definition sampleLog : string :=
  "lxc 20190801103000.123 INFO start - start.c:lxc_init:800 - Container is initialized" +:+ LF
  +:+ "lxc 20190801103000.123 ERROR start - start.c:proc_pidfd_open:1607 - Function not implemented" +:+ LF
  +:+ "lxc 20190801103000.123 ERROR lxccontainer - lxccontainer.c:wait_on_daemonized_start:842 - No such file or directory" +:+ LF.

Example extractLxcErrors_sample :
  extractLxcErrors sampleLog
  = LF
    +:+ "  lxc 20190801103000.123 ERROR start - start.c:proc_pidfd_open:1607 - Function not implemented" +:+ LF
    +:+ "  lxc 20190801103000.123 ERROR lxccontainer - lxccontainer.c:wait_on_daemonized_start:842 - No such file or directory" +:+ LF.
Proof. vm_compute. reflexivity. Qed.

(** When the fork fails and the container does not run, [Start] returns
    the error of the subprocess, whatever [lxc.log] holds. *)
Lemma Start_fork_failure (w : world) (err : error) :
  createOperation w = None -> setupSharedMounts w = None ->
  (exists configPath, startCommon w = Ok configPath) -> StorageStart w = None ->
  c_stateful w = false ->
  forkstart w = Some err -> IsRunning_afterFork w = false ->
  Start w false = Some err.
Proof.
  intros H1 H2 [configPath H3] H4 H5 H6 H7. unfold Start.
  now rewrite H1, H2, H3, H4, H5, H6, H7.
Qed.

(** C4, the failing input.  The subprocess fails with "exit status 1", the
    container does not run, and [lxc.log] has two lines whose third field
    is ERROR.  [Start] collects them in [lxcLog] and then returns the
    error of the subprocess alone: the same error it returns for an empty
    log. *)
Theorem Start_drops_collected_log_errors :
  extractLxcErrors sampleLog <> ""
  /\ Start (forkFails (Failure "exit status 1") sampleLog) false
     = Some (Failure "exit status 1")
  /\ Start (forkFails (Failure "exit status 1") "") false
     = Some (Failure "exit status 1").
Proof.
  split; [vm_compute; discriminate|]. split; reflexivity.
Qed.

End StartFacts.

(** *** Deleting a container *)

Section DeleteFacts.
Import Go DeleteContainer.

(** A protected container or snapshot, with its storage loaded and every
    call succeeding. *)
Definition protectedWorld (snapshot : bool) : world :=
  {| expandedConfig := {[ "security.protection.delete" := "true" ]};
     IsSnapshot := snapshot;
     storage_set := true; importing_exists := false; initStorage := None;
     ContainerSnapshotDelete_err := None; containerDeleteSnapshots_err := None;
     Backups := Ok [None]; path_exists := true; mountPoint_exists := true;
     ContainerDelete_err := None; maasDelete_err := None;
     expandedDevices := [("root", None); ("eth0", None)];
     ContainerRemove_err := None; StoragePoolVolumeDelete_err := None |}.

(** C5, refuted as stated.  A snapshot whose expanded config sets
    [security.protection.delete] to true is deleted all the same: the
    guard asks for the flag and for the container not to be a snapshot. *)
Lemma Delete_protected_snapshot_is_deleted :
  IsTrue_lower (cfg (expandedConfig (protectedWorld true)) "security.protection.delete") = true
  /\ Delete IsTrue_lower (protectedWorld true)
     = ([ContainerSnapshotDelete; ContainerRemove; StoragePoolVolumeDelete], None).
Proof. split; vm_compute; reflexivity. Qed.

(** C5, amended.  For every container that is not a snapshot and whose
    expanded config sets [security.protection.delete] to a true value,
    [Delete] fails with "Container is protected" and makes none of the
    calls that remove a snapshot, a backup, the storage volume, a device,
    the MAAS record or a database row. *)
Theorem Delete_protected (IsTrue : string -> bool) (w : world) :
  IsTrue (cfg (expandedConfig w) "security.protection.delete") = true ->
  IsSnapshot w = false ->
  Delete IsTrue w = ([], Some (Errorf "Container is protected")).
Proof.
  intros Hflag Hsnap. unfold Delete. now rewrite Hflag, Hsnap.
Qed.

Lemma Delete_protected_witness :
  Delete IsTrue_lower (protectedWorld false)
  = ([], Some (Errorf "Container is protected")).
Proof.
  apply (Delete_protected IsTrue_lower (protectedWorld false)); reflexivity.
Defined.

(** Without the flag the same container is deleted. *)
Example Delete_unprotected :
  Delete (fun _ => false) (protectedWorld false)
  = ([ containerDeleteSnapshots; BackupDelete 0; cleanup; ContainerDelete;
       maasDelete; deviceRemove "root"; deviceRemove "eth0";
       ContainerRemove; StoragePoolVolumeDelete ], None).
Proof. vm_compute. reflexivity. Qed.

End DeleteFacts.

(** *** The backup file *)

Section BackupFacts.
Import Go BackupFile.

(** A container with one snapshot, every call succeeding; the rendered
    records are their names and the YAML a listing of them. *)
Definition backupWorld (snapshot pathThere rootfsThere : bool)
  : world string string string string :=
  {| IsSnapshot := snapshot;
     Path := "/var/lib/lxd/containers/c1";
     path_exists := pathThere;
     Render := Ok "c1";
     Snapshots := Ok [Ok "c1/snap0"];
     StoragePoolName := Ok "default";
     StoragePoolGet := Ok "default";
     StoragePoolNodeVolumeGetTypeByProject := Ok "c1";
     Marshal := fun bf =>
       Ok ("container: " +:+ bf_Container _ _ _ _ bf
           +:+ " snapshots: " +:+ Join (bf_Snapshots _ _ _ _ bf) ","
           +:+ " pool: " +:+ bf_Pool _ _ _ _ bf
           +:+ " volume: " +:+ bf_Volume _ _ _ _ bf);
     rootfs_exists := rootfsThere;
     Create_err := None; Chmod_err := None; WriteAll_err := None |}.

(** C8, refuted as stated.  For a container whose path does not exist the
    function writes nothing, but it returns [os.ErrNotExist], not nil. *)
Lemma writeBackupFile_missing_path_is_error :
  writeBackupFile (backupWorld false false true) = ([], Some ErrNotExist).
Proof. reflexivity. Qed.

Lemma renderSnapshots_all_ok {A : Type} (sis0 sis : list A) :
  renderSnapshots (map Ok sis) sis0 = Ok (sis0 ++ sis).
Proof.
  revert sis0. induction sis as [|si sis IH]; intros sis0; cbn.
  - now rewrite app_nil_r.
  - rewrite IH, <- app_assoc. reflexivity.
Qed.

(** C8, amended.  [writeBackupFile] does nothing and returns nil for a
    snapshot; does nothing and returns [os.ErrNotExist] for a container
    whose path does not exist; and for a container whose path exists and
    whose instance, snapshots, pool and volume are rendered, loaded and
    marshalled without error, it does nothing and returns nil when the
    rootfs path does not exist, and otherwise creates [backup.yaml] at
    the container's path, sets its mode to 0400 and writes the YAML of the
    rendered instance, every snapshot, the pool record and the volume
    record. *)
Theorem writeBackupFile_cases
    (Container ContainerSnapshot StoragePool StorageVolume : Type)
    (w : world Container ContainerSnapshot StoragePool StorageVolume) :
  (IsSnapshot w = true -> writeBackupFile w = ([], None))
  /\ (IsSnapshot w = false -> path_exists w = false ->
      writeBackupFile w = ([], Some ErrNotExist))
  /\ (forall ci sis poolName pool volume data,
        IsSnapshot w = false -> path_exists w = true ->
        Render w = Ok ci -> Snapshots w = Ok (map Ok sis) ->
        StoragePoolName w = Ok poolName -> StoragePoolGet w = Ok pool ->
        StoragePoolNodeVolumeGetTypeByProject w = Ok volume ->
        Marshal w {| bf_Container := ci; bf_Snapshots := sis;
                     bf_Pool := pool; bf_Volume := volume |} = Ok data ->
        (rootfs_exists w = false -> writeBackupFile w = ([], None))
        /\ (rootfs_exists w = true ->
            Create_err w = None -> Chmod_err w = None -> WriteAll_err w = None ->
            writeBackupFile w
            = ([ Create (Path w +:+ "/backup.yaml");
                 Chmod (Path w +:+ "/backup.yaml") 256;
                 WriteAll (Path w +:+ "/backup.yaml") data ], None))).
Proof.
  split; [|split].
  - intros Hs. unfold writeBackupFile. now rewrite Hs.
  - intros Hs Hp. unfold writeBackupFile. now rewrite Hs, Hp.
  - intros ci sis poolName pool volume data Hs Hp Hci Hsn Hpn Hpool Hvol Hdata.
    unfold writeBackupFile.
    rewrite Hs, Hp, Hci, Hsn, renderSnapshots_all_ok, Hpn, Hpool, Hvol. cbn [negb app].
    rewrite Hdata. split.
    + intros Hr. now rewrite Hr.
    + intros Hr Hc Hm Hw. now rewrite Hr, Hc, Hm, Hw.
Qed.

Lemma writeBackupFile_cases_witness :
  writeBackupFile (backupWorld false true true)
  = ([ Create "/var/lib/lxd/containers/c1/backup.yaml";
       Chmod "/var/lib/lxd/containers/c1/backup.yaml" 256;
       WriteAll "/var/lib/lxd/containers/c1/backup.yaml"
                "container: c1 snapshots: c1/snap0 pool: default volume: c1" ],
     None).
Proof.
  exact (proj2 (proj2 (proj2 (writeBackupFile_cases _ _ _ _ (backupWorld false true true)))
                  "c1" ["c1/snap0"] "default" "default" "c1" _
                  eq_refl eq_refl eq_refl eq_refl eq_refl eq_refl eq_refl eq_refl)
               eq_refl eq_refl eq_refl eq_refl).
Defined.

End BackupFacts.

(** *** Read-only keys *)

Section ConfigKeysFacts.
Import Go ConfigKeys.

Definition validationOk : validation :=
  {| containerValidConfig := None; containerValidDevices := None;
     Profiles := Ok ["default"]; ArchitectureName := None |}.

Definition emptyConfigs : configs := {| localConfig := ∅; expandedConfig := ∅ |}.

(** C7, refuted as stated.  The submitted config adds the key
    [image.os] with an empty value, which the local config does not have;
    the check compares values and reads the missing key as the empty
    string, so the update is not rejected. *)
Lemma UpdateChecks_added_empty_key_passes :
  let argsConfig : gmap string string := {[ "image.os" := "" ]} in
  argsConfig !! "image.os" <> localConfig emptyConfigs !! "image.os"
  /\ UpdateChecks asListed asListed emptyConfigs validationOk argsConfig
       ["default"] 2 true = None.
Proof. split; [vm_compute; discriminate|vm_compute; reflexivity]. Qed.

End ConfigKeysFacts.

Section ConfigKeysProofs.
Import Go ConfigKeys.

Variable rangeArgs : list (string * string) -> list (string * string).
Variable rangeLocal : list (string * string) -> list (string * string).
Variable rangeChanges : list (string * string) -> list (string * string).

Hypothesis rangeArgs_order : range_order rangeArgs.
Hypothesis rangeLocal_order : range_order rangeLocal.
Hypothesis rangeChanges_order : range_order rangeChanges.

Lemma elem_of_ranged (f : list (string * string) -> list (string * string))
    (m : gmap string string) (k v : string) :
  range_order f -> (k, v) ∈ f (map_to_list m) <-> m !! k = Some v.
Proof. intros Hf. rewrite (Hf _). apply elem_of_map_to_list. Qed.

Lemma checkEntries_None (entries : list (string * string)) (other : gmap string string) :
  checkEntries entries other = None
  <-> forall k v, (k, v) ∈ entries -> read_only_key k -> cfg other k = v.
Proof.
  induction entries as [|[k v] entries IH]; cbn.
  - split; [|reflexivity]. intros _ k v H. inversion H.
  - destruct (String.eqb_spec (cfg other k) v) as [Heq|Hne]; cbn [negb].
    + rewrite !andb_false_r, IH. split.
      * intros H k' v' Hin Hro. apply elem_of_cons in Hin as [[= -> ->]|Hin]; auto.
      * intros H k' v' Hin. apply H. now right.
    + rewrite !andb_true_r.
      destruct (HasPrefix k "volatile.") eqn:Hv.
      * split; [discriminate|]. intros H. exfalso. apply Hne.
        apply H; [now left|now left].
      * destruct (HasPrefix k "image.") eqn:Hi.
        -- split; [discriminate|]. intros H. exfalso. apply Hne.
           apply H; [now left|now right].
        -- rewrite IH. split.
           ++ intros H k' v' Hin Hro.
              apply elem_of_cons in Hin as [[= -> ->]|Hin]; [|auto].
              destruct Hro; congruence.
           ++ intros H k' v' Hin. apply H. now right.
Qed.

Lemma checkEntries_Some (entries : list (string * string)) (other : gmap string string)
    (err : error) :
  checkEntries entries other = Some err ->
  exists k v, (k, v) ∈ entries /\ cfg other k <> v
              /\ ((err = volatileReadOnly /\ HasPrefix k "volatile." = true)
                  \/ (err = imageReadOnly /\ HasPrefix k "image." = true)).
Proof.
  induction entries as [|[k v] entries IH]; cbn; [discriminate|].
  destruct (String.eqb_spec (cfg other k) v) as [Heq|Hne]; cbn [negb].
  - rewrite !andb_false_r. intros H. destruct (IH H) as (k' & v' & Hin & Hrest).
    exists k', v'. split; [now right|exact Hrest].
  - rewrite !andb_true_r.
    destruct (HasPrefix k "volatile.") eqn:Hv.
    + intros [= <-]. exists k, v. split; [now left|]. auto.
    + destruct (HasPrefix k "image.") eqn:Hi.
      * intros [= <-]. exists k, v. split; [now left|]. auto.
      * intros H. destruct (IH H) as (k' & v' & Hin & Hrest).
        exists k', v'. split; [now right|exact Hrest].
Qed.

Lemma cfg_Some (m : gmap string string) (k v : string) :
  m !! k = Some v -> cfg m k = v.
Proof. unfold cfg. now intros ->. Qed.

(** The check passes exactly when the two configs agree on every
    read-only key. *)
Lemma readOnlyCheck_None (c : configs) (argsConfig : gmap string string) :
  readOnlyCheck rangeArgs rangeLocal c argsConfig = None
  <-> forall k, read_only_key k -> ~ differ_on argsConfig (localConfig c) k.
Proof.
  unfold readOnlyCheck, differ_on.
  destruct (checkEntries (rangeArgs _) _) as [err|] eqn:Hargs.
  - split; [discriminate|]. intros H. exfalso.
    apply checkEntries_Some in Hargs as (k & v & Hin & Hne & Hkind).
    apply elem_of_ranged in Hin; [|exact rangeArgs_order].
    apply (H k); [destruct Hkind as [[_ ?]|[_ ?]]; [now left|now right]|].
    rewrite (cfg_Some _ _ _ Hin). congruence.
  - rewrite checkEntries_None in Hargs. rewrite checkEntries_None. split.
    + intros Hlocal k Hro Hdiff. apply Hdiff.
      destruct (argsConfig !! k) as [v|] eqn:Ha.
      * rewrite (cfg_Some _ _ _ Ha). symmetry. apply Hargs; [|exact Hro].
        now apply elem_of_ranged.
      * destruct (localConfig c !! k) as [v|] eqn:Hl.
        -- rewrite (cfg_Some _ _ _ Hl). apply Hlocal; [|exact Hro].
           now apply elem_of_ranged.
        -- unfold cfg. now rewrite Ha, Hl.
    + intros H k v Hin Hro.
      apply elem_of_ranged in Hin; [|exact rangeLocal_order].
      rewrite <- (cfg_Some _ _ _ Hin).
      destruct (String.eqb_spec (cfg argsConfig k) (cfg (localConfig c) k)) as [Heq|Hne];
        [exact Heq|]. exfalso. exact (H k Hro Hne).
Qed.

Lemma readOnlyCheck_Some (c : configs) (argsConfig : gmap string string) (err : error) :
  readOnlyCheck rangeArgs rangeLocal c argsConfig = Some err ->
  exists k, differ_on argsConfig (localConfig c) k
            /\ ((err = volatileReadOnly /\ HasPrefix k "volatile." = true)
                \/ (err = imageReadOnly /\ HasPrefix k "image." = true)).
Proof.
  unfold readOnlyCheck, differ_on.
  destruct (checkEntries (rangeArgs _) _) as [err'|] eqn:Hargs.
  - intros [= ->].
    apply checkEntries_Some in Hargs as (k & v & Hin & Hne & Hkind).
    apply elem_of_ranged in Hin; [|exact rangeArgs_order].
    exists k. split; [|exact Hkind]. rewrite (cfg_Some _ _ _ Hin). congruence.
  - intros Hlocal.
    apply checkEntries_Some in Hlocal as (k & v & Hin & Hne & Hkind).
    apply elem_of_ranged in Hin; [|exact rangeLocal_order].
    exists k. split; [|exact Hkind]. now rewrite (cfg_Some _ _ _ Hin).
Qed.

(** The last loop of [VolatileSet], on entries with distinct keys. *)
Lemma fold_applyChange_lookup (entries : list (string * string)) (c : configs)
    (k : string) :
  NoDup entries.*1 ->
  (forall v, (k, v) ∈ entries ->
     localConfig (fold_left applyChange entries c) !! k
       = (if String.eqb v "" then None else Some v)
     /\ expandedConfig (fold_left applyChange entries c) !! k
       = (if String.eqb v "" then None else Some v))
  /\ (k ∉ entries.*1 ->
      localConfig (fold_left applyChange entries c) !! k = localConfig c !! k
      /\ expandedConfig (fold_left applyChange entries c) !! k = expandedConfig c !! k).
Proof.
  revert c. induction entries as [|[k0 v0] entries IH]; intros c Hnd.
  - split; [intros v H; inversion H|]. intros _. split; reflexivity.
  - cbn [fmap list_fmap fst] in Hnd. apply NoDup_cons in Hnd as [Hk0 Hnd].
    cbn [fold_left].
    destruct (IH (applyChange c (k0, v0)) Hnd) as [IHin IHout].
    assert (Hstep : forall k', k' <> k0 ->
               localConfig (applyChange c (k0, v0)) !! k' = localConfig c !! k'
               /\ expandedConfig (applyChange c (k0, v0)) !! k' = expandedConfig c !! k').
    { intros k' Hne. cbn. destruct (String.eqb v0 ""); cbn.
      - now rewrite !lookup_delete_ne by auto.
      - now rewrite !lookup_insert_ne by auto. }
    assert (Hhere : localConfig (applyChange c (k0, v0)) !! k0
                    = (if String.eqb v0 "" then None else Some v0)
                    /\ expandedConfig (applyChange c (k0, v0)) !! k0
                       = (if String.eqb v0 "" then None else Some v0)).
    { cbn. destruct (String.eqb v0 ""); cbn.
      - now rewrite !lookup_delete_eq.
      - now rewrite !lookup_insert_eq. }
    split.
    + intros v Hin. apply elem_of_cons in Hin as [[= -> ->]|Hin].
      * destruct (IHout Hk0) as [-> ->]. exact Hhere.
      * apply IHin, Hin.
    + intros Hout. cbn [fmap list_fmap fst] in Hout.
      apply not_elem_of_cons in Hout as [Hne Hout].
      destruct (IHout Hout) as [-> ->]. apply Hstep, Hne.
Qed.

Lemma UpdateChecks_user (c : configs) (v : validation)
    (argsConfig : gmap string string) (argsProfiles : list string) (architecture : Z) :
  UpdateChecks rangeArgs rangeLocal c v argsConfig argsProfiles architecture true
  = match UpdateChecks rangeArgs rangeLocal c v argsConfig argsProfiles architecture false with
    | Some err => Some err
    | None => readOnlyCheck rangeArgs rangeLocal c argsConfig
    end.
Proof.
  unfold UpdateChecks.
  destruct (containerValidConfig v); [reflexivity|].
  destruct (containerValidDevices v); [reflexivity|].
  destruct (Profiles v); [|reflexivity].
  destruct (checkProfiles _ _ _); [reflexivity|].
  destruct (if negb (architecture =? 0) then _ else _); reflexivity.
Qed.

(** C7, amended.  A user-requested [Update] fails, before it applies
    any change, whenever the submitted config and the container's local
    config differ in value on a key prefixed [volatile.] or [image.], a
    missing key reading as the empty string; when the validation before
    the check passes, the error is "Volatile keys are read-only" or
    "Image keys are read-only", for a key of that prefix that differs, and
    the check passes exactly when no such key differs.  [VolatileSet]
    rejects, without touching the database or the container, every change
    set with a key not prefixed [volatile.]; a change set of volatile keys
    is written to the database and to both config maps, an empty value
    deleting the key. *)
Theorem read_only_keys (c : configs) (v : validation)
    (argsConfig changes : gmap string string) (argsProfiles : list string)
    (architecture : Z) :
  ((exists k, read_only_key k /\ differ_on argsConfig (localConfig c) k) ->
   exists err,
     UpdateChecks rangeArgs rangeLocal c v argsConfig argsProfiles architecture true
     = Some err)
  /\ (UpdateChecks rangeArgs rangeLocal c v argsConfig argsProfiles architecture false
      = None ->
      (forall err,
         UpdateChecks rangeArgs rangeLocal c v argsConfig argsProfiles architecture true
         = Some err ->
         exists k, differ_on argsConfig (localConfig c) k
                   /\ ((err = Errorf "Volatile keys are read-only"
                        /\ HasPrefix k "volatile." = true)
                       \/ (err = Errorf "Image keys are read-only"
                           /\ HasPrefix k "image." = true)))
      /\ (UpdateChecks rangeArgs rangeLocal c v argsConfig argsProfiles architecture true
          = None
          <-> forall k, read_only_key k -> ~ differ_on argsConfig (localConfig c) k))
  /\ ((exists k, is_Some (changes !! k) /\ HasPrefix k "volatile." = false) ->
      forall transaction,
        VolatileSet rangeChanges c changes transaction
        = (c, [], Some (Errorf "Only volatile keys can be modified with VolatileSet")))
  /\ ((forall k, is_Some (changes !! k) -> HasPrefix k "volatile." = true) ->
      exists c',
        VolatileSet rangeChanges c changes None
        = (c', [ContainerConfigUpdate changes], None)
        /\ forall k,
             localConfig c' !! k
             = match changes !! k with
               | Some value => if String.eqb value "" then None else Some value
               | None => localConfig c !! k
               end
             /\ expandedConfig c' !! k
                = match changes !! k with
                  | Some value => if String.eqb value "" then None else Some value
                  | None => expandedConfig c !! k
                  end).
Proof.
  split; [|split; [|split]].
  - intros (k & Hro & Hdiff). rewrite UpdateChecks_user.
    destruct (UpdateChecks _ _ _ _ _ _ _ false) as [err|]; [eauto|].
    destruct (readOnlyCheck rangeArgs rangeLocal c argsConfig) as [err|] eqn:Hcheck;
      [eauto|].
    exfalso. rewrite readOnlyCheck_None in Hcheck. exact (Hcheck k Hro Hdiff).
  - intros Hvalid. rewrite UpdateChecks_user, Hvalid. split.
    + intros err Herr. apply readOnlyCheck_Some, Herr.
    + apply readOnlyCheck_None.
  - intros (k & [value Hk] & Hprefix) transaction. unfold VolatileSet.
    assert (Hall : forallb (fun '(key, _) => HasPrefix key "volatile.")
                     (rangeChanges (map_to_list changes)) = false).
    { apply not_true_is_false. intros Hall.
      rewrite forallb_forall in Hall.
      specialize (Hall (k, value)). cbn in Hall. rewrite Hall in Hprefix; [discriminate|].
      apply list_elem_of_In, elem_of_ranged; [exact rangeChanges_order|exact Hk]. }
    now rewrite Hall.
  - intros Hvolatile. unfold VolatileSet.
    assert (Hall : forallb (fun '(key, _) => HasPrefix key "volatile.")
                     (rangeChanges (map_to_list changes)) = true).
    { apply forallb_forall. intros [key value] Hin.
      apply list_elem_of_In, elem_of_ranged in Hin; [|exact rangeChanges_order].
      apply Hvolatile. eauto. }
    rewrite Hall. cbn [negb]. eexists. split; [reflexivity|].
    intros k.
    assert (Hnd : NoDup (rangeChanges (map_to_list changes)).*1).
    { rewrite (rangeChanges_order _). apply NoDup_fst_map_to_list. }
    destruct (fold_applyChange_lookup (rangeChanges (map_to_list changes)) c k Hnd)
      as [Hin Hout].
    destruct (changes !! k) as [value|] eqn:Hk.
    + apply Hin, elem_of_ranged; [exact rangeChanges_order|exact Hk].
    + apply Hout. intros Hmem.
      apply list_elem_of_fmap in Hmem as ([k' value] & -> & Hmem).
      apply elem_of_ranged in Hmem; [|exact rangeChanges_order].
      cbn in Hk. congruence.
Qed.

End ConfigKeysProofs.

Section ConfigKeysWitness.
Import Go ConfigKeys.

(** The amended statement on a container whose [volatile.idmap.base] the
    user tries to change. *)
Lemma read_only_keys_witness :
  exists err,
    UpdateChecks asListed asListed
      {| localConfig := {[ "volatile.idmap.base" := "1065536" ]};
         expandedConfig := {[ "volatile.idmap.base" := "1065536" ]} |}
      validationOk {[ "volatile.idmap.base" := "0" ]} ["default"] 2 true
    = Some err.
Proof.
  apply (proj1 (read_only_keys asListed asListed asListed
                  asListed_range_order asListed_range_order asListed_range_order
                  _ validationOk _ ∅ ["default"] 2)).
  exists "volatile.idmap.base". split.
  - left. reflexivity.
  - vm_compute. discriminate.
Defined.

Example UpdateChecks_volatile_changed :
  UpdateChecks asListed asListed
    {| localConfig := {[ "volatile.idmap.base" := "1065536" ]};
       expandedConfig := {[ "volatile.idmap.base" := "1065536" ]} |}
    validationOk {[ "volatile.idmap.base" := "0" ]} ["default"] 2 true
  = Some (Errorf "Volatile keys are read-only").
Proof. vm_compute. reflexivity. Qed.

Example VolatileSet_engine_write :
  VolatileSet asListed emptyConfigs {[ "volatile.idmap.base" := "1065536" ]} None
  = ({| localConfig := {[ "volatile.idmap.base" := "1065536" ]};
        expandedConfig := {[ "volatile.idmap.base" := "1065536" ]} |},
     [ContainerConfigUpdate {[ "volatile.idmap.base" := "1065536" ]}], None).
Proof. vm_compute. reflexivity. Qed.

End ConfigKeysWitness.

(** *** Live change of the memory limit *)

(** A byte size without a unit is the number itself; the runs below use
    [units.ParseByteSizeString] on such sizes only. *)
Definition ParseByteSizeString_plain (s : string) : Go.result Z :=
  match Go.ParseInt s with
  | Some n => Go.Ok n
  | None => Go.Err (Go.Failure "Invalid value")
  end.

Section MemoryFacts.
Import Go MemoryLimits.

Definition memoryWorld (memory enforce : string)
    (setResult : list cgWrite -> string -> string -> option error) : world :=
  {| CGroupMemoryController := true;
     CGroupSwapAccounting := true;
     expandedConfig := {[ "limits.memory" := memory;
                          "limits.memory.enforce" := enforce ]};
     DeviceTotalMemory := Ok 8589934592;
     CGroupGet := fun key =>
       if String.eqb key "memory.soft_limit_in_bytes" then Ok "460800000"
       else Ok "512000000";
     CGroupSet := setResult |}.

Definition allAccepted : list cgWrite -> string -> string -> option error :=
  fun _ _ _ => None.

(** One GiB: nine tenths of it are 966367641.6, printed as 966367642. *)
Example ninetyPercent_GiB : ninetyPercent 1073741824 = "966367642".
Proof. vm_compute. reflexivity. Qed.

(** A tie goes to the even integer, and no limit is written as -1 with a
    soft limit of -1. *)
Example ninetyPercent_ties :
  ninetyPercent 5 = "4" /\ ninetyPercent 15 = "14" /\ ninetyPercent (-1) = "-1".
Proof. repeat split; vm_compute; reflexivity. Qed.

Example applyMemoryLimit_hard :
  applyMemoryLimit ParseByteSizeString_plain IsTrue_lower
    (memoryWorld "1073741824" "hard" allAccepted)
  = ([ ("memory.memsw.limit_in_bytes", "-1");
       ("memory.limit_in_bytes", "-1");
       ("memory.soft_limit_in_bytes", "-1");
       ("memory.limit_in_bytes", "1073741824");
       ("memory.memsw.limit_in_bytes", "1073741824");
       ("memory.soft_limit_in_bytes", "966367642") ], None).
Proof. vm_compute. reflexivity. Qed.

(** C6, refuted as stated.  With [limits.memory.enforce] set to soft the
    three limits are cleared and then only the soft limit is written, with
    the limit itself and not nine tenths of it; the hard limit stays at
    -1. *)
Lemma applyMemoryLimit_soft_enforce :
  applyMemoryLimit ParseByteSizeString_plain IsTrue_lower
    (memoryWorld "1073741824" "soft" allAccepted)
  = ([ ("memory.memsw.limit_in_bytes", "-1");
       ("memory.limit_in_bytes", "-1");
       ("memory.soft_limit_in_bytes", "-1");
       ("memory.soft_limit_in_bytes", "1073741824") ], None).
Proof. vm_compute. reflexivity. Qed.

End MemoryFacts.

Section FloatFacts.
Import Go MemoryLimits.

Lemma roundHalfEven_near (num den : Z) :
  0 < den -> - den <= 2 * (den * roundHalfEven num den - num) <= den.
Proof.
  intros Hden. unfold roundHalfEven.
  pose proof (Z.div_mod num den ltac:(lia)) as Hdm.
  pose proof (Z.mod_pos_bound num den Hden) as Hmod.
  destruct (Z.ltb_spec (2 * (num mod den)) den); [lia|].
  destruct (Z.ltb_spec den (2 * (num mod den))); [lia|].
  destruct (Z.even (num / den)); lia.
Qed.

Lemma roundHalfEven_nonneg (num den : Z) :
  0 <= num -> 0 < den -> 0 <= roundHalfEven num den.
Proof.
  intros Hnum Hden. unfold roundHalfEven.
  pose proof (Z.div_pos num den Hnum Hden).
  destruct (_ <? _); [lia|]. destruct (_ <? _); [lia|]. destruct (Z.even _); lia.
Qed.

(** Nine tenths of a magnitude of at most 2^49, as the float64
    arithmetic gives them: within one half of the exact value. *)
Lemma nearestInt_ninety (v : Z) :
  0 <= v <= 2 ^ 49 ->
  let r := nearestInt (float64_mul (round53 v 0) float64_0_9) in
  0 <= r /\ - 5 <= 10 * r - 9 * v <= 5.
Proof.
  intros Hv.
  assert (Hexact : round53 v 0 = (v, 0)).
  { unfold round53. destruct (Z.eq_dec v 0) as [->|Hne]; [reflexivity|].
    assert (Z.log2 v < 53) by (apply Z.log2_lt_pow2; lia).
    destruct (Z.leb_spec (Z.log2 v + 1 - 53) 0); [reflexivity|lia]. }
  rewrite Hexact. unfold float64_mul, float64_0_9. cbn [fst snd].
  set (P := v * 8106479329266893). cbv zeta.
  replace (0 + -53) with (-53) by lia.
  unfold round53.
  destruct (Z.leb_spec (Z.log2 P + 1 - 53) 0) as [Hs|Hs].
  - unfold nearestInt. cbn [fst snd].
    change (0 <=? -53) with false. cbv iota. change (- -53) with 53.
    pose proof (roundHalfEven_near P (2 ^ 53) ltac:(lia)) as Hr.
    pose proof (roundHalfEven_nonneg P (2 ^ 53) ltac:(unfold P; lia) ltac:(lia)) as Hr0.
    split; [exact Hr0|]. unfold P in *. lia.
  - set (s := Z.log2 P + 1 - 53) in *.
    assert (HP : 0 < P).
    { destruct (Z.eq_dec P 0) as [H0|H0]; [|unfold P in *; lia].
      unfold s in Hs. rewrite H0 in Hs. cbn in Hs. lia. }
    pose proof (Z.log2_spec P HP) as [Hlo Hhi].
    assert (Hs48 : s <= 49).
    { assert (Z.log2 P < 102); [|lia].
      apply Z.log2_lt_pow2; [exact HP|]. unfold P.
      assert (v * 8106479329266893 <= 2 ^ 49 * 8106479329266893) by nia. lia. }
    unfold nearestInt. cbn [fst snd].
    destruct (Z.leb_spec 0 (-53 + s)) as [Hbig|Hsmall]; [lia|].
    replace (- (-53 + s)) with (53 - s) by lia.
    assert (Hpow : 2 ^ s * 2 ^ (53 - s) = 2 ^ 53).
    { rewrite <- Z.pow_add_r by lia. f_equal. lia. }
    assert (Hd1 : 0 < 2 ^ s) by (apply Z.pow_pos_nonneg; lia).
    assert (Hd2 : 0 < 2 ^ (53 - s)) by (apply Z.pow_pos_nonneg; lia).
    pose proof (roundHalfEven_near P (2 ^ s) Hd1) as Hm.
    pose proof (roundHalfEven_nonneg P (2 ^ s) ltac:(lia) Hd1) as Hm0.
    set (m := roundHalfEven P (2 ^ s)) in *.
    pose proof (roundHalfEven_near m (2 ^ (53 - s)) Hd2) as Hr.
    pose proof (roundHalfEven_nonneg m (2 ^ (53 - s)) Hm0 Hd2) as Hr0.
    set (r := roundHalfEven m (2 ^ (53 - s))) in *.
    split; [exact Hr0|].
    (* 2^s is at most P / 2^52 *)
    assert (Hlog : 2 ^ (52 + s) <= P).
    { replace (52 + s) with (Z.log2 P) by (unfold s; lia). exact Hlo. }
    assert (Hs2 : 2 ^ 52 * 2 ^ s <= P).
    { rewrite <- Z.pow_add_r by lia. exact Hlog. }
    set (D1 := 2 ^ s) in *. set (D2 := 2 ^ (53 - s)) in *.
    assert (HD1v : D1 <= 2 * v) by (unfold P in Hs2; nia).
    (* |2^53 r - P| <= 2^52 + D1/2 *)
    assert (Hboth : - (2 ^ 53 + D1) <= 2 * (2 ^ 53 * r - P) <= 2 ^ 53 + D1).
    { rewrite <- Hpow. nia. }
    unfold P in Hboth. lia.
Qed.


Lemma itoa_opp (r : Z) : 0 < r -> itoa (- r) = "-" +:+ itoa r.
Proof.
  intros Hr. unfold itoa.
  destruct (Z.ltb_spec (- r) 0); [|lia]. destruct (Z.ltb_spec r 0); [lia|].
  rewrite Z.opp_involutive. reflexivity.
Qed.

(** The soft limit is nine tenths of the limit, rounded to a nearest
    integer: for a limit of at most 2^49 bytes in size the number printed
    is within one half of the exact value. *)
Lemma ninetyPercent_near (valueInt : Z) :
  - 2 ^ 49 <= valueInt <= 2 ^ 49 ->
  exists r, ninetyPercent valueInt = itoa r /\ - 5 <= 10 * r - 9 * valueInt <= 5.
Proof.
  intros Hv. unfold ninetyPercent.
  destruct (nearestInt_ninety (Z.abs valueInt) ltac:(lia)) as [Hr0 Hr].
  set (r := nearestInt (float64_mul (round53 (Z.abs valueInt) 0) float64_0_9)) in *.
  destruct (Z.ltb_spec valueInt 0) as [Hneg|Hpos].
  - exists (- r). split; [|lia]. rewrite itoa_opp by lia. reflexivity.
  - exists r. split; [reflexivity|lia].
Qed.

End FloatFacts.

Section MemoryProofs.
Import Go MemoryLimits.

Variable ParseByteSizeString : string -> result Z.
Variable IsTrue : string -> bool.

Lemma revertMemory_writes (w : world) (trace : list cgWrite) :
  revertMemory w trace = trace ++ revertWrites w.
Proof.
  unfold revertMemory, revertWrites, set. cbn [List.filter fst snd].
  destruct (String.eqb (oldValue w "memory.soft_limit_in_bytes") "");
    destruct (String.eqb (oldValue w "memory.limit_in_bytes") "");
    destruct (String.eqb (oldMemswLimit w) ""); cbn [negb];
    rewrite <- ?app_assoc; cbn [app]; rewrite ?app_nil_r; reflexivity.
Qed.

Lemma setOrRevert_run (w : world) (trace : list cgWrite) (key value : string)
    (next : list cgWrite -> list cgWrite * option error) :
  setOrRevert w trace key value next
  = match CGroupSet w trace key value with
    | Some err => (trace ++ [(key, value)] ++ revertWrites w, Some err)
    | None => next (trace ++ [(key, value)])
    end.
Proof.
  unfold setOrRevert, set. destruct (CGroupSet w trace key value); [|reflexivity].
  now rewrite revertMemory_writes, <- app_assoc.
Qed.

Lemma runWrites_accepted (w : world) (trace planned : list cgWrite) :
  (forall trace key value, CGroupSet w trace key value = None) ->
  runWrites w trace planned = (trace ++ planned, None).
Proof.
  intros Hok. revert trace. induction planned as [|[key value] planned IH]; intros trace.
  - cbn. now rewrite app_nil_r.
  - cbn [runWrites]. rewrite Hok, IH, <- app_assoc. reflexivity.
Qed.

Lemma runWrites_first_failure (w : world) (trace done rest : list cgWrite)
    (key value : string) (err : error) :
  (forall n k v, done !! n = Some (k, v) -> CGroupSet w (trace ++ take n done) k v = None) ->
  CGroupSet w (trace ++ done) key value = Some err ->
  runWrites w trace (done ++ (key, value) :: rest)
  = (trace ++ done ++ [(key, value)] ++ revertWrites w, Some err).
Proof.
  revert trace. induction done as [|[k0 v0] done IH]; intros trace Hdone Hfail.
  - cbn [app runWrites]. rewrite app_nil_r in Hfail. now rewrite Hfail.
  - cbn [app runWrites].
    pose proof (Hdone 0%nat k0 v0 eq_refl) as H0. cbn in H0. rewrite app_nil_r in H0.
    rewrite H0, IH.
    + now rewrite <- app_assoc.
    + intros n k v Hn. specialize (Hdone (S n) k v Hn). cbn in Hdone.
      now rewrite <- app_assoc.
    + now rewrite <- app_assoc.
Qed.

Lemma applyMemoryLimit_run (w : world) (memory : string) (valueInt : Z) :
  CGroupMemoryController w = true ->
  parseMemory ParseByteSizeString w = Ok memory ->
  ParseInt memory = Some valueInt ->
  applyMemoryLimit ParseByteSizeString IsTrue w
  = runWrites w [] (resetWrites w ++ newWrites IsTrue w memory valueInt).
Proof.
  intros Hctl Hmem Hint. unfold applyMemoryLimit, resetWrites, newWrites.
  rewrite Hctl, Hmem. cbn [negb].
  destruct (CGroupSwapAccounting w); cbn [andb];
    destruct (String.eqb (cfg (expandedConfig w) "limits.memory.enforce") "soft");
    try destruct (String.eqb (cfg (expandedConfig w) "limits.memory.swap") ""
                  || IsTrue (cfg (expandedConfig w) "limits.memory.swap"))%bool;
    cbn [app runWrites];
    repeat (rewrite setOrRevert_run; cbn [app];
            match goal with
            | |- context [CGroupSet w ?t ?k ?v] =>
                destruct (CGroupSet w t k v); [reflexivity|]
            end);
    rewrite ?Hint;
    repeat (rewrite setOrRevert_run; cbn [app];
            match goal with
            | |- context [CGroupSet w ?t ?k ?v] =>
                destruct (CGroupSet w t k v); [reflexivity|]
            end);
    reflexivity.
Qed.

(** The last accepted write, over two runs of writes. *)
Lemma lastAccepted_app (w : world) (a b : list cgWrite) (key : string) :
  forall (done : list cgWrite) (held : option string),
    lastAccepted w done (a ++ b) key held
    = lastAccepted w (done ++ a) b key (lastAccepted w done a key held).
Proof.
  induction a as [|[k v] a IH]; intros done held; cbn [app lastAccepted].
  - now rewrite app_nil_r.
  - rewrite IH, <- app_assoc. reflexivity.
Qed.

(** Writes to other files leave what the file holds. *)
Lemma lastAccepted_other (w : world) (rest : list cgWrite) (key : string) :
  forall (done : list cgWrite) (held : option string),
    Forall (fun kv => kv.1 <> key) rest ->
    lastAccepted w done rest key held = held.
Proof.
  induction rest as [|[k v] rest IH]; intros done held Hall; cbn [lastAccepted];
    [reflexivity|].
  inversion Hall as [|? ? Hk Hrest]; subst. cbn [fst] in Hk.
  rewrite IH by exact Hrest.
  destruct (String.eqb_spec k key); [contradiction|reflexivity].
Qed.

(** The writes of the revert go to files that differ from each other. *)
Lemma revertWrites_split (w : world) (key old : string) :
  readForRevert w key old ->
  exists pre post,
    revertWrites w = pre ++ (key, old) :: post
    /\ Forall (fun kv => kv.1 <> key) post.
Proof.
  intros (Hget & Hne & Hkey). unfold revertWrites. cbn [List.filter snd].
  assert (Hold : oldValue w key = old) by (unfold oldValue; now rewrite Hget).
  assert (Hnz : String.eqb old "" = false) by now apply String.eqb_neq.
  destruct Hkey as [->|[->|[-> Hswap]]].
  - rewrite Hold, Hnz. cbn [negb]. exists [], (List.filter (fun kv => negb (String.eqb kv.2 ""))
        [("memory.limit_in_bytes", oldValue w "memory.limit_in_bytes");
         ("memory.memsw.limit_in_bytes", oldMemswLimit w)]).
    split; [reflexivity|]. cbn [List.filter snd].
    destruct (negb _); destruct (negb _); repeat constructor; cbn; discriminate.
  - rewrite Hold, Hnz. cbn [negb].
    destruct (negb (String.eqb (oldValue w "memory.soft_limit_in_bytes") ""));
      [exists [("memory.soft_limit_in_bytes", oldValue w "memory.soft_limit_in_bytes")]
      |exists []];
      (eexists; split; [reflexivity|]);
      destruct (negb _); repeat constructor; cbn; discriminate.
  - assert (Hsw : oldMemswLimit w = old) by (unfold oldMemswLimit; now rewrite Hswap).
    rewrite Hsw, Hnz. cbn [negb].
    destruct (negb (String.eqb (oldValue w "memory.soft_limit_in_bytes") ""));
      destruct (negb (String.eqb (oldValue w "memory.limit_in_bytes") ""));
      [ exists [("memory.soft_limit_in_bytes", oldValue w "memory.soft_limit_in_bytes");
                ("memory.limit_in_bytes", oldValue w "memory.limit_in_bytes")]
      | exists [("memory.soft_limit_in_bytes", oldValue w "memory.soft_limit_in_bytes")]
      | exists [("memory.limit_in_bytes", oldValue w "memory.limit_in_bytes")]
      | exists [] ];
      exists []; (split; [reflexivity|constructor]).
Qed.

(** C6, amended.  With the memory controller there and [limits.memory]
    parsed as [memory], the live change writes, in this order,
    [memory.memsw.limit_in_bytes] (when swap accounting is there),
    [memory.limit_in_bytes] and [memory.soft_limit_in_bytes] to -1 and
    then the new values: with [limits.memory.enforce] set to soft only the
    soft limit, set to [memory]; otherwise the hard limit, the swap limit
    (when swap accounting is there and [limits.memory.swap] is unset or
    true) and the soft limit, which is [float64(valueInt)*0.9] printed
    with [%.0f]: nine tenths of the hard limit rounded to a nearest
    integer, for a limit of at most 2^49 bytes in size.  The first write
    that fails ends the sequence: the update returns its error after
    writing back, soft limit first, each of the three old values that was
    read; the results of these writes are not looked at, and each of them
    that is accepted leaves its file with the old value, none of the
    later writes going to that file. *)
Theorem applyMemoryLimit_sequence (w : world) (memory : string) (valueInt : Z) :
  CGroupMemoryController w = true ->
  parseMemory ParseByteSizeString w = Ok memory ->
  ParseInt memory = Some valueInt ->
  let planned := resetWrites w ++ newWrites IsTrue w memory valueInt in
  ((forall trace key value, CGroupSet w trace key value = None) ->
   applyMemoryLimit ParseByteSizeString IsTrue w = (planned, None))
  /\ (forall done key value rest err,
        planned = done ++ (key, value) :: rest ->
        (forall n k v, done !! n = Some (k, v) -> CGroupSet w (take n done) k v = None) ->
        CGroupSet w done key value = Some err ->
        applyMemoryLimit ParseByteSizeString IsTrue w
        = (done ++ [(key, value)] ++ revertWrites w, Some err)
        /\ forall file old,
             readForRevert w file old ->
             exists pre post,
               revertWrites w = pre ++ (file, old) :: post
               /\ (CGroupSet w (done ++ [(key, value)] ++ pre) file old = None ->
                   forall held,
                     lastAccepted w [] (done ++ [(key, value)] ++ revertWrites w)
                                  file held
                     = Some old))
  /\ (String.eqb (cfg (expandedConfig w) "limits.memory.enforce") "soft" = false ->
      In ("memory.soft_limit_in_bytes", ninetyPercent valueInt) planned
      /\ (- 2 ^ 49 <= valueInt <= 2 ^ 49 ->
          exists r, ninetyPercent valueInt = itoa r
                    /\ - 5 <= 10 * r - 9 * valueInt <= 5)).
Proof.
  intros Hctl Hmem Hint planned.
  rewrite (applyMemoryLimit_run w memory valueInt Hctl Hmem Hint). fold planned.
  split; [|split].
  - intros Hok. now rewrite runWrites_accepted.
  - intros done key value rest err Heq Hdone Hfail. rewrite Heq. split.
    + exact (runWrites_first_failure w [] done rest key value err Hdone Hfail).
    + intros file old Hread.
      destruct (revertWrites_split w file old Hread) as (pre & post & Hsplit & Hpost).
      exists pre, post. split; [exact Hsplit|]. intros Hacc held.
      rewrite Hsplit.
      replace (done ++ [(key, value)] ++ pre ++ (file, old) :: post)
        with ((done ++ [(key, value)] ++ pre) ++ (file, old) :: post)
        by (rewrite <- !app_assoc; reflexivity).
      rewrite lastAccepted_app, app_nil_l. cbn [lastAccepted].
      rewrite lastAccepted_other by exact Hpost.
      unfold accepted. rewrite Hacc, String.eqb_refl. reflexivity.
  - intros Hsoft. split; [|exact (ninetyPercent_near valueInt)].
    unfold planned, newWrites. rewrite Hsoft.
    apply in_or_app. right. apply in_or_app. right. apply in_or_app. right.
    now left.
Qed.

End MemoryProofs.

Section MemoryWitness.
Import Go MemoryLimits.

(** The amended statement on a container whose limit is raised to one
    GiB, every write accepted. *)
Lemma applyMemoryLimit_sequence_witness :
  applyMemoryLimit ParseByteSizeString_plain IsTrue_lower
    (memoryWorld "1073741824" "hard" allAccepted)
  = ([ ("memory.memsw.limit_in_bytes", "-1");
       ("memory.limit_in_bytes", "-1");
       ("memory.soft_limit_in_bytes", "-1");
       ("memory.limit_in_bytes", "1073741824");
       ("memory.memsw.limit_in_bytes", "1073741824");
       ("memory.soft_limit_in_bytes", "966367642") ], None).
Proof.
  exact (proj1 (applyMemoryLimit_sequence
                  ParseByteSizeString_plain IsTrue_lower
                  (memoryWorld "1073741824" "hard" allAccepted) "1073741824" 1073741824
                  eq_refl eq_refl eq_refl)
               (fun _ _ _ => eq_refl)).
Defined.

(** When the write of the new hard limit is refused, the old values are
    written back, and the three files hold them again. *)
Example applyMemoryLimit_revert :
  let w := memoryWorld "1073741824" "hard"
             (fun trace key value =>
                if String.eqb value "1073741824" then Some (Failure "Invalid argument")
                else None) in
  applyMemoryLimit ParseByteSizeString_plain IsTrue_lower w
  = ([ ("memory.memsw.limit_in_bytes", "-1");
       ("memory.limit_in_bytes", "-1");
       ("memory.soft_limit_in_bytes", "-1");
       ("memory.limit_in_bytes", "1073741824");
       ("memory.soft_limit_in_bytes", "460800000");
       ("memory.limit_in_bytes", "512000000");
       ("memory.memsw.limit_in_bytes", "512000000") ],
     Some (Failure "Invalid argument"))
  /\ map (fun file =>
            lastAccepted w [] (applyMemoryLimit ParseByteSizeString_plain IsTrue_lower w).1
                         file None)
         ["memory.soft_limit_in_bytes"; "memory.limit_in_bytes";
          "memory.memsw.limit_in_bytes"]
     = [Some "460800000"; Some "512000000"; Some "512000000"].
Proof. split; vm_compute; reflexivity. Qed.

End MemoryWitness.

(** *** Parsing of device settings *)

Section DeviceParseFacts.
Import Go GoText DeviceParse.

Example createUSBDevice_bus :
  createUSBDevice "add" "1d6b" "0002" "189" "1" "1" "2" "" [] 0
  = Ok {| action := "add"; vendor := "1d6b"; product := "0002";
          path := "/dev/bus/usb/001/002"; major := 189; minor := 1;
          ueventParts := []; ueventLen := 0 |}.
Proof. vm_compute. reflexivity. Qed.

Example deviceParseCPU_default : deviceParseCPU "" "" = Ok ("1024", "-1", "100000").
Proof. vm_compute. reflexivity. Qed.

Example deviceParseCPU_time :
  deviceParseCPU "25ms/100ms" "5" = Ok ("1019", "25000", "100000").
Proof. vm_compute. reflexivity. Qed.

(** Whenever [createUSBDevice] returns a device, its path is absolute:
    the bus path built from [busnum] and [devnum] when [devname] is empty,
    [devname] itself when that is absolute, and [devname] under [/dev/]
    otherwise; [major] and [minor] are the numbers read from the
    strings. *)
Theorem createUSBDevice_path_absolute
    (action vendor product major minor busnum devnum devname : string)
    (ueventParts : list string) (ueventLen : Z) (usb : usbDevice) :
  createUSBDevice action vendor product major minor busnum devnum devname
                  ueventParts ueventLen = Ok usb ->
  IsAbs (path usb) = true
  /\ Atoi major = Some (DeviceParse.major usb)
  /\ Atoi minor = Some (DeviceParse.minor usb)
  /\ (devname = "" ->
      exists busnumInt devnumInt,
        Atoi busnum = Some busnumInt /\ Atoi devnum = Some devnumInt
        /\ path usb = "/dev/bus/usb/" +:+ Sprintf_03d busnumInt
                      +:+ "/" +:+ Sprintf_03d devnumInt)
  /\ (devname <> "" -> IsAbs devname = true -> path usb = devname)
  /\ (devname <> "" -> IsAbs devname = false -> path usb = "/dev/" +:+ devname).
Proof.
  unfold createUSBDevice.
  destruct (Atoi major) as [majorInt|]; [|discriminate].
  destruct (Atoi minor) as [minorInt|]; [|discriminate].
  destruct (String.eqb_spec devname "") as [->|Hname].
  - destruct (Atoi busnum) as [b|]; [|discriminate].
    destruct (Atoi devnum) as [d|]; [|discriminate].
    intros [= <-]. cbn [path DeviceParse.major DeviceParse.minor].
    split; [reflexivity|]. split; [reflexivity|]. split; [reflexivity|].
    split; [intros _; exists b, d; auto|]. split; intros H; now destruct H.
  - destruct (IsAbs devname) eqn:Habs; cbn [negb].
    + intros [= <-]. cbn [path DeviceParse.major DeviceParse.minor].
      split; [exact Habs|]. split; [reflexivity|]. split; [reflexivity|].
      split; [intros H; now destruct Hname|]. split; [reflexivity|discriminate].
    + intros [= <-]. cbn [path DeviceParse.major DeviceParse.minor].
      split; [reflexivity|]. split; [reflexivity|]. split; [reflexivity|].
      split; [intros H; now destruct Hname|]. split; [discriminate|reflexivity].
Qed.

Lemma createUSBDevice_path_absolute_witness :
  IsAbs "/dev/ttyUSB0" = true.
Proof.
  exact (proj1 (createUSBDevice_path_absolute
                  "add" "0403" "6001" "188" "0" "" "" "ttyUSB0" [] 0
                  {| action := "add"; vendor := "0403"; product := "6001";
                     path := "/dev/ttyUSB0"; major := 188; minor := 0;
                     ueventParts := []; ueventLen := 0 |} eq_refl)).
Defined.

Lemma clamped_shares (n : Z) :
  minInt64 <= n <= maxInt64 ->
  exists m, 0 <= m <= maxInt64 /\ itoa (if n <? 0 then 0 else n) = itoa m.
Proof.
  intros Hn. destruct (Z.ltb_spec n 0).
  - exists 0. unfold maxInt64. split; [lia|reflexivity].
  - exists n. split; [lia|reflexivity].
Qed.

(** The cpu shares [deviceParseCPU] returns are never negative: whatever
    the allowance and the priority, the first result is the decimal
    rendering of an int that is at least 0. *)
Theorem deviceParseCPU_shares_not_negative
    (cpuAllowance cpuPriority shares quota period : string) :
  deviceParseCPU cpuAllowance cpuPriority = Ok (shares, quota, period) ->
  exists n, 0 <= n <= maxInt64 /\ shares = itoa n.
Proof.
  unfold deviceParseCPU.
  destruct (if negb (String.eqb cpuPriority "") then _ else _) as [p|]; [|discriminate].
  set (cpuShares := wrap64 (0 - wrap64 (10 - p))).
  assert (Hr : forall z, minInt64 <= add64 cpuShares z <= maxInt64)
    by (intros z; apply wrap64_range).
  destruct (negb (String.eqb cpuAllowance "")).
  - destruct (HasSuffix cpuAllowance "%").
    + destruct (Atoi (TrimSuffix cpuAllowance "%")) as [percent|]; [|discriminate].
      intros [= <- _ _].
      destruct (clamped_shares _ (Hr (add64 (wrap64 (10 * percent)) 24))) as (m & Hm & ->).
      now exists m.
    + destruct (SplitN2 "/" cpuAllowance) as [|q [|r [|]]]; try discriminate.
      destruct (Atoi (TrimSuffix q "ms")) as [quota'|]; [|discriminate].
      destruct (Atoi (TrimSuffix r "ms")) as [period'|]; [|discriminate].
      intros [= <- _ _].
      destruct (clamped_shares _ (Hr 1024)) as (m & Hm & ->). now exists m.
  - intros [= <- _ _].
    destruct (clamped_shares _ (Hr 1024)) as (m & Hm & ->). now exists m.
Qed.

Lemma deviceParseCPU_shares_not_negative_witness :
  exists n, 0 <= n <= maxInt64 /\ "0" = itoa n.
Proof.
  exact (deviceParseCPU_shares_not_negative "-200%" "-5" "0" "-1" "100000" eq_refl).
Defined.

(** The priority [deviceParseCPU] works with: 10 when none is given. *)
Definition priorityOf (cpuPriority : string) (p : Z) : Prop :=
  (cpuPriority = "" /\ p = 10) \/ (cpuPriority <> "" /\ Atoi cpuPriority = Some p).

Lemma wrap64_small (z : Z) : - 2 ^ 62 <= z <= 2 ^ 62 -> wrap64 z = z.
Proof. intros H. apply wrap64_id. unfold minInt64, maxInt64. lia. Qed.

(** The values [deviceParseCPU] computes, for numbers of at most 31 bits.
    With priority [p] (10 when none is given): no allowance gives
    [1024 - (10 - p)] shares and no CFS limit (quota -1, period 100000); an
    allowance of [n%] gives [10 n + 24 - (10 - p)] shares and no CFS limit;
    an allowance [q/r], each side with or without the suffix [ms], gives
    [1024 - (10 - p)] shares, quota [1000 q] and period [1000 r].  Negative
    shares are raised to 0. *)
Theorem deviceParseCPU_values (cpuAllowance cpuPriority : string) (p : Z) :
  priorityOf cpuPriority p -> - 2 ^ 31 <= p <= 2 ^ 31 ->
  (cpuAllowance = "" ->
   deviceParseCPU cpuAllowance cpuPriority
   = Ok (itoa (Z.max 0 (1024 - (10 - p))), "-1", "100000"))
  /\ (forall percent,
        cpuAllowance <> "" -> HasSuffix cpuAllowance "%" = true ->
        Atoi (TrimSuffix cpuAllowance "%") = Some percent ->
        - 2 ^ 31 <= percent <= 2 ^ 31 ->
        deviceParseCPU cpuAllowance cpuPriority
        = Ok (itoa (Z.max 0 (10 * percent + 24 - (10 - p))), "-1", "100000"))
  /\ (forall quota_s period_s quota period,
        cpuAllowance <> "" -> HasSuffix cpuAllowance "%" = false ->
        SplitN2 "/" cpuAllowance = [quota_s; period_s] ->
        Atoi (TrimSuffix quota_s "ms") = Some quota ->
        Atoi (TrimSuffix period_s "ms") = Some period ->
        - 2 ^ 31 <= quota <= 2 ^ 31 -> - 2 ^ 31 <= period <= 2 ^ 31 ->
        deviceParseCPU cpuAllowance cpuPriority
        = Ok (itoa (Z.max 0 (1024 - (10 - p))),
              itoa (1000 * quota), itoa (1000 * period))).
Proof.
  intros Hp Hsmall.
  assert (Hprio : (if negb (String.eqb cpuPriority "")
                   then match Atoi cpuPriority with
                        | None => Err (atoiError cpuPriority)
                        | Some p => Ok p
                        end
                   else Ok 10) = Ok p).
  { destruct Hp as [[-> ->]|[Hne Hp]]; [reflexivity|].
    destruct (String.eqb_spec cpuPriority ""); [contradiction|]. now rewrite Hp. }
  assert (Hclamp : forall n, (if n <? 0 then 0 else n) = Z.max 0 n).
  { intros n. destruct (Z.ltb_spec n 0); lia. }
  assert (Hshares : wrap64 (0 - wrap64 (10 - p)) = - (10 - p)).
  { rewrite (wrap64_small (10 - p)) by lia. apply wrap64_small. lia. }
  unfold deviceParseCPU. rewrite Hprio, Hshares. split; [|split].
  - intros ->. cbn [String.eqb negb]. unfold add64.
    rewrite wrap64_small by lia. rewrite Hclamp. repeat f_equal; lia.
  - intros percent Hne Hsuf Hpct Hb.
    destruct (String.eqb_spec cpuAllowance ""); [contradiction|]. cbn [negb].
    rewrite Hsuf, Hpct. unfold add64.
    rewrite (wrap64_small (10 * percent)) by lia.
    rewrite (wrap64_small (10 * percent + 24)) by lia.
    rewrite wrap64_small by lia. rewrite Hclamp. repeat f_equal; lia.
  - intros quota_s period_s quota period Hne Hsuf Hsplit Hq Hr Hbq Hbr.
    destruct (String.eqb_spec cpuAllowance ""); [contradiction|]. cbn [negb].
    rewrite Hsuf, Hsplit, Hq, Hr. unfold add64.
    rewrite !wrap64_small by lia. rewrite Hclamp.
    replace (quota * 1000) with (1000 * quota) by lia.
    replace (period * 1000) with (1000 * period) by lia.
    repeat f_equal; lia.
Qed.

Lemma deviceParseCPU_values_witness :
  deviceParseCPU "50%" "" = Ok (itoa (Z.max 0 (10 * 50 + 24 - (10 - 10))), "-1", "100000").
Proof.
  refine (proj1 (proj2 (deviceParseCPU_values "50%" "" 10 _ _)) 50 _ _ _ _);
    first [ left; split; reflexivity | discriminate | reflexivity | lia ].
Defined.

(** A disk limit is a rate in bytes or a rate in operations, never both:
    of the two numbers [deviceParseDiskLimit] returns for a direction, at
    most one is not 0, and both are 0 when the setting is empty.  When one
    of the two settings cannot be read, all four numbers are -1. *)
Theorem deviceParseDiskLimit_one_unit (ParseByteSizeString : string -> result Z)
    (readSpeed writeSpeed : string) (readBps readIops writeBps writeIops : Z)
    (err : option error) :
  deviceParseDiskLimit ParseByteSizeString readSpeed writeSpeed
  = (readBps, readIops, writeBps, writeIops, err) ->
  (err = None ->
   (readBps = 0 \/ readIops = 0) /\ (writeBps = 0 \/ writeIops = 0)
   /\ (readSpeed = "" -> readBps = 0 /\ readIops = 0)
   /\ (writeSpeed = "" -> writeBps = 0 /\ writeIops = 0))
  /\ (err <> None ->
      readBps = -1 /\ readIops = -1 /\ writeBps = -1 /\ writeIops = -1).
Proof.
  assert (Hval : forall value bps iops,
             parseValue ParseByteSizeString value = (bps, iops, None) ->
             (bps = 0 \/ iops = 0) /\ (value = "" -> bps = 0 /\ iops = 0)).
  { intros value bps iops. unfold parseValue.
    destruct (String.eqb_spec value "") as [->|Hne].
    - intros [= <- <-]. auto.
    - destruct (HasSuffix value "iops").
      + destruct (ParseInt _); intros [= <- <-]. split; [auto|contradiction].
      + destruct (ParseByteSizeString value); intros [= <- <-].
        split; [auto|contradiction]. }
  unfold deviceParseDiskLimit.
  destruct (parseValue ParseByteSizeString readSpeed) as [[rb ri] [e|]] eqn:Hr.
  - intros [= <- <- <- <- <-]. split; [discriminate|auto].
  - destruct (parseValue ParseByteSizeString writeSpeed) as [[wb wi] [e|]] eqn:Hw.
    + intros [= <- <- <- <- <-]. split; [discriminate|auto].
    + intros [= <- <- <- <- <-]. split; [|congruence]. intros _.
      destruct (Hval _ _ _ Hr) as [H1 H2], (Hval _ _ _ Hw) as [H3 H4]. auto.
Qed.

Lemma deviceParseDiskLimit_one_unit_witness :
  (0 = 0 \/ 200 = 0) /\ (1000 = 0 \/ 0 = 0).
Proof.
  destruct (deviceParseDiskLimit_one_unit
              (fun s => match ParseInt s with Some z => Ok z | None => Err (Errorf s) end)
              "200iops" "1000" 0 200 1000 0 None eq_refl) as [H _].
  destruct (H eq_refl) as (H1 & H2 & _). exact (conj H1 H2).
Defined.

End DeviceParseFacts.

(** *** Numbers and lists, rendered and read back *)

Section NumberFacts.
Import Go.

Lemma digit_val_digit (d : Z) :
  0 <= d < 10 -> digit_val (ascii_of_nat (Z.to_nat (48 + d))) = Some d.
Proof.
  intros H.
  assert (Hd : d = 0 \/ d = 1 \/ d = 2 \/ d = 3 \/ d = 4 \/ d = 5 \/ d = 6
               \/ d = 7 \/ d = 8 \/ d = 9) by lia.
  repeat (destruct Hd as [->|Hd]; [reflexivity|]). now subst.
Qed.

(** [digits_go] puts the decimal digits of [n] in front of [acc]: reading
    them on from [a] gives [a] shifted by their number, plus [n]. *)
Lemma parse_digits_digits_go (fuel : nat) (n : Z) (acc : string) :
  0 <= n < 10 ^ Z.of_nat (S fuel) ->
  exists k, 0 <= k /\ forall a,
    parse_digits a (digits_go (S fuel) n acc) = parse_digits (a * 10 ^ k + n) acc.
Proof.
  revert n acc. induction fuel as [|fuel IH]; intros n acc Hn.
  - exists 1. split; [lia|]. intros a. cbn [digits_go].
    destruct (Z.ltb_spec n 10) as [Hlt|Hge]; [|cbn in Hn; lia].
    cbn [parse_digits]. rewrite Z.mod_small by lia.
    rewrite digit_val_digit by lia. f_equal. lia.
  - cbn [digits_go]. destruct (Z.ltb_spec n 10) as [Hlt|Hge].
    + exists 1. split; [lia|]. intros a. cbn [parse_digits].
      rewrite Z.mod_small by lia. rewrite digit_val_digit by lia. f_equal. lia.
    + destruct (IH (n / 10)
                   (String (ascii_of_nat (Z.to_nat (48 + n mod 10))) acc))
        as (k & Hk & Hparse).
      { split; [apply Z.div_pos; lia|].
        apply Z.div_lt_upper_bound; [lia|].
        replace (Z.of_nat (S (S fuel))) with (Z.succ (Z.of_nat (S fuel))) in Hn by lia.
        rewrite Z.pow_succ_r in Hn by lia. lia. }
      exists (k + 1). split; [lia|]. intros a.
      change (digits_go (S fuel) (n / 10) ?x) with (digits_go (S fuel) (n / 10) x).
      rewrite Hparse. cbn [parse_digits].
      pose proof (Z.mod_pos_bound n 10 ltac:(lia)) as Hmod.
      rewrite digit_val_digit by lia. f_equal.
      rewrite Z.pow_add_r by lia.
      pose proof (Z.div_mod n 10 ltac:(lia)) as Hdm. lia.
Qed.

Lemma digits_go_cons (fuel : nat) (n : Z) (acc : string) :
  exists c s, digits_go (S fuel) n acc = String c s.
Proof.
  revert n acc. induction fuel as [|fuel IH]; intros n acc; cbn [digits_go].
  - destruct (n <? 10); eauto.
  - destruct (n <? 10); [eauto|]. apply IH.
Qed.

Lemma log2_fuel (n : Z) : 0 <= n -> n < 10 ^ Z.of_nat (S (Z.to_nat (Z.log2 n))).
Proof.
  intros Hn. rewrite Nat2Z.inj_succ, Z2Nat.id by apply Z.log2_nonneg.
  destruct (Z.eq_dec n 0) as [->|Hne]; [reflexivity|].
  pose proof (Z.log2_spec n ltac:(lia)) as [_ Hlt].
  pose proof (Z.log2_nonneg n) as Hl.
  assert (2 ^ Z.succ (Z.log2 n) <= 10 ^ Z.succ (Z.log2 n))
    by (apply Z.pow_le_mono_l; lia).
  lia.
Qed.

(** The decimal rendering of a number that is not negative consists of
    digits, and reads back as the number. *)
Lemma parse_digits_itoa (n : Z) :
  0 <= n -> exists c s, itoa n = String c s /\ parse_digits 0 (itoa n) = Some n.
Proof.
  intros Hn. unfold itoa. destruct (Z.ltb_spec n 0); [lia|].
  rewrite Nat.add_1_r.
  destruct (digits_go_cons (Z.to_nat (Z.log2 n)) n "") as (c & s & Heq).
  exists c, s. split; [exact Heq|].
  destruct (parse_digits_digits_go (Z.to_nat (Z.log2 n)) n "") as (k & _ & Hparse).
  { split; [exact Hn|now apply log2_fuel]. }
  rewrite Hparse. cbn. f_equal.
Qed.

Lemma parse_unsigned_itoa (n : Z) : 0 <= n -> parse_unsigned (itoa n) = Some n.
Proof.
  intros Hn. destruct (parse_digits_itoa n Hn) as (c & s & Heq & Hparse).
  unfold parse_unsigned. rewrite Heq in *. exact Hparse.
Qed.

(** [strconv.ParseInt] reads back what [fmt.Sprintf("%d", n)] wrote. *)
Lemma ParseInt_itoa (n : Z) : minInt64 <= n <= maxInt64 -> ParseInt (itoa n) = Some n.
Proof.
  unfold minInt64, maxInt64. intros Hn.
  destruct (Z.ltb_spec n 0) as [Hneg|Hpos].
  - assert (Hitoa : itoa n = String "-"%char (itoa (- n))).
    { unfold itoa. destruct (Z.ltb_spec n 0); [|lia].
      destruct (Z.ltb_spec (- n) 0); [lia|]. reflexivity. }
    rewrite Hitoa. unfold ParseInt.
    rewrite (eq_refl : Ascii.eqb "-"%char "-"%char = true),
            (eq_refl : Ascii.eqb "-"%char "+"%char = false).
    cbn [orb]. rewrite parse_unsigned_itoa by lia.
    destruct (Z.leb_spec (- n) (2 ^ 63)); [|lia]. f_equal. lia.
  - destruct (parse_digits_itoa n Hpos) as (c & s & Heq & Hparse).
    pose proof (parse_unsigned_itoa n Hpos) as Hun.
    rewrite Heq in *. unfold ParseInt.
    assert (Hc : digit_val c <> None).
    { cbn [parse_digits] in Hparse. destruct (digit_val c); [discriminate|discriminate Hparse]. }
    destruct (Ascii.eqb_spec c "-"%char) as [->|Hm]; [now destruct Hc|].
    destruct (Ascii.eqb_spec c "+"%char) as [->|Hp]; [now destruct Hc|].
    cbn [orb]. rewrite Hun.
    destruct (Z.ltb_spec n (2 ^ 63)); [reflexivity|lia].
Qed.

Lemma Atoi_itoa (n : Z) : minInt64 <= n <= maxInt64 -> Atoi (itoa n) = Some n.
Proof. exact (ParseInt_itoa n). Qed.

(** A text of digits holds no byte that is not a digit. *)
Lemma parse_digits_cut (sep : ascii) (s : string) (a v : Z) :
  digit_val sep = None -> parse_digits a s = Some v -> cut sep s = None.
Proof.
  intros Hsep. revert a. induction s as [|c s IH]; intros a; cbn; [reflexivity|].
  destruct (digit_val c) as [d|] eqn:Hd; [|discriminate].
  destruct (Ascii.eqb_spec c sep) as [->|Hne]; [congruence|].
  intros H. now rewrite (IH _ H).
Qed.

Lemma itoa_cut (sep : ascii) (n : Z) :
  digit_val sep = None -> 0 <= n -> cut sep (itoa n) = None.
Proof.
  intros Hsep Hn. destruct (parse_digits_itoa n Hn) as (_ & _ & _ & Hparse).
  exact (parse_digits_cut sep _ _ _ Hsep Hparse).
Qed.

Lemma Split_no_sep (sep : ascii) (s : string) : cut sep s = None -> Split sep s = [s].
Proof.
  induction s as [|c s IH]; cbn; [reflexivity|].
  destruct (Ascii.eqb c sep); [discriminate|].
  destruct (cut sep s) as [[a b]|]; [discriminate|]. intros _. now rewrite IH.
Qed.

Lemma append_nil_l (s : string) : "" +:+ s = s.
Proof. reflexivity. Qed.

Lemma append_cons (c : ascii) (s t : string) : String c s +:+ t = String c (s +:+ t).
Proof. reflexivity. Qed.

Lemma Split_app_sep (sep : ascii) (s rest : string) :
  cut sep s = None ->
  Split sep (s +:+ String sep rest) = s :: Split sep rest.
Proof.
  induction s as [|c s IH]; cbn [cut].
  - intros _. rewrite append_nil_l. cbn [Split]. now rewrite Ascii.eqb_refl.
  - rewrite append_cons. cbn [Split].
    destruct (Ascii.eqb c sep); [discriminate|].
    destruct (cut sep s) as [[a b]|]; [discriminate|]. intros _.
    now rewrite IH.
Qed.

(** [strings.Split] undoes [strings.Join] on pieces without the
    separator, when there is at least one piece. *)
Lemma Split_Join (sep : ascii) (l : list string) :
  l <> [] -> Forall (fun s => cut sep s = None) l ->
  Split sep (Join l (String sep EmptyString)) = l.
Proof.
  intros Hne Hall. induction Hall as [|x l Hx Hall IH]; [contradiction|].
  destruct l as [|y l].
  - cbn. now apply Split_no_sep.
  - unfold Join in *. cbn [String.concat].
    rewrite append_cons, append_nil_l.
    rewrite Split_app_sep by exact Hx. f_equal. now apply IH.
Qed.

Lemma cut_fst_no_sep (sep : ascii) (s a b : string) :
  cut sep s = Some (a, b) -> cut sep a = None.
Proof.
  revert a b. induction s as [|c s IH]; intros a b; cbn; [discriminate|].
  destruct (Ascii.eqb c sep) eqn:Hc; [now intros [= <- _]|].
  destruct (cut sep s) as [[a' b']|]; [|discriminate].
  intros [= <- _]. cbn. rewrite Hc. now rewrite (IH a' b').
Qed.

(** A text without a dash reads as a number that is not negative. *)
Lemma Atoi_no_dash (s : string) (z : Z) :
  cut "-"%char s = None -> Atoi s = Some z -> 0 <= z.
Proof.
  unfold Atoi, ParseInt. destruct s as [|c rest]; [discriminate|]. cbn [cut].
  destruct (Ascii.eqb c "-"%char); [discriminate|]. intros _.
  destruct (parse_unsigned _) as [un|] eqn:Hun; [|discriminate].
  destruct (un <? 2 ^ 63); [|discriminate]. intros [= <-].
  unfold parse_unsigned in Hun.
  destruct (if (_ || _)%bool then rest else String c rest); [discriminate|].
  eapply parse_digits_nonneg; [|exact Hun]. lia.
Qed.

End NumberFacts.

(** *** Cpuset strings, read back *)

Section CpusetRoundTrip.
Import Go Cpuset.

Lemma chunk_cpus_bounds (chunk : string) :
  chunk_ok chunk = true -> Forall (fun x => 0 <= x <= maxInt64) (chunk_cpus chunk).
Proof.
  unfold chunk_ok, chunk_cpus.
  destruct (cut "-"%char chunk) as [[low_s high_s]|] eqn:Hcut.
  - destruct (Atoi low_s) as [low|] eqn:Hlow; [|discriminate].
    destruct (Atoi high_s) as [high|] eqn:Hhigh; [|discriminate]. intros _.
    pose proof (Atoi_no_dash low_s low (cut_fst_no_sep _ _ _ _ Hcut) Hlow) as Hl.
    pose proof (Atoi_range high_s high Hhigh) as Hh.
    apply List.Forall_forall. intros x Hx.
    apply list_elem_of_In, elem_of_seqZ in Hx. lia.
  - destruct (Atoi chunk) as [nr|] eqn:Hnr; [|discriminate]. intros _.
    pose proof (Atoi_no_dash chunk nr Hcut Hnr).
    pose proof (Atoi_range chunk nr Hnr). repeat constructor; lia.
Qed.

Lemma parseChunks_bounds (cpu : string) (chunks : list string) (acc cpus : list Z) :
  Forall (fun x => 0 <= x <= maxInt64) acc ->
  parseChunks cpu chunks acc = Some (Ok cpus) ->
  Forall (fun x => 0 <= x <= maxInt64) cpus.
Proof.
  revert acc. induction chunks as [|c chunks IH]; intros acc Hacc; cbn.
  - now intros [= <-].
  - rewrite parseChunk_spec.
    destruct (chunk_ok c) eqn:Hok; [|discriminate].
    destruct (chunk_ends c); [|discriminate].
    apply IH. apply Forall_app. split; [exact Hacc|now apply chunk_cpus_bounds].
Qed.

(** [parseCpuset] never returns a negative cpu id: a dash in a chunk is
    always read as the range sign, so no chunk stands for a negative
    number. *)
Theorem parseCpuset_no_negative_cpu (cpu : string) (cpus : list Z) :
  parseCpuset cpu = Some (Ok cpus) -> Forall (fun x => 0 <= x <= maxInt64) cpus.
Proof. apply parseChunks_bounds. constructor. Qed.

Lemma parseCpuset_no_negative_cpu_witness :
  Forall (fun x => 0 <= x <= maxInt64) [8; 9; 10; 3].
Proof. exact (parseCpuset_no_negative_cpu "8-10,+3" [8; 9; 10; 3] eq_refl). Defined.

Lemma parseChunks_rendered (cpu : string) (l acc : list Z) :
  Forall (fun x => 0 <= x <= maxInt64) l ->
  parseChunks cpu (map itoa l) acc = Some (Ok (acc ++ l)).
Proof.
  intros Hl. revert acc. induction Hl as [|x l Hx _ IH]; intros acc; cbn.
  - now rewrite app_nil_r.
  - unfold parseChunk, Contains.
    rewrite itoa_cut by (reflexivity || lia).
    rewrite Atoi_itoa by (unfold minInt64; lia).
    rewrite IH, <- app_assoc. reflexivity.
Qed.

Lemma parseCpuset_rendered (l : list Z) :
  l <> [] -> Forall (fun x => 0 <= x <= maxInt64) l ->
  parseCpuset (Join (map itoa l) ",") = Some (Ok l).
Proof.
  intros Hne Hl. unfold parseCpuset.
  rewrite Split_Join.
  - now apply parseChunks_rendered.
  - destruct l; [contradiction|discriminate].
  - apply List.Forall_forall. intros s Hs. apply in_map_iff in Hs as (x & <- & Hx).
    apply itoa_cut; [reflexivity|].
    rewrite List.Forall_forall in Hl. apply Hl in Hx. lia.
Qed.

Lemma parseCpuset_bounds (cpu : string) (cpus : list Z) :
  parseCpuset cpu = Some (Ok cpus) -> Forall (fun x => 0 <= x <= maxInt64) cpus.
Proof. apply parseChunks_bounds. constructor. Qed.

Lemma itoa_inj (x y : Z) :
  minInt64 <= x <= maxInt64 -> minInt64 <= y <= maxInt64 -> itoa x = itoa y -> x = y.
Proof.
  intros Hx Hy Heq. pose proof (Atoi_itoa x Hx) as H.
  rewrite Heq, (Atoi_itoa y Hy) in H. congruence.
Qed.

(** [deviceTaskBalance] renders the cpus it keeps with
    [fmt.Sprintf("%d", id)], joins them with commas and hands the text to
    [parseCpuset] again: for every non-empty list of cpu ids that are not
    negative this gives back the list; for the empty list the text is
    empty, and [parseCpuset] returns its error. *)
Theorem parseCpuset_reads_back_rendered (l : list Z) :
  (l <> [] -> Forall (fun x => 0 <= x <= maxInt64) l ->
   parseCpuset (Join (map itoa l) ",") = Some (Ok l))
  /\ parseCpuset (Join (map itoa []) ",") = Some (Err (invalid "")).
Proof. split; [apply parseCpuset_rendered|reflexivity]. Qed.

Lemma parseCpuset_reads_back_rendered_witness :
  parseCpuset (Join (map itoa [0; 2; 11]) ",") = Some (Ok [0; 2; 11]).
Proof.
  refine (proj1 (parseCpuset_reads_back_rendered [0; 2; 11]) _ _).
  - discriminate.
  - repeat constructor; unfold maxInt64; lia.
Defined.

End CpusetRoundTrip.

(** *** CPU rebalancing: what each container is given *)

Section BalanceReadings.
Import Go Cpuset Balance.

(** The text of the host's effective cpus, as [deviceTaskBalance] gets
    it: the content of [cpuset.effective_cpus], and of [cpuset.cpus] when
    the first cannot be read. *)
Definition effectiveRead (h : host) (text : string) : Prop :=
  effective_cpus h = Ok text
  \/ ((exists err, effective_cpus h = Err err) /\ cpuset_cpus h = Ok text).

(** The isolated cpus: none when [/sys/devices/system/cpu/isolated] is
    missing or blank, the cpus of its trimmed text otherwise. *)
Definition isolatedRead (h : host) (isolated : list Z) : Prop :=
  (isolated_exists h = false /\ isolated = [])
  \/ (isolated_exists h = true
      /\ exists buf,
           isolated_file h = Ok buf
           /\ ((TrimSpace buf = "" /\ isolated = [])
               \/ (TrimSpace buf <> ""
                   /\ parseCpuset (TrimSpace buf) = Some (Ok isolated)))).

(** How often the cpu named [sid] stands in the sets of the containers
    [ctns]. *)
Definition timesGiven (given : gmap nat (list string)) (ctns : list nat) (sid : string)
  : nat :=
  sum_list_with (fun j => count_occ string_dec (pinned given j) sid) ctns.

Lemma notIsolated_filter (isolated l : list Z) :
  List.filter (fun id => negb (IntInSlice id isolated)) l
  = filter (fun x => x ∉ isolated) l.
Proof.
  induction l as [|x l IH]; [reflexivity|].
  cbn [List.filter]. rewrite filter_cons, IH.
  destruct (IntInSlice x isolated) eqn:Hin; cbn [negb].
  - apply IntInSlice_elem_of in Hin.
    rewrite decide_False; [reflexivity|]. intros H. exact (H Hin).
  - rewrite decide_True; [reflexivity|].
    intros H. apply IntInSlice_elem_of in H. congruence.
Qed.

(** The string written to [/lxc]: the effective cpus that are not
    isolated, by their decimal names. *)
Lemma hostCpus_read (h : host) (effective : string) (effectiveInt isolated : list Z) :
  effectiveRead h effective ->
  parseCpuset effective = Some (Ok effectiveInt) ->
  isolatedRead h isolated ->
  hostCpus h
  = Some (Some (Join (map itoa (filter (fun x => x ∉ isolated) effectiveInt)) ",")).
Proof.
  intros Heff Hparse Hiso. unfold hostCpus. cbv zeta.
  assert (He : match effective_cpus h with
               | Ok s => Some s
               | Err _ => match cpuset_cpus h with Ok s => Some s | Err _ => None end
               end = Some effective).
  { destruct Heff as [->|[[err ->] ->]]; reflexivity. }
  rewrite He, Hparse.
  destruct Hiso as [[-> ->]|(-> & buf & -> & [[Hblank ->]|[Hnb Hp]])].
  - now rewrite notIsolated_filter.
  - rewrite Hblank. cbn [String.eqb negb]. now rewrite notIsolated_filter.
  - destruct (String.eqb_spec (TrimSpace buf) ""); [contradiction|]. cbn [negb].
    rewrite Hp. now rewrite notIsolated_filter.
Qed.

Lemma pinned_pin (pinning : gmap nat (list string)) (ctn j : nat) (sid : string) :
  pinned (pin pinning ctn sid) j
  = if decide (j = ctn) then pinned pinning ctn ++ [sid] else pinned pinning j.
Proof.
  unfold pinned at 1. destruct (decide (j = ctn)) as [->|Hne].
  - now rewrite pin_lookup_eq.
  - now rewrite pin_lookup_ne by auto.
Qed.

Lemma timesGiven_cons (given : gmap nat (list string)) (j : nat) (js : list nat)
    (sid : string) :
  timesGiven given (j :: js) sid
  = (count_occ string_dec (pinned given j) sid + timesGiven given js sid)%nat.
Proof. reflexivity. Qed.

Lemma timesGiven_pin (pinning : gmap nat (list string)) (ctn : nat) (s sid : string)
    (js : list nat) :
  NoDup js ->
  timesGiven (pin pinning ctn s) js sid
  = (timesGiven pinning js sid
     + if decide (ctn ∈ js) then (if string_dec s sid then 1 else 0) else 0)%nat.
Proof.
  induction 1 as [|j js Hj Hnd IH].
  - rewrite decide_False by (inversion 1). cbn. lia.
  - rewrite !timesGiven_cons, IH, pinned_pin.
    destruct (decide (j = ctn)) as [->|Hne].
    + rewrite decide_False by exact Hj. rewrite decide_True by (now left).
      rewrite count_occ_app. cbn [count_occ].
      destruct (string_dec s sid); lia.
    + destruct (decide (ctn ∈ js)) as [Hin|Hnin].
      * rewrite decide_True by (now right). lia.
      * rewrite decide_False; [lia|].
        rewrite elem_of_cons. intros [->|H]; [now apply Hne|contradiction].
Qed.

(** The counters agree with the pinning: the counter of a cpu is the
    number of times its name stands in the sets of the containers. *)
Definition counted (n : nat) (cpus : list Z) (pinning : gmap nat (list string))
    (counts : gmap Z Z) : Prop :=
  forall x, x ∈ cpus ->
    countOf counts x = Z.of_nat (timesGiven pinning (seq 0 n) (itoa x)).

Lemma counted_step (n : nat) (cpus : list Z) (pinning : gmap nat (list string))
    (counts : gmap Z Z) (ctn : nat) (y : Z) :
  Forall (fun x => 0 <= x <= maxInt64) cpus ->
  (ctn < n)%nat -> y ∈ cpus ->
  counted n cpus pinning counts ->
  counted n cpus (pin pinning ctn (itoa y)) (bump counts y).
Proof.
  intros Hb Hctn Hy Hinv x Hx.
  rewrite timesGiven_pin by apply NoDup_seq.
  rewrite decide_True by (apply elem_of_seq; lia).
  unfold countOf, bump. destruct (decide (x = y)) as [->|Hne].
  - rewrite lookup_insert_eq. cbn [default]. fold (countOf counts y).
    rewrite (Hinv y Hy). unfold Datatypes.id.
    destruct (string_dec (itoa y) (itoa y)); [lia|contradiction].
  - rewrite lookup_insert_ne by auto. fold (countOf counts x).
    rewrite (Hinv x Hx).
    destruct (string_dec (itoa y) (itoa x)) as [Heq|_]; [|lia].
    exfalso. apply Hne. symmetry.
    rewrite List.Forall_forall in Hb.
    pose proof (Hb x (proj1 (list_elem_of_In _ _) Hx)).
    pose proof (Hb y (proj1 (list_elem_of_In _ _) Hy)).
    apply itoa_inj; [unfold minInt64; lia|unfold minInt64; lia|exact Heq].
Qed.

Lemma counted_fixed_inner (n : nat) (cpus : list Z) (x : Z) (ctns : list nat) :
  Forall (fun x => 0 <= x <= maxInt64) cpus ->
  x ∈ cpus -> (forall j, j ∈ ctns -> (j < n)%nat) ->
  forall pinning counts pinning' counts',
  counted n cpus pinning counts ->
  fold_left (fun '(pinning, counts) ctn => (pin pinning ctn (itoa x), bump counts x))
            ctns (pinning, counts) = (pinning', counts') ->
  counted n cpus pinning' counts'.
Proof.
  intros Hb Hx. induction ctns as [|ctn ctns IH]; intros Hlt pinning counts p' c' Hinv.
  - cbn. now intros [= <- <-].
  - cbn [fold_left]. apply IH.
    + intros j Hj. apply Hlt. now right.
    + apply counted_step; auto. apply Hlt. now left.
Qed.

Lemma counted_keys (n : nat) (cpus : list Z) (usage : gmap Z deviceTaskCPU)
    (fixed : gmap Z (list nat)) (keys : list Z) :
  Forall (fun x => 0 <= x <= maxInt64) cpus ->
  (forall x c, usage !! x = Some c -> c = mkCPU x /\ x ∈ cpus) ->
  (forall x j, j ∈ default [] (fixed !! x) -> (j < n)%nat) ->
  forall pinning counts pinning' counts',
  counted n cpus pinning counts ->
  fold_left
    (fun '(pinning, counts) cpu =>
       match usage !! cpu with
       | None => (pinning, counts)
       | Some c =>
           fold_left
             (fun '(pinning, counts) ctn => (pin pinning ctn (strId c), bump counts (id c)))
             (default [] (fixed !! cpu))
             (pinning, counts)
       end)
    keys (pinning, counts) = (pinning', counts') ->
  counted n cpus pinning' counts'.
Proof.
  intros Hb Husage Hlt. induction keys as [|x keys IH]; intros pinning counts p' c' Hinv.
  - cbn. now intros [= <- <-].
  - cbn [fold_left]. destruct (usage !! x) as [c|] eqn:Hx.
    + destruct (Husage _ _ Hx) as [-> Hin]. cbn [mkCPU strId id].
      destruct (fold_left _ (default [] (fixed !! x)) (pinning, counts))
        as [p1 c1] eqn:Hfold.
      apply IH.
      eapply counted_fixed_inner; [exact Hb|exact Hin|apply Hlt|exact Hinv|exact Hfold].
    + now apply IH.
Qed.

Lemma counted_balance_inner (n : nat) (cpus : list Z) (ctn : nat)
    (chosen : list deviceTaskCPU) :
  Forall (fun x => 0 <= x <= maxInt64) cpus ->
  (ctn < n)%nat ->
  (forall a, a ∈ chosen -> strId a = itoa (id a) /\ id a ∈ cpus) ->
  forall pinning counts pinning' counts',
  counted n cpus pinning counts ->
  fold_left (fun '(pinning, counts) cpu =>
               (pin pinning ctn (strId cpu), bump counts (id cpu)))
            chosen (pinning, counts) = (pinning', counts') ->
  counted n cpus pinning' counts'.
Proof.
  intros Hb Hctn. induction chosen as [|a chosen IH]; intros Hnames pinning counts p' c' Hinv.
  - cbn. now intros [= <- <-].
  - cbn [fold_left]. apply IH.
    + intros b Hbin. apply Hnames. now right.
    + destruct (Hnames a) as [-> Hin]; [now left|].
      now apply counted_step.
Qed.

Lemma firstCpus_subset (count : Z) (l : list deviceTaskCPU) (a : deviceTaskCPU) :
  a ∈ firstCpus count l -> a ∈ l.
Proof.
  unfold firstCpus. destruct (count <? 0); [auto|].
  intros H. rewrite <- (take_drop (Z.to_nat count) l). apply elem_of_app. now left.
Qed.

Lemma firstCpus_prefix (count : Z) (l : list deviceTaskCPU) :
  (exists rest, l = firstCpus count l ++ rest)
  /\ length (firstCpus count l)
     = if count <? 0 then length l else Nat.min (Z.to_nat count) (length l).
Proof.
  unfold firstCpus. destruct (count <? 0).
  - split; [exists []; now rewrite app_nil_r|reflexivity].
  - split; [exists (drop (Z.to_nat count) l); now rewrite take_drop|apply length_take].
Qed.

(** The sets of the containers [js] in two pinnings, the first holding
    nothing for the containers in [later] and the same as the second for
    the others. *)
Lemma timesGiven_earlier (pinning given : gmap nat (list string)) (later js : list nat)
    (sid : string) :
  (forall j, pinned pinning j = if decide (j ∈ later) then [] else pinned given j) ->
  timesGiven pinning js sid = timesGiven given (filter (fun j => j ∉ later) js) sid.
Proof.
  intros H. induction js as [|j js IH]; [reflexivity|].
  rewrite timesGiven_cons, filter_cons, IH, H.
  destruct (decide (j ∈ later)) as [Hin|Hnin].
  - rewrite decide_False by (intros H'; exact (H' Hin)). reflexivity.
  - rewrite decide_True by exact Hnin. now rewrite timesGiven_cons.
Qed.

Lemma timesGiven_empty (js : list nat) (sid : string) : timesGiven ∅ js sid = 0%nat.
Proof.
  induction js as [|j js IH]; [reflexivity|].
  rewrite timesGiven_cons, IH. unfold pinned. now rewrite lookup_empty.
Qed.

End BalanceReadings.

Section BalanceProofs.
Import Go Cpuset Balance.

Variable rangeFixed : list Z -> list Z.
Variable rangeUsage : list Z -> list Z.
Variable rangeBalanced : list nat -> list nat.
Variable rangePinning : list nat -> list nat.
Variable sortUsage : gmap Z Z -> list deviceTaskCPU -> list deviceTaskCPU.

Hypothesis rangeFixed_order : range_order rangeFixed.
Hypothesis rangeUsage_order : range_order rangeUsage.
Hypothesis rangeBalanced_order : range_order rangeBalanced.
Hypothesis rangePinning_order : range_order rangePinning.
Hypothesis sortUsage_sorts : sorts_by_count sortUsage.

Lemma elem_of_keys {K : Type} `{Countable K} {V : Type} (m : gmap K V) (k : K) :
  k ∈ map fst (map_to_list m) <-> is_Some (m !! k).
Proof.
  change (map fst (map_to_list m)) with ((map_to_list m).*1).
  rewrite list_elem_of_fmap. split.
  - intros ([k' v] & -> & Hin). apply elem_of_map_to_list in Hin. eauto.
  - intros [v Hv]. exists (k, v). split; [reflexivity|].
    now apply elem_of_map_to_list.
Qed.

Lemma elem_of_range {K : Type} (f : list K -> list K) (l : list K) (k : K) :
  range_order f -> k ∈ f l <-> k ∈ l.
Proof. intros Hf. now rewrite (Hf l). Qed.

(** The writes of the last loop. *)
Lemma elem_of_apply (containers : list container) (pinning : gmap nat (list string))
    (ctn : nat) (value : string) :
  SetContainer ctn value ∈ apply rangePinning containers pinning
  <-> exists c set,
        containers !! ctn = Some c /\ pinning !! ctn = Some set
        /\ IsRunning_apply c = true /\ value = Join (sortStrings set) ",".
Proof.
  unfold apply. rewrite list_elem_of_In, in_flat_map. split.
  - intros (j & Hj & Hin).
    destruct (containers !! j) as [c|] eqn:Hc; [|inversion Hin].
    destruct (pinning !! j) as [set|] eqn:Hset; [|inversion Hin].
    destruct (IsRunning_apply c) eqn:Hrun; cbn in Hin; [|contradiction].
    destruct Hin as [[= <- <-]|[]]. eauto 10.
  - intros (c & set & Hc & Hset & Hrun & ->). exists ctn. split.
    + apply list_elem_of_In, elem_of_range, elem_of_keys; eauto.
    + rewrite Hc, Hset, Hrun. now left.
Qed.

(** The pinning after the loop over [fixedContainers]: each container
    holds the cpus it is pinned to, each cpu by its decimal name. *)
Lemma pinFixed_spec (cpus : list Z) (fixed : gmap Z (list nat)) :
  (forall x j, j ∈ default [] (fixed !! x) -> x ∈ cpus) ->
  forall j, exists ids,
    (pinFixed rangeFixed (initUsage cpus) fixed).1 !! j = entryOf ids
    /\ forall y, y ∈ ids <-> j ∈ default [] (fixed !! y).
Proof.
  intros Hcpus j. unfold pinFixed.
  destruct (pinFixed_keys (initUsage cpus) fixed
              (rangeFixed (map fst (map_to_list fixed))) [] ∅ ∅) with (j := j)
    as (ids & Hids & Hmem).
  - intros x j' Hj'. rewrite initUsage_lookup.
    now rewrite decide_True by (eapply Hcpus; eauto).
  - intros j'. exists []. split; [apply lookup_empty|].
    intros y. split; [inversion 1|intros [H _]; inversion H].
  - exists ids. split; [exact Hids|].
    intros y. rewrite Hmem. cbn [app]. split; [intuition|].
    intros Hj. split; [|exact Hj].
    apply elem_of_range, elem_of_keys; [exact rangeFixed_order|].
    destruct (fixed !! y); [eauto|inversion Hj].
Qed.

(** The inner loop of a balancing turn. *)
Lemma balance_inner (ctn : nat) (chosen : list deviceTaskCPU)
    (pinning : gmap nat (list string)) (counts : gmap Z Z) (j : nat) :
  (fold_left (fun '(pinning, counts) cpu =>
                (pin pinning ctn (strId cpu), bump counts (id cpu)))
             chosen (pinning, counts)).1 !! j
  = if decide (j = ctn) then
      match chosen with
      | [] => pinning !! ctn
      | _ => Some (pinned pinning ctn ++ map strId chosen)
      end
    else pinning !! j.
Proof.
  revert pinning counts. induction chosen as [|a chosen IH]; intros pinning counts.
  - cbn. destruct (decide (j = ctn)) as [->|]; reflexivity.
  - cbn [fold_left]. rewrite IH. destruct (decide (j = ctn)) as [->|Hne].
    + destruct chosen as [|b chosen].
      * now rewrite pin_lookup_eq.
      * unfold pinned at 1. rewrite pin_lookup_eq.
        change (default [] (Some ?l)) with l.
        now rewrite <- app_assoc.
    + now rewrite pin_lookup_ne by auto.
Qed.

Lemma balanceOne_sorted (st : list deviceTaskCPU * gmap nat (list string) * gmap Z Z)
    (ctn : nat) (count : Z) :
  (balanceOne sortUsage st ctn count).1.1 = sortUsage st.2 st.1.1.
Proof.
  destruct st as [[sorted pinning] counts]. unfold balanceOne.
  destruct (fold_left _ _ _). reflexivity.
Qed.

Lemma balanceOne_pinning (st : list deviceTaskCPU * gmap nat (list string) * gmap Z Z)
    (ctn : nat) (count : Z) (j : nat) :
  (balanceOne sortUsage st ctn count).1.2 !! j
  = if decide (j = ctn) then
      match firstCpus count (sortUsage st.2 st.1.1) with
      | [] => st.1.2 !! ctn
      | chosen => Some (pinned st.1.2 ctn ++ map strId chosen)
      end
    else st.1.2 !! j.
Proof.
  destruct st as [[sorted pinning] counts]. unfold balanceOne.
  pose proof (balance_inner ctn (firstCpus count (sortUsage counts sorted))
                pinning counts j) as H.
  destruct (fold_left _ _ _) as [pinning' counts']. cbn in H |- *.
  rewrite H. destruct (decide (j = ctn)); [|reflexivity].
  destruct (firstCpus count (sortUsage counts sorted)); reflexivity.
Qed.

Lemma balanceSteps_app (balanced : gmap nat Z) (l1 l2 : list nat)
    (st : list deviceTaskCPU * gmap nat (list string) * gmap Z Z) :
  balanceSteps sortUsage balanced (l1 ++ l2) st
  = balanceSteps sortUsage balanced l2 (balanceSteps sortUsage balanced l1 st).
Proof. unfold balanceSteps. apply fold_left_app. Qed.

Lemma balanceSteps_untouched (balanced : gmap nat Z) (order : list nat)
    (st : list deviceTaskCPU * gmap nat (list string) * gmap Z Z) (j : nat) :
  j ∉ order ->
  (balanceSteps sortUsage balanced order st).1.2 !! j = st.1.2 !! j.
Proof.
  revert st. induction order as [|ctn order IH]; intros st Hj; [reflexivity|].
  cbn [balanceSteps fold_left].
  change (fold_left _ order ?s) with (balanceSteps sortUsage balanced order s).
  rewrite IH by (intros H; apply Hj; now right).
  rewrite balanceOne_pinning.
  rewrite decide_False; [reflexivity|]. intros ->. apply Hj. now left.
Qed.

Lemma balanceSteps_Permutation (balanced : gmap nat Z) (order : list nat)
    (st : list deviceTaskCPU * gmap nat (list string) * gmap Z Z) :
  Permutation (balanceSteps sortUsage balanced order st).1.1 st.1.1.
Proof.
  revert st. induction order as [|ctn order IH]; intros st; [reflexivity|].
  cbn [balanceSteps fold_left].
  change (fold_left _ order ?s) with (balanceSteps sortUsage balanced order s).
  rewrite IH, balanceOne_sorted. apply sortUsage_sorts.
Qed.

(** [sortedUsage] holds each cpu of the host once. *)
Lemma sortedUsage0_spec (cpus : list Z) :
  exists keys, sortedUsage0 rangeUsage (initUsage cpus) = map mkCPU keys
               /\ NoDup keys /\ forall x, x ∈ keys <-> x ∈ cpus.
Proof.
  exists (rangeUsage (map fst (map_to_list (initUsage cpus)))).
  assert (Hkeys : forall x, x ∈ rangeUsage (map fst (map_to_list (initUsage cpus)))
                            <-> x ∈ cpus).
  { intros x. rewrite elem_of_range, elem_of_keys, initUsage_lookup
      by exact rangeUsage_order.
    destruct (decide (x ∈ cpus)) as [Hin|Hnin].
    - split; [intros _; exact Hin|intros _; eauto].
    - split; [intros [? ?]; discriminate|intros H; contradiction]. }
  split; [|split; [|exact Hkeys]].
  - unfold sortedUsage0. apply omap_lookup_all.
    intros k Hk. apply Hkeys in Hk. rewrite initUsage_lookup.
    now rewrite decide_True.
  - rewrite (rangeUsage_order _). apply NoDup_fst_map_to_list.
Qed.

(** The cpus of the slice at any turn: each cpu of the host once, under
    its decimal name. *)
Lemma usage_slice (cpus : list Z) (l : list deviceTaskCPU) :
  Permutation l (sortedUsage0 rangeUsage (initUsage cpus)) ->
  (forall a, a ∈ l -> strId a = itoa (id a))
  /\ NoDup (map id l)
  /\ (forall x, x ∈ map id l <-> x ∈ cpus).
Proof.
  destruct (sortedUsage0_spec cpus) as (keys & -> & Hnd & Hkeys).
  intros Hperm.
  assert (Hid : map id (map mkCPU keys) = keys).
  { rewrite map_map. cbn. apply map_id. }
  split; [|split].
  - intros a Ha. rewrite Hperm in Ha.
    apply list_elem_of_fmap in Ha as (x & -> & _). reflexivity.
  - rewrite Hperm, Hid. exact Hnd.
  - intros x. rewrite Hperm, Hid. apply Hkeys.
Qed.

(** In a slice sorted by counter, a cpu among the first [count] is no
    more loaded than a cpu that is not. *)
Lemma firstCpus_least_loaded (counts : gmap Z Z) (count : Z)
    (l : list deviceTaskCPU) (a b : deviceTaskCPU) :
  StronglySorted (fun a b => countOf counts (id a) <= countOf counts (id b)) l ->
  a ∈ firstCpus count l -> b ∈ l -> b ∉ firstCpus count l ->
  countOf counts (id a) <= countOf counts (id b).
Proof.
  unfold firstCpus. intros Hs Ha Hb Hnb.
  destruct (count <? 0); [contradiction|].
  rewrite <- (take_drop (Z.to_nat count) l) in Hs, Hb.
  apply elem_of_app in Hb as [Hb|Hb]; [contradiction|].
  exact (StronglySorted_app_1_elem_of _ _ _ _ _ Hs Ha Hb).
Qed.

(** The counters agree with the pinning when the loop over
    [balancedContainers] starts. *)
Lemma counted_afterFixed (n : nat) (cpus : list Z) (fixed : gmap Z (list nat)) :
  Forall (fun x => 0 <= x <= maxInt64) cpus ->
  (forall x j, j ∈ default [] (fixed !! x) -> (j < n)%nat) ->
  counted n cpus (afterFixed rangeFixed rangeUsage cpus fixed).1.2
                 (afterFixed rangeFixed rangeUsage cpus fixed).2.
Proof.
  intros Hb Hlt. unfold afterFixed.
  destruct (pinFixed rangeFixed (initUsage cpus) fixed) as [p c] eqn:Hpin. cbn [fst snd].
  unfold pinFixed in Hpin.
  eapply counted_keys; [exact Hb| |exact Hlt| |exact Hpin].
  - intros x c0. rewrite initUsage_lookup.
    destruct (decide (x ∈ cpus)); [|discriminate]. intros [= <-]. auto.
  - intros x _. rewrite timesGiven_empty. unfold countOf. now rewrite lookup_empty.
Qed.

(** And they still do after any number of turns of that loop. *)
Lemma counted_balanceSteps (n : nat) (cpus : list Z) (balanced : gmap nat Z)
    (order : list nat) :
  Forall (fun x => 0 <= x <= maxInt64) cpus ->
  (forall j, j ∈ order -> (j < n)%nat) ->
  forall st,
  Permutation st.1.1 (sortedUsage0 rangeUsage (initUsage cpus)) ->
  counted n cpus st.1.2 st.2 ->
  counted n cpus (balanceSteps sortUsage balanced order st).1.2
                 (balanceSteps sortUsage balanced order st).2.
Proof.
  intros Hb. induction order as [|ctn order IH]; intros Hlt st Hperm Hinv; [exact Hinv|].
  cbn [balanceSteps fold_left].
  change (fold_left _ order ?s) with (balanceSteps sortUsage balanced order s).
  assert (Hperm' : Permutation (sortUsage st.2 st.1.1)
                     (sortedUsage0 rangeUsage (initUsage cpus))).
  { rewrite (proj1 (sortUsage_sorts st.2 st.1.1)). exact Hperm. }
  apply IH.
  - intros j Hj. apply Hlt. now right.
  - rewrite balanceOne_sorted. exact Hperm'.
  - destruct (usage_slice cpus _ Hperm') as (Hnames & _ & Hall).
    destruct st as [[sorted p] c]. cbn [fst snd] in *. unfold balanceOne.
    destruct (fold_left _ (firstCpus _ (sortUsage c sorted)) (p, c)) as [p1 c1] eqn:Hfold.
    cbn [fst snd].
    eapply counted_balance_inner; [exact Hb|apply Hlt; now left| |exact Hinv|exact Hfold].
    intros a Ha. apply firstCpus_subset in Ha. split; [now apply Hnames|].
    apply Hall. apply list_elem_of_fmap. eauto.
Qed.

(** C3, amended.  The cpuset controller is there; [effective] is the
    text of the host's effective cpus and [isolated] the isolated cpus
    read from the host, [cpus] the effective cpus that are not isolated,
    in the order of the text; at least one is left and every running
    container's cpu limit was understood.  Then [deviceTaskBalance]
    writes the decimal names of [cpus], joined by commas, to [/lxc], and
    after it one [cpuset.cpus] for each container that holds a set in
    [given] and still runs when the pinning is applied: its set, sorted
    as text and joined by commas.  Only containers that ran when the list
    was walked hold a set, so only they are written to.  A running pinned container holds exactly
    the requested cpus that are in [cpus], and no set when there is none.
    A running balanced container with count [k] holds the first cpus of
    the usage slice sorted by counter at its turn in the loop over the
    balanced containers: every cpu when [min k |cpus|] is negative, none
    and no set when it is 0, and [min k |cpus|] of them, or all of the
    slice when it is shorter, otherwise.  The slice holds each cpu of
    [cpus] once; no cpu the container is given is more loaded than one it
    is not given; and the counter of a cpu at that turn is the number of
    times the cpu stands in the sets of the other containers, those that
    are balanced at a later turn left out.  Which of several equally
    loaded cpus comes first is left to the order of the map and of the
    sort, not to the cpu id. *)
Theorem deviceTaskBalance_assignment (h : host) (effective : string)
    (effectiveInt isolated : list Z) (containers : list container)
    (fixed : gmap Z (list nat)) (balanced : gmap nat Z) :
  let cpus := filter (fun x => x ∉ isolated) effectiveInt in
  let effectiveCpus := Join (map itoa cpus) "," in
  CGroupCPUsetController h = true ->
  effectiveRead h effective ->
  parseCpuset effective = Some (Ok effectiveInt) ->
  isolatedRead h isolated ->
  cpus <> [] ->
  containerLoadNodeAll h = Ok containers ->
  classify effectiveCpus cpus 0 containers ∅ ∅ = Some (Some (fixed, balanced)) ->
  exists writes given,
    deviceTaskBalance rangeFixed rangeUsage rangeBalanced rangePinning sortUsage h
    = Some (SetLxc effectiveCpus :: writes)
    /\ (forall ctn value,
          SetContainer ctn value ∈ writes
          <-> exists c set,
                containers !! ctn = Some c /\ given !! ctn = Some set
                /\ IsRunning_apply c = true /\ value = Join (sortStrings set) ",")
    /\ (forall ctn, is_Some (given !! ctn) ->
          exists c, containers !! ctn = Some c /\ IsRunning_load c = true)
    /\ (forall ctn value, SetContainer ctn value ∈ writes ->
          exists c, containers !! ctn = Some c
                    /\ IsRunning_load c = true /\ IsRunning_apply c = true)
    /\ (forall ctn c l,
          containers !! ctn = Some c ->
          IsRunning_load c = true ->
          Atoi (cpulimitOf effectiveCpus c) = None ->
          parseCpuset (cpulimitOf effectiveCpus c) = Some (Ok l) ->
          exists ids,
            given !! ctn = entryOf ids
            /\ (forall x, x ∈ ids <-> x ∈ l /\ x ∈ cpus)
            /\ (IsRunning_apply c = true -> (exists x, x ∈ l /\ x ∈ cpus) ->
                SetContainer ctn (Join (sortStrings (map itoa ids)) ",") ∈ writes))
    /\ (forall ctn c k,
          containers !! ctn = Some c ->
          IsRunning_load c = true ->
          Atoi (cpulimitOf effectiveCpus c) = Some k ->
          exists pre post sortedUsage pinning counts,
            rangeBalanced (map fst (map_to_list balanced)) = pre ++ ctn :: post
            /\ balanceSteps sortUsage balanced pre
                 (afterFixed rangeFixed rangeUsage cpus fixed)
               = (sortedUsage, pinning, counts)
            /\ let count := Z.min k (Z.of_nat (length cpus)) in
               let sorted := sortUsage counts sortedUsage in
               let chosen := firstCpus count sorted in
               given !! ctn = entryOf (map id chosen)
               /\ (IsRunning_apply c = true -> chosen <> [] ->
                   SetContainer ctn (Join (sortStrings (map itoa (map id chosen))) ",")
                   ∈ writes)
               /\ (exists rest, sorted = chosen ++ rest)
               /\ length chosen
                  = (if count <? 0 then length sorted
                     else Nat.min (Z.to_nat count) (length sorted))
               /\ NoDup (map id sorted)
               /\ (forall x, x ∈ map id sorted <-> x ∈ cpus)
               /\ (forall a b, a ∈ chosen -> b ∈ sorted -> b ∉ chosen ->
                               countOf counts (id a) <= countOf counts (id b))
               /\ (forall x, x ∈ cpus ->
                     countOf counts x
                     = Z.of_nat (timesGiven given
                                   (filter (fun j => j ∉ ctn :: post)
                                           (seq 0 (length containers)))
                                   (itoa x)))).
Proof.
  intros cpus effectiveCpus Hctl Heff Hparse0 Hiso Hne Hload Hcls.
  assert (Hbounds : Forall (fun x => 0 <= x <= maxInt64) cpus).
  { pose proof (parseCpuset_bounds _ _ Hparse0) as Hall.
    rewrite List.Forall_forall in Hall |- *. intros x Hx.
    apply list_elem_of_In, list_elem_of_filter in Hx as [_ Hx].
    apply Hall. now apply list_elem_of_In. }
  assert (Hhost : hostCpus h = Some (Some effectiveCpus))
    by exact (hostCpus_read h effective effectiveInt isolated Heff Hparse0 Hiso).
  assert (Hparse : parseCpuset effectiveCpus = Some (Ok cpus))
    by (now apply parseCpuset_rendered).
  clearbody effectiveCpus. clearbody cpus. clear Heff Hparse0 Hiso Hne.
  destruct (classify_inv effectiveCpus cpus containers containers [] ∅ ∅
              fixed balanced eq_refl) as [Hbal Hfix].
  { intros j k'. rewrite lookup_empty. split; [discriminate|]. cbn. lia. }
  { intros x j. rewrite lookup_empty. cbn. split; [inversion 1|lia]. }
  { exact Hcls. }
  set (st0 := afterFixed rangeFixed rangeUsage cpus fixed).
  set (order := rangeBalanced (map fst (map_to_list balanced))).
  assert (Hst0_sorted : st0.1.1 = sortedUsage0 rangeUsage (initUsage cpus)).
  { unfold st0, afterFixed. destruct (pinFixed _ _ _). reflexivity. }
  assert (Hp0 : forall j, exists ids,
             st0.1.2 !! j = entryOf ids
             /\ forall y, y ∈ ids <-> j ∈ default [] (fixed !! y)).
  { intros j. destruct (pinFixed_spec cpus fixed) with (j := j) as (ids & Hids & Hmem).
    - intros x j' Hj'. apply Hfix in Hj' as (c & _ & _ & _ & l & _ & _ & Hx). exact Hx.
    - exists ids. split; [|exact Hmem].
      unfold st0, afterFixed. destruct (pinFixed _ _ _). exact Hids. }
  assert (Horder : forall j, j ∈ order <-> is_Some (balanced !! j)).
  { intros j. unfold order. rewrite elem_of_range by exact rangeBalanced_order.
    apply elem_of_keys. }
  assert (Hnodup : NoDup order).
  { unfold order. rewrite (rangeBalanced_order _). apply NoDup_fst_map_to_list. }
  assert (Hlt_fixed : forall x j, j ∈ default [] (fixed !! x) -> (j < length containers)%nat).
  { intros x j Hj. apply Hfix in Hj as (c & Hc & _). eapply lookup_lt_Some, Hc. }
  assert (Hlt_order : forall j, j ∈ order -> (j < length containers)%nat).
  { intros j Hj. apply Horder in Hj as [k' Hk']. apply Hbal in Hk' as (c & Hc & _).
    eapply lookup_lt_Some, Hc. }
  assert (Hfresh : forall j, is_Some (balanced !! j) -> st0.1.2 !! j = None).
  { intros j [k' Hk']. destruct (Hp0 j) as (ids & Hids & Hmem). rewrite Hids.
    destruct ids as [|y ids]; [reflexivity|].
    assert (Hy : j ∈ default [] (fixed !! y)) by (apply Hmem; now left).
    apply Hfix in Hy as (c' & Hc' & _ & Hnone & _).
    apply Hbal in Hk' as (c & Hc & _ & k & Hk & _). congruence. }
  destruct (balance rangeBalanced sortUsage balanced st0) as [[sortedF pF] cntF] eqn:HbalF.
  assert (HpF : pF = (balanceSteps sortUsage balanced order st0).1.2).
  { unfold balance in HbalF. fold order in HbalF. now rewrite HbalF. }
  assert (Hunbalanced : forall j, balanced !! j = None -> pF !! j = st0.1.2 !! j).
  { intros j Hj. rewrite HpF. apply balanceSteps_untouched.
    rewrite Horder, Hj. intros [? ?]; discriminate. }
  assert (Hheld : forall ctn, is_Some (pF !! ctn) ->
             exists c, containers !! ctn = Some c /\ IsRunning_load c = true).
  { intros ctn [set Hset].
    destruct (balanced !! ctn) as [k'|] eqn:Hb.
    - apply Hbal in Hb as (c & Hc & Hrl & _). eauto.
    - rewrite (Hunbalanced _ Hb) in Hset.
      destruct (Hp0 ctn) as (ids & Hids & Hmem). rewrite Hids in Hset.
      destruct ids as [|y ids]; [discriminate|].
      assert (Hy : ctn ∈ default [] (fixed !! y)) by (apply Hmem; now left).
      apply Hfix in Hy as (c & Hc & Hrl & _). eauto. }
  exists (apply rangePinning containers pF), pF.
  split; [|split; [|split; [exact Hheld|split; [|split]]]].
  - unfold deviceTaskBalance. rewrite Hctl, Hhost, Hparse, Hload, Hcls. cbn [negb].
    fold st0. now rewrite HbalF.
  - intros ctn value. apply elem_of_apply.
  - intros ctn value Hw.
    apply elem_of_apply in Hw as (c & set & Hc & Hset & Hrun & _).
    destruct (Hheld ctn) as (c' & Hc' & Hrl); [eauto|].
    exists c. split; [exact Hc|]. split; [congruence|exact Hrun].
  - intros ctn c l Hc Hrl Hatoi Hl.
    assert (Hb : balanced !! ctn = None).
    { destruct (balanced !! ctn) as [k'|] eqn:Hb; [|reflexivity].
      apply Hbal in Hb as (c' & Hc' & _ & k & Hk & _). congruence. }
    destruct (Hp0 ctn) as (ids & Hids & Hmem).
    assert (Hmem' : forall y, y ∈ ids <-> y ∈ l /\ y ∈ cpus).
    { intros y. rewrite Hmem, Hfix. split.
      - intros (c' & Hc' & _ & _ & l' & Hl' & Hy). split; [|apply Hy].
        assert (c' = c) by congruence. subst c'.
        rewrite Hl in Hl'. injection Hl' as <-. apply Hy.
      - intros [Hyl Hyc]. exists c. split; [exact Hc|].
        split; [exact Hrl|]. split; [exact Hatoi|]. eauto. }
    exists ids. split; [|split; [exact Hmem'|]].
    + now rewrite (Hunbalanced _ Hb).
    + intros Hra (x & Hxl & Hxc).
      apply elem_of_apply. exists c, (map itoa ids).
      split; [exact Hc|]. split; [|split; [exact Hra|reflexivity]].
      rewrite (Hunbalanced _ Hb), Hids.
      destruct ids as [|y ids]; [|reflexivity].
      exfalso. assert (Hx : x ∈ []) by (apply Hmem'; auto). inversion Hx.
  - intros ctn c k Hc Hrl Hatoi.
    set (k' := Z.min k (Z.of_nat (length cpus))).
    assert (Hb : balanced !! ctn = Some k').
    { apply Hbal. exists c. split; [exact Hc|]. split; [exact Hrl|]. eauto. }
    assert (Hin : ctn ∈ order) by (apply Horder; eauto).
    destruct (list_elem_of_split _ _ Hin) as (pre & post & Hsplit).
    pose proof Hnodup as Hnodup'. rewrite Hsplit in Hnodup'.
    apply NoDup_app in Hnodup' as (Hndpre & Hpre & Hndpost).
    apply NoDup_cons in Hndpost as [Hpost _].
    assert (Hnpre : ctn ∉ pre).
    { intros H. apply (Hpre _ H). now left. }
    destruct (balanceSteps sortUsage balanced pre st0) as [[sortedU p] counts] eqn:Hsteps.
    exists pre, post, sortedU, p, counts.
    split; [exact Hsplit|]. split; [exact Hsteps|]. cbn zeta.
    assert (Hperm : Permutation (sortUsage counts sortedU)
                      (sortedUsage0 rangeUsage (initUsage cpus))).
    { rewrite (proj1 (sortUsage_sorts counts sortedU)).
      change sortedU with (sortedU, p, counts).1.1. rewrite <- Hsteps.
      rewrite balanceSteps_Permutation. now rewrite Hst0_sorted. }
    destruct (usage_slice cpus _ Hperm) as (Hnames & Hnd & Hall).
    assert (Hp : forall j, j ∉ pre -> p !! j = st0.1.2 !! j).
    { intros j Hj. change p with (sortedU, p, counts).1.2. rewrite <- Hsteps.
      now apply balanceSteps_untouched. }
    assert (HpF' : forall j,
               pF !! j
               = (balanceSteps sortUsage balanced post
                    (balanceOne sortUsage (sortedU, p, counts) ctn k')).1.2 !! j).
    { intros j. rewrite HpF, Hsplit, balanceSteps_app, Hsteps.
      cbn [balanceSteps fold_left]. rewrite Hb. reflexivity. }
    assert (Hgiven : pF !! ctn
                     = entryOf (map id (firstCpus k' (sortUsage counts sortedU)))).
    { rewrite HpF', balanceSteps_untouched by exact Hpost.
      rewrite balanceOne_pinning, decide_True by reflexivity. cbn [fst snd].
      assert (Hnone : p !! ctn = None).
      { rewrite (Hp _ Hnpre). apply Hfresh. eauto. }
      destruct (firstCpus k' (sortUsage counts sortedU)) as [|a chosen] eqn:Hfirst;
        [exact Hnone|].
      unfold pinned. rewrite Hnone. cbn [default app].
      change (entryOf (map id (a :: chosen)))
        with (Some (map itoa (map id (a :: chosen)))). f_equal.
      rewrite map_map. apply map_ext_in. intros b Hbin.
      apply Hnames. apply list_elem_of_In in Hbin. rewrite <- Hfirst in Hbin.
      eapply firstCpus_subset, Hbin. }
    split; [exact Hgiven|].
    split; [|split; [|split; [|split; [exact Hnd|split; [exact Hall|split]]]]].
    + intros Hra Hchosen.
      apply elem_of_apply.
      exists c, (map itoa (map id (firstCpus k' (sortUsage counts sortedU)))).
      split; [exact Hc|]. split; [|split; [exact Hra|reflexivity]].
      rewrite Hgiven.
      destruct (firstCpus k' (sortUsage counts sortedU)); [contradiction|reflexivity].
    + apply firstCpus_prefix.
    + apply firstCpus_prefix.
    + intros a b Ha Hbs Hnb.
      eapply firstCpus_least_loaded; eauto. apply sortUsage_sorts.
    + assert (Hcounted : counted (length containers) cpus p counts).
      { change p with (sortedU, p, counts).1.2.
        change counts with (sortedU, p, counts).2 at 2.
        rewrite <- Hsteps.
        apply counted_balanceSteps; [exact Hbounds| | |].
        - intros j Hj. apply Hlt_order. rewrite Hsplit. apply elem_of_app. now left.
        - now rewrite Hst0_sorted.
        - now apply counted_afterFixed. }
      intros x Hx. rewrite (Hcounted x Hx). f_equal.
      apply timesGiven_earlier. intros j. unfold pinned.
      destruct (decide (j ∈ ctn :: post)) as [Hlater|Hearlier].
      * assert (Hjo : j ∈ order).
        { rewrite Hsplit. apply elem_of_app. now right. }
        assert (Hjpre : j ∉ pre).
        { intros H. exact (Hpre _ H Hlater). }
        rewrite (Hp _ Hjpre), Hfresh; [reflexivity|]. now apply Horder.
      * rewrite HpF', balanceSteps_untouched
          by (intros H; apply Hearlier; now right).
        rewrite balanceOne_pinning, decide_False; [reflexivity|].
        intros ->. apply Hearlier. now left.
Qed.

End BalanceProofs.

Section BalanceWitness.
Import Go Cpuset Balance.

Definition threeContainers : list container :=
  [ runningContainer "pinned" {[ "limits.cpu" := "0-1,7" ]};
    runningContainer "two" {[ "limits.cpu" := "2" ]};
    runningContainer "all" ∅ ].

(** A host whose file of isolated cpus is there. *)
Definition hostIsolating (effective isolated : string) (containers : list container)
  : host :=
  {| CGroupCPUsetController := true;
     effective_cpus := Ok effective;
     cpuset_cpus := Err (Failure "cGroupGet");
     isolated_exists := true;
     isolated_file := Ok isolated;
     containerLoadNodeAll := Ok containers |}.

(** The content of the file when cpu 4 is isolated: the number and a
    newline. *)
Definition isolatedFour : string := String "4" (String (ascii_of_nat 10) EmptyString).

Example deviceTaskBalance_isolated :
  deviceTaskBalance asListed lowestFirst asListed asListed insertionSortByCount
    (hostIsolating "0-4" isolatedFour threeContainers)
  = Some [ SetLxc "0,1,2,3"; SetContainer 2 "0,1,2,3"; SetContainer 1 "2,3";
           SetContainer 0 "0,1" ].
Proof. vm_compute. reflexivity. Qed.

(** The counts the loop does not expect: a count of 0 leaves the
    container without a write, a negative count gives it every cpu. *)
Example deviceTaskBalance_count_zero_and_negative :
  deviceTaskBalance asListed lowestFirst asListed asListed insertionSortByCount
    (hostWith "0-3"
       [ runningContainer "none" {[ "limits.cpu" := "0" ]};
         runningContainer "below" {[ "limits.cpu" := "-1" ]} ])
  = Some [ SetLxc "0,1,2,3"; SetContainer 1 "0,1,2,3" ].
Proof. vm_compute. reflexivity. Qed.

(** The amended statement on a host with the cpus 0 to 4, the last one
    isolated, and three running containers: one pinned to 0-1,7, one
    balanced over two cpus, one without a limit. *)
Lemma deviceTaskBalance_assignment_witness :
  exists (writes : list write) (given : gmap nat (list string)),
    deviceTaskBalance asListed lowestFirst asListed asListed insertionSortByCount
      (hostIsolating "0-4" isolatedFour threeContainers)
    = Some (SetLxc "0,1,2,3" :: writes)
    /\ (forall ctn value,
          SetContainer ctn value ∈ writes
          <-> exists c set,
                threeContainers !! ctn = Some c /\ given !! ctn = Some set
                /\ IsRunning_apply c = true /\ value = Join (sortStrings set) ",")
    /\ (forall ctn, is_Some (given !! ctn) ->
          exists c, threeContainers !! ctn = Some c /\ IsRunning_load c = true).
Proof.
  destruct (classify "0,1,2,3" [0; 1; 2; 3] 0 threeContainers ∅ ∅)
    as [[[fixed balanced]|]|] eqn:Hcls;
    [|vm_compute in Hcls; discriminate|vm_compute in Hcls; discriminate].
  assert (Hiso : isolatedRead (hostIsolating "0-4" isolatedFour threeContainers) [4]).
  { right. split; [reflexivity|]. exists isolatedFour. split; [reflexivity|].
    right. split; [vm_compute; discriminate|vm_compute; reflexivity]. }
  destruct (deviceTaskBalance_assignment
              asListed lowestFirst asListed asListed insertionSortByCount
              asListed_range_order lowestFirst_range_order
              asListed_range_order asListed_range_order
              insertionSortByCount_sorts
              (hostIsolating "0-4" isolatedFour threeContainers)
              "0-4" [0; 1; 2; 3; 4] [4] threeContainers fixed balanced
              eq_refl (or_introl eq_refl) ltac:(vm_compute; reflexivity) Hiso
              ltac:(vm_compute; discriminate) eq_refl Hcls)
    as (writes & given & Hrun & Hwrites & Hheld & _).
  exists writes, given. split; [exact Hrun|]. split; [exact Hwrites|exact Hheld].
Defined.

End BalanceWitness.

(** *** Mount options, again *)

Section MountMore.
Import Go Mount.

Lemma Split_pieces (sep : ascii) (s : string) :
  Split sep s <> [] /\ Forall (fun x => cut sep x = None) (Split sep s).
Proof.
  induction s as [|c s [IHne IH]]; cbn [Split].
  - split; [discriminate|]. repeat constructor.
  - destruct (Ascii.eqb c sep) eqn:Hc.
    + split; [discriminate|]. constructor; [reflexivity|exact IH].
    + destruct (Split sep s) as [|w ws]; [contradiction|].
      split; [discriminate|]. inversion IH as [|? ? Hw Hws]; subst.
      constructor; [|exact Hws]. cbn. now rewrite Hc, Hw.
Qed.

(** The result of [lxdResolveMountoptions] in terms of the tokens. *)
Lemma lxdResolveMountoptions_tokens (options : string) :
  lxdResolveMountoptions options
  = Some (fold_left foldOption (List.filter recognized (Split "," options)) 0,
          Join (List.filter (fun o => negb (recognized o)) (Split "," options)) ",").
Proof.
  unfold lxdResolveMountoptions.
  rewrite (resolveLoop_filter _ 0 (Split "," options) 0) by (cbn; lia).
  now rewrite drop_0.
Qed.

Lemma filter_kept_twice {A : Type} (f : A -> bool) (l : list A) :
  List.filter f (List.filter f l) = List.filter f l.
Proof.
  induction l as [|x l IH]; cbn; [reflexivity|].
  destruct (f x) eqn:Hx; cbn; [rewrite Hx; now f_equal|exact IH].
Qed.

Lemma filter_dropped {A : Type} (f : A -> bool) (l : list A) :
  List.filter f (List.filter (fun x => negb (f x)) l) = [].
Proof.
  induction l as [|x l IH]; cbn; [reflexivity|].
  destruct (f x) eqn:Hx; cbn; [exact IH|now rewrite Hx].
Qed.

(** The remainder [lxdResolveMountoptions] returns holds nothing the
    function would still take: resolving the remainder again gives no
    flags and the same remainder. *)
Theorem lxdResolveMountoptions_remainder_is_fixed (options : string) (flags : Z)
    (rest : string) :
  lxdResolveMountoptions options = Some (flags, rest) ->
  lxdResolveMountoptions rest = Some (0, rest).
Proof.
  rewrite lxdResolveMountoptions_tokens. intros H.
  assert (Hrest : rest = Join (List.filter (fun o => negb (recognized o))
                                           (Split "," options)) ",") by congruence.
  subst rest. clear H.
  set (kept := List.filter (fun o => negb (recognized o)) (Split "," options)).
  destruct kept as [|k kept'] eqn:Hkept; [vm_compute; reflexivity|].
  rewrite <- Hkept. rewrite lxdResolveMountoptions_tokens.
  assert (Hsplit : Split "," (Join kept ",") = kept).
  { apply Split_Join; [rewrite Hkept; discriminate|].
    apply List.Forall_forall. intros x Hx. unfold kept in Hx.
    apply List.filter_In in Hx as [Hx _].
    destruct (Split_pieces "," options) as [_ Hall].
    rewrite List.Forall_forall in Hall. now apply Hall. }
  rewrite Hsplit. unfold kept.
  rewrite filter_dropped.
  rewrite (filter_kept_twice (fun o => negb (recognized o))). reflexivity.
Qed.

Lemma lxdResolveMountoptions_remainder_is_fixed_witness :
  lxdResolveMountoptions "size=1G,uid=0" = Some (0, "size=1G,uid=0").
Proof.
  apply (lxdResolveMountoptions_remainder_is_fixed "ro,size=1G,nosuid,rw,uid=0"
           unix.MS_NOSUID).
  vm_compute. reflexivity.
Defined.

Lemma fold_foldOption_filter (l : list string) (a : Z) :
  fold_left foldOption (List.filter recognized l) a = fold_left foldOption l a.
Proof.
  revert a. induction l as [|o l IH]; intros a; cbn [List.filter fold_left];
    [reflexivity|].
  destruct (MountOptions !! o) as [do|] eqn:Hdo.
  - assert (Hr : recognized o = true) by (unfold recognized; now rewrite Hdo).
    rewrite Hr. cbn [fold_left]. apply IH.
  - assert (Hr : recognized o = false) by (unfold recognized; now rewrite Hdo).
    assert (Hf : foldOption a o = a) by (unfold foldOption; now rewrite Hdo).
    rewrite Hr, Hf. apply IH.
Qed.

(** Every flag of the table fits in 26 bits. *)
Lemma MountOptions_flag_range (opt : string) (do : mountOptions) :
  MountOptions !! opt = Some do -> 0 <= flag do < 2 ^ 26.
Proof.
  intros H. apply elem_of_list_to_map_2 in H.
  repeat (apply elem_of_cons in H as [H|H];
          [injection H as _ ->; vm_compute; split; [discriminate|reflexivity]|]).
  inversion H.
Qed.

Lemma testbit_high (f n : Z) : 0 <= f < 2 ^ 26 -> 64 <= n -> Z.testbit f n = false.
Proof.
  intros Hf Hn. destruct (Z.eq_dec f 0) as [->|Hne]; [apply Z.bits_0|].
  apply Z.bits_above_log2; [lia|].
  assert (Z.log2 f < 26) by (apply Z.log2_lt_pow2; lia). lia.
Qed.

Lemma testbit_mask (n : Z) : 0 <= n -> Z.testbit (2 ^ 64 - 1) n = (n <? 64).
Proof.
  intros Hn. change (2 ^ 64 - 1) with (Z.ones 64).
  destruct (Z.ltb_spec n 64).
  - apply Z.ones_spec_low. lia.
  - apply Z.ones_spec_high. lia.
Qed.

(** Applying an option leaves its own flag set or cleared. *)
Lemma applyOption_own (a : Z) (do : mountOptions) :
  0 <= flag do < 2 ^ 26 ->
  Z.land (applyOption a do) (flag do) = if capture do then flag do else 0.
Proof.
  intros Hf. unfold applyOption, not64. destruct (capture do).
  - apply Z.bits_inj'. intros n Hn.
    rewrite Z.land_spec, Z.lor_spec. now destruct (Z.testbit a n), (Z.testbit (flag do) n).
  - apply Z.bits_inj'. intros n Hn.
    rewrite !Z.land_spec, Z.lxor_spec, testbit_mask, Z.bits_0 by exact Hn.
    destruct (Z.ltb_spec n 64).
    + now destruct (Z.testbit a n), (Z.testbit (flag do) n).
    + rewrite (testbit_high (flag do) n) by lia. now destruct (Z.testbit a n).
Qed.

(** Applying an option leaves the flags of an option it shares no bit
    with as they are. *)
Lemma applyOption_other (a f : Z) (do : mountOptions) :
  0 <= f < 2 ^ 26 -> Z.land (flag do) f = 0 ->
  Z.land (applyOption a do) f = Z.land a f.
Proof.
  intros Hf Hdis. unfold applyOption, not64.
  assert (Hbit : forall n, (Z.testbit (flag do) n && Z.testbit f n)%bool = false).
  { intros n. rewrite <- Z.land_spec, Hdis. apply Z.bits_0. }
  destruct (capture do); apply Z.bits_inj'; intros n Hn; specialize (Hbit n).
  - rewrite !Z.land_spec, Z.lor_spec.
    now destruct (Z.testbit a n), (Z.testbit (flag do) n), (Z.testbit f n).
  - rewrite !Z.land_spec, Z.lxor_spec, testbit_mask by exact Hn.
    destruct (Z.ltb_spec n 64).
    + now destruct (Z.testbit a n), (Z.testbit (flag do) n), (Z.testbit f n).
    + rewrite (testbit_high f n) by lia. now rewrite !andb_false_r.
Qed.

(** Tokens whose flags share no bit with [f] leave the bits of [f] as
    they are. *)
Lemma fold_foldOption_other (post : list string) (f a : Z) :
  0 <= f < 2 ^ 26 ->
  (forall o do', In o post -> MountOptions !! o = Some do' -> Z.land (flag do') f = 0) ->
  Z.land (fold_left foldOption post a) f = Z.land a f.
Proof.
  intros Hf. revert a. induction post as [|o post IH]; intros a Hpost;
    cbn [fold_left]; [reflexivity|].
  rewrite IH by (intros o' do' Ho'; apply Hpost; now right).
  unfold foldOption. destruct (MountOptions !! o) as [do'|] eqn:Hdo'; [|reflexivity].
  apply applyOption_other; [exact Hf|]. apply (Hpost o do'); [now left|exact Hdo'].
Qed.

(** The last mention of a flag wins.  When a token of the input is a key
    of the table and no token after it is a key whose flag shares a bit
    with its flag, the returned flags have that flag set if the token
    captures it, and cleared if it does not. *)
Theorem lxdResolveMountoptions_last_mention_wins (options : string)
    (pre post : list string) (opt : string) (do : mountOptions)
    (flags : Z) (rest : string) :
  Split "," options = pre ++ opt :: post ->
  MountOptions !! opt = Some do ->
  (forall o do', In o post -> MountOptions !! o = Some do' ->
                 Z.land (flag do') (flag do) = 0) ->
  lxdResolveMountoptions options = Some (flags, rest) ->
  Z.land flags (flag do) = if capture do then flag do else 0.
Proof.
  intros Hsplit Hopt Hpost. rewrite lxdResolveMountoptions_tokens. intros H.
  assert (Hflags : flags = fold_left foldOption
                             (List.filter recognized (Split "," options)) 0)
    by congruence.
  subst flags. clear H. rewrite fold_foldOption_filter, Hsplit.
  rewrite fold_left_app. cbn [fold_left].
  pose proof (MountOptions_flag_range opt do Hopt) as Hf.
  rewrite (fold_foldOption_other post (flag do) _ Hf Hpost).
  assert (Hown : forall a, foldOption a opt = applyOption a do)
    by (intros a; unfold foldOption; now rewrite Hopt).
  rewrite Hown. now apply applyOption_own.
Qed.

Lemma lxdResolveMountoptions_last_mention_wins_witness :
  Z.land unix.MS_NOSUID unix.MS_RDONLY = 0.
Proof.
  refine (lxdResolveMountoptions_last_mention_wins "ro,nosuid,rw,uid=0"
            ["ro"; "nosuid"] ["uid=0"] "rw"
            {| capture := false; flag := unix.MS_RDONLY |}
            unix.MS_NOSUID "uid=0" eq_refl _ _ _).
  - vm_compute. reflexivity.
  - intros o do' [<-|[]]. vm_compute. discriminate.
  - vm_compute. reflexivity.
Defined.

End MountMore.

(** *** Deleting a container, step by step *)

Section DeleteMore.
Import Go DeleteContainer.

(** A call [Delete] makes before it turns to the database. *)
Definition early (a : action) : Prop :=
  a <> ContainerRemove /\ a <> StoragePoolVolumeDelete.

Lemma Forall_early_snoc (trace : list action) (a : action) :
  Forall early trace -> early a -> Forall early (trace ++ [a]).
Proof. intros Ht Ha. apply Forall_app. split; [exact Ht|]. now constructor. Qed.

Lemma deleteBackups_early (backups : list (option error)) (i : nat)
    (trace : list action) :
  Forall early trace -> Forall early (fst (deleteBackups i backups trace)).
Proof.
  revert i trace. induction backups as [|[err|] backups IH]; intros i trace Ht; cbn.
  - exact Ht.
  - apply Forall_early_snoc; [exact Ht|]. split; discriminate.
  - apply IH. apply Forall_early_snoc; [exact Ht|]. split; discriminate.
Qed.

Lemma deleteBackups_error (backups : list (option error)) (i : nat)
    (trace : list action) :
  snd (deleteBackups i backups trace) = None <-> Forall (fun r => r = None) backups.
Proof.
  revert i trace. induction backups as [|[err|] backups IH]; intros i trace; cbn.
  - split; [constructor|reflexivity].
  - split; [discriminate|]. intros H. inversion H; discriminate.
  - rewrite IH. split; [now constructor|]. intros H. now inversion H.
Qed.

Lemma removeDevices_early (devices : list (string * option error))
    (trace : list action) :
  Forall early trace -> Forall early (fst (removeDevices devices trace)).
Proof.
  revert trace. induction devices as [|[k [err|]] devices IH]; intros trace Ht; cbn.
  - exact Ht.
  - destruct (is_ErrUnsupportedDevType err); cbn.
    + apply IH. apply Forall_early_snoc; [exact Ht|]. split; discriminate.
    + apply Forall_early_snoc; [exact Ht|]. split; discriminate.
  - apply IH. apply Forall_early_snoc; [exact Ht|]. split; discriminate.
Qed.

(** The end of [Delete]: the record is removed, then the volume entry,
    and the error is that of the call that failed. *)
Lemma removeRecords_shape (w : world) (storage : bool) (trace : list action) :
  exists post,
    fst (removeRecords w storage trace) = trace ++ ContainerRemove :: post
    /\ (post = [] \/ post = [StoragePoolVolumeDelete])
    /\ (snd (removeRecords w storage trace) = ContainerRemove_err w
        \/ (ContainerRemove_err w = None
            /\ snd (removeRecords w storage trace) = StoragePoolVolumeDelete_err w)).
Proof.
  unfold removeRecords. destruct (ContainerRemove_err w) as [err|].
  - exists []. cbn. auto.
  - destruct storage.
    + exists [StoragePoolVolumeDelete].
      destruct (StoragePoolVolumeDelete_err w); cbn; rewrite <- app_assoc; auto.
    + exists []. cbn. auto.
Qed.

(** How far a run of [Delete] got. *)
Definition stoppedEarly (r : run) : Prop :=
  snd r <> None /\ Forall early (fst r).

Definition reachedRecords (w : world) (r : run) : Prop :=
  exists pre post,
    fst r = pre ++ ContainerRemove :: post
    /\ Forall early pre
    /\ (post = [] \/ post = [StoragePoolVolumeDelete])
    /\ (snd r = ContainerRemove_err w
        \/ (ContainerRemove_err w = None /\ snd r = StoragePoolVolumeDelete_err w)).

Lemma removeRecords_reached (w : world) (storage : bool) (trace : list action) :
  Forall early trace -> reachedRecords w (removeRecords w storage trace).
Proof.
  intros Ht. destruct (removeRecords_shape w storage trace) as (post & H1 & H2 & H3).
  exists trace, post. auto.
Qed.

(** The database record goes last.  Every run of [Delete] either stops
    with an error before it has called [ContainerRemove] or
    [StoragePoolVolumeDelete], or calls [ContainerRemove] once, after all
    its other calls, followed at most by [StoragePoolVolumeDelete]; in
    that case the error it returns, if any, is the one of these two calls.
    So a failure to remove a snapshot, a backup, the storage, the MAAS
    record or a device leaves the database record in place, and a
    successful [Delete] has removed it. *)
Theorem Delete_database_record_last (IsTrue : string -> bool) (w : world) :
  stoppedEarly (Delete IsTrue w) \/ reachedRecords w (Delete IsTrue w).
Proof.
  assert (Hstop : forall (trace : list action) (err : error),
             Forall early trace -> stoppedEarly (trace, Some err)).
  { intros trace err Ht. split; [discriminate|exact Ht]. }
  assert (E1 : forall a, a <> ContainerRemove -> a <> StoragePoolVolumeDelete ->
                         Forall early [a]).
  { intros a H1 H2. repeat constructor; assumption. }
  unfold Delete.
  destruct (IsTrue _ && negb (IsSnapshot w))%bool; [left; apply Hstop; constructor|].
  set (storage := (storage_set w || _)%bool).
  set (isImport := (storage_set w && importing_exists w)%bool).
  destruct (IsSnapshot w).
  - destruct (storage && negb isImport)%bool.
    + destruct (ContainerSnapshotDelete_err w) as [err|].
      * left. apply Hstop, E1; discriminate.
      * right. apply removeRecords_reached, E1; discriminate.
    + right. apply removeRecords_reached. constructor.
  - destruct (containerDeleteSnapshots_err w) as [err|];
      [left; apply Hstop, E1; discriminate|].
    destruct (Backups w) as [backups|err];
      [|left; apply Hstop, E1; discriminate].
    pose proof (deleteBackups_early backups 0 [containerDeleteSnapshots]
                  ltac:(apply E1; discriminate)) as Hb.
    destruct (deleteBackups 0 backups [containerDeleteSnapshots]) as [trace [err|]];
      cbn [fst] in Hb; [left; now apply Hstop|].
    assert (Hc : Forall early (trace ++ [cleanup])).
    { apply Forall_early_snoc; [exact Hb|]. split; discriminate. }
    assert (Hd : Forall early ((trace ++ [cleanup]) ++ [ContainerDelete])).
    { apply Forall_early_snoc; [exact Hc|]. split; discriminate. }
    set (deleted := if (storage && negb isImport && _)%bool then _ else _).
    assert (Hdel : Forall early (fst deleted)).
    { unfold deleted. destruct (storage && negb isImport && _)%bool; [|exact Hc].
      destruct (ContainerDelete_err w); exact Hd. }
    destruct deleted as [trace' [err|]]; cbn [fst] in Hdel; [left; now apply Hstop|].
    assert (Hm : Forall early (trace' ++ [maasDelete])).
    { apply Forall_early_snoc; [exact Hdel|]. split; discriminate. }
    destruct (maasDelete_err w) as [err|]; [left; now apply Hstop|].
    pose proof (removeDevices_early (expandedDevices w) _ Hm) as Hr.
    destruct (removeDevices (expandedDevices w) (trace' ++ [maasDelete]))
      as [trace'' [err|]]; cbn [fst] in Hr; [left; now apply Hstop|].
    right. now apply removeRecords_reached.
Qed.

End DeleteMore.

(** *** The idmap planner, without the scan *)

Section IdmapMore.
Import Go Idmap.

Variable IsTrue : string -> bool.
Variable AddSafe : list IdmapEntry -> IdmapEntry -> list IdmapEntry * option error.
Variable sortByHostid : list IdmapEntry -> list IdmapEntry.
Variable formatIdmapSet : list IdmapEntry -> string.

(** For a container that is not isolated, or that is isolated with a base
    of its own in [security.idmap.base], [findIdmap] does not look at the
    other containers: the list of containers is not loaded, so the result
    is the same whatever that list is, and no check keeps the range clear
    of the ranges of other containers.  The base it returns is 0 for a
    container that is not isolated and the configured base for an
    isolated one. *)
Theorem findIdmap_without_other_containers (hostIdmap : list IdmapEntry)
    (loadAll loadAll' : result (list container))
    (cName cName' isolatedStr configBase configSize rawIdmap : string) :
  IsTrue isolatedStr = false \/ configBase <> "" ->
  findIdmap IsTrue AddSafe sortByHostid formatIdmapSet hostIdmap loadAll cName
            isolatedStr configBase configSize rawIdmap
  = findIdmap IsTrue AddSafe sortByHostid formatIdmapSet hostIdmap loadAll' cName'
              isolatedStr configBase configSize rawIdmap
  /\ forall set base,
       findIdmap IsTrue AddSafe sortByHostid formatIdmapSet hostIdmap loadAll cName
                 isolatedStr configBase configSize rawIdmap
       = Some (Ok (set, base)) ->
       if IsTrue isolatedStr then ParseInt configBase = Some base else base = 0.
Proof.
  intros Hcase. unfold findIdmap.
  destruct (parseRawIdmap AddSafe rawIdmap) as [rawMaps|err];
    [|split; [reflexivity|discriminate]].
  destruct (IsTrue isolatedStr) eqn:Hiso; cbn [negb].
  - destruct Hcase as [Hf|Hbase]; [discriminate|].
    destruct (idmapSize IsTrue formatIdmapSet hostIdmap isolatedStr configSize) as [size|err];
      [|split; [reflexivity|discriminate]].
    destruct (String.eqb_spec configBase ""); [contradiction|]. cbn [negb].
    split; [reflexivity|].
    destruct (ParseInt configBase) as [offset|]; [|discriminate].
    destruct (mkIdmap AddSafe rawMaps offset size); [|discriminate].
    now intros set base [= _ <-].
  - split; [reflexivity|].
    destruct (addRawMaps AddSafe hostIdmap rawMaps); [|discriminate].
    now intros set base [= _ <-].
Qed.

End IdmapMore.

Section IdmapMoreWitness.
Import Go Idmap.

Lemma findIdmap_without_other_containers_witness :
  findIdmap IsTrue_lower AddSafe_append insertionSortByHostid formatIdmapSet_unused hostMap (Ok []) "c1" "true" "2000000" "" ""
  = findIdmap IsTrue_lower AddSafe_append insertionSortByHostid formatIdmapSet_unused hostMap (Err (Failure "db")) "c2"
              "true" "2000000" "" "".
Proof.
  refine (proj1 (findIdmap_without_other_containers IsTrue_lower AddSafe_append
                   insertionSortByHostid formatIdmapSet_unused
                   hostMap (Ok []) (Err (Failure "db")) "c1" "c2"
                   "true" "2000000" "" "" _)).
  right. discriminate.
Defined.

End IdmapMoreWitness.

(** *** CPU rebalancing, when a limit cannot be read *)

Section BalanceMore.
Import Go Cpuset Balance.

Variable rangeFixed : list Z -> list Z.
Variable rangeUsage : list Z -> list Z.
Variable rangeBalanced : list nat -> list nat.
Variable rangePinning : list nat -> list nat.
Variable sortUsage : gmap Z Z -> list deviceTaskCPU -> list deviceTaskCPU.

(** The container runs and its cpu limit is neither a count nor a cpuset
    [parseCpuset] accepts. *)
Definition unreadableLimit (effectiveCpus : string) (c : container) : Prop :=
  IsRunning_load c = true
  /\ Atoi (cpulimitOf effectiveCpus c) = None
  /\ exists err, parseCpuset (cpulimitOf effectiveCpus c) = Some (Err err).

Lemma classify_unreadable (effectiveCpus : string) (cpus : list Z)
    (containers : list container) (i : nat)
    (fixedContainers : gmap Z (list nat)) (balancedContainers : gmap nat Z) :
  Exists (unreadableLimit effectiveCpus) containers ->
  Forall (fun c => parseCpuset (cpulimitOf effectiveCpus c) <> None) containers ->
  classify effectiveCpus cpus i containers fixedContainers balancedContainers
  = Some None.
Proof.
  revert i fixedContainers balancedContainers.
  induction containers as [|c containers IH]; intros i fixedContainers balancedContainers
    Hbad Hret; [inversion Hbad|].
  apply Forall_cons in Hret as [Hc Hret]. cbn [classify].
  assert (Hrest : ~ unreadableLimit effectiveCpus c ->
                  Exists (unreadableLimit effectiveCpus) containers).
  { intros Hn. inversion Hbad; [contradiction|assumption]. }
  destruct (IsRunning_load c) eqn:Hrun; cbn [negb].
  - destruct (Atoi (cpulimitOf effectiveCpus c)) as [count|] eqn:Hcount.
    + apply IH; [|exact Hret]. apply Hrest. intros (_ & H & _). congruence.
    + destruct (parseCpuset (cpulimitOf effectiveCpus c)) as [[l|err]|] eqn:Hparse.
      * apply IH; [|exact Hret]. apply Hrest. intros (_ & _ & err' & H). congruence.
      * reflexivity.
      * contradiction.
  - apply IH; [|exact Hret]. apply Hrest. intros (H & _). congruence.
Qed.

(** One cpu limit that cannot be read stops the rebalancing for every
    container.  When a running container has a [limits.cpu] that is
    neither a count nor a cpuset [parseCpuset] accepts,
    [deviceTaskBalance] returns from its loop over the containers: it has
    written the host's cpus to [/lxc] and writes [cpuset.cpus] for no
    container at all, also not for those whose limits are fine. *)
Theorem deviceTaskBalance_unreadable_limit_stops_all (h : host)
    (effectiveCpus : string) (cpus : list Z) (containers : list container) :
  CGroupCPUsetController h = true ->
  hostCpus h = Some (Some effectiveCpus) ->
  parseCpuset effectiveCpus = Some (Ok cpus) ->
  containerLoadNodeAll h = Ok containers ->
  Exists (unreadableLimit effectiveCpus) containers ->
  Forall (fun c => parseCpuset (cpulimitOf effectiveCpus c) <> None) containers ->
  deviceTaskBalance rangeFixed rangeUsage rangeBalanced rangePinning sortUsage h
  = Some [SetLxc effectiveCpus].
Proof.
  intros Hctl Hhost Hparse Hload Hbad Hret. unfold deviceTaskBalance.
  rewrite Hctl, Hhost, Hparse, Hload. cbn [negb].
  now rewrite classify_unreadable.
Qed.

End BalanceMore.

Section BalanceMoreWitness.
Import Go Cpuset Balance.

Lemma deviceTaskBalance_unreadable_limit_stops_all_witness :
  deviceTaskBalance asListed asListed asListed asListed insertionSortByCount
    (hostWith "0-3"
       [ runningContainer "c1" {[ "limits.cpu" := "2" ]};
         runningContainer "c2" {[ "limits.cpu" := "1;3" ]} ])
  = Some [SetLxc "0,1,2,3"].
Proof.
  apply (deviceTaskBalance_unreadable_limit_stops_all
           asListed asListed asListed asListed insertionSortByCount _
           "0,1,2,3" [0; 1; 2; 3]
           [ runningContainer "c1" {[ "limits.cpu" := "2" ]};
             runningContainer "c2" {[ "limits.cpu" := "1;3" ]} ]).
  - reflexivity.
  - vm_compute. reflexivity.
  - vm_compute. reflexivity.
  - reflexivity.
  - apply Exists_cons_tl, Exists_cons_hd.
    split; [reflexivity|]. split; [vm_compute; reflexivity|].
    eexists. vm_compute. reflexivity.
  - repeat constructor; vm_compute; discriminate.
Defined.

End BalanceMoreWitness.

(** *** Storage utilities *)

Section RetryFacts.
Import Go StorageUtils.

(** The trace of [n] failed attempts: each one followed by its sleep. *)
Definition failedAttempts (first n : nat) : list tried :=
  flat_map (fun j => [Attempt j; Sleep500ms]) (seq first n).

Lemma failedAttempts_S (first n : nat) :
  failedAttempts first (S n) = [Attempt first; Sleep500ms] ++ failedAttempts (S first) n.
Proof. reflexivity. Qed.

Lemma tryLoop_all_fail (call : nat -> option error) (turns : nat) :
  forall (i : nat) (err : option error) (trace : list tried),
    (forall j, (i <= j < i + turns)%nat -> call j <> None) ->
    tryLoop call turns i err trace
    = (trace ++ failedAttempts i turns,
       match turns with O => err | S n => call (i + n)%nat end).
Proof.
  induction turns as [|turns IH]; intros i err trace Hfail; cbn [tryLoop].
  - unfold failedAttempts. cbn. now rewrite app_nil_r.
  - destruct (call i) as [e|] eqn:Hcall; [|now destruct (Hfail i ltac:(lia))].
    rewrite IH by (intros j Hj; apply Hfail; lia).
    rewrite failedAttempts_S, <- app_assoc. f_equal.
    destruct turns as [|n]; [now rewrite Nat.add_0_r|].
    f_equal. lia.
Qed.

Lemma tryLoop_first_success (call : nat -> option error) (k : nat) :
  forall (turns i : nat) (err : option error) (trace : list tried),
    (k < turns)%nat -> call (i + k)%nat = None ->
    (forall j, (i <= j < i + k)%nat -> call j <> None) ->
    tryLoop call turns i err trace
    = (trace ++ failedAttempts i k ++ [Attempt (i + k)%nat], None).
Proof.
  induction k as [|k IH]; intros turns i err trace Hk Hok Hfail;
    (destruct turns as [|turns]; [lia|]); cbn [tryLoop].
  - rewrite Nat.add_0_r in Hok. rewrite Hok. now rewrite Nat.add_0_r.
  - destruct (call i) as [e|] eqn:Hcall; [|now destruct (Hfail i ltac:(lia))].
    rewrite (IH turns (S i)); [| lia | now replace (S i + k)%nat with (i + S k)%nat by lia
                              | intros j Hj; apply Hfail; lia].
    rewrite failedAttempts_S, <- !app_assoc.
    now replace (S i + k)%nat with (i + S k)%nat by lia.
Qed.

(** [tryMount] and [tryUnmount] stop at the first call that succeeds.
    When the call with number [k], below 20, is the first to return no
    error, there are [k + 1] calls, a sleep of half a second after each of
    the [k] failed ones and none after the last, and the result is nil. *)
Theorem tryMount_stops_at_first_success (call : nat -> option error) (k : nat) :
  (k < 20)%nat -> call k = None -> (forall j, (j < k)%nat -> call j <> None) ->
  tryMount call = (failedAttempts 0 k ++ [Attempt k], None)
  /\ tryUnmount call = (failedAttempts 0 k ++ [Attempt k], None).
Proof.
  intros Hk Hok Hfail. unfold tryMount, tryUnmount.
  rewrite (tryLoop_first_success call k 20 0 None []);
    [now split | exact Hk | exact Hok | intros j Hj; apply Hfail; lia].
Qed.

Lemma tryMount_stops_at_first_success_witness :
  tryMount (fun i => if (i <? 2)%nat then Some (Errorf "busy") else None)
  = ([Attempt 0; Sleep500ms; Attempt 1; Sleep500ms; Attempt 2], None).
Proof.
  refine (proj1 (tryMount_stops_at_first_success
                   (fun i => if (i <? 2)%nat then Some (Errorf "busy") else None)
                   2 _ eq_refl _)).
  - lia.
  - intros j Hj. destruct (Nat.ltb_spec j 2); [discriminate|lia].
Defined.

(** [tryMount] and [tryUnmount] give up after 20 calls.  When each of the
    first 20 calls fails there is no further call, the error returned is
    that of the call with number 19, and the function has slept after
    every failed call, the last one included: 20 sleeps of half a
    second. *)
Theorem tryMount_gives_up_after_20 (call : nat -> option error) :
  (forall j, (j < 20)%nat -> call j <> None) ->
  tryMount call = (failedAttempts 0 20, call 19%nat)
  /\ tryUnmount call = (failedAttempts 0 20, call 19%nat).
Proof.
  intros Hfail. unfold tryMount, tryUnmount.
  rewrite (tryLoop_all_fail call 20 0 None []) by (intros j Hj; apply Hfail; lia).
  now split.
Qed.

Lemma tryMount_gives_up_after_20_witness :
  tryMount (fun i => Some (Errorf (itoa (Z.of_nat i))))
  = (failedAttempts 0 20, Some (Errorf "19"))
  /\ tryUnmount (fun i => Some (Errorf (itoa (Z.of_nat i))))
     = (failedAttempts 0 20, Some (Errorf "19")).
Proof.
  refine (tryMount_gives_up_after_20 (fun i => Some (Errorf (itoa (Z.of_nat i)))) _).
  intros j _. discriminate.
Defined.

End RetryFacts.


Section ConfigDiffFacts.
Import Go StorageUtils.

Variable StringInSlice : string -> list string -> bool.
Variable rangeOld : list string -> list string.
Variable rangeNew : list string -> list string.

(** [shared.StringInSlice] tells whether the key is in the slice, and a
    [range] yields the keys of the map in some order. *)
Hypothesis StringInSlice_spec : forall k l, StringInSlice k l = true <-> In k l.
Hypothesis rangeOld_order : range_order rangeOld.
Hypothesis rangeNew_order : range_order rangeNew.

Lemma fold_diffTurn (oldConfig newConfig : gmap string string) (l : list string) :
  forall (c : list string) (u : bool),
    (forall k, In k (fst (fold_left (diffTurn StringInSlice oldConfig newConfig) l (c, u)))
               <-> In k c \/ (In k l /\ cfg oldConfig k <> cfg newConfig k))
    /\ (NoDup c ->
        NoDup (fst (fold_left (diffTurn StringInSlice oldConfig newConfig) l (c, u))))
    /\ (snd (fold_left (diffTurn StringInSlice oldConfig newConfig) l (c, u)) = true
        <-> u = true
            /\ forall k, In k l -> cfg oldConfig k <> cfg newConfig k ->
                         HasPrefix k "user." = true).
Proof.
  induction l as [|key l IH]; intros c u; cbn [fold_left].
  - cbn. split; [intros k; tauto|]. split; [auto|]. split; [auto|tauto].
  - assert (Hstep : diffTurn StringInSlice oldConfig newConfig (c, u) key
                    = if negb (String.eqb (cfg oldConfig key) (cfg newConfig key))
                      then (if negb (StringInSlice key c) then c ++ [key] else c,
                            if negb (HasPrefix key "user.") then false else u)
                      else (c, u)) by reflexivity.
    rewrite Hstep. clear Hstep.
    destruct (String.eqb_spec (cfg oldConfig key) (cfg newConfig key)) as [Heq|Hne];
      cbn [negb].
    + destruct (IH c u) as (Hin & Hnd & Hu). split; [|split].
      * intros k. rewrite Hin. cbn [In]. split; [tauto|].
        intros [H|[[<-|H] Hd]]; [tauto|contradiction|tauto].
      * exact Hnd.
      * rewrite Hu. cbn [In]. split; intros [Hu' Hall]; (split; [exact Hu'|]).
        -- intros k [<-|Hk] Hd; [contradiction|now apply Hall].
        -- intros k Hk. apply Hall. now right.
    + set (c' := if negb (StringInSlice key c) then c ++ [key] else c).
      set (u' := if negb (HasPrefix key "user.") then false else u).
      destruct (IH c' u') as (Hin & Hnd & Hu).
      assert (Hc' : forall k, In k c' <-> In k c \/ k = key).
      { intros k. unfold c'. destruct (StringInSlice key c) eqn:Hs; cbn [negb].
        - apply StringInSlice_spec in Hs. split; [tauto|]. now intros [H| ->].
        - rewrite in_app_iff. cbn [In]. split; intros [H|H]; auto.
          destruct H as [->|[]]. now right. }
      split; [|split].
      * intros k. rewrite Hin, Hc'. cbn [In]. split.
        -- intros [[H| ->]|[H Hd]]; auto.
        -- intros [H|[[<-|H] Hd]]; auto.
      * intros Hc. apply Hnd. unfold c'.
        destruct (StringInSlice key c) eqn:Hs; cbn [negb]; [exact Hc|].
        apply NoDup_app. split; [exact Hc|]. split; [|apply NoDup_singleton].
        intros x Hx Hk. apply list_elem_of_singleton in Hk. subst x.
        apply list_elem_of_In, StringInSlice_spec in Hx. congruence.
      * rewrite Hu. unfold u'. cbn [In].
        destruct (HasPrefix key "user.") eqn:Hp; cbn [negb].
        -- split; intros [Hu' Hall]; (split; [exact Hu'|]).
           ++ intros k [<-|Hk] Hd; [exact Hp|now apply Hall].
           ++ intros k Hk. apply Hall. now right.
        -- split; [intros [H _]; discriminate|].
           intros [_ Hall]. specialize (Hall key (or_introl eq_refl) Hne). congruence.
Qed.

Lemma In_keys (f : list string -> list string) (m : gmap string string) (k : string) :
  range_order f -> In k (f (map fst (map_to_list m))) <-> is_Some (m !! k).
Proof.
  intros Hf. rewrite <- list_elem_of_In, (Hf _).
  change (map fst (map_to_list m)) with ((map_to_list m).*1).
  rewrite list_elem_of_fmap. split.
  - intros ([k' v] & -> & Hin). apply elem_of_map_to_list in Hin. eauto.
  - intros [v Hv]. exists (k, v). split; [reflexivity|].
    now apply elem_of_map_to_list.
Qed.

Lemma differ_in_a_map (oldConfig newConfig : gmap string string) (k : string) :
  cfg oldConfig k <> cfg newConfig k ->
  is_Some (oldConfig !! k) \/ is_Some (newConfig !! k).
Proof.
  unfold cfg. destruct (oldConfig !! k), (newConfig !! k); cbn; eauto.
  intros H. now destruct H.
Qed.

(** What [storageConfigDiff] returns.  The changed keys are, each once,
    the keys on which the two configs differ, a key that is missing
    counting as one with the empty value; and the second result is true
    exactly when there is such a key and all of them start with
    [user.]. *)
Theorem storageConfigDiff_changed_keys (oldConfig newConfig : gmap string string) :
  NoDup (fst (storageConfigDiff StringInSlice rangeOld rangeNew oldConfig newConfig))
  /\ (forall k,
        In k (fst (storageConfigDiff StringInSlice rangeOld rangeNew oldConfig newConfig))
        <-> cfg oldConfig k <> cfg newConfig k)
  /\ (snd (storageConfigDiff StringInSlice rangeOld rangeNew oldConfig newConfig) = true
      <-> (exists k, cfg oldConfig k <> cfg newConfig k)
          /\ forall k, cfg oldConfig k <> cfg newConfig k -> HasPrefix k "user." = true).
Proof.
  unfold storageConfigDiff.
  set (ko := rangeOld (map fst (map_to_list oldConfig))).
  set (kn := rangeNew (map fst (map_to_list newConfig))).
  destruct (fold_left (diffTurn StringInSlice oldConfig newConfig) ko ([], true))
    as [c1 u1] eqn:H1.
  destruct (fold_diffTurn oldConfig newConfig ko [] true) as (Hin1 & Hnd1 & Hu1).
  rewrite H1 in Hin1, Hnd1, Hu1. cbn [fst snd] in Hin1, Hnd1, Hu1.
  destruct (fold_diffTurn oldConfig newConfig kn c1 u1) as (Hin2 & Hnd2 & Hu2).
  destruct (fold_left (diffTurn StringInSlice oldConfig newConfig) kn (c1, u1))
    as [c2 u2] eqn:H2.
  cbn [fst snd] in Hin2, Hnd2, Hu2 |- *.
  assert (Hin : forall k, In k c2 <-> cfg oldConfig k <> cfg newConfig k).
  { intros k. rewrite Hin2, Hin1. cbn [In]. split; [tauto|]. intros Hd.
    destruct (differ_in_a_map _ _ k Hd) as [Ho|Hn].
    - left. right. split; [|exact Hd]. now apply In_keys.
    - right. split; [|exact Hd]. now apply In_keys. }
  assert (Hu : u2 = true <-> forall k, cfg oldConfig k <> cfg newConfig k ->
                                       HasPrefix k "user." = true).
  { rewrite Hu2, Hu1. split.
    - intros [[_ Ho] Hn] k Hd. destruct (differ_in_a_map _ _ k Hd) as [H|H].
      + apply Ho; [|exact Hd]. now apply In_keys.
      + apply Hn; [|exact Hd]. now apply In_keys.
    - intros H. split; [split; [reflexivity|]|]; intros k _; apply H. }
  destruct c2 as [|x c2]; cbn [length Nat.eqb fst snd].
  - split; [constructor|]. split; [exact Hin|].
    split; [discriminate|]. intros [[k Hk] _]. now apply Hin in Hk.
  - split; [apply Hnd2, Hnd1; constructor|]. split; [exact Hin|].
    rewrite Hu. split; [|tauto]. intros H. split; [|exact H].
    exists x. apply Hin. now left.
Qed.

End ConfigDiffFacts.

Section ConfigDiffWitness.
Import Go StorageUtils.

(** [shared.StringInSlice], as its name says. *)
Definition StringInSlice_scan (key : string) (list : list string) : bool :=
  existsb (String.eqb key) list.

Lemma StringInSlice_scan_spec (k : string) (l : list string) :
  StringInSlice_scan k l = true <-> In k l.
Proof.
  unfold StringInSlice_scan. rewrite existsb_exists. split.
  - intros (x & Hx & Heq). apply String.eqb_eq in Heq. now subst.
  - intros H. exists k. split; [exact H|apply String.eqb_refl].
Qed.

Lemma storageConfigDiff_changed_keys_witness :
  NoDup (fst (storageConfigDiff StringInSlice_scan asListed asListed
                {[ "size" := "10GB"; "user.note" := "" ]}
                {[ "size" := "20GB" ]}))
  /\ (snd (storageConfigDiff StringInSlice_scan asListed asListed
             {[ "size" := "10GB"; "user.note" := "" ]}
             {[ "size" := "20GB" ]}) = true
      <-> (exists k, cfg {[ "size" := "10GB"; "user.note" := "" ]} k
                     <> cfg {[ "size" := "20GB" ]} k)
          /\ forall k, cfg {[ "size" := "10GB"; "user.note" := "" ]} k
                       <> cfg {[ "size" := "20GB" ]} k ->
                       HasPrefix k "user." = true).
Proof.
  refine (let H := storageConfigDiff_changed_keys StringInSlice_scan asListed asListed
                     StringInSlice_scan_spec asListed_range_order asListed_range_order
                     {[ "size" := "10GB"; "user.note" := "" ]}
                     {[ "size" := "20GB" ]} in
          conj (proj1 H) (proj2 (proj2 H))).
Defined.

End ConfigDiffWitness.

Section PoolFacts.
Import Go StorageUtils.

(** The pool called [pool] in the database loads, has the driver, and
    has the name on disk as the value of the property. *)
Definition usesPool (db : poolsDb) (onDiskPoolName driver onDiskProperty pool : string)
    (pl : StoragePool) : Prop :=
  StoragePoolGet db pool = Ok pl
  /\ Driver pl = driver
  /\ cfg (Config pl) onDiskProperty = onDiskPoolName.

Lemma findPool_spec (db : poolsDb) (onDiskPoolName driver onDiskProperty : string)
    (pools : list string) :
  (exists pre pool post pl,
      pools = pre ++ pool :: post
      /\ usesPool db onDiskPoolName driver onDiskProperty pool pl
      /\ (forall q pl', In q pre ->
                        ~ usesPool db onDiskPoolName driver onDiskProperty q pl')
      /\ findPool db pools onDiskPoolName driver onDiskProperty = (true, Name pl))
  \/ ((forall q pl', In q pools ->
                     ~ usesPool db onDiskPoolName driver onDiskProperty q pl')
      /\ findPool db pools onDiskPoolName driver onDiskProperty = (false, "")).
Proof.
  induction pools as [|pool pools IH]; cbn [findPool].
  - right. split; [intros q pl' []|reflexivity].
  - assert (Hskip : (forall pl', ~ usesPool db onDiskPoolName driver onDiskProperty pool pl') ->
              (exists pre pool' post pl,
                  pool :: pools = pre ++ pool' :: post
                  /\ usesPool db onDiskPoolName driver onDiskProperty pool' pl
                  /\ (forall q pl', In q pre ->
                        ~ usesPool db onDiskPoolName driver onDiskProperty q pl')
                  /\ findPool db pools onDiskPoolName driver onDiskProperty
                     = (true, Name pl))
              \/ ((forall q pl', In q (pool :: pools) ->
                        ~ usesPool db onDiskPoolName driver onDiskProperty q pl')
                  /\ findPool db pools onDiskPoolName driver onDiskProperty = (false, ""))).
    { intros Hno. destruct IH as [(pre & pool' & post & pl & -> & Huses & Hpre & Hres)
                                 |[Hnone Hres]].
      - left. exists (pool :: pre), pool', post, pl.
        split; [reflexivity|]. split; [exact Huses|]. split; [|exact Hres].
        intros q pl' [<-|Hq]; [apply Hno|now apply Hpre].
      - right. split; [|exact Hres].
        intros q pl' [<-|Hq]; [apply Hno|now apply Hnone]. }
    destruct (StoragePoolGet db pool) as [pl|err] eqn:Hget.
    + destruct (String.eqb_spec (Driver pl) driver) as [Hd|Hd]; cbn [negb].
      * destruct (String.eqb_spec (cfg (Config pl) onDiskProperty) onDiskPoolName)
          as [Hc|Hc].
        -- left. exists [], pool, pools, pl. split; [reflexivity|].
           split; [now split|]. split; [intros q pl' []|reflexivity].
        -- apply Hskip. intros pl' (Hget' & _ & Hc'). congruence.
      * apply Hskip. intros pl' (Hget' & Hd' & _). congruence.
    + apply Hskip. intros pl' (Hget' & _). congruence.
Qed.

(** What [lxdUsesPool] answers.  An error of the list of pools other
    than [db.ErrNoSuchObject] is returned as it is.  Otherwise there is no
    error, and the answer is the name of the first listed pool that loads,
    has the driver and has the name on disk as its property; when it is
    "not used", no listed pool is such a pool.  A pool that does not load
    is passed over. *)
Theorem lxdUsesPool_answer (db : poolsDb) (onDiskPoolName driver onDiskProperty : string) :
  (exists err, snd (StoragePools db) = Some (OtherError err)
               /\ lxdUsesPool db onDiskPoolName driver onDiskProperty
                  = (false, "", Some err))
  \/ (snd (StoragePools db) = None \/ snd (StoragePools db) = Some ErrNoSuchObject)
     /\ ((exists pre pool post pl,
             fst (StoragePools db) = pre ++ pool :: post
             /\ usesPool db onDiskPoolName driver onDiskProperty pool pl
             /\ (forall q pl', In q pre ->
                               ~ usesPool db onDiskPoolName driver onDiskProperty q pl')
             /\ lxdUsesPool db onDiskPoolName driver onDiskProperty
                = (true, Name pl, None))
         \/ ((forall q pl', In q (fst (StoragePools db)) ->
                            ~ usesPool db onDiskPoolName driver onDiskProperty q pl')
             /\ lxdUsesPool db onDiskPoolName driver onDiskProperty = (false, "", None))).
Proof.
  unfold lxdUsesPool.
  destruct (StoragePools db) as [pools [[|err]|]]; cbn [fst snd].
  2: { left. now exists err. }
  all: right; split; [auto|];
    destruct (findPool_spec db onDiskPoolName driver onDiskProperty pools)
      as [(pre & pool & post & pl & Hp & Hu & Hpre & ->)|[Hnone ->]];
    [left; now exists pre, pool, post, pl | right; now split].
Qed.

End PoolFacts.

Section ShrinkFacts.
Import Go StorageUtils.

Variable storagePoolVolumeTypeContainer : Z.
Variable storagePoolVolumeTypeCustom : Z.

(** The step is a command. *)
Definition isCommand (s : step) : bool :=
  match s with TryRunCommand _ => true | _ => false end.

(** The file system type is one [shrinkFileSystem] handles. *)
Definition shrinkable (fsType : string) : bool :=
  (String.eqb fsType "" || String.eqb fsType "ext4" || String.eqb fsType "btrfs")%bool.

Lemma shrinkFileSystem_commands (w : shrinkWorld) (fsType devPath mntpoint : string)
    (byteSize : Z) :
  forallb isCommand (fst (shrinkFileSystem w fsType devPath mntpoint byteSize)) = true.
Proof.
  unfold shrinkFileSystem.
  destruct (String.eqb fsType "" || String.eqb fsType "ext4")%bool.
  - destruct (snd (TryRunCommand_result w _)); [reflexivity|].
    destruct (snd (TryRunCommand_result w _)); reflexivity.
  - destruct (String.eqb fsType "btrfs"); [|reflexivity].
    destruct (snd (TryRunCommand_result w _)); reflexivity.
Qed.

(** [shrinkVolumeFilesystem] runs no command on a volume it has not
    unmounted.  Whenever a command is among its steps, the first step is
    the stop of the container's storage, for a container volume, or the
    unmount of the volume, for a custom one, that step returned no error,
    and all the steps after it are commands. *)
Theorem shrinkVolumeFilesystem_unmounts_first (w : shrinkWorld) (volumeType : Z)
    (fsType devPath mntpoint : string) (byteSize : Z)
    (steps : list step) (cleanup : option cleanupFunc) (err : option error) :
  shrinkVolumeFilesystem storagePoolVolumeTypeContainer storagePoolVolumeTypeCustom
    w volumeType fsType devPath mntpoint byteSize = (steps, cleanup, err) ->
  existsb isCommand steps = true ->
  exists commands,
    forallb isCommand commands = true
    /\ ((volumeType = storagePoolVolumeTypeContainer
         /\ snd (StorageStop_result w) = None
         /\ steps = StorageStop :: commands)
        \/ (volumeType <> storagePoolVolumeTypeContainer
            /\ volumeType = storagePoolVolumeTypeCustom
            /\ snd (StoragePoolVolumeUmount_result w) = None
            /\ steps = StoragePoolVolumeUmount :: commands)).
Proof.
  unfold shrinkVolumeFilesystem.
  destruct (String.eqb fsType "xfs"); [intros [= <- _ _]; discriminate|].
  destruct (String.eqb fsType "btrfs" || String.eqb fsType "" || String.eqb fsType "ext4")%bool;
    [|intros [= <- _ _]; discriminate].
  pose proof (shrinkFileSystem_commands w fsType devPath mntpoint byteSize) as Hcmd.
  destruct (shrinkFileSystem w fsType devPath mntpoint byteSize) as [commands e].
  cbn [fst] in Hcmd.
  destruct (Z.eqb_spec volumeType storagePoolVolumeTypeContainer) as [Hc|Hc].
  - destruct (StorageStop_result w) as [ourMount [e'|]];
      [intros [= <- _ _]; discriminate|].
    intros [= <- _ _] _. exists commands. split; [exact Hcmd|]. left. auto.
  - destruct (Z.eqb_spec volumeType storagePoolVolumeTypeCustom) as [Hu|Hu];
      [|intros [= <- _ _]; discriminate].
    destruct (StoragePoolVolumeUmount_result w) as [ourMount [e'|]];
      [intros [= <- _ _]; discriminate|].
    intros [= <- _ _] _. exists commands. split; [exact Hcmd|]. right. auto.
Qed.

Ltac settle_cleanup :=
  split; (split; [intros H; repeat split; congruence
                 |intros H; decompose [and] H; congruence]).

(** The clean-up function [shrinkVolumeFilesystem] hands back does not
    depend on how the shrinking went.  It is [StorageStart] exactly when
    the file system type is one of the three handled, the volume is a
    container's and [StorageStop] returned false without an error; it is
    [StoragePoolVolumeMount] exactly when the type is handled, the volume
    is a custom one and [StoragePoolVolumeUmount] returned false without
    an error.  So it is handed back also with the error of a failed
    command. *)
Theorem shrinkVolumeFilesystem_cleanup (w : shrinkWorld) (volumeType : Z)
    (fsType devPath mntpoint : string) (byteSize : Z)
    (steps : list step) (cleanup : option cleanupFunc) (err : option error) :
  shrinkVolumeFilesystem storagePoolVolumeTypeContainer storagePoolVolumeTypeCustom
    w volumeType fsType devPath mntpoint byteSize = (steps, cleanup, err) ->
  (cleanup = Some StorageStart
   <-> shrinkable fsType = true
       /\ volumeType = storagePoolVolumeTypeContainer
       /\ StorageStop_result w = (false, None))
  /\ (cleanup = Some StoragePoolVolumeMount
      <-> shrinkable fsType = true
          /\ volumeType <> storagePoolVolumeTypeContainer
          /\ volumeType = storagePoolVolumeTypeCustom
          /\ StoragePoolVolumeUmount_result w = (false, None)).
Proof.
  unfold shrinkVolumeFilesystem, shrinkable.
  destruct (String.eqb_spec fsType "xfs") as [->|Hxfs].
  { intros [= _ <- _].
    split; (split; [discriminate|intros [H _]; vm_compute in H; discriminate H]). }
  replace (String.eqb fsType "btrfs" || String.eqb fsType "" || String.eqb fsType "ext4")%bool
    with (String.eqb fsType "" || String.eqb fsType "ext4" || String.eqb fsType "btrfs")%bool
    by (destruct (String.eqb fsType ""), (String.eqb fsType "ext4"),
                 (String.eqb fsType "btrfs"); reflexivity).
  destruct (String.eqb fsType "" || String.eqb fsType "ext4" || String.eqb fsType "btrfs")%bool;
    [|intros [= _ <- _]; settle_cleanup].
  destruct (shrinkFileSystem w fsType devPath mntpoint byteSize) as [commands e].
  destruct (Z.eqb_spec volumeType storagePoolVolumeTypeContainer) as [Hc|Hc].
  - destruct (StorageStop_result w) as [[|] [e'|]]; cbn [negb]; intros [= _ <- _];
      settle_cleanup.
  - destruct (Z.eqb_spec volumeType storagePoolVolumeTypeCustom) as [Hu|Hu].
    + destruct (StoragePoolVolumeUmount_result w) as [[|] [e'|]]; cbn [negb];
        intros [= _ <- _]; settle_cleanup.
    + intros [= _ <- _]. settle_cleanup.
Qed.

(** [shrinkFileSystem] resizes an ext4 file system only after checking
    it.  Whenever [resize2fs] is among the commands, [e2fsck -f -y] was
    run on the device before it and returned no error, the device resized
    is the one checked, and the size is the byte size divided by 1024,
    rounded toward zero, with the unit K. *)
Theorem shrinkFileSystem_checks_before_resize (w : shrinkWorld)
    (fsType devPath mntpoint : string) (byteSize : Z) (args : list string) :
  In (TryRunCommand ("resize2fs" :: args))
     (fst (shrinkFileSystem w fsType devPath mntpoint byteSize)) ->
  snd (TryRunCommand_result w ["e2fsck"; "-f"; "-y"; devPath]) = None
  /\ args = [devPath; itoa (Z.quot byteSize 1024) +:+ "K"]
  /\ fst (shrinkFileSystem w fsType devPath mntpoint byteSize)
     = [TryRunCommand ["e2fsck"; "-f"; "-y"; devPath];
        TryRunCommand ("resize2fs" :: args)]
  /\ snd (shrinkFileSystem w fsType devPath mntpoint byteSize)
     = snd (TryRunCommand_result w ("resize2fs" :: args)).
Proof.
  unfold shrinkFileSystem.
  destruct (String.eqb fsType "" || String.eqb fsType "ext4")%bool.
  - destruct (snd (TryRunCommand_result w ["e2fsck"; "-f"; "-y"; devPath])) as [e|].
    + intros [H|[]]. discriminate H.
    + destruct (snd (TryRunCommand_result w
                       ["resize2fs"; devPath; itoa (Z.quot byteSize 1024) +:+ "K"]))
        as [e|] eqn:Hres; cbn [fst snd]; (intros [H|[H|[]]]; [discriminate H|]);
        injection H as <-; rewrite Hres; auto.
  - destruct (String.eqb fsType "btrfs"); [|intros []].
    destruct (snd (TryRunCommand_result w _)); (intros [H|[]]; discriminate H).
Qed.

End ShrinkFacts.

Section ShrinkWitness.
Import Go StorageUtils.

(** A host on which every step succeeds, and the mounts are not this
    call's. *)
Definition quietWorld : shrinkWorld :=
  {| StorageStop_result := (false, None);
     StoragePoolVolumeUmount_result := (false, None);
     TryRunCommand_result := fun _ => ("", None) |}.

Lemma shrinkVolumeFilesystem_unmounts_first_witness :
  exists commands,
    forallb isCommand commands = true
    /\ ((0 = 0 /\ snd (StorageStop_result quietWorld) = None
         /\ [StorageStop; TryRunCommand ["e2fsck"; "-f"; "-y"; "/dev/vg/c1"];
             TryRunCommand ["resize2fs"; "/dev/vg/c1"; "2048K"]]
            = StorageStop :: commands)
        \/ (0 <> 0 /\ 0 = 1 /\ snd (StoragePoolVolumeUmount_result quietWorld) = None
            /\ [StorageStop; TryRunCommand ["e2fsck"; "-f"; "-y"; "/dev/vg/c1"];
                TryRunCommand ["resize2fs"; "/dev/vg/c1"; "2048K"]]
               = StoragePoolVolumeUmount :: commands)).
Proof.
  exact (shrinkVolumeFilesystem_unmounts_first 0 1 quietWorld 0 "ext4" "/dev/vg/c1"
           "/mnt/c1" 2097152 _ (Some StorageStart) None eq_refl eq_refl).
Defined.

Lemma shrinkVolumeFilesystem_cleanup_witness :
  Some StorageStart = Some StorageStart
  <-> shrinkable "ext4" = true /\ 0 = 0 /\ StorageStop_result quietWorld = (false, None).
Proof.
  exact (proj1 (shrinkVolumeFilesystem_cleanup 0 1 quietWorld 0 "ext4" "/dev/vg/c1"
                  "/mnt/c1" 2097152
                  [StorageStop; TryRunCommand ["e2fsck"; "-f"; "-y"; "/dev/vg/c1"];
                   TryRunCommand ["resize2fs"; "/dev/vg/c1"; "2048K"]]
                  (Some StorageStart) None eq_refl)).
Defined.

Lemma shrinkFileSystem_checks_before_resize_witness :
  snd (TryRunCommand_result quietWorld ["e2fsck"; "-f"; "-y"; "/dev/vg/c1"]) = None
  /\ ["/dev/vg/c1"; "2048K"] = ["/dev/vg/c1"; itoa (Z.quot 2097152 1024) +:+ "K"].
Proof.
  refine (let H := shrinkFileSystem_checks_before_resize quietWorld "" "/dev/vg/c1"
                     "/mnt/c1" 2097152 ["/dev/vg/c1"; "2048K"] _ in
          conj (proj1 H) (proj1 (proj2 H))).
  right. left. reflexivity.
Defined.

End ShrinkWitness.

(** *** The [raw.lxc] helpers *)

Section RawLXCFacts.
Import Go GoText RawLXC.

Variable ToLower : string -> string.
Variable IsTrue : string -> bool.
Variable StringInSlice : string -> list string -> bool.

(** Dropping leading bytes other than [sep] does not change whether the
    text holds [sep]. *)
Lemma cut_TrimLeft (sep : ascii) (cutset s : string) :
  inCutset sep cutset = false ->
  cut sep (TrimLeft s cutset) = None <-> cut sep s = None.
Proof.
  intros Hsep. induction s as [|c s IH]; cbn [TrimLeft]; [tauto|].
  destruct (inCutset c cutset) eqn:Hc; [|tauto].
  rewrite IH. cbn [cut].
  destruct (Ascii.eqb_spec c sep) as [->|Hne]; [congruence|].
  destruct (cut sep s) as [[a b]|]; [|tauto]. split; discriminate.
Qed.

(** [lxcParseRawLXC] fails exactly on a line that is not empty, is no
    comment and holds no [=], a line of blanks and tabs included; the
    error quotes the line without its leading blanks and tabs. *)
Theorem lxcParseRawLXC_error_exactly (line : string) :
  ((exists err, lxcParseRawLXC ToLower line = Err err)
   <-> line <> ""
       /\ HasPrefix (TrimLeft line tabSpace) "#" = false
       /\ Contains "=" line = false)
  /\ (forall err, lxcParseRawLXC ToLower line = Err err ->
                  err = Errorf ("Invalid raw.lxc line: " +:+ TrimLeft line tabSpace)).
Proof.
  unfold lxcParseRawLXC, SplitN2, Contains.
  pose proof (cut_TrimLeft "=" tabSpace line eq_refl) as Hcut.
  destruct line as [|c line]; cbn [String.length Nat.eqb].
  { split; [|discriminate]. split; [intros [err H]; discriminate|now intros [H _]]. }
  destruct (HasPrefix (TrimLeft (String c line) tabSpace) "#").
  { split; [|discriminate]. split; [intros [err H]; discriminate|].
    intros (_ & H & _). discriminate. }
  destruct (cut "=" (TrimLeft (String c line) tabSpace)) as [[a b]|].
  - split; [|discriminate]. split; [intros [err H]; discriminate|].
    intros (_ & _ & H). destruct (cut "=" (String c line)); [discriminate H|].
    destruct Hcut as [_ Hcut]. specialize (Hcut eq_refl). discriminate Hcut.
  - split; [|now intros err [= <-]]. split; [|eauto].
    intros _. split; [discriminate|]. split; [reflexivity|].
    destruct Hcut as [Hcut _]. now rewrite (Hcut eq_refl).
Qed.

Lemma checkKey_None (unprivOnly : string) (atLeast_2_1_0 : bool) (key : string) :
  checkKey IsTrue StringInSlice unprivOnly atLeast_2_1_0 key = None ->
  key <> "lxc.logfile" /\ key <> "lxc.log.file"
  /\ key <> "lxc.syslog" /\ key <> "lxc.log.syslog"
  /\ key <> "lxc.ephemeral"
  /\ HasPrefix key "lxc.prlimit." = false
  /\ (IsTrue unprivOnly = true ->
      key <> "lxc.idmap" /\ key <> "lxc.id_map" /\ key <> "lxc.include")
  /\ (HasPrefix key (if atLeast_2_1_0 then "lxc.net." else "lxc.network.") = true ->
      StringInSlice (nth 3 (Split "." key) "") ["ipv4"; "ipv6"] = true
      /\ if atLeast_2_1_0
         then length (Split "." key) = 5%nat
              /\ (nth 4 (Split "." key) "" = "address"
                  \/ nth 4 (Split "." key) "" = "gateway")
         else length (Split "." key) = 4%nat
              \/ (length (Split "." key) = 5%nat
                  /\ nth 4 (Split "." key) "" = "gateway")).
Proof.
  unfold checkKey.
  destruct (IsTrue unprivOnly
            && (String.eqb key "lxc.idmap" || String.eqb key "lxc.id_map"
                || String.eqb key "lxc.include"))%bool eqn:H1; [discriminate|].
  destruct (String.eqb key "lxc.logfile" || String.eqb key "lxc.log.file")%bool eqn:H2;
    [discriminate|].
  destruct (String.eqb key "lxc.syslog" || String.eqb key "lxc.log.syslog")%bool eqn:H3;
    [discriminate|].
  destruct (String.eqb key "lxc.ephemeral") eqn:H4; [discriminate|].
  destruct (HasPrefix key "lxc.prlimit.") eqn:H5; [discriminate|].
  apply orb_false_iff in H2 as [H2 H2'], H3 as [H3 H3'].
  apply String.eqb_neq in H2, H2', H3, H3', H4.
  intros H. repeat (split; [assumption|]). split; [reflexivity|]. split.
  - intros Htrue. rewrite Htrue in H1. cbn [andb] in H1.
    apply orb_false_iff in H1 as [H1 H1'']. apply orb_false_iff in H1 as [H1 H1'].
    apply String.eqb_neq in H1, H1', H1''. auto.
  - intros Hnet. destruct atLeast_2_1_0; cbn [negb] in H; rewrite Hnet in H.
    + destruct (_ || _)%bool eqn:Hallowed in H; [|discriminate].
      apply orb_true_iff in Hallowed as [Ha|Ha];
        apply andb_true_iff in Ha as [Ha Hf4]; apply andb_true_iff in Ha as [Hlen Hip];
        apply Nat.eqb_eq in Hlen; apply String.eqb_eq in Hf4; auto.
    + destruct (_ || _)%bool eqn:Hallowed in H; [|discriminate].
      apply orb_true_iff in Hallowed as [Ha|Ha].
      * apply andb_true_iff in Ha as [Hlen Hip]. apply Nat.eqb_eq in Hlen. auto.
      * apply andb_true_iff in Ha as [Ha Hf4]. apply andb_true_iff in Ha as [Hlen Hip].
        apply Nat.eqb_eq in Hlen. apply String.eqb_eq in Hf4. auto.
Qed.

Lemma checkLines_None (unprivOnly : string) (atLeast_2_1_0 : bool) (lines : list string) :
  checkLines ToLower IsTrue StringInSlice unprivOnly atLeast_2_1_0 lines = None ->
  forall line, In line lines ->
    exists key val,
      lxcParseRawLXC ToLower line = Ok (key, val)
      /\ (key = "" \/ checkKey IsTrue StringInSlice unprivOnly atLeast_2_1_0 key = None).
Proof.
  induction lines as [|l lines IH]; cbn [checkLines]; [intros _ line []|].
  destruct (lxcParseRawLXC ToLower l) as [[key val]|err] eqn:Hparse; [|discriminate].
  destruct (String.eqb_spec key "") as [Hk|Hk].
  - intros H line [<-|Hin]; [|now apply IH]. exists key, val. auto.
  - destruct (checkKey IsTrue StringInSlice unprivOnly atLeast_2_1_0 key) eqn:Hcheck;
      [discriminate|].
    intros H line [<-|Hin]; [|now apply IH]. exists key, val. auto.
Qed.

(** What a [raw.lxc] that [lxcValidConfig] accepts cannot hold.  Every
    line of it parses, and the key read from the line, lower-cased, is
    none of the log file, syslog and ephemeral keys and no process limit;
    with [LXD_UNPRIVILEGED_ONLY] set it is no idmap and no include key;
    and a key under the network prefix of the running liblxc has an
    [ipv4] or [ipv6] field in fourth place and names an address or a
    gateway. *)
Theorem lxcValidConfig_accepted (unprivOnly : string) (atLeast_2_1_0 : bool)
    (rawLxc line : string) :
  lxcValidConfig ToLower IsTrue StringInSlice unprivOnly atLeast_2_1_0 rawLxc = None ->
  In line (Split (ascii_of_nat 10) rawLxc) ->
  exists key val,
    lxcParseRawLXC ToLower line = Ok (key, val)
    /\ key <> "lxc.logfile" /\ key <> "lxc.log.file"
    /\ key <> "lxc.syslog" /\ key <> "lxc.log.syslog"
    /\ key <> "lxc.ephemeral"
    /\ HasPrefix key "lxc.prlimit." = false
    /\ (IsTrue unprivOnly = true ->
        key <> "lxc.idmap" /\ key <> "lxc.id_map" /\ key <> "lxc.include")
    /\ (HasPrefix key (if atLeast_2_1_0 then "lxc.net." else "lxc.network.") = true ->
        StringInSlice (nth 3 (Split "." key) "") ["ipv4"; "ipv6"] = true
        /\ if atLeast_2_1_0
           then length (Split "." key) = 5%nat
                /\ (nth 4 (Split "." key) "" = "address"
                    \/ nth 4 (Split "." key) "" = "gateway")
           else length (Split "." key) = 4%nat
                \/ (length (Split "." key) = 5%nat
                    /\ nth 4 (Split "." key) "" = "gateway")).
Proof.
  intros Hvalid Hin.
  destruct (checkLines_None _ _ _ Hvalid line Hin) as (key & val & Hparse & [->|Hcheck]).
  - exists "", val. split; [exact Hparse|].
    repeat (split; [discriminate|]). split; [reflexivity|].
    split; [intros _; repeat split; discriminate|].
    destruct atLeast_2_1_0; discriminate.
  - exists key, val. split; [exact Hparse|]. now apply checkKey_None.
Qed.

End RawLXCFacts.

Section SetConfigItemFacts.
Import Go GoText RawLXC.

Lemma legacyKey_old (key : string) :
  ~ In (legacyKey key) (map fst legacyKeys)
  /\ (legacyKey key = key \/ In (key, legacyKey key) legacyKeys).
Proof.
  unfold legacyKey.
  destruct (find (fun entry => String.eqb key (fst entry)) legacyKeys)
    as [[new old]|] eqn:Hfind.
  - apply find_some in Hfind as [Hin Heq]. cbn [fst] in Heq.
    apply String.eqb_eq in Heq. subst new. split; [|now right].
    assert (Hall : forallb (fun entry =>
                              negb (existsb (String.eqb (snd entry)) (map fst legacyKeys)))
                           legacyKeys = true) by (vm_compute; reflexivity).
    rewrite forallb_forall in Hall. specialize (Hall _ Hin). cbn [snd] in Hall.
    intros Hold. apply negb_true_iff in Hall.
    assert (Hex : existsb (String.eqb old) (map fst legacyKeys) = true).
    { apply existsb_exists. exists old. split; [exact Hold|apply String.eqb_refl]. }
    congruence.
  - split; [|now left]. intros Hin. apply in_map_iff in Hin as ([new old] & <- & Hin).
    pose proof (find_none _ _ Hfind _ Hin) as Hne. cbn [fst] in Hne.
    now rewrite String.eqb_refl in Hne.
Qed.

(** With a liblxc older than 2.1, [lxcSetConfigItem] never hands the
    library a key of the newer naming it translates, and never a process
    limit: the key of a call it makes is the old name of the given key, or
    the given key when that has no old name, and the value is the given
    one. *)
Theorem lxcSetConfigItem_old_liblxc (initialized : bool)
    (SetConfigItem : string -> string -> option error) (key value : string)
    (calls : list (string * string)) (err : option error) (k v : string) :
  lxcSetConfigItem initialized false SetConfigItem key value = (calls, err) ->
  In (k, v) calls ->
  calls = [(k, v)] /\ v = value
  /\ ~ In k (map fst legacyKeys)
  /\ HasPrefix k "lxc.prlimit." = false
  /\ (k = key \/ In (key, k) legacyKeys).
Proof.
  unfold lxcSetConfigItem. destruct initialized; cbn [negb]; [|now intros [= <- _] []].
  destruct (legacyKey_old key) as [Hold Hname].
  destruct (HasPrefix (legacyKey key) "lxc.prlimit.") eqn:Hpr; cbn [andb];
    [now intros [= <- _] []|].
  destruct (SetConfigItem (legacyKey key) value); intros [= <- _] [[= <- <-]|[]];
    repeat split; auto.
Qed.

End SetConfigItemFacts.

Section RawLXCWitness.
Import Go GoText RawLXC.

Definition newline : string := String (ascii_of_nat 10) EmptyString.

Lemma lxcValidConfig_accepted_witness :
  exists key val,
    lxcParseRawLXC ToLower "  LXC.Net.0.IPv4.Address = 10.0.0.2/24 " = Ok (key, val)
    /\ key <> "lxc.logfile".
Proof.
  destruct (lxcValidConfig_accepted ToLower IsTrue_lower StringInSlice_scan "true" true
              ("# the address" +:+ newline
               +:+ "  LXC.Net.0.IPv4.Address = 10.0.0.2/24 " +:+ newline
               +:+ "lxc.cgroup.cpu.shares=10")
              "  LXC.Net.0.IPv4.Address = 10.0.0.2/24 ")
    as (key & val & Hparse & Hkey & _).
  - vm_compute. reflexivity.
  - vm_compute. right. left. reflexivity.
  - exists key, val. split; [exact Hparse|exact Hkey].
Defined.

Lemma lxcSetConfigItem_old_liblxc_witness :
  [("lxc.utsname", "c1")] = [("lxc.utsname", "c1")] /\ "c1" = "c1"
  /\ ~ In "lxc.utsname" (map fst legacyKeys)
  /\ HasPrefix "lxc.utsname" "lxc.prlimit." = false
  /\ ("lxc.utsname" = "lxc.uts.name" \/ In ("lxc.uts.name", "lxc.utsname") legacyKeys).
Proof.
  refine (lxcSetConfigItem_old_liblxc true (fun _ _ => None) "lxc.uts.name" "c1"
            [("lxc.utsname", "c1")] None "lxc.utsname" "c1" eq_refl _).
  left. reflexivity.
Defined.

End RawLXCWitness.

(** *** The volatile keys of a device *)

Section DeviceVolatileFacts.
Import Go GoText ConfigKeys DeviceVolatile.

Variable rangeLocalConfig : list (string * string) -> list (string * string).
Variable rangeSave : list (string * string) -> list (string * string).
Variable rangeChanges : list (string * string) -> list (string * string).

Hypothesis rangeLocalConfig_order : range_order rangeLocalConfig.
Hypothesis rangeSave_order : range_order rangeSave.
Hypothesis rangeChanges_order : range_order rangeChanges.

Lemma append_assoc (a b c : string) : (a +:+ b) +:+ c = a +:+ (b +:+ c).
Proof. induction a as [|x a IH]; [reflexivity|]. now rewrite !append_cons, IH. Qed.

Lemma append_inj (p s t : string) : p +:+ s = p +:+ t -> s = t.
Proof.
  induction p as [|x p IH]; [now rewrite !append_nil_l|].
  rewrite !append_cons. intros [= H]. now apply IH.
Qed.

Lemma HasPrefix_append (p s : string) : HasPrefix (p +:+ s) p = true.
Proof.
  unfold HasPrefix. induction p as [|x p IH].
  - rewrite append_nil_l. now destruct s.
  - rewrite append_cons. cbn [String.prefix]. now destruct (ascii_dec x x).
Qed.

Lemma HasPrefix_split (k p : string) :
  HasPrefix k p = true -> exists s, k = p +:+ s.
Proof.
  unfold HasPrefix. revert k. induction p as [|x p IH]; intros k.
  - intros _. now exists k.
  - destruct k as [|y k]; cbn [String.prefix]; [discriminate|].
    destruct (ascii_dec x y) as [->|]; [|discriminate].
    intros H. destruct (IH k H) as [s ->]. exists s. now rewrite append_cons.
Qed.

Lemma HasPrefix_trans (k p q : string) :
  HasPrefix p q = true -> HasPrefix k p = true -> HasPrefix k q = true.
Proof.
  intros Hq Hp. apply HasPrefix_split in Hq as [s ->], Hp as [t ->].
  rewrite append_assoc. apply HasPrefix_append.
Qed.

Lemma substring_all (s : string) : substring 0 (String.length s) s = s.
Proof. induction s as [|c s IH]; [reflexivity|]. cbn. now rewrite IH. Qed.

Lemma TrimPrefix_append (p s : string) : TrimPrefix (p +:+ s) p = s.
Proof.
  unfold TrimPrefix. rewrite HasPrefix_append.
  induction p as [|x p IH].
  - rewrite append_nil_l. cbn [String.length]. rewrite Nat.sub_0_r. apply substring_all.
  - rewrite append_cons. cbn [String.length substring]. exact IH.
Qed.

(** What the loop of the get function collects from entries with
    distinct keys. *)
Lemma fold_get_lookup (prefix : string) (l : list (string * string)) :
  forall (acc : gmap string string) (s : string),
    NoDup l.*1 ->
    fold_left
      (fun (volatile : gmap string string) '(k, v) =>
         if HasPrefix k prefix then <[TrimPrefix k prefix := v]> volatile else volatile)
      l acc !! s
    = match (list_to_map l : gmap string string) !! (prefix +:+ s) with
      | Some v => Some v
      | None => acc !! s
      end.
Proof.
  induction l as [|[k v] l IH]; intros acc s Hnd; [reflexivity|].
  cbn [fmap list_fmap fst] in Hnd. apply NoDup_cons in Hnd as [Hk Hnd].
  cbn [fold_left list_to_map foldr]. rewrite IH by exact Hnd.
  change (foldr (fun p => <[p.1:=p.2]>) ∅ l) with (list_to_map l : gmap string string).
  cbn [fst snd].
  assert (Hnone : (list_to_map l : gmap string string) !! k = None)
    by now apply not_elem_of_list_to_map_1.
  destruct (String.eqb_spec k (prefix +:+ s)) as [->|Hne].
  - rewrite Hnone, lookup_insert_eq, HasPrefix_append, TrimPrefix_append.
    now rewrite lookup_insert_eq.
  - rewrite lookup_insert_ne by exact Hne.
    destruct ((list_to_map l : gmap string string) !! (prefix +:+ s)); [reflexivity|].
    destruct (HasPrefix k prefix) eqn:Hp; [|reflexivity].
    apply HasPrefix_split in Hp as [t ->]. rewrite TrimPrefix_append.
    apply lookup_insert_ne. intros ->. now destruct Hne.
Qed.

Lemma list_to_map_range (f : list (string * string) -> list (string * string))
    (m : gmap string string) :
  range_order f ->
  NoDup (f (map_to_list m)).*1 /\ list_to_map (f (map_to_list m)) = m.
Proof.
  intros Hf. pose proof (NoDup_fst_map_to_list m) as Hnd.
  assert (Hnd' : NoDup (f (map_to_list m)).*1) by now rewrite (Hf _).
  split; [exact Hnd'|].
  rewrite (list_to_map_proper _ _ Hnd' (Hf _)). apply list_to_map_to_list.
Qed.

(** The get function returns the local config under the device's prefix,
    with the prefix taken off. *)
Lemma deviceVolatileGetFunc_lookup (c : configs) (devName s : string) :
  deviceVolatileGetFunc rangeLocalConfig c devName !! s
  = localConfig c !! ("volatile." +:+ devName +:+ "." +:+ s).
Proof.
  unfold deviceVolatileGetFunc.
  destruct (list_to_map_range rangeLocalConfig (localConfig c) rangeLocalConfig_order)
    as [Hnd Hmap].
  rewrite fold_get_lookup by exact Hnd. rewrite Hmap, lookup_empty.
  rewrite <- !append_assoc.
  now destruct (localConfig c !! _).
Qed.

(** What the loop of the set function builds from entries with distinct
    keys. *)
Lemma fold_set_lookup (prefix : string) (l : list (string * string)) :
  forall (acc : gmap string string),
    NoDup l.*1 ->
    (forall s, fold_left
                 (fun (volatileSave : gmap string string) '(k, v) =>
                    <[prefix +:+ k := v]> volatileSave) l acc !! (prefix +:+ s)
               = match (list_to_map l : gmap string string) !! s with
                 | Some v => Some v
                 | None => acc !! (prefix +:+ s)
                 end)
    /\ (forall k, HasPrefix k prefix = false ->
                  fold_left
                    (fun (volatileSave : gmap string string) '(k, v) =>
                       <[prefix +:+ k := v]> volatileSave) l acc !! k
                  = acc !! k).
Proof.
  induction l as [|[k v] l IH]; intros acc Hnd; [split; reflexivity|].
  cbn [fmap list_fmap fst] in Hnd. apply NoDup_cons in Hnd as [Hk Hnd].
  cbn [fold_left list_to_map foldr].
  change (foldr (fun p => <[p.1:=p.2]>) ∅ l) with (list_to_map l : gmap string string).
  cbn [fst snd]. destruct (IH (<[prefix +:+ k := v]> acc) Hnd) as [IHin IHout].
  assert (Hnone : (list_to_map l : gmap string string) !! k = None)
    by now apply not_elem_of_list_to_map_1.
  split.
  - intros s. rewrite IHin. destruct (String.eqb_spec k s) as [->|Hne].
    + now rewrite Hnone, !lookup_insert_eq.
    + rewrite (lookup_insert_ne _ k s) by exact Hne.
      destruct ((list_to_map l : gmap string string) !! s); [reflexivity|].
      apply lookup_insert_ne. intros H. now apply append_inj in H.
  - intros k' Hk'. rewrite IHout by exact Hk'.
    apply lookup_insert_ne. intros <-. now rewrite HasPrefix_append in Hk'.
Qed.

(** What a device saves it reads back.  The set function of a device
    never fails the check of [VolatileSet] for keys that are not
    volatile; when the database transaction succeeds, the get function of
    the same device then returns, for each key, the value saved, no entry
    for a key saved with the empty value, and what it returned before for
    a key that was not saved; and the local config outside the device's
    prefix is as it was. *)
Theorem deviceVolatile_set_then_get (c : configs) (devName : string)
    (save : gmap string string) :
  exists c' calls,
    deviceVolatileSetFunc rangeSave rangeChanges c devName save None = (c', calls, None)
    /\ (forall s,
          deviceVolatileGetFunc rangeLocalConfig c' devName !! s
          = match save !! s with
            | Some v => if String.eqb v "" then None else Some v
            | None => deviceVolatileGetFunc rangeLocalConfig c devName !! s
            end)
    /\ (forall k, HasPrefix k ("volatile." +:+ devName +:+ ".") = false ->
                  localConfig c' !! k = localConfig c !! k).
Proof.
  unfold deviceVolatileSetFunc.
  set (prefix := "volatile." +:+ devName +:+ ".").
  set (volatileSave :=
         fold_left (fun (volatileSave : gmap string string) '(k, v) =>
                      <["volatile." +:+ devName +:+ "." +:+ k := v]> volatileSave)
                   (rangeSave (map_to_list save)) ∅).
  destruct (list_to_map_range rangeSave save rangeSave_order) as [Hnd Hmap].
  assert (Hsave : (forall s, volatileSave !! (prefix +:+ s) = save !! s)
                  /\ (forall k, HasPrefix k prefix = false -> volatileSave !! k = None)).
  { assert (Hext : forall l acc,
              fold_left (fun (volatileSave : gmap string string) '(k, v) =>
                           <["volatile." +:+ devName +:+ "." +:+ k := v]> volatileSave) l acc
              = fold_left (fun (volatileSave : gmap string string) '(k, v) =>
                             <[prefix +:+ k := v]> volatileSave) l acc).
    { induction l as [|[k v] l IHl]; intros acc; [reflexivity|].
      cbn [fold_left]. rewrite IHl. unfold prefix. now rewrite !append_assoc. }
    assert (Hfold : volatileSave
                    = fold_left (fun (volatileSave : gmap string string) '(k, v) =>
                                   <[prefix +:+ k := v]> volatileSave)
                                (rangeSave (map_to_list save)) ∅) by apply Hext.
    rewrite Hfold. destruct (fold_set_lookup prefix _ ∅ Hnd) as [Hin Hout]. split.
    - intros s. rewrite Hin, Hmap, lookup_empty. now destruct (save !! s).
    - intros k Hk. now rewrite Hout, lookup_empty. }
  destruct Hsave as [Hin Hout].
  destruct (list_to_map_range rangeChanges volatileSave rangeChanges_order)
    as [Hndc Hmapc].
  assert (Hentry : forall k v, (k, v) ∈ rangeChanges (map_to_list volatileSave)
                               <-> volatileSave !! k = Some v).
  { intros k v. rewrite (rangeChanges_order _). apply elem_of_map_to_list. }
  unfold VolatileSet.
  assert (Hcheck : forallb (fun '(key, _) => HasPrefix key "volatile.")
                           (rangeChanges (map_to_list volatileSave)) = true).
  { apply forallb_forall. intros [k v] Hkv.
    apply list_elem_of_In, Hentry in Hkv.
    destruct (HasPrefix k prefix) eqn:Hp; [|rewrite Hout in Hkv by exact Hp; discriminate].
    apply (HasPrefix_trans k prefix); [|exact Hp].
    unfold prefix. apply HasPrefix_append. }
  rewrite Hcheck. cbn [negb].
  eexists _, _. split; [reflexivity|].
  assert (Hlocal : forall k,
             localConfig (fold_left applyChange (rangeChanges (map_to_list volatileSave)) c)
               !! k
             = match volatileSave !! k with
               | Some v => if String.eqb v "" then None else Some v
               | None => localConfig c !! k
               end).
  { intros k. destruct (fold_applyChange_lookup _ c k Hndc) as [Hset Hkeep].
    destruct (volatileSave !! k) as [v|] eqn:Hk.
    - apply Hentry in Hk. now destruct (Hset v Hk).
    - apply Hkeep. intros Hin'. apply list_elem_of_fmap in Hin' as ([k' v] & -> & Hkv).
      apply Hentry in Hkv. cbn [fst] in Hk. congruence. }
  split.
  - intros s. rewrite !deviceVolatileGetFunc_lookup.
    replace ("volatile." +:+ devName +:+ "." +:+ s) with (prefix +:+ s)
      by (unfold prefix; now rewrite !append_assoc).
    now rewrite Hlocal, Hin.
  - intros k Hk. now rewrite Hlocal, Hout.
Qed.

End DeviceVolatileFacts.

Section DeviceVolatileWitness.
Import Go GoText ConfigKeys DeviceVolatile.

Lemma deviceVolatile_set_then_get_witness :
  exists c' calls,
    deviceVolatileSetFunc asListed asListed
      {| localConfig := {[ "volatile.eth0.hwaddr" := "00:16:3e:00:00:01";
                           "volatile.eth0.name" := "eth0" ]};
         expandedConfig := ∅ |}
      "eth0" {[ "hwaddr" := "00:16:3e:aa:bb:cc"; "name" := "" ]} None
    = (c', calls, None)
    /\ (forall s,
          deviceVolatileGetFunc asListed c' "eth0" !! s
          = match ({[ "hwaddr" := "00:16:3e:aa:bb:cc"; "name" := "" ]}
                     : gmap string string) !! s with
            | Some v => if String.eqb v "" then None else Some v
            | None =>
                deviceVolatileGetFunc asListed
                  {| localConfig := {[ "volatile.eth0.hwaddr" := "00:16:3e:00:00:01";
                                       "volatile.eth0.name" := "eth0" ]};
                     expandedConfig := ∅ |} "eth0" !! s
            end)
    /\ (forall k, HasPrefix k ("volatile." +:+ "eth0" +:+ ".") = false ->
                  localConfig c' !! k
                  = ({[ "volatile.eth0.hwaddr" := "00:16:3e:00:00:01";
                        "volatile.eth0.name" := "eth0" ]} : gmap string string) !! k).
Proof.
  exact (deviceVolatile_set_then_get asListed asListed asListed
           asListed_range_order asListed_range_order asListed_range_order
           {| localConfig := {[ "volatile.eth0.hwaddr" := "00:16:3e:00:00:01";
                                "volatile.eth0.name" := "eth0" ]};
              expandedConfig := ∅ |}
           "eth0" {[ "hwaddr" := "00:16:3e:aa:bb:cc"; "name" := "" ]}).
Defined.

End DeviceVolatileWitness.

(** *** Lines of [raw.idmap] *)

Section RawIdmapFacts.
Import Go Idmap.

Variable AddSafe : list IdmapEntry -> IdmapEntry -> list IdmapEntry * option error.

(** A line of [raw.idmap] with two ranges: the kind, the range on the
    host and the range in the container. *)
Definition rangeLine (kind : string) (outsideBase outsideEnd insideBase insideEnd : Z)
  : string :=
  Join [kind; Join [itoa outsideBase; itoa outsideEnd] "-";
        Join [itoa insideBase; itoa insideEnd] "-"] " ".

Lemma cut_append (sep : ascii) (a b : string) :
  cut sep a = None -> cut sep b = None -> cut sep (a +:+ b) = None.
Proof.
  intros Ha Hb. induction a as [|c a IH]; [now rewrite append_nil_l|].
  rewrite append_cons. cbn [cut] in Ha |- *.
  destruct (Ascii.eqb c sep); [discriminate|].
  destruct (cut sep a) as [[x y]|]; [discriminate|]. now rewrite IH.
Qed.

Lemma cut_range (sep : ascii) (b e : Z) :
  digit_val sep = None -> Ascii.eqb "-" sep = false -> 0 <= b -> 0 <= e ->
  cut sep (Join [itoa b; itoa e] "-") = None.
Proof.
  intros Hd Hsep Hb He. unfold Join. cbn [String.concat].
  apply cut_append; [now apply itoa_cut|].
  rewrite append_cons, append_nil_l. cbn [cut]. rewrite Hsep.
  now rewrite itoa_cut.
Qed.

Lemma getRange_range (b e : Z) :
  0 <= b < 2 ^ 62 -> 0 <= e < 2 ^ 62 ->
  getRange (Join [itoa b; itoa e] "-") = Ok (b, e - b + 1).
Proof.
  intros Hb He. unfold getRange.
  rewrite (Split_Join "-" [itoa b; itoa e]);
    [|discriminate|repeat constructor; apply itoa_cut; (reflexivity || lia)].
  cbn [length Nat.ltb Nat.leb nth].
  rewrite !ParseInt_itoa by (unfold minInt64, maxInt64; lia).
  unfold add64. rewrite (wrap64_small (e - b)) by lia.
  now rewrite wrap64_small by lia.
Qed.

(** How [parseRawIdmap] reads a line with two ranges.  The ends of a
    range are both part of it: a range [b-e] has [e - b + 1] ids.  The two
    ranges must have the same number of ids; then the one entry handed to
    [AddSafe] has the first id on the host as [Hostid], the first id in
    the container as [Nsid] and that number as [Maprange].  No check keeps
    the end of a range from lying below its start, so the range of the
    entry can be zero or negative. *)
Theorem parseRawIdmap_range_line (kind : string) (uid gid : bool)
    (outsideBase outsideEnd insideBase insideEnd : Z) :
  In (kind, (uid, gid)) [("both", (true, true)); ("uid", (true, false));
                         ("gid", (false, true))] ->
  0 <= outsideBase < 2 ^ 62 -> 0 <= outsideEnd < 2 ^ 62 ->
  0 <= insideBase < 2 ^ 62 -> 0 <= insideEnd < 2 ^ 62 ->
  parseRawIdmap AddSafe (rangeLine kind outsideBase outsideEnd insideBase insideEnd)
  = if insideEnd - insideBase =? outsideEnd - outsideBase
    then match AddSafe [] {| Isuid := uid; Isgid := gid; Hostid := outsideBase;
                             Nsid := insideBase;
                             Maprange := insideEnd - insideBase + 1 |} with
         | (_, Some e) => Err e
         | (ret, None) => Ok ret
         end
    else Err (Errorf ("idmap ranges of different sizes "
                      +:+ rangeLine kind outsideBase outsideEnd insideBase insideEnd)).
Proof.
  intros Hkind Hob Hoe Hib Hie.
  set (line := rangeLine kind outsideBase outsideEnd insideBase insideEnd).
  assert (Hkind' : forall sep, Ascii.eqb "-" sep = false -> digit_val sep = None ->
                               cut sep "both" = None -> cut sep "uid" = None ->
                               cut sep "gid" = None -> cut sep kind = None).
  { intros sep _ _ H1 H2 H3.
    destruct Hkind as [[= <- _ _]|[[= <- _ _]|[[= <- _ _]|[]]]]; assumption. }
  assert (Hpieces : forall sep, Ascii.eqb "-" sep = false -> digit_val sep = None ->
                                cut sep "both" = None -> cut sep "uid" = None ->
                                cut sep "gid" = None ->
                                Forall (fun s => cut sep s = None)
                                  [kind; Join [itoa outsideBase; itoa outsideEnd] "-";
                                   Join [itoa insideBase; itoa insideEnd] "-"]).
  { intros sep Hsep Hd H1 H2 H3. repeat constructor.
    - now apply Hkind'.
    - apply cut_range; (assumption || lia).
    - apply cut_range; (assumption || lia). }
  assert (Hfields : Split " " line
                    = [kind; Join [itoa outsideBase; itoa outsideEnd] "-";
                       Join [itoa insideBase; itoa insideEnd] "-"]).
  { apply (Split_Join " "); [discriminate|]. now apply Hpieces. }
  assert (Hlines : Split LF line = [line]).
  { apply Split_no_sep. unfold line, rangeLine, Join. cbn [String.concat].
    specialize (Hpieces LF eq_refl eq_refl eq_refl eq_refl eq_refl).
    inversion Hpieces as [|? ? Hk Hrest]; subst.
    inversion Hrest as [|? ? Ho Hrest']; subst.
    inversion Hrest' as [|? ? Hi _]; subst.
    apply cut_append; [exact Hk|]. rewrite append_cons, append_nil_l.
    cbn [cut]. change (Ascii.eqb " " LF) with false. cbv iota.
    rewrite cut_append; [reflexivity|exact Ho|].
    rewrite append_cons, append_nil_l. cbn [cut]. change (Ascii.eqb " " LF) with false.
    cbv iota. now rewrite Hi. }
  assert (Hne : String.eqb line "" = false).
  { destruct line; [discriminate Hfields|reflexivity]. }
  unfold parseRawIdmap. rewrite Hlines. cbn [parseRawLines]. rewrite Hne.
  unfold parseRawLine. rewrite Hfields. cbn [length Nat.eqb negb nth].
  rewrite !getRange_range by assumption.
  replace (insideEnd - insideBase + 1 =? outsideEnd - outsideBase + 1)
    with (insideEnd - insideBase =? outsideEnd - outsideBase)
    by (destruct (Z.eqb_spec (insideEnd - insideBase) (outsideEnd - outsideBase)),
                 (Z.eqb_spec (insideEnd - insideBase + 1) (outsideEnd - outsideBase + 1));
        (reflexivity || lia)).
  destruct (insideEnd - insideBase =? outsideEnd - outsideBase); cbn [negb];
    [|reflexivity].
  destruct Hkind as [[= <- <- <-]|[[= <- <- <-]|[[= <- <- <-]|[]]]]; cbn;
    now destruct (AddSafe [] _) as [ret [e|]].
Qed.

End RawIdmapFacts.

Section RawIdmapWitness.
Import Go Idmap.

Lemma parseRawIdmap_range_line_witness :
  parseRawIdmap AddSafe_append (rangeLine "uid" 2000 1000 2000 1000)
  = Ok [ {| Isuid := true; Isgid := false; Hostid := 2000; Nsid := 2000;
            Maprange := -999 |} ].
Proof.
  refine (parseRawIdmap_range_line AddSafe_append "uid" true false 2000 1000 2000 1000
            _ _ _ _ _).
  - right. left. reflexivity.
  - lia.
  - lia.
  - lia.
  - lia.
Defined.

End RawIdmapWitness.

(** *** A new MAC address *)

Section HWAddrFacts.
Import Go HWAddr.

Lemma Sprintf_x_digit (v : Z) :
  0 <= v < 16 -> Sprintf_x v = String (hexDigit v) EmptyString.
Proof.
  intros Hv. unfold Sprintf_x. destruct (Z.ltb_spec v 0); [lia|].
  cbn [hex_go]. destruct (Z.ltb_spec v 16); [|lia]. now rewrite Z.mod_small by lia.
Qed.

(** The byte is a digit of base 16, in lower case. *)
Definition isHex (c : ascii) : bool :=
  let n := nat_of_ascii c in
  (((48 <=? n)%nat && (n <=? 57)%nat) || ((97 <=? n)%nat && (n <=? 102)%nat))%bool.

Lemma hexDigit_isHex (v : Z) : 0 <= v < 16 -> isHex (hexDigit v) = true.
Proof.
  intros Hv.
  assert (H : v = 0 \/ v = 1 \/ v = 2 \/ v = 3 \/ v = 4 \/ v = 5 \/ v = 6 \/ v = 7
              \/ v = 8 \/ v = 9 \/ v = 10 \/ v = 11 \/ v = 12 \/ v = 13 \/ v = 14
              \/ v = 15) by lia.
  repeat (destruct H as [->|H]; [reflexivity|]). now subst.
Qed.

(** The address [deviceNextInterfaceHWAddr] makes.  When the six draws
    succeed, each with a number from 0 to 15, the result is the prefix
    [00:16:3e] followed by three groups of two digits of base 16, one
    digit for each draw in the order drawn: 17 bytes in all. *)
Theorem deviceNextInterfaceHWAddr_address (rand : nat -> result Z)
    (v0 v1 v2 v3 v4 v5 : Z) :
  rand 0%nat = Ok v0 -> rand 1%nat = Ok v1 -> rand 2%nat = Ok v2 ->
  rand 3%nat = Ok v3 -> rand 4%nat = Ok v4 -> rand 5%nat = Ok v5 ->
  Forall (fun v => 0 <= v < 16) [v0; v1; v2; v3; v4; v5] ->
  deviceNextInterfaceHWAddr rand
  = Ok ("00:16:3e:" +:+ String (hexDigit v0) (String (hexDigit v1) ":")
        +:+ String (hexDigit v2) (String (hexDigit v3) ":")
        +:+ String (hexDigit v4) (String (hexDigit v5) ""))
  /\ Forall (fun v => isHex (hexDigit v) = true) [v0; v1; v2; v3; v4; v5].
Proof.
  intros H0 H1 H2 H3 H4 H5 Hall.
  inversion Hall as [|? ? Hv0 Hall0]; subst.
  inversion Hall0 as [|? ? Hv1 Hall1]; subst.
  inversion Hall1 as [|? ? Hv2 Hall2]; subst.
  inversion Hall2 as [|? ? Hv3 Hall3]; subst.
  inversion Hall3 as [|? ? Hv4 Hall4]; subst.
  inversion Hall4 as [|? ? Hv5 _]; subst.
  split; [|repeat constructor; now apply hexDigit_isHex].
  unfold deviceNextInterfaceHWAddr. cbn -[Sprintf_x hexDigit].
  rewrite H0, H1, H2, H3, H4, H5.
  rewrite !Sprintf_x_digit by assumption. reflexivity.
Qed.

(** A draw that fails ends the function with the error of the draw, and
    no address. *)
Lemma deviceNextInterfaceHWAddr_failed_draw (rand : nat -> result Z) (k : nat)
    (err : error) :
  (k < 6)%nat -> rand k = Err err ->
  (forall i, (i < k)%nat -> exists v, rand i = Ok v) ->
  deviceNextInterfaceHWAddr rand = Err err.
Proof.
  intros Hk Herr Hok. unfold deviceNextInterfaceHWAddr. cbn -[Sprintf_x hexDigit].
  assert (Hk' : (k = 0 \/ k = 1 \/ k = 2 \/ k = 3 \/ k = 4 \/ k = 5)%nat) by lia.
  destruct Hk' as [->|[->|[->|[->|[->| ->]]]]];
    repeat match goal with
           | |- context [rand ?i] =>
               first [ rewrite Herr; reflexivity
                     | let v := fresh "v" in
                       let H := fresh "H" in
                       destruct (Hok i ltac:(lia)) as [v H]; rewrite H; clear H ]
           end.
Qed.

End HWAddrFacts.

Section HWAddrWitness.
Import Go HWAddr.

Lemma deviceNextInterfaceHWAddr_address_witness :
  deviceNextInterfaceHWAddr (fun i => Ok (Z.of_nat i + 9)) = Ok "00:16:3e:9a:bc:de".
Proof.
  refine (proj1 (deviceNextInterfaceHWAddr_address (fun i => Ok (Z.of_nat i + 9))
                   9 10 11 12 13 14 eq_refl eq_refl eq_refl eq_refl eq_refl eq_refl _)).
  repeat constructor; lia.
Defined.

End HWAddrWitness.
